(** * FogResolve(AI): scene transitions, ambient audio and bubble interaction

    A shallow embedding of the application logic of the FogResolve(AI)
    narrative (the [AudioManager] class, [expandBubble] with its call-to-action
    handler, the [TRANSITIONS] table, [runSceneTransition] and the
    [openSceneN] functions), together with the properties of its
    specification.

    Conventions of the embedding.
    - The program is single threaded; every function is a state transformer
      on a [World]: the audio manager, the part of the document the program
      reads back (the scene container's class list, the bubble elements and
      their data attributes), the pending timers and a trace of the calls
      made to the playback device and of the control-flow milestones.
    - Time is an integer number of milliseconds.  [setTimeout] and
      [setInterval] register a [Timer]; [fire] runs the earliest pending
      timer and [advance] runs every timer that is due up to a given instant.
      Closures are defunctionalised: a [Callback] constructor per function
      literal handed to a timer, carrying the variables it captured.
    - A JavaScript number that holds a volume is a rational ([Q]) in the
      [World]: rounding of doubles is not modelled there, and a write to
      [volume] is a plain write.  Where the last bit decides, at the end
      value of a fade, the expression of the code is also evaluated in
      binary64 ([fadeToLevelDouble], [fadeOutDouble]).
    - An [Audio] element is stored by value where the program stores its
      reference (it never shares one) and carries the identity [aid] it got
      when it was constructed.  [play()] is taken to succeed.
    - Inline styles, CSS animations and the decorative tree, fog and crow
      elements are outside the model, and so are timers whose callback only
      touches them.
    - The blossom rain of scene 8 ([js/blossomRain.js]) and the hover
      listener of the epsilon bubble keep their state in closures of their
      own; each is embedded as a state machine of its own (the modules
      [BlossomRain] and [EpsilonHover]) whose inputs are the calls of its
      interface and the callbacks the host delivers. *)

From Stdlib Require Import Floats ZArith QArith Lia Ascii String.
From stdpp Require Import base tactics option list gmap strings fin_maps.

Local Open Scope Z_scope.

(** ** Audio elements *)

Record Audio := mkAudio {
  aid : nat;          (* identity of the element *)
  src : string;
  volume : Q;
  looping : bool;     (* the [loop] attribute *)
  muted : bool;
  paused : bool
}.

Definition withVolume (v : Q) (a : Audio) : Audio :=
  mkAudio (aid a) (src a) v (looping a) (muted a) (paused a).

Definition withMuted (m : bool) (a : Audio) : Audio :=
  mkAudio (aid a) (src a) (volume a) (looping a) m (paused a).

Definition withPaused (p : bool) (a : Audio) : Audio :=
  mkAudio (aid a) (src a) (volume a) (looping a) (muted a) p.

(** The per-persona one-shot fields of the audio manager
    ([introAudio], [copilotAudio], ..., [tobias2Audio]). *)
Inductive Track :=
| Intro | Copilot | Chat1 | Chat2 | WatIsAI | Geneve | PaulBlok | Michiel
| Joey | Kathleen | Marieke | RronNushi | Rawaz | Tobias1 | Tobias2.

#[global] Instance Track_eq_dec : EqDecision Track.
Proof. solve_decision. Defined.

Definition allTracks : list Track :=
  [Intro; Copilot; Chat1; Chat2; WatIsAI; Geneve; PaulBlok; Michiel;
   Joey; Kathleen; Marieke; RronNushi; Rawaz; Tobias1; Tobias2].

Definition trackFile (tr : Track) : string :=
  match tr with
  | Intro => "assets/audio/Intro.mp3"
  | Copilot => "assets/audio/Copilot.mp3"
  | Chat1 => "assets/audio/Chat1.mp3"
  | Chat2 => "assets/audio/Chat2.mp3"
  | WatIsAI => "assets/audio/WatisAI.mp3"
  | Geneve => "assets/audio/Geneve Angelista.mp3"
  | PaulBlok => "assets/audio/Paul Blok.mp3"
  | Michiel => "assets/audio/Michiel Bernsen.mp3"
  | Joey => "assets/audio/Joey.mp3"
  | Kathleen => "assets/audio/Kathleen van Dam.mp3"
  | Marieke => "assets/audio/MariekeMol.mp3"
  | RronNushi => "assets/audio/RronNushi.mp3"
  | Rawaz => "assets/audio/RawazTahir.mp3"
  | Tobias1 => "assets/audio/Tobias1.mp3"
  | Tobias2 => "assets/audio/Tobias2.mp3"
  end.

Record AudioManager := mkAudioManager {
  ambientLayers : gmap string Audio;
  audioEnabled : bool;
  audioInitialized : bool;
  pendingSceneAudio : option Z;
  transitionAudio : option Audio;
  oneShot : Track -> option Audio;
  crowSoundTimeout : option nat;
  birdLayers : gmap string Audio
}.

(** ** The document *)

(** The [.bubble-content] subtree of a bubble: the number of its
    [.sentence] elements and whether it holds the [#bubble-cta] button. *)
Record Content := mkContent {
  sentences : nat;
  hasCta : bool
}.

Record Bubble := mkBubble {
  classes : list string;
  dataScene2 : bool;
  dataScene4 : bool;
  dataScene6 : bool;
  dataScene8 : bool;
  dataTemplate : option string;
  content : option Content;
  innerCard : bool;                 (* content sits in a [.bubble-inner-card] *)
  ctaText : option string;          (* text of the call-to-action, once set *)
  dynamicBubbleSize : option Z;     (* [--dynamic-bubble-size], in px *)
  attached : bool;                  (* the element is in the document *)
  onAnimationEnd : bool             (* a once-listener for [animationend] *)
}.

Record Document := mkDocument {
  fogScene : option (list string);        (* class list of [#fog-scene] *)
  elems : list Bubble;                    (* bubble elements, by identity *)
  bubbleTemplates : gmap string Content;  (* content templates, by id *)
  scene2Template : option (list Bubble);  (* bubbles of [#scene-2-template] *)
  populated : list Z                      (* title scenes appended so far *)
}.

(** The variables captured by the call-to-action handler that
    [expandBubble] registers. *)
Record Expansion := mkExpansion {
  xBubble : nat;
  xSentences : nat;       (* length of the [sentences] node list *)
  xSentenceCount : nat;
  xTotalPages : nat;
  xCurrentPage : nat;
  xCta : bool             (* the handler sits on a call-to-action that exists *)
}.

(** ** Trace *)

Inductive Event :=
| EvNewAudio (a : nat) (file : string)
| EvPlay (a : nat)
| EvPause (a : nat)
| EvRewind (a : nat)                 (* [currentTime = 0] *)
| EvRunTransition (key : string)
| EvOnStart (key : string)
| EvOnComplete (key : string)
| EvOpenScene (n : Z)
| EvPopulate (n : Z)
| EvShowPage (b : nat) (page shown : nat)
| EvSentence (b : nat) (index : nat)
| EvBlossomDestroy
| EvWarn (msg : string).

#[global] Instance Event_eq_dec : EqDecision Event.
Proof. solve_decision. Defined.

(** ** Timers *)

Inductive Callback :=
| CbFadeToLevel (startVolumes : gmap string Q) (targetLevel : Q) (step : nat)
| CbFadeOut (startVolumes : gmap string Q) (step : nat)
| CbFadeIn (targetVolumes : gmap string Q) (step : nat)
| CbScene9FadeOut (startVolumes : gmap string Q) (fadeInDuration : Z) (step : nat)
| CbBirdFadeIn (step : nat)
| CbCrow
| CbAmbientFor (key : string)
| CbOnComplete (key : string)
| CbPopulate (n : Z)
| CbSizeApply (b : nat)
| CbBackground (b : nat)
| CbBackgroundApply (b : nat)
| CbReveal (b x : nat)
| CbShowContent (b shown : nat)
| CbAnimateSentences (b shown : nat)
| CbSentence (b index : nat)
| CbRemoveBubble (sceneNo : Z) (b : nat)
| CbCheckRemaining (sceneNo : Z)
| CbSpawnFallback (clone : nat)
| CbAmbientScene2
| CbFadeInLater (duration : Z).

Record Timer := mkTimer {
  tid : nat;
  due : Z;
  period : option Z;    (* [Some p] for [setInterval] *)
  cb : Callback
}.

Record World := mkWorld {
  now : Z;
  nextTid : nat;
  timers : list Timer;
  nextAid : nat;
  am : AudioManager;
  doc : Document;
  expansions : list Expansion;
  log : list (Z * Event)     (* newest first *)
}.

(** ** State updates *)

Definition setNow (t : Z) (w : World) : World :=
  mkWorld t (nextTid w) (timers w) (nextAid w) (am w) (doc w) (expansions w) (log w).

Definition setTimers (ts : list Timer) (w : World) : World :=
  mkWorld (now w) (nextTid w) ts (nextAid w) (am w) (doc w) (expansions w) (log w).

Definition setAm (a : AudioManager) (w : World) : World :=
  mkWorld (now w) (nextTid w) (timers w) (nextAid w) a (doc w) (expansions w) (log w).

Definition setDoc (d : Document) (w : World) : World :=
  mkWorld (now w) (nextTid w) (timers w) (nextAid w) (am w) d (expansions w) (log w).

Definition setExpansions (xs : list Expansion) (w : World) : World :=
  mkWorld (now w) (nextTid w) (timers w) (nextAid w) (am w) (doc w) xs (log w).

Definition emit (e : Event) (w : World) : World :=
  mkWorld (now w) (nextTid w) (timers w) (nextAid w) (am w) (doc w) (expansions w)
          ((now w, e) :: log w).

Definition emits (es : list Event) (w : World) : World :=
  foldl (fun w e => emit e w) w es.

Definition setLayers (m : gmap string Audio) (a : AudioManager) : AudioManager :=
  mkAudioManager m (audioEnabled a) (audioInitialized a) (pendingSceneAudio a)
    (transitionAudio a) (oneShot a) (crowSoundTimeout a) (birdLayers a).

Definition setInitialized (b : bool) (a : AudioManager) : AudioManager :=
  mkAudioManager (ambientLayers a) (audioEnabled a) b (pendingSceneAudio a)
    (transitionAudio a) (oneShot a) (crowSoundTimeout a) (birdLayers a).

Definition setPending (p : option Z) (a : AudioManager) : AudioManager :=
  mkAudioManager (ambientLayers a) (audioEnabled a) (audioInitialized a) p
    (transitionAudio a) (oneShot a) (crowSoundTimeout a) (birdLayers a).

Definition setTransitionAudio (t : option Audio) (a : AudioManager) : AudioManager :=
  mkAudioManager (ambientLayers a) (audioEnabled a) (audioInitialized a)
    (pendingSceneAudio a) t (oneShot a) (crowSoundTimeout a) (birdLayers a).

Definition setOneShot (tr : Track) (o : option Audio) (a : AudioManager) : AudioManager :=
  mkAudioManager (ambientLayers a) (audioEnabled a) (audioInitialized a)
    (pendingSceneAudio a) (transitionAudio a)
    (fun t => if decide (t = tr) then o else oneShot a t)
    (crowSoundTimeout a) (birdLayers a).

Definition setCrowSoundTimeout (c : option nat) (a : AudioManager) : AudioManager :=
  mkAudioManager (ambientLayers a) (audioEnabled a) (audioInitialized a)
    (pendingSceneAudio a) (transitionAudio a) (oneShot a) c (birdLayers a).

Definition setBirdLayers (m : gmap string Audio) (a : AudioManager) : AudioManager :=
  mkAudioManager (ambientLayers a) (audioEnabled a) (audioInitialized a)
    (pendingSceneAudio a) (transitionAudio a) (oneShot a) (crowSoundTimeout a) m.

(** ** The scheduler interface used by the program *)

(** [setTimeout(c, delay)]; the identifier it returns is [nextTid w]. *)
Definition setTimeout (c : Callback) (delay : Z) (w : World) : World :=
  mkWorld (now w) (S (nextTid w))
          (timers w ++ [mkTimer (nextTid w) (now w + Z.max 0 delay) None c])
          (nextAid w) (am w) (doc w) (expansions w) (log w).

(** [setInterval(c, delay)]. *)
Definition setInterval (c : Callback) (delay : Z) (w : World) : World :=
  mkWorld (now w) (S (nextTid w))
          (timers w ++ [mkTimer (nextTid w) (now w + Z.max 0 delay)
                                (Some (Z.max 0 delay)) c])
          (nextAid w) (am w) (doc w) (expansions w) (log w).

(** [clearTimeout(id)] from outside the timer's own callback. *)
Definition clearTimer (id : nat) (w : World) : World :=
  setTimers (filter (fun t => tid t <> id) (timers w)) w.

(** ** Playback device *)

(** [new Audio(file)] followed by the assignments of [volume], [loop] and
    [muted] that the program makes before it uses the element. *)
Definition newAudio (file : string) (v : Q) (lp mt : bool) (w : World) : Audio * World :=
  (mkAudio (nextAid w) file v lp mt true,
   emit (EvNewAudio (nextAid w) file)
     (mkWorld (now w) (nextTid w) (timers w) (S (nextAid w)) (am w) (doc w)
              (expansions w) (log w))).

(** [audio.play()]. *)
Definition playAudio (a : Audio) (w : World) : Audio * World :=
  (withPaused false a, emit (EvPlay (aid a)) w).

(** [audio.pause(); audio.currentTime = 0]. *)
Definition haltAudio (a : Audio) (w : World) : Audio * World :=
  (withPaused true a, emit (EvRewind (aid a)) (emit (EvPause (aid a)) w)).

(** The device calls of a [forEach] over a layer map, one list per layer. *)
Definition emitEach (f : Audio -> list Event) (m : gmap string Audio) (w : World) : World :=
  foldl (fun w ka => emits (f (snd ka)) w) w (map_to_list m).

(** ** AudioManager: ambient layers *)

Record LayerCfg := mkLayer {
  layerId : string;
  layerFile : string;
  layerVolume : Q
}.

Definition earlySceneAudio : list LayerCfg :=
  [mkLayer "frogs" "frogs.mp3" (1 # 4);
   mkLayer "night" "night.mp3" (1 # 4);
   mkLayer "insects" "insects.mp3" (1 # 2)].

Definition lateSceneAudio : list LayerCfg :=
  [mkLayer "frogs" "frogs.mp3" (1 # 4);
   mkLayer "night" "night.mp3" (1 # 2);
   mkLayer "insects" "insects.mp3" (1 # 4)].

Definition sceneConfig (sceneNum : Z) : option (list LayerCfg) :=
  if decide (sceneNum = 1) then Some earlySceneAudio
  else if decide (sceneNum = 2) then Some earlySceneAudio
  else if decide (sceneNum = 3) then Some lateSceneAudio
  else if decide (sceneNum = 4) then Some lateSceneAudio
  else if decide (sceneNum = 5) then Some lateSceneAudio
  else None.

(** Body of the [forEach] of the "layers already exist" branch:
    [const audio = this.ambientLayers.get(layer.id); if (audio) audio.volume = layer.volume]. *)
Definition retargetLayer (m : gmap string Audio) (layer : LayerCfg) : gmap string Audio :=
  alter (withVolume (layerVolume layer)) (layerId layer) m.

(** Body of the [forEach] of the "first time" branch. *)
Definition startLayer (w : World) (layer : LayerCfg) : World :=
  let '(a, w1) := newAudio ("assets/audio/" +:+ layerFile layer)
                           (layerVolume layer) true true w in
  let '(a, w2) := playAudio a w1 in
  setAm (setLayers (<[layerId layer := a]> (ambientLayers (am w2))) (am w2)) w2.

Definition playAmbient (sceneNum : Z) (w : World) : World :=
  if negb (audioInitialized (am w)) && bool_decide (sceneNum = 1)
  then setAm (setPending (Some sceneNum) (am w)) w
  else if negb (audioEnabled (am w)) then w
  else match sceneConfig sceneNum with
       | None => w
       | Some config =>
           if bool_decide (size (ambientLayers (am w)) <> 0%nat)
           then setAm (setLayers (foldl retargetLayer (ambientLayers (am w)) config)
                                 (am w)) w
           else foldl startLayer w config
       end.

(** [init()]; the once-listener it installs calls [unmuteAudio] on the
    first click anywhere in the document. *)
Definition init (w : World) : World :=
  playAmbient 1 (setAm (setInitialized true (am w)) w).

Definition unmuteAudio (w : World) : World :=
  let m := ambientLayers (am w) in
  let w1 := emitEach (fun a => if paused a then [EvPlay (aid a)] else []) m w in
  setAm (setLayers ((fun a => if paused a then withPaused false (withMuted false a)
                              else withMuted false a) <$> m) (am w1)) w1.

(** ** AudioManager: transition sound, pop sound, one-shot tracks *)

Definition stopTransition (w : World) : World :=
  match transitionAudio (am w) with
  | Some a => let '(_, w1) := haltAudio a w in
              setAm (setTransitionAudio None (am w1)) w1
  | None => w
  end.

Definition playTransition (audioFile : string) (lp : bool) (v : Q) (w : World) : World :=
  if negb (audioEnabled (am w)) then w
  else
    let w0 := stopTransition w in
    let '(a, w1) := newAudio ("assets/audio/" +:+ audioFile) v lp false w0 in
    let '(a, w2) := playAudio a w1 in
    if lp then setAm (setTransitionAudio (Some a) (am w2)) w2 else w2.

(** [playTransition()] with its default arguments. *)
Definition playTransitionDefault : World -> World :=
  playTransition "Swoosh.wav" false (7 # 10).

Definition playPopSound (w : World) : World :=
  if negb (audioEnabled (am w)) then w
  else
    let '(a, w1) := newAudio "assets/audio/BubblePopRev.wav" (3 # 5) false false w in
    snd (playAudio a w1).

(** [playIntroAudio], [playCopilotAudio], ..., [playTobias2Audio]: the
    fifteen methods differ in the field and the file only. *)
Definition playTrack (tr : Track) (w : World) : World :=
  if negb (audioEnabled (am w)) then w
  else
    let w0 := match oneShot (am w) tr with
              | Some old => snd (haltAudio old w)
              | None => w
              end in
    let '(a, w1) := newAudio (trackFile tr) (1 # 2) false false w0 in
    let '(a, w2) := playAudio a w1 in
    setAm (setOneShot tr (Some a) (am w2)) w2.

(** [stopIntroAudio], ..., [stopTobias2Audio]. *)
Definition stopTrack (tr : Track) (w : World) : World :=
  match oneShot (am w) tr with
  | Some a => let '(_, w1) := haltAudio a w in
              setAm (setOneShot tr None (am w1)) w1
  | None => w
  end.

Definition playCrowSound (w : World) : World :=
  if negb (audioEnabled (am w)) then w
  else
    let '(a, w1) := newAudio "assets/audio/crow-sfx-318131.mp3" (1 # 2) false false w in
    snd (playAudio a w1).

Definition cancelCrowSound (w : World) : World :=
  match crowSoundTimeout (am w) with
  | Some id => let w1 := clearTimer id w in
               setAm (setCrowSoundTimeout None (am w1)) w1
  | None => w
  end.

(** ** AudioManager: volume envelopes *)

Definition steps : nat := 50.

(** [duration / steps]: the delay handed to [setInterval].  The host
    converts a timer delay to an integer number of milliseconds; the quotient
    is exact for every duration the program passes (500, 600, 800, 1500). *)
Definition stepDuration (duration : Z) : Z := duration / Z.of_nat steps.

(** [step / steps] *)
Definition progressOf (step : nat) : Q := Z.of_nat step # 50.

(** [layers.forEach((audio, id) => audio.volume = f(id))], where [f] reads a
    captured map; no write is made for an id the captured map lacks. *)
Definition writeVolumes (f : Q -> Q) (captured : gmap string Q)
    (m : gmap string Audio) : gmap string Audio :=
  map_imap (fun id a => Some (match captured !! id with
                              | Some s => withVolume (f s) a
                              | None => a
                              end)) m.

Definition forAmbient (f : gmap string Audio -> gmap string Audio) (w : World) : World :=
  setAm (setLayers (f (ambientLayers (am w))) (am w)) w.

Definition forBirds (f : gmap string Audio -> gmap string Audio) (w : World) : World :=
  setAm (setBirdLayers (f (birdLayers (am w))) (am w)) w.

(** [audio.pause(); audio.currentTime = 0] on every layer. *)
Definition haltLayers (w : World) : World :=
  forAmbient (fmap (withPaused true))
    (emitEach (fun a => [EvPause (aid a); EvRewind (aid a)]) (ambientLayers (am w)) w).

Definition fadeAmbientToLevel (targetLevel : Q) (duration : Z) (w : World) : World :=
  if bool_decide (size (ambientLayers (am w)) = 0%nat) then w
  else setInterval (CbFadeToLevel (volume <$> ambientLayers (am w)) targetLevel 0)
                   (stepDuration duration) w.

Definition fadeOutAmbient (duration : Z) (w : World) : World :=
  if bool_decide (size (ambientLayers (am w)) = 0%nat) then w
  else setInterval (CbFadeOut (volume <$> ambientLayers (am w)) 0)
                   (stepDuration duration) w.

Definition fadeInAmbient (duration : Z) (w : World) : World :=
  if bool_decide (size (ambientLayers (am w)) = 0%nat) then w
  else setInterval (CbFadeIn (volume <$> ambientLayers (am w)) 0)
                   (stepDuration duration)
                   (forAmbient (fmap (withVolume 0%Q)) w).

(** The interval callbacks.  Each returns the world after the tick and the
    closure for the next tick, or [None] when it called [clearInterval] on
    its own timer. *)

Definition tickFadeToLevel (sv : gmap string Q) (targetLevel : Q) (step : nat)
    (w : World) : World * option Callback :=
  let step' := S step in
  let progress := progressOf step' in
  let w1 := forAmbient (writeVolumes (fun startVol =>
                          (startVol * (1 - progress * (1 - targetLevel)))%Q) sv) w in
  if bool_decide (steps <= step')%nat then (w1, None)
  else (w1, Some (CbFadeToLevel sv targetLevel step')).

Definition tickFadeOut (sv : gmap string Q) (step : nat)
    (w : World) : World * option Callback :=
  let step' := S step in
  let progress := progressOf step' in
  let w1 := forAmbient (writeVolumes (fun startVol => (startVol * (1 - progress))%Q) sv) w in
  if bool_decide (steps <= step')%nat then (haltLayers w1, None)
  else (w1, Some (CbFadeOut sv step')).

Definition tickFadeIn (tv : gmap string Q) (step : nat)
    (w : World) : World * option Callback :=
  let step' := S step in
  let progress := progressOf step' in
  let w1 := forAmbient (writeVolumes (fun targetVol => (targetVol * progress)%Q) tv) w in
  if bool_decide (steps <= step')%nat
  then (forAmbient (writeVolumes (fun targetVol => targetVol) tv) w1, None)
  else (w1, Some (CbFadeIn tv step')).

(** Scene 9 bird layers. *)
Definition birds : list LayerCfg :=
  [mkLayer "bird1" "Birdsong1.mp3" (3 # 5);
   mkLayer "bird2" "Birdsong2.mp3" (3 # 5)].

Definition startBird (w : World) (layer : LayerCfg) : World :=
  let '(a, w1) := newAudio ("assets/audio/" +:+ layerFile layer) 0%Q true false w in
  let '(a, w2) := playAudio a w1 in
  setAm (setBirdLayers (<[layerId layer := a]> (birdLayers (am w2))) (am w2)) w2.

(** Both bird fade-ins run the same tick: [target] is 0.6 for every id
    ([targetVolumes.get(id) || 0.6] over a map that holds 0.6 only). *)
Definition tickBirdFadeIn (step : nat) (w : World) : World * option Callback :=
  let step' := S step in
  let progress := progressOf step' in
  let w1 := forBirds (fmap (withVolume ((3 # 5) * progress)%Q)) w in
  if bool_decide (steps <= step')%nat
  then (forBirds (fmap (withVolume (3 # 5))) w1, None)
  else (w1, Some (CbBirdFadeIn step')).

Definition fadeInBirdAmbient (duration : Z) (w : World) : World :=
  if bool_decide (size (birdLayers (am w)) = 0%nat) then w
  else setInterval (CbBirdFadeIn 0) (stepDuration duration)
                   (forBirds (fmap (withVolume 0%Q)) w).

Definition tickScene9FadeOut (sv : gmap string Q) (fadeInDuration : Z) (step : nat)
    (w : World) : World * option Callback :=
  let step' := S step in
  let progress := progressOf step' in
  let w1 := forAmbient (writeVolumes (fun startVol => (startVol * (1 - progress))%Q) sv) w in
  if bool_decide (steps <= step')%nat
  then
    let w2 := forAmbient (fun _ => ∅) (haltLayers w1) in
    let w3 := foldl startBird w2 birds in
    (setInterval (CbBirdFadeIn 0) (stepDuration fadeInDuration) w3, None)
  else (w1, Some (CbScene9FadeOut sv fadeInDuration step')).

Definition switchToScene9Ambient (fadeOutDuration fadeInDuration : Z) (w : World) : World :=
  if bool_decide (size (ambientLayers (am w)) <> 0%nat)
  then setInterval (CbScene9FadeOut (volume <$> ambientLayers (am w)) fadeInDuration 0)
                   (stepDuration fadeOutDuration) w
  else fadeInBirdAmbient fadeInDuration (foldl startBird w birds).

(** ** Document updates *)

Definition setFogScene (s : option (list string)) (d : Document) : Document :=
  mkDocument s (elems d) (bubbleTemplates d) (scene2Template d) (populated d).

Definition setElems (l : list Bubble) (d : Document) : Document :=
  mkDocument (fogScene d) l (bubbleTemplates d) (scene2Template d) (populated d).

Definition setPopulated (l : list Z) (d : Document) : Document :=
  mkDocument (fogScene d) (elems d) (bubbleTemplates d) (scene2Template d) l.

Definition withClasses (l : list string) (b : Bubble) : Bubble :=
  mkBubble l (dataScene2 b) (dataScene4 b) (dataScene6 b) (dataScene8 b)
    (dataTemplate b) (content b) (innerCard b) (ctaText b) (dynamicBubbleSize b)
    (attached b) (onAnimationEnd b).

Definition withDataScene2 (v : bool) (b : Bubble) : Bubble :=
  mkBubble (classes b) v (dataScene4 b) (dataScene6 b) (dataScene8 b)
    (dataTemplate b) (content b) (innerCard b) (ctaText b) (dynamicBubbleSize b)
    (attached b) (onAnimationEnd b).

Definition withContent (c : option Content) (inner : bool) (b : Bubble) : Bubble :=
  mkBubble (classes b) (dataScene2 b) (dataScene4 b) (dataScene6 b) (dataScene8 b)
    (dataTemplate b) c inner (ctaText b) (dynamicBubbleSize b)
    (attached b) (onAnimationEnd b).

Definition withCtaText (t : option string) (b : Bubble) : Bubble :=
  mkBubble (classes b) (dataScene2 b) (dataScene4 b) (dataScene6 b) (dataScene8 b)
    (dataTemplate b) (content b) (innerCard b) t (dynamicBubbleSize b)
    (attached b) (onAnimationEnd b).

Definition withSize (s : option Z) (b : Bubble) : Bubble :=
  mkBubble (classes b) (dataScene2 b) (dataScene4 b) (dataScene6 b) (dataScene8 b)
    (dataTemplate b) (content b) (innerCard b) (ctaText b) s
    (attached b) (onAnimationEnd b).

Definition withAttached (v : bool) (b : Bubble) : Bubble :=
  mkBubble (classes b) (dataScene2 b) (dataScene4 b) (dataScene6 b) (dataScene8 b)
    (dataTemplate b) (content b) (innerCard b) (ctaText b) (dynamicBubbleSize b)
    v (onAnimationEnd b).

Definition withOnAnimationEnd (v : bool) (b : Bubble) : Bubble :=
  mkBubble (classes b) (dataScene2 b) (dataScene4 b) (dataScene6 b) (dataScene8 b)
    (dataTemplate b) (content b) (innerCard b) (ctaText b) (dynamicBubbleSize b)
    (attached b) v.

(** [classList.add], [classList.remove], [classList.contains]. *)
Definition classAdd (c : string) (l : list string) : list string :=
  if decide (c ∈ l) then l else l ++ [c].

Definition classRemove (c : string) (l : list string) : list string :=
  filter (fun x => x <> c) l.

Definition hasClass (c : string) (b : Bubble) : bool := bool_decide (c ∈ classes b).

Definition sceneAdd (c : string) (w : World) : World :=
  setDoc (setFogScene (classAdd c <$> fogScene (doc w)) (doc w)) w.

Definition sceneRemove (c : string) (w : World) : World :=
  setDoc (setFogScene (classRemove c <$> fogScene (doc w)) (doc w)) w.

Definition updElem (b : nat) (f : Bubble -> Bubble) (w : World) : World :=
  setDoc (setElems (alter f b (elems (doc w))) (doc w)) w.

Definition addElem (e : Bubble) (w : World) : World :=
  setDoc (setElems (elems (doc w) ++ [e]) (doc w)) w.

Definition bubbleAddClass (b : nat) (c : string) (w : World) : World :=
  updElem b (fun e => withClasses (classAdd c (classes e)) e) w.

Definition bubbleRemoveClass (b : nat) (c : string) (w : World) : World :=
  updElem b (fun e => withClasses (classRemove c (classes e)) e) w.

(** [bubble.dataset.sceneN === 'true'] for N in 2, 4, 6, 8. *)
Definition dataSceneOf (n : Z) (e : Bubble) : bool :=
  if decide (n = 2) then dataScene2 e
  else if decide (n = 4) then dataScene4 e
  else if decide (n = 6) then dataScene6 e
  else if decide (n = 8) then dataScene8 e
  else false.

(** [document.querySelectorAll('[data-sceneN="true"]').length] *)
Definition remaining (n : Z) (w : World) : nat :=
  length (filter (fun e => attached e && dataSceneOf n e = true) (elems (doc w))).

(** [scene.querySelectorAll('[data-sceneN="true"]').forEach(b => b.remove())] *)
Definition removeSceneBubbles (n : Z) (w : World) : World :=
  setDoc (setElems ((fun e => if dataSceneOf n e then withAttached false e else e)
                      <$> elems (doc w)) (doc w)) w.

(** ** Scene transitions *)

Record TransitionCfg := mkTransition {
  duration : Z;
  audioFadeOut : Z;
  audioFadeIn : Z
}.

(** The [TRANSITIONS] table; the [onStart] and [onComplete] members of an
    entry are the functions [onStart] and [onComplete] below.  The table is
    read at its own four keys only, the keys the program passes; what a
    lookup of a property the object literal inherits ("constructor",
    "toString", ...) would return is not modelled. *)
Definition TRANSITIONS (key : string) : option TransitionCfg :=
  if decide (key = "2-3") then Some (mkTransition 5500 500 300)
  else if decide (key = "4-5") then Some (mkTransition 5500 500 300)
  else if decide (key = "6-7") then Some (mkTransition 5500 500 300)
  else if decide (key = "8-9") then Some (mkTransition 6000 800 500)
  else None.

Definition onStart (key : string) (w : World) : World :=
  let w := emit (EvOnStart key) w in
  if decide (key = "2-3")
  then sceneRemove "scene-2" (sceneAdd "transitioning-2-3" w)
  else if decide (key = "4-5")
  then sceneRemove "scene-4" (sceneAdd "transitioning-4-5" w)
  else if decide (key = "6-7")
  then sceneRemove "scene-6" (sceneAdd "transitioning-6-7" w)
  else if decide (key = "8-9")
  then switchToScene9Ambient 1500 1500
         (sceneRemove "scene-8" (sceneAdd "transitioning-8-9" w))
  else w.

Definition onComplete (key : string) (w : World) : World :=
  let w := emit (EvOnComplete key) w in
  if decide (key = "2-3")
  then sceneAdd "scene-3" (sceneRemove "transitioning-2-3" w)
  else if decide (key = "4-5")
  then sceneAdd "scene-5" (sceneRemove "transitioning-4-5" w)
  else if decide (key = "6-7")
  then sceneAdd "scene-7" (sceneRemove "transitioning-6-7" w)
  else if decide (key = "8-9")
  then sceneAdd "scene-9" (sceneRemove "transitioning-8-9" w)
  else w.

(** [transitionKey === '2-3' || transitionKey === '4-5' || transitionKey === '6-7'] *)
Definition usesSteps (key : string) : bool :=
  bool_decide (key = "2-3") || bool_decide (key = "4-5") || bool_decide (key = "6-7").

(** [parseInt(transitionKey.split('-')[1])]: the decimal digits that open
    the text after the first dash; [None] stands for [NaN]. *)
Fixpoint afterDash (s : string) : option string :=
  match s with
  | EmptyString => None
  | String c r => if decide (c = "-"%char) then Some r else afterDash r
  end.

Definition digitOf (c : ascii) : option Z :=
  let n := Z.of_N (Ascii.N_of_ascii c) in
  if (48 <=? n) && (n <=? 57) then Some (n - 48) else None.

Fixpoint leadingDigits (s : string) (acc : option Z) : option Z :=
  match s with
  | EmptyString => acc
  | String c r => match digitOf c with
                  | Some d => leadingDigits r (Some (10 * default 0 acc + d))
                  | None => acc
                  end
  end.

Definition targetSceneOf (key : string) : option Z :=
  match afterDash key with
  | Some r => leadingDigits r None
  | None => None
  end.

Definition runSceneTransition (transitionKey : string) (w : World) : World :=
  match fogScene (doc w) with
  | None => emit (EvWarn "Scene container not found") w
  | Some _ =>
    match TRANSITIONS transitionKey with
    | None => emit (EvWarn ("Transition " +:+ transitionKey +:+ " not configured")) w
    | Some config =>
      let w := emit (EvRunTransition transitionKey) w in
      let w := if usesSteps transitionKey
               then fadeAmbientToLevel (1 # 2) (audioFadeOut config)
                      (playTransition "Steps.wav" true (3 # 5) w)
               else if bool_decide (transitionKey <> "3-4")
                    then playTransitionDefault w
                    else w in
      let w := onStart transitionKey w in
      let w := setTimeout (CbAmbientFor transitionKey) (audioFadeIn config) w in
      setTimeout (CbOnComplete transitionKey) (duration config) w
    end
  end.

(** The callback scheduled at [config.audioFadeIn]. *)
Definition ambientFor (key : string) (w : World) : World :=
  let w := match targetSceneOf key with
           | Some targetScene => playAmbient targetScene w
           | None => w
           end in
  if usesSteps key then fadeInAmbient 800 w else w.

(** The callback scheduled at [config.duration]. *)
Definition transitionDone (key : string) (w : World) : World :=
  let w := onComplete key w in
  if usesSteps key then stopTransition w else w.

(** [openScene3], [openScene5], [openScene7] and [openScene9]: the scene
    left is [from], the scene opened [from + 1]. *)
Definition transitionKeyFrom (from : Z) : string :=
  if decide (from = 2) then "2-3"
  else if decide (from = 4) then "4-5"
  else if decide (from = 6) then "6-7"
  else "8-9".

Definition openTitleScene (from : Z) (w : World) : World :=
  let w := emit (EvOpenScene (from + 1)) w in
  match fogScene (doc w) with
  | None => emit (EvWarn "Scene container not found") w
  | Some _ =>
    let w := removeSceneBubbles from w in
    let w := if decide (from = 8) then emit EvBlossomDestroy w else w in
    let w := runSceneTransition (transitionKeyFrom from) w in
    setTimeout (CbPopulate (from + 1))
               (from_option duration 0 (TRANSITIONS (transitionKeyFrom from))) w
  end.

Definition openScene3 : World -> World := openTitleScene 2.
Definition openScene5 : World -> World := openTitleScene 4.
Definition openScene7 : World -> World := openTitleScene 6.
Definition openScene9 : World -> World := openTitleScene 8.

(** The content of a title scene is cloned from a template of the page;
    the model records that it was appended. *)
Definition populate (n : Z) (w : World) : World :=
  emit (EvPopulate n) (setDoc (setPopulated (populated (doc w) ++ [n]) (doc w)) w).

(** ** Bubble expansion *)

(** [calculateBubbleSize], the arrow function local to [expandBubble]. *)
Definition calculateBubbleSize (sentenceCount : Z) : Z :=
  let baseSentences := 3 in
  let baseSize := 520 in
  let maxSentences := 5 in
  let growthPerSentence := 80 in
  let effectiveCount := Z.min sentenceCount maxSentences in
  if effectiveCount <=? baseSentences then baseSize
  else
    let extraSentences := effectiveCount - baseSentences in
    baseSize + extraSentences * growthPerSentence.

Definition sentencesPerPage : nat := 5.

(** [Math.ceil(sentenceCount / sentencesPerPage)] *)
Definition pagesOf (sentenceCount : nat) : nat :=
  ((sentenceCount + (sentencesPerPage - 1)) / sentencesPerPage)%nat.

Definition calculateSentenceDelay (count : nat) : Z :=
  if (count <=? 3)%nat then 5000
  else if (count <=? 6)%nat then 3000
  else if (count <=? 10)%nat then 2000
  else 1500.

(** Length of [Array.from(sentences).slice(startIndex, endIndex)] for the
    given page. *)
Definition pageLength (nodes sentenceCount page : nat) : nat :=
  let startIndex := ((page - 1) * sentencesPerPage)%nat in
  let endIndex := Nat.min (startIndex + sentencesPerPage) sentenceCount in
  (Nat.min endIndex nodes - startIndex)%nat.

(** [pageSentences.forEach((sentence, index) => setTimeout(..., index * sentenceDelay))] *)
Definition animateSentences (b shown : nat) (w : World) : World :=
  foldl (fun w index => setTimeout (CbSentence b index)
                          (Z.of_nat index * calculateSentenceDelay shown) w)
        w (seq 0 shown).

Definition showPageSentences (b nodes sentenceCount page : nat)
    (animateImmediately : bool) (w : World) : nat * World :=
  let shown := pageLength nodes sentenceCount page in
  let w := emit (EvShowPage b page shown) w in
  (shown, if animateImmediately then animateSentences b shown w else w).

(** The tracks started when a bubble's content is revealed, by class. *)
Definition revealTracks : list (string * Track) :=
  [("bubble-orbit-alpha", Copilot); ("bubble-orbit-beta", Chat1);
   ("bubble-orbit-gamma", WatIsAI); ("bubble-delta", Geneve);
   ("bubble-epsilon", PaulBlok); ("bubble-zeta", Michiel);
   ("bubble-eta", Joey); ("bubble-theta", Kathleen);
   ("bubble-iota", Marieke); ("bubble-kappa", RronNushi);
   ("bubble-lambda", Rawaz); ("bubble-tobias", Tobias1)].

(** [!bubble.dataset.scene2 && !bubble.dataset.scene4 && ...]: the first bubble. *)
Definition isFirstBubble (e : Bubble) : bool :=
  negb (dataScene2 e) && negb (dataScene4 e) && negb (dataScene6 e) && negb (dataScene8 e).

(** "Inject content structure NOW": when the bubble has no
    [.bubble-content], the first child of its template is cloned into a new
    [.bubble-inner-card]. *)
Definition injectContent (b : nat) (el : Bubble) (w : World) : World :=
  match content el with
  | Some _ => w
  | None =>
    match bubbleTemplates (doc w) !! default "bubble-template" (dataTemplate el) with
    | Some c => updElem b (withContent (Some c) true) w
    | None => w
    end
  end.

(** The rest of [expandBubble], from "Store dynamic size" on: [nodes] is
    [sentences.length] and [cta] tells whether [#bubble-cta] was found. *)
Definition mountExpansion (b nodes sentenceCount : nat) (cta : bool) (w : World) : World :=
  let bubbleSize := calculateBubbleSize (Z.of_nat sentenceCount) in
  let totalPages := pagesOf sentenceCount in
  let currentPage := 1%nat in
  let w := updElem b (withSize (Some bubbleSize)) w in
  let x := length (expansions w) in
  let w := setExpansions
             (expansions w ++ [mkExpansion b nodes sentenceCount totalPages currentPage cta])
             w in
  let w := if cta
           then updElem b (withCtaText (Some (if (1 <? totalPages)%nat
                                              then "Volgende" else "Pop!"))) w
           else w in
  let w := bubbleAddClass b "expanded" w in
  let w := sceneAdd "scene--zoom"
             (sceneAdd "scene--expanded" (sceneRemove "scene--zooming" w)) in
  let w := bubbleAddClass b "bubble-size-transition" w in
  let w := setTimeout (CbSizeApply b) 0 w in      (* requestAnimationFrame *)
  let w := setTimeout (CbBackground b) 1200 w in
  setTimeout (CbReveal b x) 2700 w.

Definition expandBubble (b : nat) (w : World) : World :=
  match elems (doc w) !! b with
  | None => w
  | Some el =>
    if hasClass "expanded" el then w
    else match fogScene (doc w) with
    | None => w
    | Some _ =>
      let w := cancelCrowSound w in
      let w := sceneAdd "scene--zooming" w in
      let w := injectContent b el w in
      let found := elems (doc w) !! b ≫= content in
      let nodes := from_option sentences 0%nat found in
      let sentenceCount := if decide (nodes = 0%nat) then 3%nat else nodes in
      mountExpansion b nodes sentenceCount (from_option hasCta false found) w
    end
  end.

(** Phase 2, at 1200 ms. *)
Definition backgroundPhase (b : nat) (w : World) : World :=
  setTimeout (CbBackgroundApply b) 50 (bubbleAddClass b "bubble-background-transition" w).

(** Phase 3, at 2700 ms. *)
Definition revealPhase (b x : nat) (w : World) : World :=
  match expansions w !! x with
  | None => w
  | Some e =>
    let '(shown, w) := showPageSentences b (xSentences e) (xSentenceCount e) 1 false w in
    setTimeout (CbShowContent b shown) 100 w
  end.

(** 100 ms into phase 3: the content container fades in and the bubble's
    audio starts. *)
Definition showContent (b shown : nat) (w : World) : World :=
  match elems (doc w) !! b with
  | None => w
  | Some el =>
    let w := bubbleAddClass b "bubble-show-content" w in
    let w := if isFirstBubble el then playTrack Intro w else w in
    let w := foldl (fun w ct => if hasClass (fst ct) el then playTrack (snd ct) w else w)
                   w revealTracks in
    setTimeout (CbAnimateSentences b shown) 1500 w
  end.

(** ** The call-to-action handler *)

Definition setCurrentPage (x page : nat) (w : World) : World :=
  setExpansions (alter (fun e => mkExpansion (xBubble e) (xSentences e) (xSentenceCount e)
                                   (xTotalPages e) page (xCta e)) x (expansions w)) w.

(** The handlers of a call-to-action that left the document can no longer
    be reached. *)
Definition dropCta (b : nat) (w : World) : World :=
  setExpansions ((fun e => if decide (xBubble e = b)
                           then mkExpansion (xBubble e) (xSentences e) (xSentenceCount e)
                                  (xTotalPages e) (xCurrentPage e) false
                           else e) <$> expansions w) w.

(** The branch shared by the bubbles of scenes 2, 4, 6 and 8: the bubble
    fades and is removed 300 ms later. *)
Definition popSceneBubble (n : Z) (b : nat) (w : World) : World :=
  let inner := from_option innerCard false (elems (doc w) !! b) in
  let w := if inner then dropCta b (updElem b (withContent None false) w) else w in
  let w := bubbleRemoveClass b "expanded" w in
  let w := sceneRemove "scene--zoom" (sceneRemove "scene--expanded" w) in
  setTimeout (CbRemoveBubble n b) 300 w.

Definition stopAllTracks (w : World) : World :=
  foldl (fun w tr => stopTrack tr w) w allTracks.

(** [spawnScene2], local to [openScene2]. *)
Definition fallbackBubble : Bubble :=
  mkBubble ["bubble"] true false false false None None false None None true false.

Definition spawnScene2 (w : World) : World :=
  let w := setDoc (setElems ((fun e => if hasClass "bubble" e
                                       then withAttached false e else e)
                               <$> elems (doc w)) (doc w)) w in
  let w := sceneAdd "scene-2" w in
  match scene2Template (doc w) with
  | Some newBubbles =>
      foldl (fun w e => addElem (withAttached true (withDataScene2 true e)) w) w newBubbles
  | None =>
      foldl (fun w _ => addElem fallbackBubble w) w (seq 0 3)
  end.

(** [openScene2(triggerBubble)] with a trigger bubble, as the handler calls it. *)
Definition openScene2 (triggerBubble : nat) (w : World) : World :=
  let w := emit (EvOpenScene 2) w in
  match fogScene (doc w) with
  | None => emit (EvWarn "Scene container not found") w
  | Some _ =>
    let w := playTransitionDefault w in
    let w := fadeOutAmbient 500 w in
    let w := sceneRemove "scene--zoom" w in
    match elems (doc w) !! triggerBubble with
    | None => w
    | Some el =>
      let clone := length (elems (doc w)) in
      let w := addElem (withOnAnimationEnd true
                          (withAttached true
                             (withCtaText None
                                (withContent None (innerCard el)
                                   (withClasses ["bubble"; "pop"] el))))) w in
      let w := updElem triggerBubble (withAttached false) w in
      setTimeout (CbSpawnFallback clone) 450 w
    end
  end.

(** What both the [animationend] listener and the 450 ms fallback do. *)
Definition afterPop (clone : nat) (w : World) : World :=
  let w := updElem clone (withAttached false) w in
  let w := spawnScene2 w in
  setTimeout CbAmbientScene2 550 w.

(** The browser's [animationend] event on the clone. *)
Definition animationEnd (clone : nat) (w : World) : World :=
  match elems (doc w) !! clone with
  | Some el =>
      if onAnimationEnd el && attached el
      then afterPop clone (updElem clone (withOnAnimationEnd false) w)
      else w
  | None => w
  end.

Definition spawnFallback (clone : nat) (w : World) : World :=
  match elems (doc w) !! clone with
  | Some el => if attached el then afterPop clone w else w
  | None => w
  end.

Definition ambientScene2 (w : World) : World :=
  setTimeout (CbFadeInLater 600) 100 (unmuteAudio (playAmbient 2 w)).

Definition ctaHandler (x : nat) (w : World) : World :=
  match expansions w !! x with
  | None => w
  | Some e =>
    let b := xBubble e in
    match elems (doc w) !! b with
    | None => w
    | Some el =>
      if (xCurrentPage e <? xTotalPages e)%nat
      then
        (* pagination: more pages exist *)
        let currentPage := S (xCurrentPage e) in
        let w := setCurrentPage x currentPage w in
        let w := snd (showPageSentences b (xSentences e) (xSentenceCount e)
                                        currentPage true w) in
        let w := if hasClass "bubble-orbit-beta" el && bool_decide (currentPage = 2%nat)
                 then playTrack Chat2 (stopTrack Chat1 w) else w in
        let w := if hasClass "bubble-tobias" el && bool_decide (currentPage = 2%nat)
                 then playTrack Tobias2 (stopTrack Tobias1 w) else w in
        if bool_decide (currentPage = xTotalPages e)
        then updElem b (withCtaText (Some "Pop!")) w
        else w
      else
        let w := playPopSound w in
        let w := stopAllTracks w in
        if dataScene2 el then popSceneBubble 2 b w
        else if dataScene4 el then popSceneBubble 4 b w
        else if dataScene6 el then popSceneBubble 6 b w
        else if dataScene8 el then popSceneBubble 8 b w
        else openScene2 b w
    end
  end.

(** A click on the call-to-action of bubble [b]: every handler registered
    on it runs, in registration order. *)
Definition ctaClick (b : nat) (w : World) : World :=
  foldl (fun w x => match expansions w !! x with
                    | Some e => if xCta e && bool_decide (xBubble e = b)
                                then ctaHandler x w else w
                    | None => w
                    end)
        w (seq 0 (length (expansions w))).

(** The callbacks scheduled 300 ms after a pop. *)
Definition openNext (n : Z) (w : World) : World :=
  if bool_decide (remaining n w = 0%nat) then openTitleScene n w else w.

Definition removeBubble (n : Z) (b : nat) (w : World) : World :=
  let w := updElem b (withAttached false) w in
  if decide (n = 2) then openNext 2 w
  else setTimeout (CbCheckRemaining n) 50 w.

(** ** The scheduler *)

Definition runCallback (c : Callback) (w : World) : World * option Callback :=
  match c with
  | CbFadeToLevel sv l s => tickFadeToLevel sv l s w
  | CbFadeOut sv s => tickFadeOut sv s w
  | CbFadeIn tv s => tickFadeIn tv s w
  | CbScene9FadeOut sv d s => tickScene9FadeOut sv d s w
  | CbBirdFadeIn s => tickBirdFadeIn s w
  | CbCrow => (setAm (setCrowSoundTimeout None (am (playCrowSound w))) (playCrowSound w), None)
  | CbAmbientFor key => (ambientFor key w, None)
  | CbOnComplete key => (transitionDone key w, None)
  | CbPopulate n => (populate n w, None)
  | CbSizeApply b => (bubbleAddClass b "bubble-size-apply" w, None)
  | CbBackground b => (backgroundPhase b w, None)
  | CbBackgroundApply b => (bubbleAddClass b "bubble-background-apply" w, None)
  | CbReveal b x => (revealPhase b x w, None)
  | CbShowContent b shown => (showContent b shown w, None)
  | CbAnimateSentences b shown => (animateSentences b shown w, None)
  | CbSentence b index => (emit (EvSentence b index) w, None)
  | CbRemoveBubble n b => (removeBubble n b w, None)
  | CbCheckRemaining n => (openNext n w, None)
  | CbSpawnFallback clone => (spawnFallback clone w, None)
  | CbAmbientScene2 => (ambientScene2 w, None)
  | CbFadeInLater d => (fadeInAmbient d w, None)
  end.

(** The pending timer that runs next: the earliest one, and among equals
    the one that was registered first. *)
Fixpoint earliestFrom (i : nat) (best : nat * Timer) (ts : list Timer) : nat * Timer :=
  match ts with
  | [] => best
  | t :: r => earliestFrom (S i) (if due t <? due (snd best) then (i, t) else best) r
  end.

Definition earliest (ts : list Timer) : option (nat * Timer) :=
  match ts with
  | [] => None
  | t :: r => Some (earliestFrom 1 (0%nat, t) r)
  end.

(** The next timer leaves the queue and the clock moves to its due time. *)
Definition dequeue (i : nat) (t : Timer) (w : World) : World :=
  setTimers (delete i (timers w)) (setNow (Z.max (now w) (due t)) w).

(** After the callback ran, an interval is armed again unless the
    callback cleared it; a timeout is gone. *)
Definition rearm (t : Timer) (r : World * option Callback) : World :=
  match r.2, period t with
  | Some c', Some p =>
      setTimers (timers r.1 ++ [mkTimer (tid t) (due t + p) (Some p) c']) r.1
  | _, _ => r.1
  end.

(** Run the next timer. *)
Definition fire (w : World) : World :=
  match earliest (timers w) with
  | None => w
  | Some (i, t) => rearm t (runCallback (cb t) (dequeue i t w))
  end.

(** An upper bound on the number of timers a pending callback can still
    cause to run; it decreases with every [fire]. *)
Definition ticksLeft (step : nat) : nat := S (49 - step).

Definition weight (c : Callback) : nat :=
  match c with
  | CbFadeToLevel _ _ s | CbFadeOut _ s | CbFadeIn _ s | CbBirdFadeIn s => ticksLeft s
  | CbScene9FadeOut _ _ s => ticksLeft s + 50
  | CbCrow | CbOnComplete _ | CbPopulate _ | CbSizeApply _
  | CbBackgroundApply _ | CbSentence _ _ => 1
  | CbBackground _ => 2
  | CbAmbientFor _ => 51
  | CbAnimateSentences _ shown => S shown
  | CbShowContent _ shown => S (S shown)
  | CbReveal _ _ => 8
  | CbFadeInLater _ => 51
  | CbAmbientScene2 => 52
  | CbSpawnFallback _ => 53
  | CbCheckRemaining _ => 204
  | CbRemoveBubble _ _ => 205
  end.

Definition pendingWeight (ts : list Timer) : nat :=
  foldr (fun t n => (weight (cb t) + n)%nat) 0%nat ts.

Definition settle (t : Z) (w : World) : World := setNow (Z.max (now w) t) w.

Fixpoint advanceFuel (fuel : nat) (t : Z) (w : World) : World :=
  match fuel with
  | O => settle t w
  | S fuel' =>
      match earliest (timers w) with
      | Some (_, tm) => if due tm <=? t then advanceFuel fuel' t (fire w) else settle t w
      | None => settle t w
      end
  end.

(** Let the clock run to instant [t]: every timer due by then fires, in
    order, including the timers registered on the way. *)
Definition advance (t : Z) (w : World) : World :=
  advanceFuel (pendingWeight (timers w)) t w.

(** Let [d] milliseconds pass. *)
Definition wait (d : Z) (w : World) : World := advance (now w + d) w.

(** ** Initial states *)

(** The audio manager as its constructor leaves it. *)
Definition newAudioManager : AudioManager :=
  mkAudioManager ∅ true false None None (fun _ => None) None ∅.

(** A page with the scene container and the given bubbles and templates,
    before any script ran. *)
Definition pageWith (sceneClasses : list string) (bs : list Bubble)
    (tpls : gmap string Content) (tpl2 : option (list Bubble)) : World :=
  mkWorld 0 0 [] 0 newAudioManager
          (mkDocument (Some sceneClasses) bs tpls tpl2 []) [] [].

(** ** Vocabulary of the properties *)

(** The [.bubble-content] that [expandBubble] finds in a bubble: its own,
    or else the one cloned from the bubble's content template. *)
Definition contentAtExpansion (w : World) (el : Bubble) : option Content :=
  match content el with
  | Some c => Some c
  | None => bubbleTemplates (doc w) !! default "bubble-template" (dataTemplate el)
  end.

(** ** Sample pages *)

(** A scene-2 bubble whose markup holds the call-to-action but no
    [.sentence] element. *)
Definition wordlessBubble : Bubble :=
  mkBubble ["bubble"] true false false false None
           (Some (mkContent 0 true)) false None None true false.

Definition wordlessPage : World := pageWith ["scene-2"] [wordlessBubble] ∅ None.

(** [a'] is the element [a], with at most its volume set anew: the same
    identity, source and playback state. *)
Definition retargeted (a a' : Audio) : Prop :=
  aid a' = aid a /\ src a' = src a /\ looping a' = looping a
  /\ muted a' = muted a /\ paused a' = paused a.

(** Scene 1 once [init] ran and started its ambient layers. *)
Definition scene1Page : World := init (pageWith ["scene"] [] ∅ None).

(** ** Effects of an operation

    [does E C K w w'] summarises what an operation that takes [w] to [w']
    may have done besides updating the audio manager and the document: the
    clock stands still, the scene container is neither created nor removed,
    the trace grows by events in [E] stamped with the current time, and the
    pending timers are kept and followed by new ones in [C] of total weight
    at most [K]. *)

Inductive logGrows (E : Event -> Prop) (t : Z) (l0 : list (Z * Event))
  : list (Z * Event) -> Prop :=
| logGrows_refl : logGrows E t l0 l0
| logGrows_cons e l : logGrows E t l0 l -> E e -> logGrows E t l0 ((t, e) :: l).

Inductive timersGrow (C : Callback -> Prop) (l0 : list Timer)
  : list Timer -> nat -> Prop :=
| timersGrow_refl : timersGrow C l0 l0 0
| timersGrow_snoc l k t :
    timersGrow C l0 l k -> C (cb t) -> timersGrow C l0 (l ++ [t]) (k + weight (cb t)).

Definition scenePresent (w : World) : bool :=
  match fogScene (doc w) with Some _ => true | None => false end.

Definition does (E : Event -> Prop) (C : Callback -> Prop) (K : nat) (w w' : World) : Prop :=
  now w' = now w
  /\ scenePresent w' = scenePresent w
  /\ logGrows E (now w) (log w) (log w')
  /\ exists k, timersGrow C (timers w) (timers w') k /\ (k <= K)%nat.

(** The calls to the playback device. *)
Definition deviceEvent (e : Event) : Prop :=
  match e with
  | EvNewAudio _ _ | EvPlay _ | EvPause _ | EvRewind _ => True
  | _ => False
  end.

(** Weight of the closure an interval callback hands back, if any. *)
Definition weightOpt (k : option Callback) : nat := from_option weight 0%nat k.

(** ** Counting in traces and timer queues *)

Fixpoint count {A} (p : A -> bool) (l : list A) : nat :=
  match l with
  | [] => 0
  | x :: r => ((if p x then 1 else 0) + count p r)%nat
  end.

(** How often the trace records that [onComplete] of transition [key] ran. *)
Definition completions (key : string) (l : list (Z * Event)) : nat :=
  count (fun te => bool_decide (te.2 = EvOnComplete key)) l.

(** How often a run of a transition started. *)
Definition transitionRuns (l : list (Z * Event)) : nat :=
  count (fun te => match te.2 with EvRunTransition _ => true | _ => false end) l.

(** How often a title scene was requested ([openScene3], 5, 7 or 9). *)
Definition advanceRequests (l : list (Z * Event)) : nat :=
  count (fun te => match te.2 with EvOpenScene _ => true | _ => false end) l.

Definition isOnCompleteCb (c : Callback) : bool :=
  match c with CbOnComplete _ => true | _ => false end.

(** The transitions in flight: the pending [onComplete] callbacks. *)
Definition pendingCompletions (ts : list Timer) : nat :=
  count (fun tm => isOnCompleteCb (cb tm)) ts.

(** A callback that neither completes a transition nor can start one. *)
Definition calm (c : Callback) : Prop :=
  match c with
  | CbOnComplete _ | CbRemoveBubble _ _ | CbCheckRemaining _ => False
  | _ => True
  end.

Definition notComplete (e : Event) : Prop :=
  match e with EvOnComplete _ => False | _ => True end.

(** The invariant of a single run of transition [key] whose [onComplete]
    is due at [D], while the clock runs to [t]: [l0] is the trace before
    the run and [base] its number of completions. *)
Definition completing (key : string) (D t : Z) (base : nat) (l0 : list (Z * Event))
    (w : World) : Prop :=
  Forall (fun tm => calm (cb tm) \/ (cb tm = CbOnComplete key /\ due tm = D)) (timers w)
  /\ (pendingCompletions (timers w) + completions key (log w) = base + 1)%nat
  /\ (base <= completions key (log w))%nat
  /\ (forall t', (t', EvOnComplete key) ∈ log w -> (t', EvOnComplete key) ∈ l0 \/ t' = D)
  /\ (pendingCompletions (timers w) <> 0%nat -> now w <= D)
  /\ (pendingCompletions (timers w) = 0%nat -> D <= t).

(** Scene 2 with the scene-1 ambient layers playing and nothing pending. *)
Definition scene2Page : World := init (pageWith ["scene"; "scene-2"] [] ∅ None).

(** A callback that does not touch the ambient layers, and whose
    timers do not either. *)
Definition isInert (c : Callback) : bool :=
  match c with
  | CbBirdFadeIn _ | CbCrow | CbOnComplete _ | CbPopulate _ | CbSizeApply _
  | CbBackground _ | CbBackgroundApply _ | CbReveal _ _ | CbShowContent _ _
  | CbAnimateSentences _ _ | CbSentence _ _ => true
  | _ => false
  end.

(** The invariant of one envelope running alone on the ambient layers:
    [mk s] is its closure after [s] ticks, [stateAt s] the layers then,
    [T0] the instant it was started and [p] its step; the clock runs to [t]. *)
Definition fading (mk : nat -> Callback) (stateAt : nat -> gmap string Audio)
    (T0 p t : Z) (w : World) : Prop :=
  exists s : nat,
    (s <= 50)%nat
    /\ ambientLayers (am w) = stateAt s
    /\ Forall (fun tm => isInert (cb tm) = true
                         \/ (cb tm = mk s /\ due tm = T0 + Z.of_nat (S s) * p
                             /\ period tm = Some p)) (timers w)
    /\ count (fun tm => negb (isInert (cb tm))) (timers w)
       = (if (s <? 50)%nat then 1 else 0)%nat
    /\ ((0 < s)%nat -> T0 + Z.of_nat s * p <= t).

(** The layers [s] ticks into an envelope that started on the layers
    [base] and writes volume [f s v] at tick [s] to a layer that started at
    [v]; a fade-out ([halts]) pauses the layers with its last tick. *)
Definition envelopeAt (f : nat -> Q -> Q) (halts : bool) (base : gmap string Audio)
    (s : nat) : gmap string Audio :=
  if decide (s = 0%nat) then base
  else
    let m := writeVolumes (f s) (volume <$> base) base in
    if halts && bool_decide (steps <= s)%nat then withPaused true <$> m else m.

(** The volume ramps of [fadeAmbientToLevel] and [fadeOutAmbient]. *)
Definition rampToLevel (level : Q) (s : nat) (startVol : Q) : Q :=
  (startVol * (1 - progressOf s * (1 - level)))%Q.

Definition rampOut (s : nat) (startVol : Q) : Q :=
  (startVol * (1 - progressOf s))%Q.

(** Scene 1 with a single ambient layer, "frogs", playing at volume 0.5. *)
Definition frogsOnly : World :=
  mkWorld 0 0 [] 1
    (mkAudioManager {["frogs" := mkAudio 0 "assets/audio/frogs.mp3" (1 # 2) true false false]}
       true true None None (fun _ => None) None ∅)
    (mkDocument (Some ["scene"]) [] ∅ None []) [] [].

(** The envelopes that write the volume of the ambient layers. *)
Definition isAmbientEnvelope (c : Callback) : bool :=
  match c with
  | CbFadeToLevel _ _ _ | CbFadeOut _ _ | CbFadeIn _ _ | CbScene9FadeOut _ _ _ => true
  | _ => false
  end.

Definition ambientEnvelopes (ts : list Timer) : nat :=
  count (fun tm => isAmbientEnvelope (cb tm)) ts.

(** The volume of an ambient layer, in lowest terms. *)
Definition volumeOf (id : string) (w : World) : option Q :=
  (fun a => Qred (volume a)) <$> ambientLayers (am w) !! id.

(** The timer a fade registers on a world with ambient layers. *)
Definition envelopeTimer (c : Callback) (d : Z) (w : World) : list Timer :=
  if bool_decide (size (ambientLayers (am w)) = 0%nat) then []
  else [mkTimer (nextTid w) (now w + Z.max 0 (stepDuration d))
                (Some (Z.max 0 (stepDuration d))) c].

(** The timer an interval leaves behind when its callback ran as step
    [S s]: itself, one period later and with the next closure, unless that
    was the last step and the callback cleared it. *)
Definition rearmed (tm : Timer) (p : Z) (s : nat) (next : Callback) : list Timer :=
  if (S s <? 50)%nat then [mkTimer (tid tm) (due tm + p) (Some p) next] else [].

(** [audio.pause()] or [audio.currentTime = 0]. *)
Definition isHalt (e : Event) : Prop :=
  match e with
  | EvPause _ | EvRewind _ => True
  | _ => False
  end.

(** The invariant of the trace of a fade-out that captured [sv] at [T0]
    with step [p], as far as the element [n] of layer [id] goes: [l0] is
    the trace at [T0], and [alone] tells that no other timer is pending. *)
Definition haltingOut (sv : gmap string Q) (id : string) (n : nat) (T0 p t : Z)
    (l0 : list (Z * Event)) (alone : bool) (w : World) : Prop :=
  exists s : nat,
    (s <= 50)%nat
    /\ (exists a1, ambientLayers (am w) !! id = Some a1 /\ aid a1 = n)
    /\ Forall (fun tm => isInert (cb tm) = true
                         \/ (cb tm = CbFadeOut sv s /\ due tm = T0 + Z.of_nat (S s) * p
                             /\ period tm = Some p)) (timers w)
    /\ count (fun tm => negb (isInert (cb tm))) (timers w)
       = (if (s <? 50)%nat then 1 else 0)%nat
    /\ ((s < 50)%nat -> now w <= T0 + Z.of_nat (S s) * p)
    /\ ((0 < s)%nat -> T0 + Z.of_nat s * p <= t)
    /\ (s = 50%nat -> (T0 + 50 * p, EvPause n) ∈ log w
                      /\ (T0 + 50 * p, EvRewind n) ∈ log w)
    /\ (alone = true ->
        Forall (fun tm => isInert (cb tm) = false) (timers w)
        /\ exists new, log w = new ++ l0
             /\ Forall (fun te => te.1 = T0 + 50 * p /\ isHalt te.2) new
             /\ ((s < 50)%nat -> new = [])).

(** The counter of an envelope, [step++] from 0, as the double the code
    holds. *)
Fixpoint stepDouble (step : nat) : float :=
  match step with
  | O => 0%float
  | S n => (stepDouble n + 1)%float
  end.

(** The volume [fadeAmbientToLevel] writes at a step, evaluated as the
    code evaluates it, in binary64. *)
Definition fadeToLevelDouble (startVol targetLevel : float) (step : nat) : float :=
  let progress := (stepDouble step / 50)%float in
  (startVol * (1 - progress * (1 - targetLevel)))%float.

(** The same for [fadeOutAmbient]. *)
Definition fadeOutDouble (startVol : float) (step : nat) : float :=
  let progress := (stepDouble step / 50)%float in
  (startVol * (1 - progress))%float.

(** The 2-3 transition, 300 ms in: its fade to 50% is 30 steps old and its
    fade-in has just been started by the timeout at [audioFadeIn]. *)
Definition midTransition : World := advance 300 (runSceneTransition "2-3" scene2Page).

(** How often the start phase of a transition ran. *)
Definition phaseStarts (l : list (Z * Event)) : nat :=
  count (fun te => match te.2 with EvOnStart _ => true | _ => false end) l.

(** The 2-3 transition 100 ms in, and a second run requested then. *)
Definition inFlight : World := advance 100 (runSceneTransition "2-3" scene2Page).
Definition secondRun : World := runSceneTransition "2-3" inFlight.

(** The one-shot tracks that the handlers of a bubble start: the intro of
    the first bubble, the track of its class when its content is revealed,
    and the second-page tracks of the beta and tobias bubbles. *)
Definition boundTracks (el : Bubble) : list Track :=
  (if isFirstBubble el then [Intro] else [])
  ++ omap (fun ct : string * Track => if hasClass ct.1 el then Some ct.2 else None) revealTracks
  ++ (if hasClass "bubble-orbit-beta" el then [Chat2] else [])
  ++ (if hasClass "bubble-tobias" el then [Tobias2] else []).

(** The track's element is held by the manager and is not paused. *)
Definition playing (tr : Track) (w : World) : bool :=
  match oneShot (am w) tr with
  | Some a => negb (paused a)
  | None => false
  end.

(** Between [w] and [w'] the track [tr] was started: the manager holds a
    new element for its file, playing, and the device was asked to create
    and to play it at the instant of [w]. *)
Definition startedTrack (tr : Track) (w w' : World) : Prop :=
  exists a, oneShot (am w') tr = Some a
    /\ src a = trackFile tr /\ paused a = false /\ (nextAid w <= aid a)%nat
    /\ (now w, EvNewAudio (aid a) (trackFile tr)) ∈ log w'
    /\ (now w, EvPlay (aid a)) ∈ log w'.

(** How often the pop effect was played. *)
Definition popEffects (l : list (Z * Event)) : nat :=
  count (fun te => match te.2 with
                   | EvNewAudio _ f => bool_decide (f = "assets/audio/BubblePopRev.wav")
                   | _ => false
                   end) l.

(** The bubbles removed from the document so far. *)
Definition detached (w : World) : nat :=
  count (fun e => negb (attached e)) (elems (doc w)).

(** Scene 4 with its delta and epsilon bubbles, three sentences each. *)
Definition deltaBubble : Bubble :=
  mkBubble ["bubble"; "bubble-delta"] false true false false None
           (Some (mkContent 3 true)) false None None true false.

Definition epsilonBubble : Bubble :=
  mkBubble ["bubble"; "bubble-epsilon"] false true false false None
           (Some (mkContent 3 true)) false None None true false.

Definition scene4Page : World :=
  init (pageWith ["scene"; "scene-4"] [deltaBubble; epsilonBubble] ∅ None).

(** Both bubbles were opened, three seconds apart, and show their content. *)
Definition bothRevealed : World :=
  wait 3000 (expandBubble 1 (wait 3000 (expandBubble 0 scene4Page))).

(** Scene 2 with the beta bubble, seven sentences on two pages, opened
    and showing its first page. *)
Definition betaBubble : Bubble :=
  mkBubble ["bubble"; "bubble-orbit-beta"] true false false false None
           (Some (mkContent 7 true)) false None None true false.

Definition betaRevealed : World :=
  wait 3000 (expandBubble 0 (init (pageWith ["scene"; "scene-2"] [betaBubble] ∅ None))).

(** What a press of the call-to-action before the last page may record:
    the page shown and the device calls of the tracks, the pop effect
    excluded. *)
Definition paging (e : Event) : Prop :=
  match e with
  | EvShowPage _ _ _ | EvPlay _ | EvPause _ | EvRewind _ => True
  | EvNewAudio _ f => f <> "assets/audio/BubblePopRev.wav"
  | _ => False
  end.

Definition isSentenceCb (c : Callback) : Prop :=
  match c with CbSentence _ _ => True | _ => False end.

(** A callback that neither removes a bubble nor brings new ones in, and
    so cannot open a scene. *)
Definition staying (c : Callback) : Prop :=
  match c with
  | CbRemoveBubble _ _ | CbCheckRemaining _ | CbSpawnFallback _ => False
  | _ => True
  end.

Definition notAdvancing (e : Event) : Prop :=
  match e with EvOpenScene _ | EvRunTransition _ => False | _ => True end.

(** What [remaining 2] reads of the elements: attached, and of scene 2. *)
Definition flags (w : World) : list (bool * bool) :=
  (fun e => (attached e, dataScene2 e)) <$> elems (doc w).

Definition isRemovalCb (c : Callback) : bool :=
  match c with CbRemoveBubble _ _ => true | _ => false end.

Definition removals (ts : list Timer) : nat := count (fun tm => isRemovalCb (cb tm)) ts.

(** A timeout with callback [c] is pending, due at [d]. *)
Definition pendingAt (d : Z) (c : Callback) (ts : list Timer) : Prop :=
  exists tm, tm ∈ ts /\ due tm = d /\ cb tm = c /\ period tm = None.

(** What [openScene3], 5, 7 or 9, called at [D] to leave scene [from],
    has scheduled: the ambience of the next scene at [audioFadeIn], the
    completion of the transition and the content of the title scene at
    [duration]. *)
Definition transitionPending (from : Z) (D : Z) (ts : list Timer) : Prop :=
  match TRANSITIONS (transitionKeyFrom from) with
  | Some cfg =>
      pendingAt (D + audioFadeIn cfg) (CbAmbientFor (transitionKeyFrom from)) ts
      /\ pendingAt (D + duration cfg) (CbOnComplete (transitionKeyFrom from)) ts
      /\ pendingAt (D + duration cfg) (CbPopulate (from + 1)) ts
  | None => False
  end.

(** Between the press that pops scene-2 bubble [b] and its removal at
    [D]: the elements are as [F] has them, nothing was requested beyond
    the [a0] scenes and [t0] transitions of before, and the removal is the
    only timer that can change that. *)
Definition popping (b : nat) (D : Z) (F : list (bool * bool)) (a0 t0 : nat)
    (w : World) : Prop :=
  scenePresent w = true /\ flags w = F
  /\ advanceRequests (log w) = a0 /\ transitionRuns (log w) = t0
  /\ Forall (fun tm => staying (cb tm) \/ (cb tm = CbRemoveBubble 2 b /\ due tm = D)) (timers w)
  /\ removals (timers w) = 1%nat
  /\ now w <= D.

(** After the removal at [D], which left [r] bubbles in scene 2. *)
Definition popped (D : Z) (r a1 t1 : nat) (last : bool) (w : World) : Prop :=
  scenePresent w = true /\ remaining 2 w = r
  /\ advanceRequests (log w) = a1 /\ transitionRuns (log w) = t1
  /\ Forall (fun tm => staying (cb tm)) (timers w)
  /\ (last = true -> (D, EvOpenScene 3) ∈ log w /\ (D, EvRunTransition "2-3") ∈ log w
                     /\ transitionPending 2 D (timers w)).

(** Scene 2 with its three bubbles; the beta bubble has two pages. *)
Definition alphaBubble : Bubble :=
  mkBubble ["bubble"; "bubble-orbit-alpha"] true false false false None
           (Some (mkContent 3 true)) false None None true false.

Definition gammaBubble : Bubble :=
  mkBubble ["bubble"; "bubble-orbit-gamma"] true false false false None
           (Some (mkContent 4 true)) false None None true false.

Definition scene2Bubbles : World :=
  init (pageWith ["scene"; "scene-2"] [alphaBubble; betaBubble; gammaBubble] ∅ None).

(** Open bubble [b], read it for a while, press its call-to-action once
    per page, and let the 300 ms of the removal pass. *)
Definition alphaPopped : World :=
  wait 300 (ctaClick 0 (wait 4000 (expandBubble 0 scene2Bubbles))).

Definition betaPopped : World :=
  wait 300 (ctaClick 1 (wait 2500 (ctaClick 1 (wait 4000 (expandBubble 1 alphaPopped))))).

Definition gammaOpen : World := wait 4000 (expandBubble 2 betaPopped).

Definition gammaPopped : World := wait 300 (ctaClick 2 gammaOpen).

(** ** The crow of scene 1 *)

(** [audioManager.crowSoundTimeout = setTimeout(() => { playCrowSound();
    crowSoundTimeout = null }, 1000)]: the assignment the landing screen's
    handler makes once the screen is removed. *)
Definition scheduleCrow (w : World) : World :=
  let id := nextTid w in
  let w := setTimeout CbCrow 1000 w in
  setAm (setCrowSoundTimeout (Some id) (am w)) w.

Definition isCrowCb (c : Callback) : bool :=
  match c with CbCrow => true | _ => false end.

(** The crow sounds played so far. *)
Definition crowSounds (l : list (Z * Event)) : nat :=
  count (fun te => match te.2 with
                   | EvNewAudio _ f => bool_decide (f = "assets/audio/crow-sfx-318131.mp3")
                   | _ => false
                   end) l.

(** The volume ramp of [fadeInAmbient]: linear up to the last step, which
    writes the captured target itself. *)
Definition rampIn (s : nat) : Q -> Q :=
  if bool_decide (steps <= s)%nat then (fun targetVol => targetVol)
  else (fun targetVol => (targetVol * progressOf s)%Q).

(** The layers [s] ticks into a fade-in that captured the layers [base]. *)
Definition fadeInAt (base : gmap string Audio) (s : nat) : gmap string Audio :=
  if decide (s = 0%nat) then withVolume 0%Q <$> base
  else writeVolumes (rampIn s) (volume <$> base) base.

(** The sentences shown on pages 1 to [k] of a bubble with [n] sentences. *)
Definition shownUpTo (n k : nat) : nat :=
  foldr (fun page acc => (pageLength n n page + acc)%nat) 0%nat (seq 1 k).

(** An expansion turned to another page. *)
Definition onPage (page : nat) (e : Expansion) : Expansion :=
  mkExpansion (xBubble e) (xSentences e) (xSentenceCount e) (xTotalPages e) page (xCta e).

(** The scenes a configured transition leads from and to, with the class
    names its two phases use. *)
Definition transitionClasses : list (string * (string * string * string)) :=
  [("2-3", ("scene-2", "transitioning-2-3", "scene-3"));
   ("4-5", ("scene-4", "transitioning-4-5", "scene-5"));
   ("6-7", ("scene-6", "transitioning-6-7", "scene-7"));
   ("8-9", ("scene-8", "transitioning-8-9", "scene-9"))].

(** The class list of the scene container, empty when it is missing. *)
Definition sceneClasses (w : World) : list string := default [] (fogScene (doc w)).

(** [w'] differs from [w] in its trace at most. *)
Definition untouched (w w' : World) : Prop :=
  timers w' = timers w /\ am w' = am w /\ doc w' = doc w
  /\ expansions w' = expansions w /\ nextAid w' = nextAid w.

(** A page that lacks the scene container: the wordless bubble alone. *)
Definition containerless : World :=
  mkWorld 0 0 [] 0 newAudioManager (mkDocument None [wordlessBubble] ∅ None []) [] [].

(** The number of bubbles [spawnScene2] brings in: those of the template,
    or the three it creates itself. *)
Definition scene2Size (w : World) : nat :=
  match scene2Template (doc w) with
  | Some newBubbles => length newBubbles
  | None => 3%nat
  end.

(** The first bubble of scene 1, opened and on its only page. *)
Definition firstBubble : Bubble :=
  mkBubble ["bubble"; "bubble-first"] false false false false None
           (Some (mkContent 3 true)) false None None true false.

Definition firstRevealed : World :=
  wait 3000 (expandBubble 0
               (init (pageWith ["scene"] [firstBubble] ∅
                               (Some [alphaBubble; betaBubble; gammaBubble])))).

(** ** The blossom rain of scene 8 ([js/blossomRain.js]) *)

(** The script keeps its state in the variables of its closure; what it
    reads of the host stands next to them: the containers that are in the
    document, the petals each one holds, the promises of [loadBlossomSVG]
    that are not settled and the clean-up timeouts that have not fired.
    The place, size, rotation and keyframes of a petal are inline style.
    The host delivers its callbacks in any order it likes: an [Input] is a
    call of the public interface or one callback delivered by the host.
    A timer id is a positive number, so a stored id is never falsy, and
    [animate] is taken not to throw. *)
Module BlossomRain.

(** What a call of [loadBlossomSVG] waits for: nothing when the text was
    there at the call, the answer of [fetch] otherwise. *)
Inductive Load := Cached | Fetching.

Record State := mkState {
  hasFogScene : bool;               (* the document has [#fog-scene] *)
  sceneEl : bool;                   (* [sceneEl] is not null *)
  container : option nat;
  running : bool;
  spawnIntervalId : option nat;
  petalsActive : list nat;          (* a [Set], in insertion order *)
  blossomSvgText : option string;
  nextId : nat;                     (* identities of elements and timers *)
  inDocument : list nat;            (* the containers that have a parent node *)
  children : list (nat * nat);      (* petals in a container: (petal, container) *)
  fadingChildren : list nat;        (* petals under the second fade of [destroyBlossomRain] *)
  pendingLoads : list Load;
  pendingCleanups : nat
}.

Definition maxPetals : Z := 90.

(** [Set.prototype.add] and [Set.prototype.delete]. *)
Definition setAdd (x : nat) (l : list nat) : list nat :=
  if decide (x ∈ l) then l else l ++ [x].

Definition setDelete (x : nat) (l : list nat) : list nat :=
  filter (fun y => y <> x) l.

(** A string is truthy unless it is empty. *)
Definition truthy (t : option string) : bool :=
  match t with
  | Some s => bool_decide (s <> EmptyString)
  | None => false
  end.

(** The synchronous part of [loadBlossomSVG()]. *)
Definition loadBlossomSVG (s : State) : State :=
  mkState (hasFogScene s) (sceneEl s) (container s) (running s) (spawnIntervalId s)
          (petalsActive s) (blossomSvgText s) (nextId s) (inDocument s) (children s)
          (fadingChildren s)
          (pendingLoads s ++ [if truthy (blossomSvgText s) then Cached else Fetching])
          (pendingCleanups s).

Definition spawnPetal (s : State) : State :=
  match container s with
  | Some c =>
      if negb (running s) then s
      else if maxPetals <=? Z.of_nat (length (petalsActive s)) then s
      else
        let petal := nextId s in
        mkState (hasFogScene s) (sceneEl s) (container s) (running s) (spawnIntervalId s)
                (setAdd petal (petalsActive s)) (blossomSvgText s) (S (nextId s))
                (inDocument s) (children s ++ [(petal, c)]) (fadingChildren s)
                (pendingLoads s) (pendingCleanups s)
  | None => s
  end.

(** [anim.onfinish] of a petal, and the [onfinish] of the fade that
    [destroyBlossomRain] starts on an active petal. *)
Definition finishPetal (petal : nat) (s : State) : State :=
  mkState (hasFogScene s) (sceneEl s) (container s) (running s) (spawnIntervalId s)
          (setDelete petal (petalsActive s)) (blossomSvgText s) (nextId s)
          (inDocument s) (filter (fun pc => pc.1 <> petal) (children s))
          (fadingChildren s) (pendingLoads s) (pendingCleanups s).

(** The [onfinish] of the fade that [destroyBlossomRain] starts on a child
    of the container. *)
Definition fadeChild (petal : nat) (s : State) : State :=
  if decide (petal ∈ fadingChildren s)
  then mkState (hasFogScene s) (sceneEl s) (container s) (running s) (spawnIntervalId s)
               (petalsActive s) (blossomSvgText s) (nextId s)
               (inDocument s) (filter (fun pc => pc.1 <> petal) (children s))
               (filter (fun p => p <> petal) (fadingChildren s))
               (pendingLoads s) (pendingCleanups s)
  else s.

(** The number of petals one tick of the spawner asks for. *)
Definition toSpawn (s : State) : nat :=
  let deficit := Z.max 0 (maxPetals - Z.of_nat (length (petalsActive s))) in
  if 60 <? deficit then 3%nat else if 30 <? deficit then 2%nat else 1%nat.

(** The callback of the interval of [startSpawner]. *)
Definition spawnTick (s : State) : State := Nat.iter (toSpawn s) spawnPetal s.

Definition startSpawner (s : State) : State :=
  match spawnIntervalId s with
  | Some _ => s
  | None =>
      mkState (hasFogScene s) (sceneEl s) (container s) (running s) (Some (nextId s))
              (petalsActive s) (blossomSvgText s) (S (nextId s)) (inDocument s)
              (children s) (fadingChildren s) (pendingLoads s) (pendingCleanups s)
  end.

Definition stopSpawner (s : State) : State :=
  match spawnIntervalId s with
  | Some _ =>
      mkState (hasFogScene s) (sceneEl s) (container s) (running s) None
              (petalsActive s) (blossomSvgText s) (nextId s) (inDocument s)
              (children s) (fadingChildren s) (pendingLoads s) (pendingCleanups s)
  | None => s
  end.

Definition initBlossomRainForScene8 (s : State) : State :=
  if running s then s
  else if negb (hasFogScene s)
  then mkState (hasFogScene s) false (container s) (running s) (spawnIntervalId s)
               (petalsActive s) (blossomSvgText s) (nextId s) (inDocument s)
               (children s) (fadingChildren s) (pendingLoads s) (pendingCleanups s)
  else
    let c := nextId s in
    loadBlossomSVG
      (mkState (hasFogScene s) true (Some c) true (spawnIntervalId s)
               (petalsActive s) (blossomSvgText s) (S (nextId s)) (inDocument s ++ [c])
               (children s) (fadingChildren s) (pendingLoads s) (pendingCleanups s)).

(** The promise [i] of [loadBlossomSVG] settles: with the text that was
    there, with the text fetched ([Some txt]), or with a failure of
    [fetch] ([None]), which is logged. *)
Definition settleLoad (i : nat) (result : option string) (s : State) : State :=
  let settled (t : option string) :=
    mkState (hasFogScene s) (sceneEl s) (container s) (running s) (spawnIntervalId s)
            (petalsActive s) t (nextId s) (inDocument s) (children s)
            (fadingChildren s) (delete i (pendingLoads s)) (pendingCleanups s) in
  match pendingLoads s !! i with
  | Some Cached => startSpawner (settled (blossomSvgText s))
  | Some Fetching =>
      match result with
      | Some txt => startSpawner (settled (Some txt))
      | None => settled (blossomSvgText s)
      end
  | None => s
  end.

Definition destroyBlossomRain (s : State) : State :=
  let s := mkState (hasFogScene s) (sceneEl s) (container s) false (spawnIntervalId s)
                   (petalsActive s) (blossomSvgText s) (nextId s) (inDocument s)
                   (children s) (fadingChildren s) (pendingLoads s) (pendingCleanups s) in
  let s := stopSpawner s in
  let kids := match container s with
              | Some c => (filter (fun pc => pc.2 = c) (children s)).*1
              | None => []
              end in
  mkState (hasFogScene s) (sceneEl s) (container s) (running s) (spawnIntervalId s)
          (petalsActive s) (blossomSvgText s) (nextId s) (inDocument s)
          (children s) (fadingChildren s ++ kids) (pendingLoads s)
          (S (pendingCleanups s)).

(** The timeout of [destroyBlossomRain], 650 ms after the call. *)
Definition cleanup (s : State) : State :=
  match pendingCleanups s with
  | O => s
  | S n =>
      mkState (hasFogScene s) false None (running s) (spawnIntervalId s)
              (petalsActive s) (blossomSvgText s) (nextId s)
              (match container s with
               | Some c => filter (fun x => x <> c) (inDocument s)
               | None => inDocument s
               end)
              (children s) (fadingChildren s) (pendingLoads s) n
  end.

Inductive Input :=
| Init
| Destroy
| Settle (i : nat) (result : option string)
| Tick (id : nat)
| Finish (petal : nat)
| FadeChild (petal : nat)
| Cleanup.

Definition step (e : Input) (s : State) : State :=
  match e with
  | Init => initBlossomRainForScene8 s
  | Destroy => destroyBlossomRain s
  | Settle i result => settleLoad i result s
  | Tick id => if decide (spawnIntervalId s = Some id) then spawnTick s else s
  | Finish petal => finishPetal petal s
  | FadeChild petal => fadeChild petal s
  | Cleanup => cleanup s
  end.

Definition run (es : list Input) (s : State) : State :=
  foldl (fun s e => step e s) s es.

(** The state when the script has been loaded. *)
Definition initial (scene : bool) : State :=
  mkState scene false None false None [] None 1 [] [] [] [] 0.

(** A rain that was started, loaded its petal and ticked twice. *)
Definition raining : State :=
  run [Init; Settle 0 (Some "<svg/>"%string); Tick 2; Tick 2] (initial true).

End BlossomRain.

(** What holds of every state the script reaches: the spawner is started
    only by a load that succeeded, a load that did not have to fetch
    found the text, and every petal in a container is an active one. *)
Definition rainInvariant (s : BlossomRain.State) : Prop :=
  (BlossomRain.spawnIntervalId s <> None -> BlossomRain.blossomSvgText s <> None)
  /\ (BlossomRain.Cached ∈ BlossomRain.pendingLoads s -> BlossomRain.blossomSvgText s <> None)
  /\ (forall pc, pc ∈ BlossomRain.children s -> pc.1 ∈ BlossomRain.petalsActive s).

(** ** The epsilon bubble ([attachBubbleHandler]) *)

(** The [mouseenter] listener that [attachBubbleHandler] gives a
    [.bubble-epsilon], with the two variables of its closure and the
    inline style it writes; [top] and [left] are percentages.  The host
    tells the listener the instant and whether the bubble has the class
    [expanded]; it runs a pending timeout once its delay has passed.
    [moves] is the trace of the moves made, newest first. *)
Module EpsilonHover.

Record State := mkState {
  moveStep : Z;
  isTransitioning : bool;
  styleTop : option Z;
  styleLeft : option Z;
  styleAnimation : option string;
  styleTransition : option string;
  timeouts : list Z;                 (* due instants, oldest first *)
  moves : list (Z * (Z * Z))         (* (instant, (top, left)), newest first *)
}.

Definition moveTo (t : Z) (n y x : Z) (s : State) : State :=
  mkState n true (Some y) (Some x) (Some "none"%string)
          (Some ("top 0.6s cubic-bezier(.25,.46,.45,.94), "
                 +:+ "left 0.6s cubic-bezier(.25,.46,.45,.94), transform 0.3s ease")%string)
          (timeouts s ++ [t + 650]) ((t, (y, x)) :: moves s).

Definition mouseenter (t : Z) (expanded : bool) (s : State) : State :=
  if negb expanded && negb (isTransitioning s)
  then if decide (moveStep s = 0) then moveTo t 1 85 15 s
       else if decide (moveStep s = 1) then moveTo t 2 15 15 s
       else if decide (moveStep s = 2) then moveTo t 3 50 50 s
       else s
  else s.

(** The callback of the 650 ms timeout. *)
Definition settled (s : State) : State :=
  mkState (moveStep s) false (styleTop s) (styleLeft s)
          (Some "epsilon-wobble 4.5s ease-in-out infinite"%string) (Some "none"%string)
          (timeouts s) (moves s).

Inductive Input :=
| MouseEnter (t : Z) (expanded : bool)
| Timeout (t : Z).

Definition instant (e : Input) : Z :=
  match e with MouseEnter t _ => t | Timeout t => t end.

Definition step (e : Input) (s : State) : State :=
  match e with
  | MouseEnter t expanded => mouseenter t expanded s
  | Timeout t =>
      match timeouts s with
      | due :: rest =>
          if due <=? t
          then settled (mkState (moveStep s) (isTransitioning s) (styleTop s) (styleLeft s)
                                (styleAnimation s) (styleTransition s) rest (moves s))
          else s
      | [] => s
      end
  end.

Definition run (es : list Input) (s : State) : State :=
  foldl (fun s e => step e s) s es.

Definition initial : State := mkState 0 false None None None None [] [].

(** The corners the bubble flees to, and the centre where it gives in. *)
Definition route : list (Z * Z) := [(85, 15); (15, 15); (50, 50)].

(** The inputs come in the order of their instants, none before [t0]. *)
Fixpoint chronological (t0 : Z) (es : list Input) : Prop :=
  match es with
  | [] => True
  | e :: r => t0 <= instant e /\ chronological (instant e) r
  end.

(** Instants, newest first, that are at least 650 ms apart. *)
Fixpoint spaced (l : list Z) : Prop :=
  match l with
  | later :: r => match r with
                  | earlier :: _ => earlier + 650 <= later
                  | [] => True
                  end /\ spaced r
  | [] => True
  end.

End EpsilonHover.

(** What holds of the listener after the inputs up to the instant [T]. *)
Definition hoverInvariant (T : Z) (s : EpsilonHover.State) : Prop :=
  0 <= EpsilonHover.moveStep s <= 3
  /\ reverse (EpsilonHover.moves s).*2
     = take (Z.to_nat (EpsilonHover.moveStep s)) EpsilonHover.route
  /\ (EpsilonHover.styleTop s, EpsilonHover.styleLeft s)
     = match EpsilonHover.moves s with
       | (_, (y, x)) :: _ => (Some y, Some x)
       | [] => (None, None)
       end
  /\ EpsilonHover.spaced (EpsilonHover.moves s).*1
  /\ Forall (fun t => t <= T) (EpsilonHover.moves s).*1
  /\ (if EpsilonHover.isTransitioning s
      then exists t0 r, (EpsilonHover.moves s).*1 = t0 :: r
                        /\ EpsilonHover.timeouts s = [t0 + 650]
      else EpsilonHover.timeouts s = []
           /\ forall t0 r, (EpsilonHover.moves s).*1 = t0 :: r -> t0 + 650 <= T).

(** ** The bubbles of scenes 4, 6 and 8 *)

(** What [remaining n] reads of the elements: attached, and of scene [n]. *)
Definition flagsOf (n : Z) (w : World) : list (bool * bool) :=
  (fun e => (attached e, dataSceneOf n e)) <$> elems (doc w).

(** The branch of the call-to-action handler a bubble takes when it pops. *)
Definition sceneOfBubble (el : Bubble) : option Z :=
  if dataScene2 el then Some 2
  else if dataScene4 el then Some 4
  else if dataScene6 el then Some 6
  else if dataScene8 el then Some 8
  else None.

Definition isMoverCb (c : Callback) : bool :=
  match c with CbRemoveBubble _ _ | CbCheckRemaining _ => true | _ => false end.

Definition movers (ts : list Timer) : nat := count (fun tm => isMoverCb (cb tm)) ts.

(** While the callback [c], due at [D], is the one pending timer that can
    remove a bubble or request a scene: the elements are as [F] has them
    and nothing was requested beyond the [a0] scenes and [t0] transitions
    of before. *)
Definition awaiting (n : Z) (c : Callback) (D : Z) (F : list (bool * bool)) (a0 t0 : nat)
    (w : World) : Prop :=
  scenePresent w = true /\ flagsOf n w = F
  /\ advanceRequests (log w) = a0 /\ transitionRuns (log w) = t0
  /\ Forall (fun tm => staying (cb tm) \/ (cb tm = c /\ due tm = D)) (timers w)
  /\ movers (timers w) = 1%nat
  /\ now w <= D.

(** After the check at [D], which found [r] bubbles left in scene [n];
    the clock runs to [t]. *)
Definition checked (n : Z) (D t : Z) (r a1 t1 : nat) (last : bool) (w : World) : Prop :=
  scenePresent w = true /\ remaining n w = r
  /\ advanceRequests (log w) = a1 /\ transitionRuns (log w) = t1
  /\ Forall (fun tm => staying (cb tm)) (timers w)
  /\ D <= t
  /\ (last = true -> (D, EvOpenScene (n + 1)) ∈ log w
                     /\ (D, EvRunTransition (transitionKeyFrom n)) ∈ log w
                     /\ transitionPending n D (timers w)).

(** Scene 4 with its two bubbles, the first one opened and read. *)
Definition deltaOpen : World := wait 4000 (expandBubble 0 scene4Page).

(** The first bubble of scene 4 was popped, the second one opened and read. *)
Definition epsilonOpen : World :=
  wait 4000 (expandBubble 1 (wait 350 (ctaHandler 0 deltaOpen))).

(** ** The Steps loop of a transition *)

(** The element that [playTransition('Steps.wav', true, 0.6)] creates and
    plays when it is called in [w]. *)
Definition stepsLoop (w : World) : Audio :=
  mkAudio (nextAid w) "assets/audio/Steps.wav" (3 # 5) true false false.

(** A run of transition [key] whose [onComplete] is due at [D], while the
    clock runs to [t]: the loop [a] is held until the completion, and was
    paused at [D] once the completion is past. *)
Definition stepping (key : string) (D t : Z) (a : Audio) (w : World) : Prop :=
  Forall (fun tm => calm (cb tm) \/ (cb tm = CbOnComplete key /\ due tm = D)) (timers w)
  /\ ((pendingCompletions (timers w) = 1%nat
       /\ transitionAudio (am w) = Some a /\ now w <= D)
      \/ (pendingCompletions (timers w) = 0%nat
          /\ transitionAudio (am w) = None /\ D <= t
          /\ (D, EvPause (aid a)) ∈ log w)).

(** ** The birds of scene 9 *)

(** A callback that does not touch the bird layers, and whose timers do
    not either. *)
Definition birdQuiet (c : Callback) : bool :=
  match c with
  | CbScene9FadeOut _ _ _ | CbBirdFadeIn _ | CbRemoveBubble _ _ | CbCheckRemaining _ => false
  | _ => true
  end.

(** The invariant of the bird fade-in running alone on the bird layers:
    [stateAt s] is the layers after [s] ticks, [T0] the instant the fade
    was started and [p] its step; the clock runs to [t]. *)
Definition birdFading (stateAt : nat -> gmap string Audio) (T0 p t : Z) (w : World) : Prop :=
  exists s : nat,
    (s <= 50)%nat
    /\ birdLayers (am w) = stateAt s
    /\ Forall (fun tm => birdQuiet (cb tm) = true
                         \/ (cb tm = CbBirdFadeIn s /\ due tm = T0 + Z.of_nat (S s) * p
                             /\ period tm = Some p)) (timers w)
    /\ count (fun tm => negb (birdQuiet (cb tm))) (timers w)
       = (if (s <? 50)%nat then 1 else 0)%nat
    /\ ((0 < s)%nat -> T0 + Z.of_nat s * p <= t).

(** The volume of a bird [s] ticks into the fade-in. *)
Definition birdVolume (s : nat) : Q :=
  if decide (s = 0%nat) then 0%Q
  else if bool_decide (steps <= s)%nat then (3 # 5)%Q
  else ((3 # 5) * progressOf s)%Q.

Definition birdsAt (base : gmap string Audio) (s : nat) : gmap string Audio :=
  withVolume (birdVolume s) <$> base.

(** Scene 9 entered without ambient layers: the manager was never started. *)
Definition silentPage : World := pageWith ["scene"; "scene-8"] [] ∅ None.

(** * Properties *)

(** ** Bubble size and pagination *)

(** C9: the display size is [520 + max(0, min(n, 5) - 3) * 80] for every
    sentence count [n]: 520 up to three sentences, 600 for four, 680 from
    five on, and non-decreasing in [n]. *)
Theorem calculateBubbleSize_spec (n : Z) :
  calculateBubbleSize n = 520 + Z.max 0 (Z.min n 5 - 3) * 80
  /\ (n <= 3 -> calculateBubbleSize n = 520)
  /\ calculateBubbleSize 4 = 600
  /\ (5 <= n -> calculateBubbleSize n = 680)
  /\ calculateBubbleSize 7 = 680
  /\ (forall m, n <= m -> calculateBubbleSize n <= calculateBubbleSize m).
Proof.
  unfold calculateBubbleSize.
  repeat split; try reflexivity; intros;
    repeat match goal with
           | |- context [?a <=? ?b] => destruct (Z.leb_spec a b)
           end; lia.
Qed.

Lemma calculateBubbleSize_spec_witness :
  calculateBubbleSize 2 = 520 /\ calculateBubbleSize 9 = 680
  /\ calculateBubbleSize 2 <= calculateBubbleSize 9.
Proof.
  destruct (calculateBubbleSize_spec 2) as (_ & H3 & _ & _ & _ & Hm).
  destruct (calculateBubbleSize_spec 9) as (_ & _ & _ & H5 & _ & _).
  split; [apply H3; lia | split; [apply H5; lia | apply Hm; lia]].
Defined.

(** ** Expansion of a bubble *)

Lemma cancelCrowSound_doc w : doc (cancelCrowSound w) = doc w.
Proof. unfold cancelCrowSound. destruct (crowSoundTimeout (am w)); reflexivity. Qed.

Lemma cancelCrowSound_expansions w : expansions (cancelCrowSound w) = expansions w.
Proof. unfold cancelCrowSound. destruct (crowSoundTimeout (am w)); reflexivity. Qed.

Lemma updElem_lookup b f w :
  elems (doc (updElem b f w)) !! b = f <$> elems (doc w) !! b.
Proof. simpl. apply list_lookup_alter_eq. Qed.

Lemma injectContent_found b el w :
  elems (doc w) !! b = Some el ->
  elems (doc (injectContent b el w)) !! b ≫= content = contentAtExpansion w el.
Proof.
  intros Hb. unfold injectContent, contentAtExpansion.
  destruct (content el) as [c|] eqn:Hc.
  - rewrite Hb. simpl. exact Hc.
  - destruct (bubbleTemplates (doc w) !! _) as [c|] eqn:Ht.
    + rewrite updElem_lookup, Hb. reflexivity.
    + rewrite Hb. simpl. exact Hc.
Qed.

Lemma injectContent_expansions b el w : expansions (injectContent b el w) = expansions w.
Proof.
  unfold injectContent. destruct (content el); [reflexivity|].
  destruct (bubbleTemplates _ !! _); reflexivity.
Qed.

Lemma injectContent_is_Some b el w :
  is_Some (elems (doc w) !! b) -> is_Some (elems (doc (injectContent b el w)) !! b).
Proof.
  intros H. unfold injectContent. destruct (content el); [exact H|].
  destruct (bubbleTemplates _ !! _); [|exact H].
  rewrite updElem_lookup. destruct H as [e ->]. eexists; reflexivity.
Qed.

Lemma mountExpansion_elem b nodes cnt cta w e :
  elems (doc w) !! b = Some e ->
  exists e',
    elems (doc (mountExpansion b nodes cnt cta w)) !! b = Some e'
    /\ dynamicBubbleSize e' = Some (calculateBubbleSize (Z.of_nat cnt))
    /\ (cta = true ->
        ctaText e' = Some (if (1 <? pagesOf cnt)%nat then "Volgende" else "Pop!")).
Proof.
  intros He. unfold mountExpansion, bubbleAddClass. cbv zeta.
  destruct cta; simpl;
    rewrite ?list_lookup_alter_eq, He; simpl;
    eexists; (split; [reflexivity|]); split; try reflexivity; intros; congruence.
Qed.

Lemma mountExpansion_expansions b nodes cnt cta w :
  expansions (mountExpansion b nodes cnt cta w)
  = expansions w ++ [mkExpansion b nodes cnt (pagesOf cnt) 1 cta].
Proof. unfold mountExpansion. cbv zeta. destruct cta; reflexivity. Qed.



(** ** Ambient layers are created once *)

Lemma retargeted_refl a : retargeted a a.
Proof. repeat split. Qed.

Lemma retargeted_trans a b c : retargeted a b -> retargeted b c -> retargeted a c.
Proof. unfold retargeted. intros (?&?&?&?&?) (?&?&?&?&?). repeat split; congruence. Qed.

Lemma retargeted_withVolume v a : retargeted a (withVolume v a).
Proof. repeat split. Qed.

Lemma retargetLayer_lookup m layer id a :
  m !! id = Some a ->
  exists a', retargetLayer m layer !! id = Some a' /\ retargeted a a'.
Proof.
  intros Hm. unfold retargetLayer.
  destruct (decide (layerId layer = id)) as [->|Hne].
  - rewrite lookup_alter_eq, Hm. eexists; split; [reflexivity|apply retargeted_withVolume].
  - rewrite lookup_alter_ne by exact Hne. eexists; split; [exact Hm|apply retargeted_refl].
Qed.

Lemma retarget_all_lookup cfg : forall m id a,
  m !! id = Some a ->
  exists a', foldl retargetLayer m cfg !! id = Some a' /\ retargeted a a'.
Proof.
  induction cfg as [|layer cfg IH]; intros m id a Hm; simpl.
  - eexists; split; [exact Hm|apply retargeted_refl].
  - destruct (retargetLayer_lookup m layer id a Hm) as (a1 & H1 & R1).
    destruct (IH _ _ _ H1) as (a2 & H2 & R2).
    exists a2; split; [exact H2|eapply retargeted_trans; eassumption].
Qed.

Lemma retarget_all_other cfg : forall m id,
  id ∉ layerId <$> cfg -> foldl retargetLayer m cfg !! id = m !! id.
Proof.
  induction cfg as [|layer cfg IH]; intros m id Hid; simpl; [reflexivity|].
  rewrite fmap_cons, not_elem_of_cons in Hid. destruct Hid as [Hne Hid].
  rewrite IH by exact Hid. unfold retargetLayer.
  apply lookup_alter_ne. congruence.
Qed.

Lemma retarget_all_volume cfg : forall m layer a,
  NoDup (layerId <$> cfg) -> layer ∈ cfg -> m !! layerId layer = Some a ->
  exists a', foldl retargetLayer m cfg !! layerId layer = Some a'
             /\ volume a' = layerVolume layer.
Proof.
  induction cfg as [|l cfg IH]; intros m layer a Hnd Hin Hm.
  - inversion Hin.
  - rewrite fmap_cons in Hnd. apply NoDup_cons in Hnd as [Hfresh Hnd].
    simpl. apply elem_of_cons in Hin as [->|Hin].
    + rewrite retarget_all_other by exact Hfresh.
      unfold retargetLayer. rewrite lookup_alter_eq, Hm.
      eexists; split; reflexivity.
    + destruct (retargetLayer_lookup m l _ a Hm) as (a1 & H1 & _).
      exact (IH _ _ _ Hnd Hin H1).
Qed.

Lemma sceneConfig_NoDup n cfg : sceneConfig n = Some cfg -> NoDup (layerId <$> cfg).
Proof.
  unfold sceneConfig. intros H.
  repeat (destruct (decide _) in H; [injection H as <-; by apply (bool_decide_unpack _)|]).
  discriminate.
Qed.

Lemma playAmbient_step w id a sceneNum :
  ambientLayers (am w) !! id = Some a ->
  exists a',
    ambientLayers (am (playAmbient sceneNum w)) !! id = Some a'
    /\ retargeted a a'
    /\ (forall cfg layer,
          audioInitialized (am w) = true \/ sceneNum <> 1 ->
          audioEnabled (am w) = true ->
          sceneConfig sceneNum = Some cfg ->
          layer ∈ cfg -> layerId layer = id ->
          volume a' = layerVolume layer)
    /\ nextAid (playAmbient sceneNum w) = nextAid w
    /\ log (playAmbient sceneNum w) = log w.
Proof.
  intros Hm. unfold playAmbient.
  destruct (negb (audioInitialized (am w)) && bool_decide (sceneNum = 1)) eqn:G1.
  { apply andb_true_iff in G1 as [Hi H1].
    apply negb_true_iff in Hi. apply bool_decide_eq_true in H1.
    exists a. split; [exact Hm|]. split; [apply retargeted_refl|].
    split; [|split; reflexivity].
    intros cfg layer [?|?]; [congruence|contradiction]. }
  destruct (negb (audioEnabled (am w))) eqn:G2.
  { apply negb_true_iff in G2.
    exists a. split; [exact Hm|]. split; [apply retargeted_refl|].
    split; [|split; reflexivity]. intros; congruence. }
  destruct (sceneConfig sceneNum) as [config|] eqn:Hcfg.
  2: { exists a. split; [exact Hm|]. split; [apply retargeted_refl|].
       split; [|split; reflexivity]. intros; congruence. }
  destruct (bool_decide (size (ambientLayers (am w)) <> 0%nat)) eqn:Hsize.
  - destruct (retarget_all_lookup config _ _ _ Hm) as (a' & Ha' & R).
    exists a'. simpl. split; [exact Ha'|]. split; [exact R|].
    split; [|split; reflexivity].
    intros cfg layer _ _ Hc Hin Hid. injection Hc as <-. subst id.
    destruct (retarget_all_volume config _ layer a (sceneConfig_NoDup _ _ Hcfg) Hin Hm)
      as (a2 & Ha2 & Hv).
    congruence.
  - apply bool_decide_eq_false in Hsize.
    assert (Hz : size (ambientLayers (am w)) = 0%nat)
      by (destruct (decide (size (ambientLayers (am w)) = 0%nat)); [assumption|contradiction]).
    apply map_size_empty_inv in Hz. rewrite Hz, lookup_empty in Hm. discriminate.
Qed.

(** C1: once a layer exists, a call of [playAmbient] keeps the very same
    element in the layer map, with its playback state untouched, and only
    sets its volume: to the value the scene configures for the layer when
    the call gets past its guards.  It constructs no element and makes no
    call to the playback device; the same holds along any run of calls. *)
Theorem playAmbient_never_recreates (w : World) (id : string) (a : Audio) :
  ambientLayers (am w) !! id = Some a ->
  (forall sceneNum, exists a',
      ambientLayers (am (playAmbient sceneNum w)) !! id = Some a'
      /\ retargeted a a'
      /\ (forall cfg layer,
            audioInitialized (am w) = true \/ sceneNum <> 1 ->
            audioEnabled (am w) = true ->
            sceneConfig sceneNum = Some cfg ->
            layer ∈ cfg -> layerId layer = id ->
            volume a' = layerVolume layer)
      /\ nextAid (playAmbient sceneNum w) = nextAid w
      /\ log (playAmbient sceneNum w) = log w)
  /\ (forall scenes,
        let w' := foldl (fun w n => playAmbient n w) w scenes in
        (exists a', ambientLayers (am w') !! id = Some a' /\ retargeted a a')
        /\ nextAid w' = nextAid w /\ log w' = log w).
Proof.
  intros Hm. split.
  - intros sceneNum. exact (playAmbient_step w id a sceneNum Hm).
  - intros scenes. revert w a Hm.
    induction scenes as [|n scenes IH]; intros w a Hm; simpl.
    + split; [exists a; split; [exact Hm|apply retargeted_refl]|split; reflexivity].
    + destruct (playAmbient_step w id a n Hm) as (a1 & H1 & R1 & _ & Hn & Hl).
      destruct (IH _ _ H1) as ((a2 & H2 & R2) & Hn2 & Hl2).
      split; [exists a2; split; [exact H2|eapply retargeted_trans; eassumption]|].
      split; congruence.
Qed.

(** [startAmbient(1)] then [startAmbient(2)]: "frogs" is element 0 before
    and after, still playing, at volume 0.25. *)
Lemma playAmbient_never_recreates_witness :
  exists a a',
    ambientLayers (am scene1Page) !! "frogs" = Some a
    /\ ambientLayers (am (playAmbient 2 scene1Page)) !! "frogs" = Some a'
    /\ retargeted a a' /\ volume a' = (1 # 4)%Q
    /\ nextAid (playAmbient 2 scene1Page) = nextAid scene1Page.
Proof.
  assert (Hm : ambientLayers (am scene1Page) !! "frogs"
               = Some (mkAudio 0 "assets/audio/frogs.mp3" (1 # 4) true true false))
    by (vm_compute; reflexivity).
  destruct (playAmbient_never_recreates scene1Page "frogs" _ Hm) as [Hstep _].
  destruct (Hstep 2) as (a' & Ha' & R & Hv & Hn & _).
  eexists. exists a'. split; [exact Hm|]. split; [exact Ha'|]. split; [exact R|].
  split; [|exact Hn].
  apply (Hv earlySceneAudio (mkLayer "frogs" "frogs.mp3" (1 # 4))).
  - left. reflexivity.
  - reflexivity.
  - reflexivity.
  - apply list_elem_of_here.
  - reflexivity.
Defined.

(** ** Effects of the operations *)

Lemma pendingWeight_app l1 l2 :
  pendingWeight (l1 ++ l2) = (pendingWeight l1 + pendingWeight l2)%nat.
Proof. induction l1 as [|t l1 IH]; simpl; [reflexivity|]. rewrite IH. lia. Qed.

Create HintDb does.

Ltac weigh := simpl; unfold ticksLeft, weightOpt; simpl; lia.

Section Effects.
Context (E : Event -> Prop) (C : Callback -> Prop).

Lemma logGrows_trans t l0 l1 l2 :
  logGrows E t l0 l1 -> logGrows E t l1 l2 -> logGrows E t l0 l2.
Proof. intros H01 H12. induction H12; [exact H01|constructor; assumption]. Qed.

Lemma timersGrow_trans l0 l1 l2 k1 k2 :
  timersGrow C l0 l1 k1 -> timersGrow C l1 l2 k2 -> timersGrow C l0 l2 (k1 + k2).
Proof.
  intros H01 H12. induction H12.
  - rewrite Nat.add_0_r. exact H01.
  - rewrite Nat.add_assoc. constructor; assumption.
Qed.

Lemma logGrows_app t l0 l :
  logGrows E t l0 l <->
  exists new, l = new ++ l0 /\ Forall (fun te => te.1 = t /\ E te.2) new.
Proof.
  split.
  - induction 1 as [|e l _ (new & -> & Hnew) He].
    + exists []. split; [reflexivity|constructor].
    + exists ((t, e) :: new). split; [reflexivity|].
      constructor; [split; [reflexivity|exact He]|exact Hnew].
  - intros (new & -> & Hnew). induction Hnew as [|[t' e] new [Ht He] _ IH]; simpl.
    + constructor.
    + simpl in Ht. subst t'. constructor; assumption.
Qed.

Lemma timersGrow_app l0 l k :
  timersGrow C l0 l k ->
  exists added, l = l0 ++ added /\ Forall (fun t => C (cb t)) added
                /\ pendingWeight added = k.
Proof.
  induction 1 as [|l k t _ (added & -> & Hadd & Hk) Ht].
  - exists []. rewrite app_nil_r. repeat split; constructor.
  - exists (added ++ [t]). rewrite app_assoc. split; [reflexivity|]. split.
    + apply Forall_app. split; [exact Hadd|]. constructor; [exact Ht|constructor].
    + rewrite pendingWeight_app. simpl. lia.
Qed.

Lemma does_intro k K w w' :
  now w' = now w -> scenePresent w' = scenePresent w ->
  logGrows E (now w) (log w) (log w') ->
  timersGrow C (timers w) (timers w') k -> (k <= K)%nat ->
  does E C K w w'.
Proof. intros. repeat split; try assumption. exists k. split; assumption. Qed.

Lemma does_le k k' w w' : does E C k w w' -> (k <= k')%nat -> does E C k' w w'.
Proof.
  intros (Hn & Hs & Hl & k0 & Ht & Hk) Hle. repeat split; try assumption.
  exists k0. split; [assumption|lia].
Qed.

Lemma does_refl k w : does E C k w w.
Proof. apply does_intro with (k := 0%nat); [reflexivity|reflexivity|constructor|constructor|lia]. Qed.

Lemma does_trans k1 k2 w0 w1 w2 :
  does E C k1 w0 w1 -> does E C k2 w1 w2 -> does E C (k1 + k2) w0 w2.
Proof.
  intros (Hn1 & Hs1 & Hl1 & j1 & Ht1 & Hj1) (Hn2 & Hs2 & Hl2 & j2 & Ht2 & Hj2).
  rewrite Hn1 in Hl2.
  apply does_intro with (k := (j1 + j2)%nat); try congruence; try lia.
  - eapply logGrows_trans; eassumption.
  - eapply timersGrow_trans; eassumption.
Qed.

Lemma does_seq k1 k2 K w0 w1 w2 :
  does E C k1 w0 w1 -> does E C k2 w1 w2 -> (k1 + k2 <= K)%nat -> does E C K w0 w2.
Proof. intros H1 H2 Hle. eapply does_le; [eapply does_trans; eassumption|exact Hle]. Qed.

(** The same, stated for a proof that starts from the last call. *)
Lemma does_after k2 k1 K w0 w1 w2 :
  does E C k2 w1 w2 -> does E C k1 w0 w1 -> (k1 + k2 <= K)%nat -> does E C K w0 w2.
Proof. intros H2 H1 Hle. exact (does_seq k1 k2 K w0 w1 w2 H1 H2 Hle). Qed.

(** Compose the effects of the calls of a body, innermost first: the
    world is the last argument of every operation. *)
Ltac chain :=
  lazymatch goal with
  | |- does _ _ _ ?w ?w => apply (does_refl 0)
  | |- does _ _ _ ?w (?f ?x) =>
      first [ solve [eauto with does]
            | eapply does_trans; [ | solve [eauto with does] ]; chain ]
  end.

Ltac bounded := eapply does_le; [chain | weigh].

Lemma does_emit e w : E e -> does E C 0 w (emit e w).
Proof.
  intros He. apply does_intro with (k := 0%nat);
    [reflexivity|reflexivity| |constructor|lia].
  simpl. constructor; [constructor|exact He].
Qed.

Lemma does_setTimeout c d w : C c -> does E C (weight c) w (setTimeout c d w).
Proof.
  intros Hc. apply does_intro with (k := (0 + weight c)%nat);
    [reflexivity|reflexivity|constructor| |lia].
  apply (timersGrow_snoc C (timers w) (timers w) 0 (mkTimer _ _ _ c)); [constructor|exact Hc].
Qed.

Lemma does_setInterval c d w : C c -> does E C (weight c) w (setInterval c d w).
Proof.
  intros Hc. apply does_intro with (k := (0 + weight c)%nat);
    [reflexivity|reflexivity|constructor| |lia].
  apply (timersGrow_snoc C (timers w) (timers w) 0 (mkTimer _ _ _ c)); [constructor|exact Hc].
Qed.

(** Updates of the audio manager, of the expansions and of the bubbles
    leave trace and timers alone. *)
Lemma does_setAm a w : does E C 0 w (setAm a w).
Proof. apply does_intro with (k := 0%nat); [reflexivity|reflexivity|constructor|constructor|lia]. Qed.

Lemma does_setExpansions xs w : does E C 0 w (setExpansions xs w).
Proof. apply does_intro with (k := 0%nat); [reflexivity|reflexivity|constructor|constructor|lia]. Qed.

Lemma does_forAmbient f w : does E C 0 w (forAmbient f w).
Proof. apply does_setAm. Qed.

Lemma does_forBirds f w : does E C 0 w (forBirds f w).
Proof. apply does_setAm. Qed.

Lemma does_setElems l w : does E C 0 w (setDoc (setElems l (doc w)) w).
Proof. apply does_intro with (k := 0%nat); [reflexivity|reflexivity|constructor|constructor|lia]. Qed.

Lemma does_updElem b f w : does E C 0 w (updElem b f w).
Proof. apply does_setElems. Qed.

Lemma does_addElem e w : does E C 0 w (addElem e w).
Proof. apply does_setElems. Qed.

Lemma does_bubbleAddClass b c w : does E C 0 w (bubbleAddClass b c w).
Proof. apply does_setElems. Qed.

Lemma does_bubbleRemoveClass b c w : does E C 0 w (bubbleRemoveClass b c w).
Proof. apply does_setElems. Qed.

Lemma does_removeSceneBubbles n w : does E C 0 w (removeSceneBubbles n w).
Proof. apply does_setElems. Qed.

Lemma does_sceneAdd c w : does E C 0 w (sceneAdd c w).
Proof.
  apply does_intro with (k := 0%nat); [reflexivity| |constructor|constructor|lia].
  unfold scenePresent, sceneAdd. simpl. destruct (fogScene (doc w)); reflexivity.
Qed.

Lemma does_sceneRemove c w : does E C 0 w (sceneRemove c w).
Proof.
  apply does_intro with (k := 0%nat); [reflexivity| |constructor|constructor|lia].
  unfold scenePresent, sceneRemove. simpl. destruct (fogScene (doc w)); reflexivity.
Qed.

Lemma does_populate n w : E (EvPopulate n) -> does E C 0 w (populate n w).
Proof.
  intros He. apply does_intro with (k := 0%nat);
    [reflexivity|reflexivity| |constructor|lia].
  simpl. constructor; [constructor|exact He].
Qed.

Hint Resolve does_emit does_setTimeout does_setInterval does_setAm does_setExpansions
  does_forAmbient does_forBirds does_updElem does_addElem does_bubbleAddClass
  does_bubbleRemoveClass does_removeSceneBubbles does_sceneAdd does_sceneRemove
  does_populate : does.

Lemma does_foldl {A} (f : World -> A -> World) k (l : list A) :
  (forall w x, does E C k w (f w x)) ->
  forall w, does E C (k * length l) w (foldl f w l).
Proof.
  intros Hf. induction l as [|x l IH]; intros w; simpl.
  - apply does_refl.
  - eapply does_seq; [apply Hf|apply IH|lia].
Qed.

(** *** Playback device *)
Section Device.
Context (Hdev : forall e, deviceEvent e -> E e).

Ltac device :=
  apply (does_intro 0 0);
    [reflexivity|reflexivity| |apply timersGrow_refl|lia];
  simpl; repeat (constructor; [|apply Hdev; exact I]); constructor.

Lemma does_emits es w : Forall deviceEvent es -> does E C 0 w (emits es w).
Proof.
  intros Hes. revert w. induction Hes as [|e es He _ IH]; intros w; simpl.
  - apply does_refl.
  - eapply does_seq; [apply does_emit, Hdev, He|apply IH|lia].
Qed.

Lemma does_emitEach f m w :
  (forall a, Forall deviceEvent (f a)) -> does E C 0 w (emitEach f m w).
Proof.
  intros Hf. unfold emitEach. generalize (map_to_list m). intros l. revert w.
  induction l as [|ka l IH]; intros w; simpl.
  - apply does_refl.
  - eapply does_seq; [apply does_emits, Hf|apply IH|lia].
Qed.

Lemma does_startLayer w layer : does E C 0 w (startLayer w layer).
Proof. unfold startLayer, newAudio, playAudio. device. Qed.

Lemma does_startBird w layer : does E C 0 w (startBird w layer).
Proof. unfold startBird, newAudio, playAudio. device. Qed.

Lemma does_playAmbient n w : does E C 0 w (playAmbient n w).
Proof.
  unfold playAmbient.
  destruct (_ && _); [apply does_setAm|].
  destruct (negb _); [apply does_refl|].
  destruct (sceneConfig n) as [config|]; [|apply does_refl].
  destruct (bool_decide _); [apply does_setAm|].
  eapply does_le; [apply (does_foldl startLayer 0), does_startLayer|lia].
Qed.

Lemma does_init w : does E C 0 w (init w).
Proof.
  unfold init. eapply does_seq; [apply does_setAm|apply does_playAmbient|lia].
Qed.

Lemma does_unmuteAudio w : does E C 0 w (unmuteAudio w).
Proof.
  unfold unmuteAudio. cbv zeta.
  eapply does_seq; [|apply does_setAm|];
    [apply does_emitEach; intros a; destruct (paused a); repeat constructor|lia].
Qed.

Lemma does_stopTransition w : does E C 0 w (stopTransition w).
Proof.
  unfold stopTransition. destruct (transitionAudio (am w)); [|apply does_refl].
  unfold haltAudio. device.
Qed.

Lemma does_playTransition file lp v w : does E C 0 w (playTransition file lp v w).
Proof.
  unfold playTransition. destruct (negb _); [apply does_refl|].
  cbv zeta.
  eapply does_seq;
    [apply does_stopTransition|unfold newAudio, playAudio; destruct lp; device|lia].
Qed.

Lemma does_playTransitionDefault w : does E C 0 w (playTransitionDefault w).
Proof. apply does_playTransition. Qed.

Lemma does_playPopSound w : does E C 0 w (playPopSound w).
Proof.
  unfold playPopSound. destruct (negb _); [apply does_refl|].
  unfold newAudio, playAudio. device.
Qed.

Lemma does_playCrowSound w : does E C 0 w (playCrowSound w).
Proof.
  unfold playCrowSound. destruct (negb _); [apply does_refl|].
  unfold newAudio, playAudio. device.
Qed.

Lemma does_stopTrack tr w : does E C 0 w (stopTrack tr w).
Proof.
  unfold stopTrack. destruct (oneShot (am w) tr); [|apply does_refl].
  unfold haltAudio. device.
Qed.

Lemma does_playTrack tr w : does E C 0 w (playTrack tr w).
Proof.
  unfold playTrack. destruct (negb _); [apply does_refl|].
  destruct (oneShot (am w) tr); unfold haltAudio, newAudio, playAudio; device.
Qed.

Lemma does_stopAllTracks w : does E C 0 w (stopAllTracks w).
Proof.
  unfold stopAllTracks.
  eapply does_le; [apply (does_foldl (fun w tr => stopTrack tr w) 0)|lia].
  intros; apply does_stopTrack.
Qed.

Lemma does_haltLayers w : does E C 0 w (haltLayers w).
Proof.
  unfold haltLayers.
  eapply does_seq; [|apply does_forAmbient|];
    [apply does_emitEach; intros a; repeat constructor|lia].
Qed.

Hint Resolve does_startLayer does_startBird does_playAmbient does_init
  does_unmuteAudio does_stopTransition does_playTransition
  does_playTransitionDefault does_playPopSound does_playCrowSound
  does_stopTrack does_playTrack does_stopAllTracks does_haltLayers : does.

(** *** Envelopes *)
Section Envelopes.
Context (HC_toLevel : forall sv l s, C (CbFadeToLevel sv l s))
        (HC_out : forall sv s, C (CbFadeOut sv s))
        (HC_in : forall tv s, C (CbFadeIn tv s))
        (HC_scene9 : forall sv d s, C (CbScene9FadeOut sv d s))
        (HC_bird : forall s, C (CbBirdFadeIn s)).

Lemma does_fadeAmbientToLevel l d w : does E C 50 w (fadeAmbientToLevel l d w).
Proof.
  unfold fadeAmbientToLevel. destruct (bool_decide _); [apply does_refl|].
  eapply does_le; [apply does_setInterval, HC_toLevel|weigh].
Qed.

Lemma does_fadeOutAmbient d w : does E C 50 w (fadeOutAmbient d w).
Proof.
  unfold fadeOutAmbient. destruct (bool_decide _); [apply does_refl|].
  eapply does_le; [apply does_setInterval, HC_out|weigh].
Qed.

Lemma does_fadeInAmbient d w : does E C 50 w (fadeInAmbient d w).
Proof.
  unfold fadeInAmbient. destruct (bool_decide _); [apply does_refl|].
  eapply does_seq; [apply does_forAmbient|apply does_setInterval, HC_in|weigh].
Qed.

Lemma does_fadeInBirdAmbient d w : does E C 50 w (fadeInBirdAmbient d w).
Proof.
  unfold fadeInBirdAmbient. destruct (bool_decide _); [apply does_refl|].
  eapply does_seq; [apply does_forBirds|apply does_setInterval, HC_bird|weigh].
Qed.

Lemma does_startBirds w : does E C 0 w (foldl startBird w birds).
Proof.
  eapply does_le; [apply (does_foldl startBird 0), does_startBird|weigh].
Qed.

Lemma does_switchToScene9Ambient fo fi w :
  does E C 100 w (switchToScene9Ambient fo fi w).
Proof.
  unfold switchToScene9Ambient. destruct (bool_decide _).
  - eapply does_le; [apply does_setInterval, HC_scene9|weigh].
  - eapply does_seq; [apply does_startBirds|apply does_fadeInBirdAmbient|lia].
Qed.

(** The ticks: the world after the tick and the weight left. *)
Lemma ticksLeft_S s : (S s < steps)%nat -> (ticksLeft (S s) < ticksLeft s)%nat.
Proof. unfold ticksLeft, steps. lia. Qed.

Lemma ticksLeft_pos s : (0 < ticksLeft s)%nat.
Proof. unfold ticksLeft. lia. Qed.

Lemma does_tickFadeToLevel sv l s w :
  exists K, does E C K w (tickFadeToLevel sv l s w).1
            /\ (K + weightOpt (tickFadeToLevel sv l s w).2 < ticksLeft s)%nat.
Proof.
  unfold tickFadeToLevel. cbv zeta. exists 0%nat.
  destruct (bool_decide (steps <= S s)%nat) eqn:Hs; simpl.
  - split; [apply does_forAmbient|apply ticksLeft_pos].
  - split; [apply does_forAmbient|].
    apply bool_decide_eq_false in Hs. apply ticksLeft_S. lia.
Qed.

Lemma does_tickFadeOut sv s w :
  exists K, does E C K w (tickFadeOut sv s w).1
            /\ (K + weightOpt (tickFadeOut sv s w).2 < ticksLeft s)%nat.
Proof.
  unfold tickFadeOut. cbv zeta. exists 0%nat.
  destruct (bool_decide (steps <= S s)%nat) eqn:Hs; simpl.
  - split; [|apply ticksLeft_pos].
    eapply does_seq; [apply does_forAmbient|apply does_haltLayers|lia].
  - split; [apply does_forAmbient|].
    apply bool_decide_eq_false in Hs. apply ticksLeft_S. lia.
Qed.

Lemma does_tickFadeIn tv s w :
  exists K, does E C K w (tickFadeIn tv s w).1
            /\ (K + weightOpt (tickFadeIn tv s w).2 < ticksLeft s)%nat.
Proof.
  unfold tickFadeIn. cbv zeta. exists 0%nat.
  destruct (bool_decide (steps <= S s)%nat) eqn:Hs; simpl.
  - split; [|apply ticksLeft_pos].
    eapply does_seq; [apply does_forAmbient|apply does_forAmbient|lia].
  - split; [apply does_forAmbient|].
    apply bool_decide_eq_false in Hs. apply ticksLeft_S. lia.
Qed.

Lemma does_tickBirdFadeIn s w :
  exists K, does E C K w (tickBirdFadeIn s w).1
            /\ (K + weightOpt (tickBirdFadeIn s w).2 < ticksLeft s)%nat.
Proof.
  unfold tickBirdFadeIn. cbv zeta. exists 0%nat.
  destruct (bool_decide (steps <= S s)%nat) eqn:Hs; simpl.
  - split; [|apply ticksLeft_pos].
    eapply does_seq; [apply does_forBirds|apply does_forBirds|lia].
  - split; [apply does_forBirds|].
    apply bool_decide_eq_false in Hs. apply ticksLeft_S. lia.
Qed.

Lemma does_tickScene9FadeOut sv d s w :
  exists K, does E C K w (tickScene9FadeOut sv d s w).1
            /\ (K + weightOpt (tickScene9FadeOut sv d s w).2 < ticksLeft s + 50)%nat.
Proof.
  unfold tickScene9FadeOut. cbv zeta.
  destruct (bool_decide (steps <= S s)%nat) eqn:Hs; simpl.
  - exists 50%nat. split; [|pose proof (ticksLeft_pos s); lia].
    eapply does_seq; [apply does_forAmbient| |].
    + eapply does_seq; [apply does_haltLayers| |].
      * eapply does_seq; [apply does_forAmbient| |].
        -- eapply does_seq; [apply does_startBirds|apply does_setInterval, HC_bird|].
           reflexivity.
        -- reflexivity.
      * reflexivity.
    + weigh.
  - exists 0%nat. split; [apply does_forAmbient|].
    apply bool_decide_eq_false in Hs. unfold steps in Hs. weigh.
Qed.

Hint Resolve does_fadeAmbientToLevel does_fadeOutAmbient does_fadeInAmbient
  does_fadeInBirdAmbient does_switchToScene9Ambient : does.

(** *** Scene transitions and bubbles *)
Section Scenes.
Context (HE_warn : forall m, E (EvWarn m))
        (HE_run : forall k, E (EvRunTransition k))
        (HE_start : forall k, E (EvOnStart k))
        (HE_complete : forall k, E (EvOnComplete k))
        (HE_open : forall n, E (EvOpenScene n))
        (HE_populate : forall n, E (EvPopulate n))
        (HE_blossom : E EvBlossomDestroy)
        (HE_page : forall b p s, E (EvShowPage b p s))
        (HE_sentence : forall b i, E (EvSentence b i)).
Context (HC_ambientFor : forall k, C (CbAmbientFor k))
        (HC_onComplete : forall k, C (CbOnComplete k))
        (HC_populate : forall n, C (CbPopulate n))
        (HC_sentence : forall b i, C (CbSentence b i))
        (HC_backgroundApply : forall b, C (CbBackgroundApply b))
        (HC_showContent : forall b n, C (CbShowContent b n))
        (HC_animate : forall b n, C (CbAnimateSentences b n))
        (HC_remove : forall n b, C (CbRemoveBubble n b))
        (HC_check : forall n, C (CbCheckRemaining n))
        (HC_spawnFallback : forall b, C (CbSpawnFallback b))
        (HC_ambientScene2 : C CbAmbientScene2)
        (HC_fadeInLater : forall d, C (CbFadeInLater d)).

Lemma does_onStart key w : does E C 100 w (onStart key w).
Proof.
  unfold onStart. cbv zeta.
  repeat (destruct (decide _); [bounded|]).
  eapply does_le; [apply does_emit, HE_start|lia].
Qed.

Lemma does_onComplete key w : does E C 0 w (onComplete key w).
Proof.
  unfold onComplete. cbv zeta.
  repeat (destruct (decide _); [bounded|]).
  apply does_emit, HE_complete.
Qed.

Hint Resolve does_onStart does_onComplete : does.

Lemma does_runSceneTransition key w : does E C 202 w (runSceneTransition key w).
Proof.
  unfold runSceneTransition.
  destruct (fogScene (doc w)); [|bounded].
  destruct (TRANSITIONS key) as [config|]; [|bounded].
  cbv zeta.
  eapply (does_after 1 201); [apply does_setTimeout, HC_onComplete| |lia].
  eapply (does_after 51 150); [apply does_setTimeout, HC_ambientFor| |lia].
  eapply (does_after 100 50); [apply does_onStart| |lia].
  destruct (usesSteps key); [bounded|].
  destruct (bool_decide _); bounded.
Qed.

Lemma does_ambientFor key w : does E C 50 w (ambientFor key w).
Proof.
  unfold ambientFor. cbv zeta.
  destruct (targetSceneOf key); destruct (usesSteps key); bounded.
Qed.

Lemma does_transitionDone key w : does E C 0 w (transitionDone key w).
Proof. unfold transitionDone. cbv zeta. destruct (usesSteps key); bounded. Qed.

Hint Resolve does_runSceneTransition does_ambientFor does_transitionDone : does.

Lemma does_openTitleScene from w : does E C 203 w (openTitleScene from w).
Proof.
  unfold openTitleScene. cbv zeta. simpl fogScene.
  destruct (fogScene (doc w)); [|bounded].
  destruct (decide (from = 8)); bounded.
Qed.

Lemma does_animateSentences b shown w :
  does E C shown w (animateSentences b shown w).
Proof.
  unfold animateSentences.
  eapply does_le; [apply (does_foldl _ 1)|rewrite length_seq; lia].
  intros w0 x. apply (does_setTimeout (CbSentence b x)), HC_sentence.
Qed.

Lemma pageLength_le nodes count page : (pageLength nodes count page <= 5)%nat.
Proof. unfold pageLength, sentencesPerPage. lia. Qed.

Lemma does_showPageSentences b nodes count page anim w :
  does E C 5 w (showPageSentences b nodes count page anim w).2.
Proof.
  unfold showPageSentences. cbv zeta. simpl.
  pose proof (pageLength_le nodes count page).
  destruct anim.
  - eapply does_seq; [apply does_emit, HE_page|apply does_animateSentences|lia].
  - eapply does_le; [apply does_emit, HE_page|lia].
Qed.

Lemma does_backgroundPhase b w : does E C 1 w (backgroundPhase b w).
Proof.
  unfold backgroundPhase.
  eapply does_seq; [apply does_bubbleAddClass
                   |apply does_setTimeout, HC_backgroundApply|reflexivity].
Qed.

Lemma does_revealPhase b x w : does E C 7 w (revealPhase b x w).
Proof.
  unfold revealPhase. destruct (expansions w !! x) as [e|]; [|apply does_refl].
  unfold showPageSentences. cbv zeta.
  pose proof (pageLength_le (xSentences e) (xSentenceCount e) 1).
  eapply does_seq; [apply does_emit, HE_page
                   |apply does_setTimeout, HC_showContent|weigh].
Qed.

Lemma does_showContent b shown w : does E C (S shown) w (showContent b shown w).
Proof.
  unfold showContent. destruct (elems (doc w) !! b) as [el|]; [|apply does_refl].
  cbv zeta.
  eapply (does_after (S shown) 0); [apply does_setTimeout, HC_animate| |lia].
  eapply (does_after 0 0); [apply (does_foldl _ 0)| |lia].
  - intros w0 ct. destruct (hasClass ct.1 el); [apply does_playTrack|apply does_refl].
  - destruct (isFirstBubble el); bounded.
Qed.

Lemma does_spawnScene2 w : does E C 0 w (spawnScene2 w).
Proof.
  unfold spawnScene2. cbv zeta.
  match goal with |- context [scene2Template ?d] => destruct (scene2Template d) end.
  - eapply (does_after 0 0); [apply (does_foldl _ 0)| |lia].
    + intros; apply does_addElem.
    + eapply (does_after 0 0); [apply does_sceneAdd|apply does_setElems|lia].
  - eapply (does_after 0 0); [apply (does_foldl _ 0)| |lia].
    + intros; apply does_addElem.
    + eapply (does_after 0 0); [apply does_sceneAdd|apply does_setElems|lia].
Qed.

Hint Resolve does_spawnScene2 : does.

Lemma does_afterPop clone w : does E C 52 w (afterPop clone w).
Proof.
  unfold afterPop. cbv zeta.
  eapply (does_after 52 0); [apply does_setTimeout, HC_ambientScene2| |lia].
  bounded.
Qed.

Lemma does_spawnFallback clone w : does E C 52 w (spawnFallback clone w).
Proof.
  unfold spawnFallback. destruct (elems (doc w) !! clone) as [el|]; [|apply does_refl].
  destruct (attached el); [apply does_afterPop|apply does_refl].
Qed.

Lemma does_animationEnd clone w : does E C 52 w (animationEnd clone w).
Proof.
  unfold animationEnd. destruct (elems (doc w) !! clone) as [el|]; [|apply does_refl].
  destruct (_ && _); [|apply does_refl].
  eapply does_seq; [apply does_updElem|apply does_afterPop|lia].
Qed.

Lemma does_ambientScene2 w : does E C 51 w (ambientScene2 w).
Proof.
  unfold ambientScene2.
  eapply (does_after 51 0); [apply does_setTimeout, HC_fadeInLater| |lia].
  bounded.
Qed.

Lemma does_openNext n w : does E C 203 w (openNext n w).
Proof.
  unfold openNext. destruct (bool_decide _); [apply does_openTitleScene|apply does_refl].
Qed.

Lemma does_removeBubble n b w : does E C 204 w (removeBubble n b w).
Proof.
  unfold removeBubble. cbv zeta. destruct (decide (n = 2)).
  - eapply does_seq; [apply does_updElem|apply does_openNext|lia].
  - eapply does_seq; [apply does_updElem|apply does_setTimeout, HC_check|weigh].
Qed.

(** *** The call-to-action handler *)

Lemma does_popSceneBubble n b w : does E C 205 w (popSceneBubble n b w).
Proof.
  unfold popSceneBubble, dropCta. cbv zeta.
  eapply (does_after 205 0); [apply does_setTimeout, HC_remove| |lia].
  destruct (from_option innerCard false _); bounded.
Qed.

Lemma does_openScene2 b w : does E C 103 w (openScene2 b w).
Proof.
  unfold openScene2. cbv zeta. simpl fogScene.
  destruct (fogScene (doc w)).
  - assert (H0 : does E C 50 w
                   (sceneRemove "scene--zoom"
                      (fadeOutAmbient 500
                         (playTransitionDefault (emit (EvOpenScene 2) w)))))
      by (eapply (does_after 50 0); [|apply does_emit, HE_open|lia]; bounded).
    match goal with
    | |- context [elems (doc ?x) !! b] => destruct (elems (doc x) !! b)
    end.
    + eapply (does_after 53 50); [apply does_setTimeout, HC_spawnFallback| |lia].
      eapply (does_after 0 50); [apply does_updElem| |lia].
      eapply (does_after 0 50); [apply does_addElem|exact H0|lia].
    + eapply does_le; [exact H0|lia].
  - eapply does_seq; [apply does_emit, HE_open|apply does_emit, HE_warn|lia].
Qed.

Lemma does_ctaHandler x w : does E C 205 w (ctaHandler x w).
Proof.
  unfold ctaHandler. destruct (expansions w !! x) as [e|]; [|apply does_refl].
  cbv zeta. destruct (elems (doc w) !! xBubble e) as [el|]; [|apply does_refl].
  destruct (_ <? _)%nat.
  - eapply does_le; [|instantiate (1 := 5%nat); lia].
    assert (Hpage : does E C 5 w
              (showPageSentences (xBubble e) (xSentences e) (xSentenceCount e)
                 (S (xCurrentPage e)) true
                 (setCurrentPage x (S (xCurrentPage e)) w)).2).
    { eapply does_seq; [apply does_setExpansions|apply does_showPageSentences|lia]. }
    assert (H2 : forall c p (w0 : World) t1 t2,
              does E C 5 w w0 ->
              does E C 5 w (if hasClass c el && bool_decide (p = 2%nat)
                            then playTrack t2 (stopTrack t1 w0) else w0)).
    { intros c p w0 t1 t2 H0. destruct (_ && _); [|exact H0].
      eapply (does_after 0 5); [apply does_playTrack| |lia].
      eapply (does_after 0 5); [apply does_stopTrack|exact H0|lia]. }
    destruct (bool_decide (S (xCurrentPage e) = xTotalPages e)).
    + eapply (does_after 0 5); [apply does_updElem|apply H2, H2, Hpage|lia].
    + apply H2, H2, Hpage.
  - assert (H0 : does E C 0 w (stopAllTracks (playPopSound w)))
      by (eapply does_seq; [apply does_playPopSound|apply does_stopAllTracks|lia]).
    repeat (match goal with |- context [if ?c then _ else _] => destruct c end;
            [eapply does_seq; [exact H0|apply does_popSceneBubble|lia]|]).
    eapply does_seq; [exact H0|apply does_openScene2|lia].
Qed.

(** *** Callbacks *)

Lemma does_runCallback c w :
  exists K, does E C K w (runCallback c w).1
            /\ (K + weightOpt (runCallback c w).2 < weight c)%nat.
Proof.
  destruct c; simpl runCallback; simpl weight.
  - apply does_tickFadeToLevel.
  - apply does_tickFadeOut.
  - apply does_tickFadeIn.
  - apply does_tickScene9FadeOut.
  - apply does_tickBirdFadeIn.
  - exists 0%nat. split; [|weigh]. simpl.
    eapply does_seq; [apply does_playCrowSound|apply does_setAm|lia].
  - exists 50%nat. split; [apply does_ambientFor|weigh].
  - exists 0%nat. split; [apply does_transitionDone|weigh].
  - exists 0%nat. split; [apply does_populate, HE_populate|weigh].
  - exists 0%nat. split; [apply does_bubbleAddClass|weigh].
  - exists 1%nat. split; [apply does_backgroundPhase|weigh].
  - exists 0%nat. split; [apply does_bubbleAddClass|weigh].
  - exists 7%nat. split; [apply does_revealPhase|weigh].
  - exists (S shown). split; [apply does_showContent|weigh].
  - exists shown. split; [apply does_animateSentences|weigh].
  - exists 0%nat. split; [apply does_emit, HE_sentence|weigh].
  - exists 204%nat. split; [apply does_removeBubble|weigh].
  - exists 203%nat. split; [apply does_openNext|weigh].
  - exists 52%nat. split; [apply does_spawnFallback|weigh].
  - exists 51%nat. split; [apply does_ambientScene2|weigh].
  - exists 50%nat. split; [apply does_fadeInAmbient|weigh].
Qed.
End Scenes.
End Envelopes.
End Device.
End Effects.

(** ** The scheduler *)

Lemma earliestFrom_spec ts : forall i best,
  let r := earliestFrom i best ts in
  (r = best \/ exists j, r.1 = (i + j)%nat /\ ts !! j = Some r.2)
  /\ due r.2 <= due best.2
  /\ (forall t, t ∈ ts -> due r.2 <= due t).
Proof.
  induction ts as [|t ts IH]; intros i best; simpl.
  - split; [left; reflexivity|]. split; [lia|]. intros t Ht. inversion Ht.
  - destruct (IH (S i) (if due t <? due best.2 then (i, t) else best)) as (Hsrc & Hle & Hmin).
    destruct (Z.ltb_spec (due t) (due best.2)) as [Hlt|Hge].
    + split; [|split].
      * right. destruct Hsrc as [->|(j & Hj & Hl)].
        -- exists 0%nat. simpl. split; [lia|reflexivity].
        -- exists (S j). split; [lia|exact Hl].
      * simpl in Hle. lia.
      * intros t' Ht'. apply elem_of_cons in Ht' as [->|Ht']; [exact Hle|auto].
    + split; [|split].
      * destruct Hsrc as [->|(j & Hj & Hl)]; [left; reflexivity|].
        right. exists (S j). split; [lia|exact Hl].
      * exact Hle.
      * intros t' Ht'. apply elem_of_cons in Ht' as [->|Ht']; [lia|auto].
Qed.

Lemma earliest_spec ts i t :
  earliest ts = Some (i, t) ->
  ts !! i = Some t /\ forall t', t' ∈ ts -> due t <= due t'.
Proof.
  destruct ts as [|t0 ts]; [discriminate|]. simpl. intros [= H].
  destruct (earliestFrom_spec ts 1 (0%nat, t0)) as (Hsrc & Hle & Hmin).
  rewrite H in Hsrc, Hle, Hmin. simpl in *. split.
  - destruct Hsrc as [[= -> ->]|(j & -> & Hl)]; [reflexivity|exact Hl].
  - intros t' Ht'. apply elem_of_cons in Ht' as [->|Ht']; [exact Hle|auto].
Qed.

Lemma earliest_None ts : earliest ts = None <-> ts = [].
Proof. destruct ts; simpl; split; intros; congruence. Qed.

Lemma pendingWeight_delete ts i t :
  ts !! i = Some t ->
  (pendingWeight (delete i ts) + weight (cb t))%nat = pendingWeight ts.
Proof.
  revert i. induction ts as [|t0 ts IH]; intros [|i] H; simpl in *; try discriminate.
  - injection H as ->. lia.
  - rewrite <- (IH i H). lia.
Qed.

Lemma runCallback_weight c w :
  exists added,
    timers (runCallback c w).1 = timers w ++ added
    /\ (pendingWeight added + weightOpt (runCallback c w).2 < weight c)%nat
    /\ now (runCallback c w).1 = now w.
Proof.
  destruct (does_runCallback (fun _ => True) (fun _ => True)) with (c := c) (w := w)
    as (K & (Hn & _ & _ & k & Ht & Hk) & HK); try (intros; exact I).
  apply timersGrow_app in Ht as (added & Ha & _ & Hw).
  exists added. split; [exact Ha|]. split; [lia|exact Hn].
Qed.

Lemma fire_weight w :
  timers w <> [] ->
  (pendingWeight (timers (fire w)) < pendingWeight (timers w))%nat.
Proof.
  intros Hne. unfold fire.
  destruct (earliest (timers w)) as [[i t]|] eqn:He; [|apply earliest_None in He; contradiction].
  apply earliest_spec in He as [Hi _].
  pose proof (pendingWeight_delete _ _ _ Hi) as Hdel.
  destruct (runCallback_weight (cb t) (dequeue i t w)) as (added & Ha & Hw & _).
  unfold rearm.
  destruct (runCallback (cb t) (dequeue i t w)) as [w2 k]. simpl in *.
  destruct k as [c'|]; [destruct (period t) as [p|]|]; simpl;
    rewrite Ha, ?pendingWeight_app; simpl in *; lia.
Qed.

Lemma advanceFuel_enough t : forall fuel w,
  (pendingWeight (timers w) <= fuel)%nat ->
  advanceFuel fuel t w = advance t w.
Proof.
  unfold advance.
  induction fuel as [fuel IH] using lt_wf_ind. intros w Hle.
  destruct fuel as [|fuel].
  - assert (Hz : pendingWeight (timers w) = 0%nat) by lia. rewrite Hz. reflexivity.
  - destruct (pendingWeight (timers w)) as [|n] eqn:Hw.
    + simpl. destruct (timers w) as [|t0 ts] eqn:Hts; [reflexivity|].
      exfalso. simpl in Hw.
      pose proof (fire_weight w) as Hf. rewrite Hts in Hf. simpl in Hf.
      specialize (Hf ltac:(discriminate)). lia.
    + simpl. destruct (earliest (timers w)) as [[i tm]|] eqn:He; [|reflexivity].
      destruct (due tm <=? t); [|reflexivity].
      assert (Hne : timers w <> []) by (intros Hnil; rewrite Hnil in He; discriminate).
      pose proof (fire_weight w Hne) as Hf.
      rewrite (IH fuel ltac:(lia) (fire w) ltac:(lia)).
      rewrite (IH n ltac:(lia) (fire w) ltac:(lia)). reflexivity.
Qed.

(** [advance] as a loop: fire while a timer is due. *)
Lemma advance_fire t w i tm :
  earliest (timers w) = Some (i, tm) -> due tm <= t ->
  advance t w = advance t (fire w).
Proof.
  intros He Hdue.
  assert (Hne : timers w <> []) by (intros Hnil; rewrite Hnil in He; discriminate).
  pose proof (fire_weight w Hne) as Hf.
  unfold advance at 1.
  destruct (pendingWeight (timers w)) as [|n] eqn:Hw; [lia|].
  simpl. rewrite He. destruct (Z.leb_spec (due tm) t); [|lia].
  apply advanceFuel_enough. lia.
Qed.

Lemma advance_idle t w :
  (forall i tm, earliest (timers w) = Some (i, tm) -> t < due tm) ->
  advance t w = settle t w.
Proof.
  intros H. unfold advance.
  destruct (pendingWeight (timers w)) as [|n]; [reflexivity|].
  simpl. destruct (earliest (timers w)) as [[i tm]|] eqn:He; [|reflexivity].
  specialize (H i tm eq_refl). destruct (Z.leb_spec (due tm) t); [lia|reflexivity].
Qed.

(** Induction along a run of [advance]: an invariant [I] of the timers
    that fire, and what holds once no timer is due any more. *)
Lemma advance_ind (I Q : World -> Prop) t :
  (forall w i tm, I w -> earliest (timers w) = Some (i, tm) -> due tm <= t -> I (fire w)) ->
  (forall w, I w -> (forall tm, tm ∈ timers w -> t < due tm) -> Q (settle t w)) ->
  forall w, I w -> Q (advance t w).
Proof.
  intros Hfire Hsettle w.
  remember (pendingWeight (timers w)) as n eqn:Hn. revert w Hn.
  induction n as [n IH] using lt_wf_ind. intros w Hn Pw.
  destruct (earliest (timers w)) as [[i tm]|] eqn:He.
  - destruct (Z.le_gt_cases (due tm) t) as [Hle|Hgt].
    + rewrite (advance_fire t w i tm He Hle).
      assert (Hne : timers w <> []) by (intros Hnil; rewrite Hnil in He; discriminate).
      pose proof (fire_weight w Hne).
      eapply (IH (pendingWeight (timers (fire w)))); [lia|reflexivity|].
      eapply Hfire; eassumption.
    + rewrite advance_idle.
      * apply Hsettle; [exact Pw|]. intros tm' Hin.
        apply earliest_spec in He as [_ Hmin]. specialize (Hmin tm' Hin). lia.
      * intros i' tm' He'. rewrite He in He'. injection He' as -> ->. lia.
  - rewrite advance_idle.
    + apply Hsettle; [exact Pw|]. apply earliest_None in He. rewrite He.
      intros tm' Hin. inversion Hin.
    + intros i' tm' He'. rewrite He in He'. discriminate.
Qed.

(** [advance] is exhaustive: every timer still pending after [advance t]
    is due later than [t], and the clock has reached [t]. *)
Lemma advance_exhausts t w :
  (forall tm, tm ∈ timers (advance t w) -> t < due tm) /\ t <= now (advance t w).
Proof.
  apply (advance_ind (fun _ => True) (fun w' => (forall tm, tm ∈ timers w' -> t < due tm)
                                               /\ t <= now w') t); auto.
  intros w0 _ H. split; [exact H|]. simpl. lia.
Qed.

(** ** A transition completes once, at its duration *)

Lemma count_app {A} (p : A -> bool) l1 l2 :
  count p (l1 ++ l2) = (count p l1 + count p l2)%nat.
Proof. induction l1 as [|x l1 IH]; simpl; [reflexivity|]. rewrite IH. lia. Qed.

Lemma count_none {A} (p : A -> bool) l :
  Forall (fun x => p x = false) l -> count p l = 0%nat.
Proof. induction 1 as [|x l Hx _ IH]; simpl; [reflexivity|]. rewrite Hx, IH. reflexivity. Qed.

Lemma count_delete {A} (p : A -> bool) l i x :
  l !! i = Some x ->
  (count p (delete i l) + (if p x then 1 else 0))%nat = count p l.
Proof.
  revert i. induction l as [|y l IH]; intros [|i] H; simpl in *; try discriminate.
  - injection H as ->. lia.
  - rewrite <- (IH i H). lia.
Qed.

Lemma count_pos_elem {A} (p : A -> bool) l :
  count p l <> 0%nat -> exists x, x ∈ l /\ p x = true.
Proof.
  induction l as [|y l IH]; simpl; [congruence|].
  destruct (p y) eqn:Hy.
  - intros _. exists y. split; [apply list_elem_of_here|exact Hy].
  - simpl. intros H. destruct (IH H) as (x & Hx & Hp).
    exists x. split; [apply list_elem_of_further, Hx|exact Hp].
Qed.

Lemma Forall_delete {A} (P : A -> Prop) l i : Forall P l -> Forall P (delete i l).
Proof.
  intros H. revert i. induction H as [|x l Hx Hl IH]; intros [|i]; simpl;
    try constructor; auto.
Qed.

Lemma calm_not_onComplete ts :
  Forall (fun tm => calm (cb tm)) ts -> pendingCompletions ts = 0%nat.
Proof.
  intros H. apply count_none. eapply Forall_impl; [exact H|].
  intros tm. simpl. destruct (cb tm); simpl; tauto.
Qed.

Lemma notComplete_completions key new :
  Forall (fun te : Z * Event => notComplete te.2) new -> completions key new = 0%nat.
Proof.
  intros H. apply count_none. eapply Forall_impl; [exact H|].
  intros [t e]. simpl. intros He. apply bool_decide_eq_false. intros ->. exact He.
Qed.

Lemma device_notComplete e : deviceEvent e -> notComplete e.
Proof. destruct e; simpl; tauto. Qed.

(** What a calm callback does: nothing completes, and every timer it
    registers, its own next tick included, is calm. *)
Lemma runCallback_calm c w :
  calm c ->
  exists K, does notComplete calm K w (runCallback c w).1
            /\ (forall c', (runCallback c w).2 = Some c' -> calm c').
Proof.
  intros Hc.
  assert (Hdev := device_notComplete).
  destruct c; simpl in Hc; try contradiction; simpl runCallback.
  - destruct (does_tickFadeToLevel notComplete calm startVolumes targetLevel step w)
      as (K & Hd & _).
    exists K. split; [exact Hd|]. unfold tickFadeToLevel. cbv zeta.
    destruct (bool_decide _); simpl; intros c' [= <-]; exact I.
  - destruct (does_tickFadeOut notComplete calm Hdev startVolumes step w) as (K & Hd & _).
    exists K. split; [exact Hd|]. unfold tickFadeOut. cbv zeta.
    destruct (bool_decide _); simpl; intros c' [= <-]; exact I.
  - destruct (does_tickFadeIn notComplete calm targetVolumes step w) as (K & Hd & _).
    exists K. split; [exact Hd|]. unfold tickFadeIn. cbv zeta.
    destruct (bool_decide _); simpl; intros c' [= <-]; exact I.
  - destruct (does_tickScene9FadeOut notComplete calm Hdev ltac:(intros; exact I)
                startVolumes fadeInDuration step w) as (K & Hd & _).
    exists K. split; [exact Hd|]. unfold tickScene9FadeOut. cbv zeta.
    destruct (bool_decide _); simpl; intros c' [= <-]; exact I.
  - destruct (does_tickBirdFadeIn notComplete calm step w) as (K & Hd & _).
    exists K. split; [exact Hd|]. unfold tickBirdFadeIn. cbv zeta.
    destruct (bool_decide _); simpl; intros c' [= <-]; exact I.
  - eexists. split; [|discriminate]. simpl.
    eapply does_seq; [apply does_playCrowSound, Hdev|apply does_setAm|reflexivity].
  - eexists. split; [|discriminate]. apply does_ambientFor; [exact Hdev|intros; exact I].
  - eexists. split; [|discriminate]. apply does_populate. exact I.
  - eexists. split; [|discriminate]. apply does_bubbleAddClass.
  - eexists. split; [|discriminate]. apply does_backgroundPhase. intros; exact I.
  - eexists. split; [|discriminate]. apply does_bubbleAddClass.
  - eexists. split; [|discriminate]. apply does_revealPhase; intros; exact I.
  - eexists. split; [|discriminate]. apply does_showContent; [exact Hdev|intros; exact I].
  - eexists. split; [|discriminate]. apply does_animateSentences. intros; exact I.
  - eexists. split; [|discriminate]. apply does_emit. exact I.
  - eexists. split; [|discriminate]. apply does_spawnFallback. exact I.
  - eexists. split; [|discriminate]. apply does_ambientScene2; [exact Hdev|intros; exact I].
  - eexists. split; [|discriminate]. apply does_fadeInAmbient. intros; exact I.
Qed.

Lemma does_inv E C K w w' :
  does E C K w w' ->
  now w' = now w
  /\ scenePresent w' = scenePresent w
  /\ (exists new, log w' = new ++ log w
                  /\ Forall (fun te => te.1 = now w /\ E te.2) new)
  /\ (exists added, timers w' = timers w ++ added
                    /\ Forall (fun t => C (cb t)) added
                    /\ (pendingWeight added <= K)%nat).
Proof.
  intros (Hn & Hs & Hl & k & Ht & Hk).
  split; [exact Hn|]. split; [exact Hs|]. split.
  - apply logGrows_app. exact Hl.
  - apply timersGrow_app in Ht as (added & Ha & Hc & Hw).
    exists added. split; [exact Ha|]. split; [exact Hc|lia].
Qed.

Lemma onComplete_spec key w :
  log (onComplete key w) = (now w, EvOnComplete key) :: log w
  /\ timers (onComplete key w) = timers w
  /\ now (onComplete key w) = now w.
Proof. unfold onComplete. cbv zeta. repeat destruct (decide _); repeat split. Qed.

Lemma transitionDone_spec key w :
  exists devs,
    log (transitionDone key w) = devs ++ (now w, EvOnComplete key) :: log w
    /\ Forall (fun te : Z * Event => deviceEvent te.2) devs
    /\ timers (transitionDone key w) = timers w
    /\ now (transitionDone key w) = now w.
Proof.
  destruct (onComplete_spec key w) as (Hl & Ht & Hn).
  unfold transitionDone. cbv zeta. destruct (usesSteps key).
  - destruct (does_inv _ _ _ _ _
                (does_stopTransition deviceEvent (fun _ => False) (fun e H => H)
                   (onComplete key w)))
      as (Hn' & _ & (devs & Hl' & Hd) & (added & Ht' & Ha & _)).
    destruct added as [|tm added]; [|inversion Ha; contradiction].
    exists devs. rewrite Hl', Hl, Ht', Ht, app_nil_r, Hn', Hn.
    repeat split; try reflexivity.
    eapply Forall_impl; [exact Hd|]. intros te [_ H]. exact H.
  - exists []. rewrite Hl, Ht, Hn. repeat split. constructor.
Qed.

(** A run of a configured transition, with the scene container present:
    the start effects, then the two timeouts. *)
Lemma runSceneTransition_shape key cfg w :
  TRANSITIONS key = Some cfg -> scenePresent w = true ->
  exists pre,
    runSceneTransition key w
    = setTimeout (CbOnComplete key) (duration cfg)
        (setTimeout (CbAmbientFor key) (audioFadeIn cfg) pre)
    /\ does notComplete calm 150 w pre.
Proof.
  intros Hcfg Hscene. unfold runSceneTransition, scenePresent in *.
  destruct (fogScene (doc w)); [|discriminate]. rewrite Hcfg. cbv zeta.
  eexists. split; [reflexivity|].
  assert (Hdev := device_notComplete).
  eapply (does_after _ _ 100 50);
    [apply does_onStart; solve [exact Hdev | intros; exact I]| |lia].
  eapply (does_after _ _ 50 0 _ _ (emit (EvRunTransition key) w));
    [|apply does_emit; exact I|lia].
  destruct (usesSteps key).
  - eapply (does_after _ _ 50 0);
      [apply does_fadeAmbientToLevel; intros; exact I
      |apply does_playTransition, Hdev|lia].
  - destruct (bool_decide _).
    + eapply does_le; [apply does_playTransitionDefault, Hdev|lia].
    + apply does_refl.
Qed.

Lemma completions_app key l1 l2 :
  completions key (l1 ++ l2) = (completions key l1 + completions key l2)%nat.
Proof. apply count_app. Qed.

Lemma pendingCompletions_app l1 l2 :
  pendingCompletions (l1 ++ l2) = (pendingCompletions l1 + pendingCompletions l2)%nat.
Proof. apply count_app. Qed.

Lemma stamped_notComplete (T : Z) new :
  Forall (fun te : Z * Event => te.1 = T /\ notComplete te.2) new ->
  Forall (fun te : Z * Event => notComplete te.2) new.
Proof. intros H. eapply Forall_impl; [exact H|]. intros te [_ H']. exact H'. Qed.

Lemma notComplete_not_in key t' new :
  Forall (fun te : Z * Event => notComplete te.2) new -> (t', EvOnComplete key) ∉ new.
Proof.
  intros H Hin. rewrite Forall_forall in H. exact (H _ Hin).
Qed.

Lemma pendingCompletions_delete ts i tm :
  ts !! i = Some tm ->
  (pendingCompletions (delete i ts) + (if isOnCompleteCb (cb tm) then 1 else 0))%nat
  = pendingCompletions ts.
Proof. intros H. exact (count_delete (fun tm => isOnCompleteCb (cb tm)) ts i tm H). Qed.

Lemma completions_hit key T l :
  completions key ((T, EvOnComplete key) :: l) = S (completions key l).
Proof. unfold completions. simpl. rewrite bool_decide_true by reflexivity. reflexivity. Qed.

Section OneCompletion.
Variables (key : string) (D t : Z) (base : nat) (l0 : list (Z * Event)).

Lemma completing_fire w i tm :
  completing key D t base l0 w ->
  earliest (timers w) = Some (i, tm) -> due tm <= t ->
  completing key D t base l0 (fire w).
Proof.
  intros (Hall & Hsum & Hbase & Hmem & Hnow & Hlate) He Hdue.
  unfold fire. rewrite He.
  apply earliest_spec in He as [Hi Hmin].
  pose proof (pendingCompletions_delete _ _ _ Hi) as Hdel.
  assert (Htm : calm (cb tm) \/ (cb tm = CbOnComplete key /\ due tm = D)).
  { rewrite Forall_forall in Hall. apply Hall. eapply list_elem_of_lookup_2. exact Hi. }
  assert (Hrest := Forall_delete _ _ i Hall).
  destruct Htm as [Hcalm|[Hcb HD]].
  - (* a calm timer *)
    assert (Hnot : isOnCompleteCb (cb tm) = false) by (destruct (cb tm); simpl in *; tauto).
    rewrite Hnot in Hdel.
    destruct (runCallback_calm (cb tm) (dequeue i tm w) Hcalm) as (K & Hd & Hk).
    apply does_inv in Hd as (Hn & _ & (new & Hl & Hnew) & (added & Ht & Hadd & _)).
    apply stamped_notComplete in Hnew.
    assert (Hq : completing key D t base l0 (runCallback (cb tm) (dequeue i tm w)).1).
    { unfold completing. rewrite Hl, Ht, Hn. simpl.
      rewrite pendingCompletions_app, completions_app.
      rewrite (calm_not_onComplete added Hadd), (notComplete_completions key new Hnew).
      repeat split.
      - apply Forall_app. split; [exact Hrest|].
        eapply Forall_impl; [exact Hadd|]. intros; left; assumption.
      - lia.
      - lia.
      - intros t' Hin. apply elem_of_app in Hin as [Hin|Hin]; [|auto].
        exfalso. exact (notComplete_not_in key t' new Hnew Hin).
      - intros Hp.
        assert (Hp' : pendingCompletions (timers w) <> 0%nat) by lia.
        specialize (Hnow Hp').
        destruct (count_pos_elem _ _ Hp') as (tmo & Hin & Hoc).
        rewrite Forall_forall in Hall. destruct (Hall _ Hin) as [Hc|[_ Hdo]].
        + destruct (cb tmo); simpl in *; try discriminate; tauto.
        + specialize (Hmin _ Hin). lia.
      - intros Hp. apply Hlate. lia. }
    unfold rearm.
    destruct (runCallback (cb tm) (dequeue i tm w)) as [w2 k]. simpl in *.
    destruct k as [c'|]; [|exact Hq]. destruct (period tm) as [p|]; [|exact Hq].
    destruct Hq as (Hall' & Hsum' & Hbase' & Hmem' & Hnow' & Hlate').
    assert (Hc' : calm c') by (apply Hk; reflexivity).
    assert (Hz : isOnCompleteCb c' = false) by (destruct c'; simpl in *; tauto).
    unfold completing. simpl. rewrite pendingCompletions_app.
    assert (Hs : pendingCompletions [mkTimer (tid tm) (due tm + p) (Some p) c'] = 0%nat)
      by (unfold pendingCompletions; simpl; rewrite Hz; reflexivity).
    rewrite Hs.
    repeat split; auto.
    + apply Forall_app. split; [exact Hall'|]. constructor; [left; exact Hc'|constructor].
    + lia.
    + intros Hp. apply Hnow'. lia.
    + intros Hp. apply Hlate'. lia.
  - (* the onComplete timer of this run *)
    rewrite Hcb in *. simpl in Hdel. simpl runCallback.
    destruct (transitionDone_spec key (dequeue i tm w)) as (devs & Hl & Hdevs & Ht & Hn).
    unfold rearm. simpl.
    assert (Hp' : pendingCompletions (timers w) <> 0%nat) by lia.
    specialize (Hnow Hp').
    assert (HnowD : Z.max (now w) (due tm) = D) by lia.
    assert (Hnc : Forall (fun te : Z * Event => notComplete te.2) devs).
    { eapply Forall_impl; [exact Hdevs|]. intros te. apply device_notComplete. }
    unfold completing. rewrite Hl, Ht, Hn. simpl. rewrite HnowD.
    rewrite completions_app, (notComplete_completions key devs Hnc), completions_hit.
    repeat split.
    + exact Hrest.
    + lia.
    + lia.
    + intros t' Hin. apply elem_of_app in Hin as [Hin|Hin].
      * exfalso. exact (notComplete_not_in key t' devs Hnc Hin).
      * apply elem_of_cons in Hin as [[= ->]|Hin]; [right; reflexivity|auto].
    + intros _. lia.
    + intros _. lia.
Qed.

Lemma completing_start cfg w :
  TRANSITIONS key = Some cfg -> scenePresent w = true ->
  Forall (fun tm => calm (cb tm)) (timers w) ->
  D = now w + Z.max 0 (duration cfg) ->
  base = completions key (log w) -> l0 = log w ->
  completing key D t base l0 (runSceneTransition key w).
Proof.
  intros Hcfg Hscene Hcalm HD Hbase Hl0.
  destruct (runSceneTransition_shape key cfg w Hcfg Hscene) as (pre & -> & Hd).
  apply does_inv in Hd as (Hn & _ & (new & Hl & Hnew) & (added & Ht & Hadd & _)).
  apply stamped_notComplete in Hnew.
  unfold completing. simpl. rewrite Hl, Ht, Hn.
  rewrite !pendingCompletions_app, completions_app.
  rewrite (calm_not_onComplete (timers w) Hcalm), (calm_not_onComplete added Hadd),
    (notComplete_completions key new Hnew).
  subst base l0 D.
  repeat split.
  - rewrite <- !app_assoc. apply Forall_app. split.
    + eapply Forall_impl; [exact Hcalm|]. intros; left; assumption.
    + apply Forall_app. split.
      * eapply Forall_impl; [exact Hadd|]. intros; left; assumption.
      * constructor; [left; exact I|].
        constructor; [right; split; reflexivity|constructor].
  - unfold pendingCompletions. simpl. lia.
  - lia.
  - intros t' Hin. apply elem_of_app in Hin as [Hin|Hin]; [|auto].
    exfalso. exact (notComplete_not_in key t' new Hnew Hin).
  - intros _. lia.
  - unfold pendingCompletions. simpl. lia.
Qed.

Lemma completing_settle w :
  completing key D t base l0 w ->
  (forall tm, tm ∈ timers w -> t < due tm) ->
  completions key (log w) = (base + (if (t <? D)%Z then 0 else 1))%nat
  /\ (forall t', (t', EvOnComplete key) ∈ log w -> (t', EvOnComplete key) ∈ l0 \/ t' = D).
Proof.
  intros (Hall & Hsum & Hbase & Hmem & Hnow & Hlate) Hquiet.
  split; [|exact Hmem].
  destruct (Z.ltb_spec t D) as [Hlt|Hge].
  - assert (pendingCompletions (timers w) <> 0%nat) by (intros H0; specialize (Hlate H0); lia).
    lia.
  - destruct (Nat.eq_dec (pendingCompletions (timers w)) 0%nat) as [H0|Hne]; [lia|].
    exfalso. destruct (count_pos_elem _ _ Hne) as (tmo & Hin & Hoc).
    rewrite Forall_forall in Hall. destruct (Hall _ Hin) as [Hc|[_ Hdo]].
    + destruct (cb tmo); simpl in *; try discriminate; tauto.
    + specialize (Hquiet _ Hin). lia.
Qed.
End OneCompletion.

(** C7: a run of a configured transition whose duration is 5500 ms, started
    with the scene container present and no other transition in flight or
    about to be started by a pending bubble removal, invokes its
    [onComplete] exactly once: not before 5500 ms after the start, and at
    that very instant. *)
Theorem onComplete_exactly_once (w : World) (key : string) (cfg : TransitionCfg) (t : Z) :
  TRANSITIONS key = Some cfg ->
  duration cfg = 5500 ->
  scenePresent w = true ->
  Forall (fun tm => calm (cb tm)) (timers w) ->
  let w' := advance t (runSceneTransition key w) in
  completions key (log w')
  = (completions key (log w) + (if (t <? now w + 5500)%Z then 0 else 1))%nat
  /\ (forall t', (t', EvOnComplete key) ∈ log w' ->
                (t', EvOnComplete key) ∈ log w \/ t' = now w + 5500).
Proof.
  intros Hcfg Hdur Hscene Hcalm w'. subst w'.
  apply (advance_ind
           (completing key (now w + 5500) t (completions key (log w)) (log w))
           (fun w' => completions key (log w')
                      = (completions key (log w) + (if (t <? now w + 5500)%Z then 0 else 1))%nat
                      /\ (forall t', (t', EvOnComplete key) ∈ log w' ->
                                    (t', EvOnComplete key) ∈ log w \/ t' = now w + 5500))
           t).
  - intros w0 i tm. apply completing_fire.
  - intros w0 Hinv Hquiet. exact (completing_settle _ _ _ _ _ w0 Hinv Hquiet).
  - apply (completing_start key _ t _ _ cfg); auto. rewrite Hdur. reflexivity.
Qed.

(** The 2-3 transition started at time 0 in scene 2: no completion by
    5499 ms, exactly one by 5500 ms. *)
Lemma onComplete_exactly_once_witness :
  completions "2-3" (log (advance 5499 (runSceneTransition "2-3" scene2Page))) = 0%nat
  /\ completions "2-3" (log (advance 5500 (runSceneTransition "2-3" scene2Page))) = 1%nat.
Proof.
  split.
  - exact (proj1 (onComplete_exactly_once scene2Page "2-3" (mkTransition 5500 500 300) 5499
                    eq_refl eq_refl eq_refl (List.Forall_nil _))).
  - exact (proj1 (onComplete_exactly_once scene2Page "2-3" (mkTransition 5500 500 300) 5500
                    eq_refl eq_refl eq_refl (List.Forall_nil _))).
Defined.

(** ** An envelope alone on the ambient layers *)

Lemma foldl_keeps {A B} (g : World -> B) (f : World -> A -> World) (l : list A) :
  (forall w x, g (f w x) = g w) -> forall w, g (foldl f w l) = g w.
Proof.
  intros Hf. induction l as [|x l IH]; intros w; simpl; [reflexivity|].
  rewrite IH. apply Hf.
Qed.

Lemma emits_am es w : am (emits es w) = am w.
Proof. unfold emits. apply (foldl_keeps am). reflexivity. Qed.

Lemma emitEach_am f m w : am (emitEach f m w) = am w.
Proof. unfold emitEach. apply (foldl_keeps am). intros. apply emits_am. Qed.

Lemma playTrack_ambient tr w :
  ambientLayers (am (playTrack tr w)) = ambientLayers (am w).
Proof.
  unfold playTrack. destruct (negb _); [reflexivity|].
  destruct (oneShot (am w) tr); reflexivity.
Qed.

Lemma stopTransition_ambient w :
  ambientLayers (am (stopTransition w)) = ambientLayers (am w).
Proof. unfold stopTransition. destruct (transitionAudio (am w)); reflexivity. Qed.

Lemma onComplete_am key w : am (onComplete key w) = am w.
Proof. unfold onComplete. cbv zeta. repeat destruct (decide _); reflexivity. Qed.

Lemma showContent_ambient b shown w :
  ambientLayers (am (showContent b shown w)) = ambientLayers (am w).
Proof.
  unfold showContent. destruct (elems (doc w) !! b) as [el|]; [|reflexivity].
  cbv zeta. cbn [am setTimeout].
  rewrite (foldl_keeps (fun w => ambientLayers (am w))).
  - destruct (isFirstBubble el); [rewrite playTrack_ambient|]; reflexivity.
  - intros w0 ct. destruct (hasClass ct.1 el); [apply playTrack_ambient|reflexivity].
Qed.

Lemma animateSentences_am b shown w : am (animateSentences b shown w) = am w.
Proof. unfold animateSentences. apply (foldl_keeps am). reflexivity. Qed.

Lemma runCallback_inert c w :
  isInert c = true ->
  ambientLayers (am (runCallback c w).1) = ambientLayers (am w)
  /\ (exists added, timers (runCallback c w).1 = timers w ++ added
                    /\ Forall (fun tm => isInert (cb tm) = true) added)
  /\ (forall c', (runCallback c w).2 = Some c' -> isInert c' = true).
Proof.
  intros Hc.
  assert (Happ : forall K w', does (fun _ => True) (fun c => isInert c = true) K w w' ->
            exists added, timers w' = timers w ++ added
                          /\ Forall (fun tm => isInert (cb tm) = true) added).
  { intros K w' Hd. apply does_inv in Hd as (_ & _ & _ & (added & Ha & Hf & _)).
    exists added. split; assumption. }
  destruct c; try discriminate Hc; simpl runCallback.
  - (* bird fade-in *)
    destruct (does_tickBirdFadeIn (fun _ => True) (fun c => isInert c = true) step w)
      as (K & Hd & _).
    split; [|split; [exact (Happ _ _ Hd)|]].
    + unfold tickBirdFadeIn. cbv zeta. destruct (bool_decide _); reflexivity.
    + unfold tickBirdFadeIn. cbv zeta.
      destruct (bool_decide _); simpl; intros c' [= <-]; reflexivity.
  - split; [|split; [|discriminate]].
    + simpl. unfold playCrowSound. destruct (negb _); reflexivity.
    + cbn [fst]. eapply Happ.
      eapply does_seq; [apply does_playCrowSound; intros; exact I|apply does_setAm|reflexivity].
  - split; [|split; [|discriminate]].
    + simpl. unfold transitionDone. cbv zeta.
      destruct (usesSteps key); rewrite ?stopTransition_ambient, onComplete_am; reflexivity.
    + cbn [fst]. eapply Happ. apply does_transitionDone; intros; exact I.
  - split; [reflexivity|split; [|discriminate]].
    cbn [fst]. eapply Happ. apply does_populate. exact I.
  - split; [reflexivity|split; [|discriminate]].
    cbn [fst]. eapply Happ. apply does_bubbleAddClass.
  - split; [reflexivity|split; [|discriminate]].
    cbn [fst]. eapply Happ. apply does_backgroundPhase. intros; reflexivity.
  - split; [reflexivity|split; [|discriminate]].
    cbn [fst]. eapply Happ. apply does_bubbleAddClass.
  - split; [|split; [|discriminate]].
    + simpl. unfold revealPhase. destruct (expansions w !! x); reflexivity.
    + cbn [fst]. eapply Happ. apply does_revealPhase; intros; try exact I; reflexivity.
  - split; [apply showContent_ambient|split; [|discriminate]].
    cbn [fst]. eapply Happ. apply does_showContent; intros; try exact I; reflexivity.
  - split; [simpl; rewrite animateSentences_am; reflexivity|split; [|discriminate]].
    cbn [fst]. eapply Happ. apply does_animateSentences. intros; reflexivity.
  - split; [reflexivity|split; [|discriminate]].
    cbn [fst]. eapply Happ. apply does_emit. exact I.
Qed.

Lemma count_zero_Forall {A} (q : A -> bool) (l : list A) :
  count q l = 0%nat -> Forall (fun x => q x = false) l.
Proof.
  induction l as [|x l IH]; simpl; [constructor|].
  destruct (q x) eqn:Hx; [discriminate|]. simpl. intros H. constructor; auto.
Qed.

Lemma writeVolumes_lookup f sv m id :
  writeVolumes f sv m !! id
  = (fun a => match sv !! id with Some s => withVolume (f s) a | None => a end) <$> m !! id.
Proof. unfold writeVolumes. rewrite map_lookup_imap. destruct (m !! id); reflexivity. Qed.

Lemma writeVolumes_overwrite f g sv m :
  writeVolumes g sv (writeVolumes f sv m) = writeVolumes g sv m.
Proof.
  apply map_eq. intros id. rewrite !writeVolumes_lookup.
  destruct (m !! id) as [a|]; simpl; [|reflexivity].
  destruct (sv !! id); reflexivity.
Qed.

Lemma writeVolumes_paused f g sv m :
  writeVolumes g sv (withPaused true <$> writeVolumes f sv m)
  = withPaused true <$> writeVolumes g sv m.
Proof.
  apply map_eq. intros id. rewrite !writeVolumes_lookup, !lookup_fmap, !writeVolumes_lookup.
  destruct (m !! id) as [a|]; simpl; [|reflexivity].
  destruct (sv !! id); reflexivity.
Qed.

Section Envelope.
Variables (mk : nat -> Callback) (stateAt : nat -> gmap string Audio) (T0 p t : Z).
Hypothesis Hp : 0 < p.
Hypothesis Hmk : forall s, isInert (mk s) = false.
Hypothesis Htick : forall s w,
  (s < 50)%nat -> ambientLayers (am w) = stateAt s ->
  ambientLayers (am (runCallback (mk s) w).1) = stateAt (S s)
  /\ timers (runCallback (mk s) w).1 = timers w
  /\ (runCallback (mk s) w).2 = (if (S s <? 50)%nat then Some (mk (S s)) else None).

Lemma fading_fire w i tm :
  fading mk stateAt T0 p t w ->
  earliest (timers w) = Some (i, tm) -> due tm <= t ->
  fading mk stateAt T0 p t (fire w).
Proof.
  intros (s & Hs & Hlayers & Hall & Hcount & Htime) He Hdue.
  unfold fire. rewrite He.
  apply earliest_spec in He as [Hi _].
  pose proof (count_delete (fun tm => negb (isInert (cb tm))) _ _ _ Hi) as Hdel.
  cbv beta in Hdel.
  assert (Htm : isInert (cb tm) = true
                \/ (cb tm = mk s /\ due tm = T0 + Z.of_nat (S s) * p /\ period tm = Some p)).
  { rewrite Forall_forall in Hall. apply Hall. eapply list_elem_of_lookup_2. exact Hi. }
  assert (Hrest := Forall_delete _ _ i Hall).
  destruct Htm as [Hin|(Hcb & Hd & Hper)].
  - (* an inert timer *)
    rewrite Hin in Hdel. simpl in Hdel.
    destruct (runCallback_inert (cb tm) (dequeue i tm w) Hin)
      as (Hamb & (added & Ht & Hadd) & Hk).
    assert (Hadd0 : count (fun tm => negb (isInert (cb tm))) added = 0%nat).
    { apply count_none. eapply Forall_impl; [exact Hadd|].
      intros x Hx. simpl in Hx. rewrite Hx. reflexivity. }
    unfold rearm.
    destruct (runCallback (cb tm) (dequeue i tm w)) as [w2 k].
    cbn [fst snd] in *.
    assert (Hl2 : ambientLayers (am w2) = stateAt s) by (rewrite Hamb; exact Hlayers).
    change (timers (dequeue i tm w)) with (delete i (timers w)) in Ht.
    assert (Hall2 : Forall (fun tm0 => isInert (cb tm0) = true
                      \/ (cb tm0 = mk s /\ due tm0 = T0 + Z.of_nat (S s) * p
                          /\ period tm0 = Some p)) (timers w2)).
    { rewrite Ht. apply Forall_app. split; [exact Hrest|].
      eapply Forall_impl; [exact Hadd|]. intros; left; assumption. }
    assert (Hc2 : count (fun tm => negb (isInert (cb tm))) (timers w2)
                  = (if (s <? 50)%nat then 1 else 0)%nat).
    { rewrite Ht, count_app, Hadd0. lia. }
    exists s. split; [exact Hs|].
    destruct k as [c'|]; [destruct (period tm) as [q|]|]; cbn [am timers setTimers];
      try (split; [exact Hl2|split; [exact Hall2|split; [exact Hc2|exact Htime]]]).
    split; [exact Hl2|]. split; [|split; [|exact Htime]].
    + apply Forall_app. split; [exact Hall2|].
      constructor; [left; apply Hk; reflexivity|constructor].
    + rewrite count_app, Hc2. simpl. rewrite (Hk c' eq_refl). simpl. lia.
  - (* the envelope's tick *)
    rewrite Hcb, Hmk in Hdel. simpl in Hdel.
    assert (Hlt : (s < 50)%nat).
    { destruct (Nat.ltb_spec s 50); [assumption|]. rewrite Hcount in Hdel. lia. }
    destruct (Nat.ltb_spec s 50) as [_|]; [|lia].
    assert (Hzero : count (fun tm => negb (isInert (cb tm))) (delete i (timers w)) = 0%nat)
      by lia.
    assert (Hinert : Forall (fun tm => isInert (cb tm) = true) (delete i (timers w))).
    { apply count_zero_Forall in Hzero. eapply Forall_impl; [exact Hzero|].
      intros x Hx. simpl in Hx. destruct (isInert (cb x)); [reflexivity|discriminate]. }
    destruct (Htick s (dequeue i tm w) Hlt Hlayers) as (Hl' & Ht' & Hk').
    unfold rearm. rewrite Hcb, Hk', Hper.
    exists (S s). split; [lia|].
    destruct (Nat.ltb_spec (S s) 50) as [Hnext|Hlast]; simpl.
    + split; [exact Hl'|]. rewrite Ht'. simpl. rewrite count_app, Hzero. simpl.
      rewrite Hmk. simpl. split; [|split; [reflexivity|intros _; lia]].
      apply Forall_app. split.
      * eapply Forall_impl; [exact Hinert|]. intros; left; assumption.
      * constructor; [|constructor]. right. simpl. repeat split. lia.
    + split; [exact Hl'|]. rewrite Ht'. simpl. rewrite Hzero.
      split; [|split; [reflexivity|intros _; lia]].
      eapply Forall_impl; [exact Hinert|]. intros; left; assumption.
Qed.

Lemma fading_settle w :
  fading mk stateAt T0 p t w ->
  (forall tm, tm ∈ timers w -> t < due tm) ->
  forall (k : nat) r, (k <= 50)%nat -> 0 <= r -> ((k < 50)%nat -> r < p) ->
    t = T0 + Z.of_nat k * p + r ->
    ambientLayers (am (settle t w)) = stateAt k.
Proof.
  intros (s & Hs & Hlayers & Hall & Hcount & Htime) Hquiet k r Hk Hr Hrp Ht.
  simpl. rewrite Hlayers. f_equal.
  destruct (Nat.ltb_spec s 50) as [Hlt|Hge].
  - assert (Hne : count (fun tm => negb (isInert (cb tm))) (timers w) <> 0%nat) by lia.
    destruct (count_pos_elem _ _ Hne) as (tm & Hin & Hnon).
    rewrite Forall_forall in Hall. destruct (Hall _ Hin) as [Hi|(_ & Hd & _)].
    + rewrite Hi in Hnon. discriminate.
    + specialize (Hquiet _ Hin).
      destruct (Nat.lt_trichotomy s k) as [Hsk|[->|Hks]]; [|reflexivity|].
      * exfalso. assert (Z.of_nat (S s) * p <= Z.of_nat k * p) by nia. lia.
      * exfalso. assert (Hpos : (0 < s)%nat) by lia. specialize (Htime Hpos).
        assert (Z.of_nat (S k) * p <= Z.of_nat s * p) by nia.
        assert (r < p) by (apply Hrp; lia). nia.
  - assert (s = 50%nat) by lia. subst s.
    destruct (Nat.eq_dec k 50%nat) as [->|Hne]; [reflexivity|].
    exfalso. specialize (Htime ltac:(lia)).
    assert (r < p) by (apply Hrp; lia).
    assert (Z.of_nat (S k) * p <= Z.of_nat 50 * p) by nia. nia.
Qed.

Lemma fading_run w (k : nat) r :
  fading mk stateAt T0 p t w ->
  (k <= 50)%nat -> 0 <= r -> ((k < 50)%nat -> r < p) ->
  t = T0 + Z.of_nat k * p + r ->
  ambientLayers (am (advance t w)) = stateAt k.
Proof.
  intros Hf Hk Hr Hrp Ht.
  apply (advance_ind (fading mk stateAt T0 p t)
           (fun w' => ambientLayers (am w') = stateAt k) t).
  - intros w0 i tm. apply fading_fire.
  - intros w0 H0 Hq. exact (fading_settle w0 H0 Hq k r Hk Hr Hrp Ht).
  - exact Hf.
Qed.
End Envelope.

Lemma emitEach_timers f m w : timers (emitEach f m w) = timers w.
Proof.
  unfold emitEach. apply (foldl_keeps timers). intros w0 x.
  unfold emits. apply (foldl_keeps timers). reflexivity.
Qed.

Lemma haltLayers_spec w :
  ambientLayers (am (haltLayers w)) = withPaused true <$> ambientLayers (am w)
  /\ timers (haltLayers w) = timers w.
Proof.
  unfold haltLayers, forAmbient. simpl. rewrite emitEach_am, emitEach_timers. split; reflexivity.
Qed.

Lemma envelopeAt_next f halts base s m :
  m = envelopeAt f halts base s -> (s < 50)%nat ->
  (if halts && bool_decide (steps <= S s)%nat
   then withPaused true <$> writeVolumes (f (S s)) (volume <$> base) m
   else writeVolumes (f (S s)) (volume <$> base) m)
  = envelopeAt f halts base (S s).
Proof.
  intros -> Hs.
  assert (Hw : writeVolumes (f (S s)) (volume <$> base) (envelopeAt f halts base s)
               = writeVolumes (f (S s)) (volume <$> base) base).
  { unfold envelopeAt. cbv zeta. destruct (decide (s = 0%nat)); [reflexivity|].
    rewrite (bool_decide_eq_false_2 (steps <= s)%nat) by (unfold steps; lia).
    rewrite andb_false_r. apply writeVolumes_overwrite. }
  rewrite Hw. unfold envelopeAt. cbv zeta.
  destruct (decide (S s = 0%nat)) as [|_]; [lia|]. reflexivity.
Qed.

Lemma tickFadeToLevel_envelope level base s w :
  (s < 50)%nat ->
  ambientLayers (am w) = envelopeAt (rampToLevel level) false base s ->
  ambientLayers (am (runCallback (CbFadeToLevel (volume <$> base) level s) w).1)
  = envelopeAt (rampToLevel level) false base (S s)
  /\ timers (runCallback (CbFadeToLevel (volume <$> base) level s) w).1 = timers w
  /\ (runCallback (CbFadeToLevel (volume <$> base) level s) w).2
     = (if (S s <? 50)%nat then Some (CbFadeToLevel (volume <$> base) level (S s)) else None).
Proof.
  intros Hs Hl. simpl runCallback. unfold tickFadeToLevel. cbv zeta.
  pose proof (envelopeAt_next (rampToLevel level) false base s _ Hl Hs) as Hnext.
  simpl in Hnext.
  destruct (bool_decide (steps <= S s)%nat) eqn:Hb; simpl.
  - apply bool_decide_eq_true in Hb. unfold steps in Hb.
    destruct (Nat.ltb_spec (S s) 50); [lia|]. repeat split. exact Hnext.
  - apply bool_decide_eq_false in Hb. unfold steps in Hb.
    destruct (Nat.ltb_spec (S s) 50); [|lia]. repeat split. exact Hnext.
Qed.

Lemma tickFadeOut_envelope base s w :
  (s < 50)%nat ->
  ambientLayers (am w) = envelopeAt rampOut true base s ->
  ambientLayers (am (runCallback (CbFadeOut (volume <$> base) s) w).1)
  = envelopeAt rampOut true base (S s)
  /\ timers (runCallback (CbFadeOut (volume <$> base) s) w).1 = timers w
  /\ (runCallback (CbFadeOut (volume <$> base) s) w).2
     = (if (S s <? 50)%nat then Some (CbFadeOut (volume <$> base) (S s)) else None).
Proof.
  intros Hs Hl. simpl runCallback. unfold tickFadeOut. cbv zeta.
  pose proof (envelopeAt_next rampOut true base s _ Hl Hs) as Hnext.
  simpl andb in Hnext.
  destruct (bool_decide (steps <= S s)%nat) eqn:Hb; cbn [fst snd].
  - apply bool_decide_eq_true in Hb. unfold steps in Hb.
    destruct (Nat.ltb_spec (S s) 50); [lia|].
    destruct (haltLayers_spec
                (forAmbient (writeVolumes (fun startVol => (startVol * (1 - progressOf (S s)))%Q)
                               (volume <$> base)) w)) as [Ha Ht].
    rewrite Ha, Ht. repeat split. exact Hnext.
  - apply bool_decide_eq_false in Hb. unfold steps in Hb.
    destruct (Nat.ltb_spec (S s) 50); [|lia]. repeat split. exact Hnext.
Qed.

Lemma stepDuration_exact p : stepDuration (50 * p) = p.
Proof. unfold stepDuration, steps. simpl Z.of_nat. rewrite Z.mul_comm. apply Z.div_mul. lia. Qed.

Lemma inert_count ts :
  Forall (fun tm => isInert (cb tm) = true) ts ->
  count (fun tm => negb (isInert (cb tm))) ts = 0%nat.
Proof.
  intros H. apply count_none. eapply Forall_impl; [exact H|].
  intros x Hx. simpl in Hx. rewrite Hx. reflexivity.
Qed.

(** A fresh envelope on layers that nothing else drives. *)
Lemma fading_start mk f halts w p t :
  0 < p -> (forall s, isInert (mk s) = false) ->
  Forall (fun tm => isInert (cb tm) = true) (timers w) ->
  fading mk (envelopeAt f halts (ambientLayers (am w))) (now w) p t
    (setInterval (mk 0%nat) (stepDuration (50 * p)) w).
Proof.
  intros Hp Hmk Hin. rewrite stepDuration_exact.
  exists 0%nat. split; [lia|]. split; [reflexivity|]. simpl.
  rewrite Z.max_r by lia. split; [|split].
  - apply Forall_app. split.
    + eapply Forall_impl; [exact Hin|]. intros; left; assumption.
    + constructor; [|constructor]. right. simpl. repeat split. lia.
  - rewrite count_app, (inert_count _ Hin). simpl. rewrite Hmk. reflexivity.
  - intros H. lia.
Qed.

Lemma envelopeAt_lookup f halts base id a k :
  base !! id = Some a ->
  envelopeAt f halts base k !! id
  = Some (if decide (k = 0%nat) then a
          else if halts && bool_decide (steps <= k)%nat
               then withPaused true (withVolume (f k (volume a)) a)
               else withVolume (f k (volume a)) a).
Proof.
  intros Ha. unfold envelopeAt. cbv zeta.
  destruct (decide (k = 0%nat)); [exact Ha|].
  destruct (halts && _); rewrite ?lookup_fmap, writeVolumes_lookup, lookup_fmap, Ha;
    reflexivity.
Qed.

Lemma nonempty_size (m : gmap string Audio) id a :
  m !! id = Some a -> bool_decide (size m = 0%nat) = false.
Proof.
  intros Hm. apply bool_decide_eq_false. intros Hz.
  apply map_size_empty_inv in Hz. rewrite Hz, lookup_empty in Hm. discriminate.
Qed.

Lemma rampOut_end v : (rampOut 50 v == 0)%Q.
Proof.
  unfold rampOut, progressOf. simpl Z.of_nat.
  setoid_replace (50 # 50)%Q with 1%Q using relation Qeq by reflexivity. ring.
Qed.

Lemma rampToLevel_end level v : (rampToLevel level 50 v == v * level)%Q.
Proof.
  unfold rampToLevel, progressOf. simpl Z.of_nat.
  setoid_replace (50 # 50)%Q with 1%Q using relation Qeq by reflexivity. ring.
Qed.

(** *** The trace of a fade-out *)

Lemma runCallback_log c w :
  (exists new, log (runCallback c w).1 = new ++ log w)
  /\ now (runCallback c w).1 = now w.
Proof.
  destruct (does_runCallback (fun _ => True) (fun _ => True)) with (c := c) (w := w)
    as (K & Hd & _); try (intros; exact I).
  apply does_inv in Hd as (Hn & _ & (new & Hl & _) & _).
  split; [exists new; exact Hl|exact Hn].
Qed.

Lemma halts_log (l : list (string * Audio)) : forall w,
  let w' := foldl (fun w ka => emits [EvPause (aid ka.2); EvRewind (aid ka.2)] w) w l in
  now w' = now w
  /\ exists new, log w' = new ++ log w
       /\ Forall (fun te => te.1 = now w /\ isHalt te.2) new
       /\ (forall ka, ka ∈ l -> (now w, EvPause (aid ka.2)) ∈ new
                                 /\ (now w, EvRewind (aid ka.2)) ∈ new).
Proof.
  induction l as [|ka l IH]; intros w; cbn [foldl].
  - split; [reflexivity|]. exists []. split; [reflexivity|]. split; [constructor|].
    intros ka H. inversion H.
  - destruct (IH (emits [EvPause (aid ka.2); EvRewind (aid ka.2)] w))
      as (Hn & new & Hl & Hf & Hin).
    cbv zeta. split; [rewrite Hn; reflexivity|].
    exists (new ++ [(now w, EvRewind (aid ka.2)); (now w, EvPause (aid ka.2))]).
    split; [rewrite Hl, <- app_assoc; reflexivity|]. split.
    + apply Forall_app. split; [exact Hf|].
      repeat constructor.
    + intros kb Hkb. apply elem_of_cons in Hkb as [->|Hkb].
      * split; apply elem_of_app; right.
        -- apply list_elem_of_further, list_elem_of_here.
        -- apply list_elem_of_here.
      * destruct (Hin kb Hkb) as [H1 H2].
        split; apply elem_of_app; left; assumption.
Qed.

Lemma haltLayers_log w :
  now (haltLayers w) = now w
  /\ exists new, log (haltLayers w) = new ++ log w
    /\ Forall (fun te => te.1 = now w /\ isHalt te.2) new
    /\ (forall id a, ambientLayers (am w) !! id = Some a ->
          (now w, EvPause (aid a)) ∈ new /\ (now w, EvRewind (aid a)) ∈ new).
Proof.
  destruct (halts_log (map_to_list (ambientLayers (am w))) w) as (Hn & new & Hl & Hf & Hin).
  split; [exact Hn|].
  exists new. split; [exact Hl|]. split; [exact Hf|].
  intros id a Ha. apply (Hin (id, a)). apply elem_of_map_to_list. exact Ha.
Qed.

Lemma tickFadeOut_trace sv s w id n :
  (exists a1, ambientLayers (am w) !! id = Some a1 /\ aid a1 = n) ->
  let r := runCallback (CbFadeOut sv s) w in
  (exists a1, ambientLayers (am r.1) !! id = Some a1 /\ aid a1 = n)
  /\ timers r.1 = timers w /\ now r.1 = now w
  /\ r.2 = (if (S s <? 50)%nat then Some (CbFadeOut sv (S s)) else None)
  /\ exists new, log r.1 = new ++ log w
       /\ Forall (fun te => te.1 = now w /\ isHalt te.2) new
       /\ (if (S s <? 50)%nat then new = []
           else (now w, EvPause n) ∈ new /\ (now w, EvRewind n) ∈ new).
Proof.
  intros (a1 & Ha1 & Hn). cbv zeta. simpl runCallback. unfold tickFadeOut. cbv zeta.
  set (w1 := forAmbient _ w).
  assert (Hw1 : exists a2, ambientLayers (am w1) !! id = Some a2 /\ aid a2 = n).
  { subst w1. simpl. rewrite writeVolumes_lookup, Ha1. simpl.
    destruct (sv !! id); eexists; (split; [reflexivity|exact Hn]). }
  destruct (Nat.ltb_spec (S s) 50) as [Hlt|Hge].
  - rewrite (bool_decide_eq_false_2 (steps <= S s)%nat) by (unfold steps; lia).
    cbn [fst snd]. split; [exact Hw1|]. repeat split.
    exists []. repeat split. constructor.
  - rewrite (bool_decide_eq_true_2 (steps <= S s)%nat) by (unfold steps; lia).
    cbn [fst snd]. destruct (haltLayers_spec w1) as [Hl Ht].
    destruct Hw1 as (a2 & Ha2 & Hn2). split.
    + rewrite Hl, lookup_fmap, Ha2. eexists. split; [reflexivity|exact Hn2].
    + destruct (haltLayers_log w1) as (Hnw & new & Hlog & Hf & Hin).
      split; [rewrite Ht; reflexivity|]. split; [exact Hnw|]. split; [reflexivity|].
      exists new. split; [exact Hlog|]. split; [exact Hf|].
      destruct (Hin id a2 Ha2) as [H1 H2]. rewrite Hn2 in H1, H2. split; assumption.
Qed.

Section FadeOutTrace.
Variables (sv : gmap string Q) (id : string) (n : nat) (T0 p t : Z)
          (l0 : list (Z * Event)) (alone : bool).
Hypothesis Hp : 0 < p.

Lemma haltingOut_fire w i tm :
  haltingOut sv id n T0 p t l0 alone w ->
  earliest (timers w) = Some (i, tm) -> due tm <= t ->
  haltingOut sv id n T0 p t l0 alone (fire w).
Proof.
  intros (s & Hs & Hlay & Hall & Hcount & Hnow & Htime & Hpos & Halone) He Hdue.
  unfold fire. rewrite He.
  apply earliest_spec in He as [Hi Hmin].
  assert (Hintm : tm ∈ timers w) by (eapply list_elem_of_lookup_2; exact Hi).
  pose proof (count_delete (fun tm => negb (isInert (cb tm))) _ _ _ Hi) as Hdel.
  cbv beta in Hdel.
  assert (Htm : isInert (cb tm) = true
                \/ (cb tm = CbFadeOut sv s /\ due tm = T0 + Z.of_nat (S s) * p
                    /\ period tm = Some p)).
  { rewrite Forall_forall in Hall. apply Hall. exact Hintm. }
  assert (Hrest := Forall_delete _ _ i Hall).
  destruct Htm as [Hin|(Hcb & Hd & Hper)].
  - (* another timer *)
    rewrite Hin in Hdel. simpl in Hdel.
    destruct (runCallback_inert (cb tm) (dequeue i tm w) Hin)
      as (Hamb & (added & Ht & Hadd) & Hk).
    destruct (runCallback_log (cb tm) (dequeue i tm w)) as [[new Hlog] Hn2].
    assert (Hadd0 : count (fun tm => negb (isInert (cb tm))) added = 0%nat)
      by (apply inert_count; exact Hadd).
    unfold rearm.
    destruct (runCallback (cb tm) (dequeue i tm w)) as [w2 k].
    cbn [fst snd] in *.
    change (timers (dequeue i tm w)) with (delete i (timers w)) in Ht.
    change (log (dequeue i tm w)) with (log w) in Hlog.
    change (now (dequeue i tm w)) with (Z.max (now w) (due tm)) in Hn2.
    change (ambientLayers (am (dequeue i tm w))) with (ambientLayers (am w)) in Hamb.
    assert (Hall2 : Forall (fun tm0 => isInert (cb tm0) = true
                      \/ (cb tm0 = CbFadeOut sv s /\ due tm0 = T0 + Z.of_nat (S s) * p
                          /\ period tm0 = Some p)) (timers w2)).
    { rewrite Ht. apply Forall_app. split; [exact Hrest|].
      eapply Forall_impl; [exact Hadd|]. intros; left; assumption. }
    assert (Hc2 : count (fun tm => negb (isInert (cb tm))) (timers w2)
                  = (if (s <? 50)%nat then 1 else 0)%nat).
    { rewrite Ht, count_app, Hadd0. lia. }
    assert (Hnow2 : (s < 50)%nat -> now w2 <= T0 + Z.of_nat (S s) * p).
    { intros Hlt. specialize (Hnow Hlt). rewrite Hn2.
      assert (Hne : count (fun tm => negb (isInert (cb tm))) (timers w) <> 0%nat).
      { rewrite Hcount. destruct (Nat.ltb_spec s 50); lia. }
      destruct (count_pos_elem _ _ Hne) as (env & Henv & Hnon).
      rewrite Forall_forall in Hall. destruct (Hall _ Henv) as [Hie|(_ & Hde & _)].
      - rewrite Hie in Hnon. discriminate.
      - specialize (Hmin _ Henv). lia. }
    assert (Hpos2 : s = 50%nat -> (T0 + 50 * p, EvPause n) ∈ log w2
                                  /\ (T0 + 50 * p, EvRewind n) ∈ log w2).
    { intros H50. destruct (Hpos H50) as [H1 H2]. rewrite Hlog.
      split; apply elem_of_app; right; assumption. }
    assert (Halone2 : alone = true ->
              Forall (fun tm => isInert (cb tm) = false) (timers w2)
              /\ exists new, log w2 = new ++ l0
                   /\ Forall (fun te => te.1 = T0 + 50 * p /\ isHalt te.2) new
                   /\ ((s < 50)%nat -> new = [])).
    { intros Ha. exfalso. destruct (Halone Ha) as [Hnon _].
      rewrite Forall_forall in Hnon. rewrite (Hnon _ Hintm) in Hin. discriminate. }
    exists s. split; [exact Hs|]. rewrite <- Hamb in Hlay.
    destruct k as [c'|]; [destruct (period tm) as [q|]|];
      cbn [am timers log now setTimers];
      try (split; [exact Hlay|split; [exact Hall2|split; [exact Hc2|
           split; [exact Hnow2|split; [exact Htime|split; [exact Hpos2|exact Halone2]]]]]]).
    split; [exact Hlay|]. split; [|split; [|split; [exact Hnow2|split; [exact Htime|
      split; [exact Hpos2|]]]]].
    + apply Forall_app. split; [exact Hall2|].
      constructor; [left; apply Hk; reflexivity|constructor].
    + rewrite count_app, Hc2. simpl. rewrite (Hk c' eq_refl). simpl. lia.
    + intros Ha. exfalso. destruct (Halone Ha) as [Hnon _].
      rewrite Forall_forall in Hnon. rewrite (Hnon _ Hintm) in Hin. discriminate.
  - (* the tick of the fade-out *)
    rewrite Hcb in Hdel. simpl in Hdel.
    assert (Hlt : (s < 50)%nat).
    { destruct (Nat.ltb_spec s 50); [assumption|]. rewrite Hcount in Hdel. lia. }
    destruct (Nat.ltb_spec s 50) as [_|]; [|lia].
    assert (Hzero : count (fun tm => negb (isInert (cb tm))) (delete i (timers w)) = 0%nat)
      by lia.
    assert (Hinert : Forall (fun tm => isInert (cb tm) = true) (delete i (timers w))).
    { apply count_zero_Forall in Hzero. eapply Forall_impl; [exact Hzero|].
      intros x Hx. simpl in Hx. destruct (isInert (cb x)); [reflexivity|discriminate]. }
    specialize (Hnow Hlt).
    destruct (tickFadeOut_trace sv s (dequeue i tm w) id n Hlay)
      as (Hlay' & Ht' & Hn' & Hk' & new & Hlog & Hf & Hnew).
    change (log (dequeue i tm w)) with (log w) in Hlog.
    change (now (dequeue i tm w)) with (Z.max (now w) (due tm)) in Hn', Hf, Hnew.
    change (timers (dequeue i tm w)) with (delete i (timers w)) in Ht'.
    rewrite Z.max_r in Hn', Hf, Hnew by lia.
    unfold rearm. rewrite Hcb, Hk', Hper.
    exists (S s). split; [lia|].
    destruct (Nat.ltb_spec (S s) 50) as [Hnext|Hlast];
      cbn [am timers log now setTimers].
    + split; [exact Hlay'|]. rewrite Ht'. split; [|split; [|split; [|split; [|split]]]].
      * apply Forall_app. split.
        -- eapply Forall_impl; [exact Hinert|]. intros; left; assumption.
        -- constructor; [|constructor]. right. simpl. repeat split. lia.
      * rewrite count_app, Hzero. reflexivity.
      * intros _. rewrite Hn'. lia.
      * intros _. lia.
      * intros H50. lia.
      * intros Ha. destruct (Halone Ha) as (Hnon & new0 & Hl0 & Hf0 & He0).
        split.
        -- apply Forall_app. split; [apply Forall_delete; exact Hnon|].
           constructor; [reflexivity|constructor].
        -- exists new0. rewrite Hlog, Hnew. split; [exact Hl0|].
           split; [exact Hf0|]. intros _. apply He0. exact Hlt.
    + assert (H50 : S s = 50%nat) by lia.
      assert (HT : due tm = T0 + 50 * p) by (rewrite Hd, H50; reflexivity).
      rewrite HT in Hf, Hnew.
      split; [exact Hlay'|]. rewrite Ht'. split; [|split; [|split; [|split; [|split]]]].
      * eapply Forall_impl; [exact Hinert|]. intros; left; assumption.
      * exact Hzero.
      * intros Hlt'. lia.
      * intros _. lia.
      * intros _. rewrite Hlog. destruct Hnew as [H1 H2].
        split; apply elem_of_app; left; assumption.
      * intros Ha. destruct (Halone Ha) as (Hnon & new0 & Hl0 & Hf0 & He0).
        split; [apply Forall_delete; exact Hnon|].
        exists new. rewrite Hlog, Hl0, (He0 Hlt). split; [reflexivity|].
        split; [exact Hf|]. intros Hlt'. lia.
Qed.

Lemma haltingOut_run w (k : nat) r :
  haltingOut sv id n T0 p t l0 alone w ->
  (k <= 50)%nat -> 0 <= r -> ((k < 50)%nat -> r < p) ->
  t = T0 + Z.of_nat k * p + r ->
  let w' := advance t w in
  (k = 50%nat -> (T0 + 50 * p, EvPause n) ∈ log w' /\ (T0 + 50 * p, EvRewind n) ∈ log w')
  /\ (alone = true ->
      exists new, log w' = new ++ l0
        /\ Forall (fun te => te.1 = T0 + 50 * p /\ isHalt te.2) new
        /\ ((k < 50)%nat -> new = [])).
Proof.
  intros Hf Hk Hr Hrp Ht. cbv zeta.
  apply (advance_ind (haltingOut sv id n T0 p t l0 alone)
           (fun w' => (k = 50%nat -> (T0 + 50 * p, EvPause n) ∈ log w'
                                     /\ (T0 + 50 * p, EvRewind n) ∈ log w')
                      /\ (alone = true ->
                          exists new, log w' = new ++ l0
                            /\ Forall (fun te => te.1 = T0 + 50 * p /\ isHalt te.2) new
                            /\ ((k < 50)%nat -> new = []))) t).
  - intros w0 i tm. apply haltingOut_fire.
  - intros w0 (s & Hs & Hlay & Hall & Hcount & Hnow & Htime & Hpos & Halone) Hquiet.
    cbn [settle log setNow]. split.
    + intros ->. apply Hpos.
      destruct (Nat.ltb_spec s 50) as [Hlt|Hge]; [|lia]. exfalso.
      assert (Hne : count (fun tm => negb (isInert (cb tm))) (timers w0) <> 0%nat) by lia.
      destruct (count_pos_elem _ _ Hne) as (env & Henv & Hnon).
      rewrite Forall_forall in Hall. destruct (Hall _ Henv) as [Hie|(_ & Hde & _)].
      * rewrite Hie in Hnon. discriminate.
      * specialize (Hquiet _ Henv).
        assert (Z.of_nat (S s) * p <= Z.of_nat 50 * p) by nia. lia.
    + intros Ha. destruct (Halone Ha) as (_ & new & Hl & Hfn & He).
      exists new. split; [exact Hl|]. split; [exact Hfn|].
      intros Hlt. apply He.
      destruct (Nat.ltb_spec s 50) as [Hs50|Hge]; [exact Hs50|]. exfalso.
      assert (s = 50%nat) by lia. subst s. specialize (Htime ltac:(lia)).
      assert (r < p) by (apply Hrp; exact Hlt).
      assert (Z.of_nat (S k) * p <= Z.of_nat 50 * p) by nia. nia.
  - exact Hf.
Qed.
End FadeOutTrace.

Lemma haltingOut_start w p t id a :
  0 < p ->
  Forall (fun tm => isInert (cb tm) = true) (timers w) ->
  ambientLayers (am w) !! id = Some a ->
  haltingOut (volume <$> ambientLayers (am w)) id (aid a) (now w) p t (log w)
    (bool_decide (timers w = []))
    (setInterval (CbFadeOut (volume <$> ambientLayers (am w)) 0) (stepDuration (50 * p)) w).
Proof.
  intros Hp Hin Ha. rewrite stepDuration_exact.
  exists 0%nat. split; [lia|]. split; [exists a; split; [exact Ha|reflexivity]|].
  cbn [timers setInterval now log]. rewrite Z.max_r by lia.
  split; [|split; [|split; [|split; [|split]]]].
  - apply Forall_app. split.
    + eapply Forall_impl; [exact Hin|]. intros; left; assumption.
    + constructor; [|constructor]. right. simpl. repeat split. lia.
  - rewrite count_app, (inert_count _ Hin). reflexivity.
  - intros _. simpl. lia.
  - intros H. lia.
  - intros H. discriminate.
  - intros Hb. apply bool_decide_eq_true in Hb. rewrite Hb. split.
    + constructor; [reflexivity|constructor].
    + exists []. repeat split. constructor.
Qed.

Lemma fadeOutDouble_end v :
  is_finite v = true -> (fadeOutDouble v 50 =? 0)%float = true.
Proof.
  intros Hf.
  assert (H : fadeOutDouble v 50 = (v * 0)%float).
  { unfold fadeOutDouble. cbv zeta.
    replace (1 - stepDouble 50 / 50)%float with 0%float by (vm_compute; reflexivity).
    reflexivity. }
  rewrite H, FloatAxioms.eqb_spec, FloatAxioms.mul_spec.
  unfold is_finite, is_nan, is_infinity in Hf.
  rewrite !FloatAxioms.eqb_spec, FloatAxioms.abs_spec in Hf.
  replace (Prim2SF infinity) with (S754_infinity false) in Hf by (vm_compute; reflexivity).
  replace (Prim2SF 0) with (S754_zero false) by (vm_compute; reflexivity).
  destruct (Prim2SF v) as [sv|sv| |sv mv ev];
    try (destruct sv; discriminate Hf); try discriminate Hf; destruct sv; reflexivity.
Qed.




(** ** Envelopes are never cancelled *)

(** C4, as stated, fails: 300 ms into the 2-3 transition the fade to 50%
    and the fade-in both drive the layers: "frogs" is written by the older
    envelope at 310 ms (about 0.17), by the newer at 316 ms (0.005) and by
    the older again at 320 ms (0.17). *)
Lemma fades_overlap_counterexample :
  ambientEnvelopes (timers (advance 299 (runSceneTransition "2-3" scene2Page))) = 1%nat
  /\ ambientEnvelopes (timers midTransition) = 2%nat
  /\ (exists v, volumeOf "frogs" (advance 310 midTransition) = Some v /\ (17 # 100 < v)%Q)
  /\ (exists v, volumeOf "frogs" (advance 316 midTransition) = Some v /\ (v < 1 # 100)%Q)
  /\ (exists v, volumeOf "frogs" (advance 320 midTransition) = Some v /\ (16 # 100 < v)%Q).
Proof.
  split; [vm_compute; reflexivity|]. split; [vm_compute; reflexivity|].
  split; [|split]; eexists; (split; [vm_compute; reflexivity|reflexivity]).
Qed.

(** An interval fires whose callback leaves the other timers alone. *)
Lemma fire_tick w i tm p c' w1 :
  earliest (timers w) = Some (i, tm) -> period tm = Some p ->
  runCallback (cb tm) (dequeue i tm w) = (w1, c') ->
  timers w1 = delete i (timers w) ->
  timers (fire w) = delete i (timers w)
                    ++ match c' with
                       | Some c => [mkTimer (tid tm) (due tm + p) (Some p) c]
                       | None => []
                       end
  /\ am (fire w) = am w1.
Proof.
  intros He Hp Hr Ht. unfold fire. rewrite He, Hr. unfold rearm. cbn [fst snd].
  rewrite Hp. destruct c'; cbn [timers am setTimers].
  - rewrite Ht. split; reflexivity.
  - rewrite Ht, app_nil_r. split; reflexivity.
Qed.

(** C4, amended: no fade cancels another.  Starting a fade keeps every
    pending timer, earlier envelopes included, and adds the interval of the
    new fade when there are layers to drive.  When the interval of an
    envelope fires, whatever else is pending, it writes the volume of
    every layer it captured: [v * (1 - s/50 * (1 - level))] for a fade to
    [level], [v * (1 - s/50)] for a fade-out, [v * s/50] for a fade-in, at
    its step [s] and from the captured [v]; the fade-out also pauses the
    layers with its last step and the fade-in writes [v] itself there.
    Every other timer stays pending, and the envelope is armed again one
    period later, except after its 50th step, when it cleared its own
    interval. *)
Theorem envelopes_never_cancelled (w : World) (level : Q) (d : Z) :
  let sv := volume <$> ambientLayers (am w) in
  (timers (fadeAmbientToLevel level d w)
   = timers w ++ envelopeTimer (CbFadeToLevel sv level 0) d w
   /\ timers (fadeOutAmbient d w) = timers w ++ envelopeTimer (CbFadeOut sv 0) d w
   /\ timers (fadeInAmbient d w) = timers w ++ envelopeTimer (CbFadeIn sv 0) d w)
  /\ (forall i tm p cap s,
        earliest (timers w) = Some (i, tm) -> period tm = Some p ->
        (cb tm = CbFadeToLevel cap level s ->
         timers (fire w)
         = delete i (timers w) ++ rearmed tm p s (CbFadeToLevel cap level (S s))
         /\ (forall id a v,
               ambientLayers (am w) !! id = Some a -> cap !! id = Some v ->
               ambientLayers (am (fire w)) !! id
               = Some (withVolume (rampToLevel level (S s) v) a)))
        /\ (cb tm = CbFadeOut cap s ->
            timers (fire w) = delete i (timers w) ++ rearmed tm p s (CbFadeOut cap (S s))
            /\ (forall id a v,
                  ambientLayers (am w) !! id = Some a -> cap !! id = Some v ->
                  ambientLayers (am (fire w)) !! id
                  = Some (if (S s <? 50)%nat then withVolume (rampOut (S s) v) a
                          else withPaused true (withVolume (rampOut (S s) v) a))))
        /\ (cb tm = CbFadeIn cap s ->
            timers (fire w) = delete i (timers w) ++ rearmed tm p s (CbFadeIn cap (S s))
            /\ (forall id a v,
                  ambientLayers (am w) !! id = Some a -> cap !! id = Some v ->
                  ambientLayers (am (fire w)) !! id
                  = Some (withVolume (rampIn (S s) v) a)))).
Proof.
  cbv zeta. split.
  - unfold fadeAmbientToLevel, fadeOutAmbient, fadeInAmbient, envelopeTimer.
    destruct (bool_decide (size (ambientLayers (am w)) = 0%nat)).
    + rewrite app_nil_r. repeat split.
    + repeat split.
  - intros i tm p cap s He Hp. unfold rearmed.
    assert (Hb : bool_decide (steps <= S s)%nat = negb (S s <? 50)%nat).
    { unfold steps. destruct (Nat.ltb_spec (S s) 50).
      - apply bool_decide_eq_false. lia.
      - apply bool_decide_eq_true. lia. }
    split; [|split]; intros Hcb.
    + destruct (fire_tick w i tm p
                  (if (S s <? 50)%nat then Some (CbFadeToLevel cap level (S s)) else None)
                  (forAmbient (writeVolumes (rampToLevel level (S s)) cap) (dequeue i tm w))
                  He Hp) as [Ht Ha].
      * rewrite Hcb. simpl runCallback. unfold tickFadeToLevel. cbv zeta. rewrite Hb.
        destruct (S s <? 50)%nat; reflexivity.
      * reflexivity.
      * split; [rewrite Ht; destruct (S s <? 50)%nat; reflexivity|].
        intros id a v Hl Hc. rewrite Ha. cbn [forAmbient am setAm ambientLayers setLayers dequeue].
        simpl. rewrite writeVolumes_lookup, Hl, Hc. reflexivity.
    + destruct (S s <? 50)%nat eqn:Hlt.
      * destruct (fire_tick w i tm p (Some (CbFadeOut cap (S s)))
                    (forAmbient (writeVolumes (rampOut (S s)) cap) (dequeue i tm w))
                    He Hp) as [Ht Ha].
        -- rewrite Hcb. simpl runCallback. unfold tickFadeOut. cbv zeta. rewrite Hb.
           reflexivity.
        -- reflexivity.
        -- split; [exact Ht|].
           intros id a v Hl Hc. rewrite Ha. simpl.
           rewrite writeVolumes_lookup, Hl, Hc. reflexivity.
      * destruct (fire_tick w i tm p None
                    (haltLayers (forAmbient (writeVolumes (rampOut (S s)) cap) (dequeue i tm w)))
                    He Hp) as [Ht Ha].
        -- rewrite Hcb. simpl runCallback. unfold tickFadeOut. cbv zeta. rewrite Hb.
           reflexivity.
        -- rewrite (proj2 (haltLayers_spec _)). reflexivity.
        -- split; [exact Ht|].
           intros id a v Hl Hc. rewrite Ha, (proj1 (haltLayers_spec _)). simpl.
           rewrite lookup_fmap, writeVolumes_lookup, Hl, Hc. reflexivity.
    + destruct (S s <? 50)%nat eqn:Hlt.
      * destruct (fire_tick w i tm p (Some (CbFadeIn cap (S s)))
                    (forAmbient (writeVolumes (fun targetVol => (targetVol * progressOf (S s))%Q) cap)
                       (dequeue i tm w))
                    He Hp) as [Ht Ha].
        -- rewrite Hcb. simpl runCallback. unfold tickFadeIn. cbv zeta. rewrite Hb.
           reflexivity.
        -- reflexivity.
        -- split; [exact Ht|].
           intros id a v Hl Hc. rewrite Ha. simpl.
           rewrite writeVolumes_lookup, Hl, Hc. unfold rampIn.
           rewrite Hb. reflexivity.
      * destruct (fire_tick w i tm p None
                    (forAmbient (writeVolumes (fun targetVol => targetVol) cap)
                       (forAmbient (writeVolumes (fun targetVol => (targetVol * progressOf (S s))%Q) cap)
                          (dequeue i tm w)))
                    He Hp) as [Ht Ha].
        -- rewrite Hcb. simpl runCallback. unfold tickFadeIn. cbv zeta. rewrite Hb.
           reflexivity.
        -- reflexivity.
        -- split; [exact Ht|].
           intros id a v Hl Hc. rewrite Ha. simpl.
           rewrite !writeVolumes_lookup, Hl, Hc. unfold rampIn.
           rewrite Hb. reflexivity.
Qed.

(** 300 ms into the 2-3 transition the fade to 50% fires as its step 31,
    with the fade-in pending: it writes "frogs", stays armed, and the
    fade-in stays pending. *)
Lemma envelopes_never_cancelled_witness :
  exists tm a,
    earliest (timers midTransition) = Some (2%nat, tm)
    /\ ambientEnvelopes (delete 2%nat (timers midTransition)) = 1%nat
    /\ timers (fire midTransition)
       = delete 2%nat (timers midTransition)
         ++ [mkTimer 0 320 (Some 10)
               (CbFadeToLevel (volume <$> ambientLayers (am scene2Page)) (1 # 2) 31)]
    /\ ambientLayers (am midTransition) !! "frogs" = Some a
    /\ ambientLayers (am (fire midTransition)) !! "frogs"
       = Some (withVolume (rampToLevel (1 # 2) 31 (1 # 4)) a).
Proof.
  pose (cap := volume <$> ambientLayers (am scene2Page)).
  pose (tm := mkTimer 0 310 (Some 10) (CbFadeToLevel cap (1 # 2) 30)).
  assert (He : earliest (timers midTransition) = Some (2%nat, tm))
    by (vm_compute; reflexivity).
  assert (Hc : cap !! "frogs" = Some (1 # 4)%Q) by (vm_compute; reflexivity).
  assert (Hn : ambientEnvelopes (delete 2%nat (timers midTransition)) = 1%nat)
    by (vm_compute; reflexivity).
  assert (Hl : exists a, ambientLayers (am midTransition) !! "frogs" = Some a)
    by (eexists; vm_compute; reflexivity).
  destruct Hl as [a Hl].
  destruct (envelopes_never_cancelled midTransition (1 # 2) 0) as [_ Hfire].
  destruct (Hfire 2%nat tm 10 cap 30%nat He eq_refl) as [Hto _].
  destruct (Hto eq_refl) as [Ht Hv].
  exists tm, a. split; [exact He|]. split; [exact Hn|]. split; [exact Ht|].
  split; [exact Hl|]. exact (Hv "frogs" a (1 # 4)%Q Hl Hc).
Defined.

(** ** Transitions are not guarded *)

Lemma does_nothing_scheduled E K w w' :
  does E (fun _ => False) K w w' -> timers w' = timers w.
Proof.
  intros H. apply does_inv in H as (_ & _ & _ & added & Ht & HF & _).
  destruct added as [|tm added]; [rewrite app_nil_r in Ht; exact Ht|].
  inversion HF as [|? ? HFalse]; destruct HFalse.
Qed.

Lemma playTransition_timers file lp v w : timers (playTransition file lp v w) = timers w.
Proof.
  apply (does_nothing_scheduled deviceEvent 0), does_playTransition. intros e He. exact He.
Qed.

Lemma playTransition_ambient file lp v w :
  ambientLayers (am (playTransition file lp v w)) = ambientLayers (am w).
Proof.
  unfold playTransition. destruct (negb _); [reflexivity|]. cbv zeta.
  unfold newAudio, playAudio. destruct lp; simpl; apply stopTransition_ambient.
Qed.

Lemma playTransition_clock file lp v w :
  now (playTransition file lp v w) = now w
  /\ nextTid (playTransition file lp v w) = nextTid w.
Proof.
  unfold playTransition, stopTransition, newAudio, playAudio, haltAudio.
  destruct (negb _); [split; reflexivity|].
  destruct (transitionAudio (am w)), lp; split; reflexivity.
Qed.

Lemma playTransition_doc file lp v w : doc (playTransition file lp v w) = doc w.
Proof.
  unfold playTransition, stopTransition, newAudio, playAudio, haltAudio.
  destruct (negb _); [reflexivity|].
  destruct (transitionAudio (am w)), lp; reflexivity.
Qed.

Lemma fade_start_timers level d w :
  timers (fadeAmbientToLevel level d w)
  = timers w ++ envelopeTimer (CbFadeToLevel (volume <$> ambientLayers (am w)) level 0) d w.
Proof.
  unfold fadeAmbientToLevel, envelopeTimer. cbv zeta.
  destruct (bool_decide _); [rewrite app_nil_r|]; reflexivity.
Qed.

Lemma usesSteps_keys key :
  usesSteps key = true -> key = "2-3" \/ key = "4-5" \/ key = "6-7".
Proof.
  unfold usesSteps. intros H.
  apply orb_true_iff in H as [H|H]; [apply orb_true_iff in H as [H|H]|];
    apply bool_decide_eq_true in H; auto.
Qed.

Lemma onStart_steps key w :
  usesSteps key = true ->
  timers (onStart key w) = timers w
  /\ log (onStart key w) = (now w, EvOnStart key) :: log w.
Proof.
  intros H. destruct (usesSteps_keys _ H) as [Hk|[Hk|Hk]]; subst key; split; reflexivity.
Qed.

(** The start phase: its event first, then device calls and, for 8-9, the
    envelopes of the ambience switch. *)
Lemma onStart_tail (C : Callback -> Prop) key w :
  (forall sv d s, C (CbScene9FadeOut sv d s)) -> (forall s, C (CbBirdFadeIn s)) ->
  does deviceEvent C 100 (emit (EvOnStart key) w) (onStart key w).
Proof.
  intros HC9 HCb.
  assert (Hdev : forall e, deviceEvent e -> deviceEvent e) by (intros e He; exact He).
  unfold onStart. cbv zeta.
  repeat (destruct (decide _);
          [eapply (does_after _ _ 0 0); [apply does_sceneRemove|apply does_sceneAdd|lia]|]).
  destruct (decide _).
  - eapply (does_after _ _ 100 0);
      [apply does_switchToScene9Ambient; assumption| |lia].
    eapply (does_after _ _ 0 0); [apply does_sceneRemove|apply does_sceneAdd|lia].
  - apply does_refl.
Qed.

Lemma count_stamped {A B} (q : A * B -> bool) (P : B -> Prop) (T : A) (new : list (A * B)) :
  (forall te, P te.2 -> q te = false) ->
  Forall (fun te => te.1 = T /\ P te.2) new -> count q new = 0%nat.
Proof.
  intros Hq H. apply count_none. eapply Forall_impl; [exact H|].
  intros te [_ HP]. apply Hq, HP.
Qed.

(** The parts of a run: the device calls and the fade of the step
    transitions, the start phase, the two timeouts. *)
Lemma runSceneTransition_parts (C : Callback -> Prop) key cfg w :
  (forall sv l s, C (CbFadeToLevel sv l s)) ->
  TRANSITIONS key = Some cfg -> scenePresent w = true ->
  exists mid,
    runSceneTransition key w
    = setTimeout (CbOnComplete key) (duration cfg)
        (setTimeout (CbAmbientFor key) (audioFadeIn cfg) (onStart key mid))
    /\ does deviceEvent C 50 (emit (EvRunTransition key) w) mid
    /\ doc mid = doc w
    /\ (usesSteps key = true ->
        timers mid
        = timers w ++ envelopeTimer (CbFadeToLevel (volume <$> ambientLayers (am w)) (1 # 2) 0)
                        (audioFadeOut cfg) w).
Proof.
  intros HC Hcfg Hscene. unfold runSceneTransition, scenePresent in *.
  destruct (fogScene (doc w)); [|discriminate]. rewrite Hcfg. cbv zeta.
  eexists. split; [reflexivity|].
  assert (Hdev : forall e, deviceEvent e -> deviceEvent e) by (intros e He; exact He).
  destruct (usesSteps key).
  - split; [|split].
    + eapply (does_after _ _ 50 0);
        [apply does_fadeAmbientToLevel; exact HC
        |apply does_playTransition, Hdev|lia].
    + unfold fadeAmbientToLevel. destruct (bool_decide _); cbn [doc setInterval];
        rewrite playTransition_doc; reflexivity.
    + intros _. rewrite fade_start_timers, playTransition_timers.
      unfold envelopeTimer. rewrite !playTransition_ambient.
      destruct (playTransition_clock "Steps.wav" true (3 # 5) (emit (EvRunTransition key) w))
        as [-> ->].
      reflexivity.
  - split; [|split; [|discriminate]].
    + destruct (bool_decide _).
      * eapply does_le; [apply does_playTransitionDefault, Hdev|lia].
      * apply does_refl.
    + destruct (bool_decide _); [|reflexivity].
      unfold playTransitionDefault. rewrite playTransition_doc. reflexivity.
Qed.

(** C3, as stated, fails: 100 ms into the 2-3 transition a second run of
    it is accepted.  It starts the phase again, adds a second fade and a
    second [onComplete], and both completions fire. *)
Lemma second_run_counterexample :
  pendingCompletions (timers inFlight) = 1%nat
  /\ transitionRuns (log secondRun) = 2%nat
  /\ phaseStarts (log secondRun) = 2%nat
  /\ ambientEnvelopes (timers secondRun) = 2%nat
  /\ pendingCompletions (timers secondRun) = 2%nat
  /\ completions "2-3" (log (advance 6000 secondRun)) = 2%nat.
Proof. vm_compute. repeat split. Qed.

(** C3, amended: there is no guard.  With the scene container present,
    every run of a configured transition takes effect whatever is in
    flight: it is recorded, runs its start phase, and adds its ambience
    timeout and its [onComplete], behind calm timers of its own; a step
    transition adds one fade envelope when there are layers to fade. *)
Theorem runSceneTransition_unguarded (w : World) (key : string) (cfg : TransitionCfg) :
  TRANSITIONS key = Some cfg -> scenePresent w = true ->
  let w' := runSceneTransition key w in
  transitionRuns (log w') = S (transitionRuns (log w))
  /\ phaseStarts (log w') = S (phaseStarts (log w))
  /\ pendingCompletions (timers w') = S (pendingCompletions (timers w))
  /\ (exists earlier tmA tmC,
        timers w' = timers w ++ earlier ++ [tmA; tmC]
        /\ Forall (fun tm => calm (cb tm)) earlier
        /\ cb tmA = CbAmbientFor key /\ due tmA = now w + Z.max 0 (audioFadeIn cfg)
        /\ cb tmC = CbOnComplete key /\ due tmC = now w + Z.max 0 (duration cfg))
  /\ (usesSteps key = true ->
      ambientEnvelopes (timers w')
      = (ambientEnvelopes (timers w)
         + (if bool_decide (size (ambientLayers (am w)) = 0%nat) then 0 else 1))%nat).
Proof.
  intros Hcfg Hscene w'.
  destruct (runSceneTransition_parts calm key cfg w ltac:(intros; exact I) Hcfg Hscene)
    as (mid & Hrun & Hmid & _ & Hsteps).
  subst w'. rewrite Hrun.
  destruct (does_inv _ _ _ _ _ Hmid) as (Hn1 & _ & (new1 & Hl1 & Hnew1) & (add1 & Ht1 & Hadd1 & _)).
  destruct (does_inv _ _ _ _ _ (onStart_tail calm key mid ltac:(intros; exact I)
                                  ltac:(intros; exact I)))
    as (Hn2 & _ & (new2 & Hl2 & Hnew2) & (add2 & Ht2 & Hadd2 & _)).
  simpl in Hn1, Hn2, Hl1, Hl2, Ht1, Ht2.
  assert (Hlog : log (onStart key mid)
                 = new2 ++ [(now mid, EvOnStart key)] ++ new1
                     ++ [(now w, EvRunTransition key)] ++ log w).
  { rewrite Hl2, Hl1. reflexivity. }
  assert (Htm : timers (onStart key mid) = timers w ++ add1 ++ add2).
  { rewrite Ht2, Ht1, <- app_assoc. reflexivity. }
  assert (Hcalm := calm_not_onComplete).
  cbn [log timers setTimeout].
  split; [|split; [|split; [|split]]].
  - rewrite Hlog. unfold transitionRuns.
    set (q := fun te : Z * Event => match te.2 with EvRunTransition _ => true | _ => false end).
    assert (Hq : forall te, deviceEvent te.2 -> q te = false)
      by (intros [? []]; simpl; first [reflexivity|contradiction]).
    rewrite !count_app, (count_stamped q _ _ _ Hq Hnew2), (count_stamped q _ _ _ Hq Hnew1).
    simpl. lia.
  - rewrite Hlog. unfold phaseStarts.
    set (q := fun te : Z * Event => match te.2 with EvOnStart _ => true | _ => false end).
    assert (Hq : forall te, deviceEvent te.2 -> q te = false)
      by (intros [? []]; simpl; first [reflexivity|contradiction]).
    rewrite !count_app, (count_stamped q _ _ _ Hq Hnew2), (count_stamped q _ _ _ Hq Hnew1).
    simpl. lia.
  - rewrite !pendingCompletions_app, Htm, !pendingCompletions_app, (Hcalm add1), (Hcalm add2)
      by assumption.
    unfold pendingCompletions. simpl. lia.
  - eexists (add1 ++ add2), _, _. split; [rewrite Htm, <- !app_assoc; reflexivity|].
    split; [apply Forall_app; split; assumption|].
    simpl. rewrite Hn2, Hn1. repeat split; reflexivity.
  - intros Hs. destruct (onStart_steps key mid Hs) as [Hts _].
    rewrite Hts, (Hsteps Hs). unfold ambientEnvelopes, envelopeTimer. rewrite !count_app.
    destruct (bool_decide _); simpl; lia.
Qed.

(** A second run 100 ms into the 2-3 transition. *)
Lemma runSceneTransition_unguarded_witness :
  pendingCompletions (timers inFlight) = 1%nat
  /\ pendingCompletions (timers secondRun) = S (pendingCompletions (timers inFlight))
  /\ transitionRuns (log secondRun) = S (transitionRuns (log inFlight)).
Proof.
  split; [vm_compute; reflexivity|].
  destruct (runSceneTransition_unguarded inFlight "2-3" (mkTransition 5500 500 300)
              eq_refl ltac:(vm_compute; reflexivity)) as (Hr & _ & Hp & _).
  split; [exact Hp|exact Hr].
Defined.

(** ** The call-to-action on the last page *)

Lemma stopTrack_oneShot tr w t :
  oneShot (am (stopTrack tr w)) t = if decide (t = tr) then None else oneShot (am w) t.
Proof.
  unfold stopTrack. destruct (oneShot (am w) tr) eqn:H; simpl; [reflexivity|].
  destruct (decide (t = tr)) as [->|]; [exact H|reflexivity].
Qed.

Lemma stopTrack_frame tr w :
  now (stopTrack tr w) = now w /\ doc (stopTrack tr w) = doc w
  /\ expansions (stopTrack tr w) = expansions w /\ timers (stopTrack tr w) = timers w.
Proof. unfold stopTrack. destruct (oneShot (am w) tr); repeat split; reflexivity. Qed.

Lemma stopTrack_log tr w :
  log (stopTrack tr w)
  = match oneShot (am w) tr with
    | Some a => (now w, EvRewind (aid a)) :: (now w, EvPause (aid a)) :: log w
    | None => log w
    end.
Proof. unfold stopTrack. destruct (oneShot (am w) tr); reflexivity. Qed.

Lemma playTrack_oneShot_ne tr w t :
  t <> tr -> oneShot (am (playTrack tr w)) t = oneShot (am w) t.
Proof.
  intros Hne. unfold playTrack. destruct (negb _); [reflexivity|].
  destruct (oneShot (am w) tr); simpl; rewrite decide_False by exact Hne; reflexivity.
Qed.

Lemma playTrack_frame tr w :
  now (playTrack tr w) = now w /\ doc (playTrack tr w) = doc w
  /\ expansions (playTrack tr w) = expansions w /\ timers (playTrack tr w) = timers w.
Proof.
  unfold playTrack. destruct (negb _); [repeat split; reflexivity|].
  destruct (oneShot (am w) tr); repeat split; reflexivity.
Qed.

Lemma stopAllTracks_on (l : list Track) w :
  now (foldl (fun w tr => stopTrack tr w) w l) = now w
  /\ (forall t, oneShot (am (foldl (fun w tr => stopTrack tr w) w l)) t
                = if bool_decide (t ∈ l) then None else oneShot (am w) t)
  /\ (forall te, te ∈ log w -> te ∈ log (foldl (fun w tr => stopTrack tr w) w l))
  /\ (forall t a, t ∈ l -> oneShot (am w) t = Some a ->
        (now w, EvPause (aid a)) ∈ log (foldl (fun w tr => stopTrack tr w) w l)
        /\ (now w, EvRewind (aid a)) ∈ log (foldl (fun w tr => stopTrack tr w) w l)).
Proof.
  revert w. induction l as [|t0 l IH]; intros w; simpl.
  - split; [reflexivity|]. split; [intros t; reflexivity|]. split; [auto|].
    intros t a Hin. inversion Hin.
  - destruct (IH (stopTrack t0 w)) as (Hn & Ho & Hmono & Hev).
    destruct (stopTrack_frame t0 w) as (Hn0 & _).
    assert (Hgrow : forall te, te ∈ log w -> te ∈ log (stopTrack t0 w)).
    { intros te Hte. rewrite stopTrack_log. destruct (oneShot (am w) t0); [|exact Hte].
      do 2 apply list_elem_of_further. exact Hte. }
    split; [rewrite Hn; exact Hn0|]. split; [|split].
    + intros t. rewrite Ho, stopTrack_oneShot.
      destruct (decide (t = t0)) as [->|Hne].
      * rewrite (bool_decide_eq_true_2 (t0 ∈ t0 :: l)) by apply list_elem_of_here.
        destruct (bool_decide _); reflexivity.
      * destruct (bool_decide (t ∈ l)) eqn:Hl.
        -- apply bool_decide_eq_true in Hl.
           rewrite bool_decide_eq_true_2 by (apply list_elem_of_further; exact Hl). reflexivity.
        -- apply bool_decide_eq_false in Hl.
           rewrite bool_decide_eq_false_2; [reflexivity|].
           intros Hin. apply elem_of_cons in Hin as [?|?]; contradiction.
    + intros te Hte. apply Hmono, Hgrow, Hte.
    + intros t a Hin Ha. destruct (decide (t = t0)) as [->|Hne].
      * split; apply Hmono; rewrite stopTrack_log, Ha.
        -- apply list_elem_of_further, list_elem_of_here.
        -- apply list_elem_of_here.
      * apply elem_of_cons in Hin as [?|Hin]; [contradiction|].
        rewrite <- Hn0. apply (Hev t a Hin).
        rewrite stopTrack_oneShot, decide_False by exact Hne. exact Ha.
Qed.

Lemma allTracks_complete t : t ∈ allTracks.
Proof. destruct t; unfold allTracks; set_solver. Qed.

Lemma playPopSound_frame w :
  now (playPopSound w) = now w
  /\ oneShot (am (playPopSound w)) = oneShot (am w)
  /\ (forall te, te ∈ log w -> te ∈ log (playPopSound w)).
Proof.
  unfold playPopSound. destruct (negb _); [repeat split; auto|].
  split; [reflexivity|]. split; [reflexivity|].
  intros te Hte. simpl. do 2 apply list_elem_of_further. exact Hte.
Qed.

Lemma playTransition_oneShot file lp v w :
  oneShot (am (playTransition file lp v w)) = oneShot (am w).
Proof.
  unfold playTransition, stopTransition, newAudio, playAudio, haltAudio.
  destruct (negb _); [reflexivity|].
  destruct (transitionAudio (am w)), lp; reflexivity.
Qed.

Lemma does_log_mono E C K w w' te : does E C K w w' -> te ∈ log w -> te ∈ log w'.
Proof.
  intros H Hte. apply does_inv in H as (_ & _ & (new & -> & _) & _).
  apply elem_of_app. right. exact Hte.
Qed.

(** What follows the stops in the handler leaves the tracks alone. *)
Lemma popSceneBubble_oneShot n b w : am (popSceneBubble n b w) = am w.
Proof. unfold popSceneBubble. cbv zeta. destruct (from_option _ _ _); reflexivity. Qed.

Lemma openScene2_oneShot b w : oneShot (am (openScene2 b w)) = oneShot (am w).
Proof.
  unfold openScene2. cbv zeta. simpl fogScene.
  destruct (fogScene (doc w)); [|reflexivity].
  assert (H : oneShot (am (sceneRemove "scene--zoom"
                             (fadeOutAmbient 500 (playTransitionDefault (emit (EvOpenScene 2) w)))))
              = oneShot (am w)).
  { unfold fadeOutAmbient. cbv zeta. destruct (bool_decide _); simpl;
      unfold playTransitionDefault; rewrite playTransition_oneShot; reflexivity. }
  match goal with
  | |- context [elems (doc ?x) !! b] => destruct (elems (doc x) !! b)
  end; simpl; exact H.
Qed.

(** C2, as stated, fails: with the delta and the epsilon bubble of scene 4
    both open, popping epsilon stops "Geneve", a track that only delta
    starts. *)
Lemma pop_stops_foreign_track_counterexample :
  boundTracks <$> elems (doc bothRevealed) !! 1%nat = Some [PaulBlok]
  /\ boundTracks <$> elems (doc bothRevealed) !! 0%nat = Some [Geneve]
  /\ playing Geneve bothRevealed = true
  /\ playing Geneve (ctaClick 1 bothRevealed) = false
  /\ oneShot (am (ctaClick 1 bothRevealed)) Geneve = None
  /\ firstn 4 (log (ctaClick 1 bothRevealed))
     = [(6000, EvRewind 4); (6000, EvPause 4); (6000, EvRewind 3); (6000, EvPause 3)]
  /\ (aid <$> oneShot (am bothRevealed) Geneve) = Some 3%nat.
Proof. vm_compute. repeat split. Qed.

(** C2, amended: a press of the call-to-action on the last page stops
    every one-shot track, whichever bubble started it: afterwards the
    manager holds none, and each element it held was paused and rewound. *)
Theorem pop_stops_every_track (w : World) (x : nat) (e : Expansion) (el : Bubble) :
  expansions w !! x = Some e -> elems (doc w) !! xBubble e = Some el ->
  (xTotalPages e <= xCurrentPage e)%nat ->
  let w' := ctaHandler x w in
  (forall tr, oneShot (am w') tr = None)
  /\ (forall tr a, oneShot (am w) tr = Some a ->
        (now w, EvPause (aid a)) ∈ log w' /\ (now w, EvRewind (aid a)) ∈ log w').
Proof.
  intros Hx Hel Hlast w'. subst w'. unfold ctaHandler. rewrite Hx, Hel.
  rewrite (proj2 (Nat.ltb_ge _ _) Hlast). cbv zeta.
  destruct (playPopSound_frame w) as (Hn0 & Ho0 & Hmono0).
  unfold stopAllTracks.
  destruct (stopAllTracks_on allTracks (playPopSound w)) as (Hn1 & Ho1 & Hmono1 & Hev1).
  set (w1 := foldl (fun w tr => stopTrack tr w) (playPopSound w) allTracks) in *.
  assert (Hnone : forall tr, oneShot (am w1) tr = None).
  { intros tr. rewrite Ho1, bool_decide_eq_true_2 by apply allTracks_complete. reflexivity. }
  assert (Hevs : forall tr a, oneShot (am w) tr = Some a ->
            (now w, EvPause (aid a)) ∈ log w1 /\ (now w, EvRewind (aid a)) ∈ log w1).
  { intros tr a Ha. rewrite <- Hn0. apply (Hev1 tr a (allTracks_complete tr)).
    rewrite Ho0. exact Ha. }
  assert (Hpop : forall n, (forall tr, oneShot (am (popSceneBubble n (xBubble e) w1)) tr = None)
            /\ (forall tr a, oneShot (am w) tr = Some a ->
                  (now w, EvPause (aid a)) ∈ log (popSceneBubble n (xBubble e) w1)
                  /\ (now w, EvRewind (aid a)) ∈ log (popSceneBubble n (xBubble e) w1))).
  { intros n. split.
    - intros tr. rewrite popSceneBubble_oneShot. apply Hnone.
    - intros tr a Ha. destruct (Hevs tr a Ha) as [H1 H2].
      split; eapply (does_log_mono (fun _ => True) (fun _ => True));
        try (apply does_popSceneBubble; intros; exact I); assumption. }
  repeat (destruct (_ el); [apply Hpop|]).
  split.
  - intros tr. rewrite openScene2_oneShot. apply Hnone.
  - intros tr a Ha. destruct (Hevs tr a Ha) as [H1 H2].
    split; eapply (does_log_mono (fun _ => True) (fun _ => True));
      try (apply does_openScene2; intros; exact I); assumption.
Qed.

(** Popping epsilon with delta open: no track is held afterwards. *)
Lemma pop_stops_every_track_witness :
  (xTotalPages <$> expansions bothRevealed !! 1%nat) = Some 1%nat
  /\ oneShot (am (ctaHandler 1 bothRevealed)) Geneve = None
  /\ (6000, EvPause 3) ∈ log (ctaHandler 1 bothRevealed).
Proof.
  assert (Hx : expansions bothRevealed !! 1%nat = Some (mkExpansion 1 3 3 1 1 true))
    by (vm_compute; reflexivity).
  assert (Hel : exists el, elems (doc bothRevealed) !! 1%nat = Some el)
    by (vm_compute; eexists; reflexivity).
  destruct Hel as [el Hel].
  assert (Hg : oneShot (am bothRevealed) Geneve
               = Some (mkAudio 3 "assets/audio/Geneve Angelista.mp3" (1 # 2) false false false))
    by (vm_compute; reflexivity).
  destruct (pop_stops_every_track bothRevealed 1 _ el Hx Hel ltac:(simpl; lia)) as [Hnone Hev].
  split; [rewrite Hx; reflexivity|]. split; [apply Hnone|].
  exact (proj1 (Hev Geneve _ Hg)).
Defined.

(** ** The call-to-action before the last page *)

Lemma does_stopTrack_only E C tr w :
  (forall i, E (EvPause i)) -> (forall i, E (EvRewind i)) -> does E C 0 w (stopTrack tr w).
Proof.
  intros Hp Hr. unfold stopTrack. destruct (oneShot (am w) tr); [|apply does_refl].
  unfold haltAudio. apply (does_intro _ _ 0 0);
    [reflexivity|reflexivity| |apply timersGrow_refl|lia].
  simpl. repeat (constructor; [|auto]). constructor.
Qed.

Lemma does_playTrack_only E C tr w :
  (forall i, E (EvPause i)) -> (forall i, E (EvRewind i)) -> (forall i, E (EvPlay i)) ->
  (forall i, E (EvNewAudio i (trackFile tr))) -> does E C 0 w (playTrack tr w).
Proof.
  intros Hp Hr Hpl Hnew. unfold playTrack. destruct (negb _); [apply does_refl|].
  destruct (oneShot (am w) tr); unfold haltAudio, newAudio, playAudio;
    (apply (does_intro _ _ 0 0); [reflexivity|reflexivity| |apply timersGrow_refl|lia]);
    simpl; repeat (constructor; [|auto]); constructor.
Qed.

Lemma trackFile_not_pop tr i : paging (EvNewAudio i (trackFile tr)).
Proof. destruct tr; simpl; discriminate. Qed.

Lemma animateSentences_timers b shown w :
  timers (animateSentences b shown w)
  = timers w ++ ((fun i => mkTimer (nextTid w + i)
                                   (now w + Z.max 0 (Z.of_nat i * calculateSentenceDelay shown))
                                   None (CbSentence b i)) <$> seq 0 shown).
Proof.
  unfold animateSentences. generalize (calculateSentenceDelay shown). intros d.
  assert (H : forall l w0,
            timers (foldl (fun w index => setTimeout (CbSentence b index) (Z.of_nat index * d) w)
                          w0 l)
            = timers w0 ++ ((fun '(k, i) => mkTimer (nextTid w0 + k)
                                              (now w0 + Z.max 0 (Z.of_nat i * d)) None
                                              (CbSentence b i)) <$> zip (seq 0 (length l)) l)).
  { induction l as [|i l IH] using rev_ind; intros w0; [simpl; rewrite app_nil_r; reflexivity|].
    rewrite foldl_app. simpl. rewrite IH, length_app. simpl.
    rewrite Nat.add_1_r, seq_S, zip_with_app by (rewrite length_seq; reflexivity).
    rewrite fmap_app, app_assoc. simpl. f_equal. f_equal.
    assert (Hn : forall l0 w1, nextTid (foldl (fun w index =>
                      setTimeout (CbSentence b index) (Z.of_nat index * d) w) w1 l0)
                    = (nextTid w1 + length l0)%nat
                    /\ now (foldl (fun w index =>
                      setTimeout (CbSentence b index) (Z.of_nat index * d) w) w1 l0) = now w1).
    { induction l0 as [|j l0 IH0]; intros w1; simpl; [split; [lia|reflexivity]|].
      destruct (IH0 (setTimeout (CbSentence b j) (Z.of_nat j * d) w1)) as [-> ->].
      simpl. split; [lia|reflexivity]. }
    destruct (Hn l w0) as [-> ->]. reflexivity. }
  rewrite H, length_seq. f_equal.
  generalize (nextTid w) (now w). intros nt nw.
  assert (Hz : forall m s, zip (seq s m) (seq s m) = (fun i => (i, i)) <$> seq s m).
  { induction m as [|m IHm]; intros s; simpl; [reflexivity|]. rewrite IHm. reflexivity. }
  rewrite Hz, <- list_fmap_compose. reflexivity.
Qed.

Lemma stopTrack_device tr w :
  audioEnabled (am (stopTrack tr w)) = audioEnabled (am w)
  /\ nextAid (stopTrack tr w) = nextAid w.
Proof. unfold stopTrack. destruct (oneShot (am w) tr); split; reflexivity. Qed.

Lemma playTrack_device tr w :
  audioEnabled (am (playTrack tr w)) = audioEnabled (am w)
  /\ (nextAid w <= nextAid (playTrack tr w))%nat.
Proof.
  unfold playTrack. destruct (negb _); [split; [reflexivity|lia]|].
  destruct (oneShot (am w) tr); simpl; split; try reflexivity; lia.
Qed.

Lemma playTrack_started tr w :
  audioEnabled (am w) = true -> startedTrack tr w (playTrack tr w).
Proof.
  intros Hen. unfold startedTrack, playTrack. rewrite Hen. simpl negb. cbv iota.
  destruct (oneShot (am w) tr); cbn; rewrite decide_True by reflexivity;
    eexists; (split; [reflexivity|]); cbn; repeat split; try lia.
  all: try (apply list_elem_of_further, list_elem_of_here).
  all: apply list_elem_of_here.
Qed.

Lemma playTrack_disabled tr w : audioEnabled (am w) = false -> playTrack tr w = w.
Proof. intros Hen. unfold playTrack. rewrite Hen. reflexivity. Qed.

(** [stop a; play b], the change of track on the second page. *)
Lemma swap_spec (a b : Track) (C : Callback -> Prop) w :
  a <> b ->
  let w' := playTrack b (stopTrack a w) in
  does paging C 0 w w'
  /\ doc w' = doc w /\ expansions w' = expansions w /\ timers w' = timers w
  /\ audioEnabled (am w') = audioEnabled (am w) /\ (nextAid w <= nextAid w')%nat
  /\ oneShot (am w') a = None
  /\ (forall t, t <> a -> t <> b -> oneShot (am w') t = oneShot (am w) t)
  /\ (forall x, oneShot (am w) a = Some x ->
        (now w, EvPause (aid x)) ∈ log w' /\ (now w, EvRewind (aid x)) ∈ log w')
  /\ (audioEnabled (am w) = true -> startedTrack b w w')
  /\ (audioEnabled (am w) = false -> oneShot (am w') b = oneShot (am w) b).
Proof.
  intros Hab w'. subst w'.
  destruct (stopTrack_frame a w) as (Hn & Hd & Hx & Ht).
  destruct (playTrack_frame b (stopTrack a w)) as (_ & Hd' & Hx' & Ht').
  destruct (stopTrack_device a w) as [Hen Hna].
  destruct (playTrack_device b (stopTrack a w)) as [Hen' Hna'].
  assert (Hplay : does paging C 0 (stopTrack a w) (playTrack b (stopTrack a w))).
  { apply does_playTrack_only; try (intros; exact I). apply trackFile_not_pop. }
  split; [|split; [|split; [|split; [|split; [|split; [|split; [|split; [|split; [|split]]]]]]]]].
  - eapply (does_seq _ _ 0 0); [apply does_stopTrack_only; intros; exact I|exact Hplay|lia].
  - rewrite Hd'. exact Hd.
  - rewrite Hx'. exact Hx.
  - rewrite Ht'. exact Ht.
  - rewrite Hen'. exact Hen.
  - lia.
  - rewrite playTrack_oneShot_ne by exact Hab. rewrite stopTrack_oneShot, decide_True; reflexivity.
  - intros t Ha Hb. rewrite playTrack_oneShot_ne by exact Hb.
    rewrite stopTrack_oneShot, decide_False by exact Ha. reflexivity.
  - intros x Hx0. split; (eapply does_log_mono; [exact Hplay|]); rewrite stopTrack_log, Hx0.
    + apply list_elem_of_further, list_elem_of_here.
    + apply list_elem_of_here.
  - intros He. rewrite <- Hen in He.
    destruct (playTrack_started b (stopTrack a w) He) as (a2 & H1 & H2 & H3 & H4 & H5 & H6).
    exists a2. rewrite Hn, Hna in *. repeat split; assumption.
  - intros He. rewrite <- Hen in He. rewrite (playTrack_disabled b _ He).
    rewrite stopTrack_oneShot, decide_False by (intros Heq; apply Hab; symmetry; exact Heq).
    reflexivity.
Qed.

Lemma animateSentences_frame b shown w :
  doc (animateSentences b shown w) = doc w
  /\ expansions (animateSentences b shown w) = expansions w.
Proof. unfold animateSentences. split; apply foldl_keeps; reflexivity. Qed.

Lemma showPageSentences_frame b nodes count page anim w :
  am (showPageSentences b nodes count page anim w).2 = am w
  /\ doc (showPageSentences b nodes count page anim w).2 = doc w
  /\ expansions (showPageSentences b nodes count page anim w).2 = expansions w.
Proof.
  unfold showPageSentences. cbv zeta. cbn [snd]. destruct anim; [|repeat split; reflexivity].
  rewrite animateSentences_am. destruct (animateSentences_frame b (pageLength nodes count page)
    (emit (EvShowPage b page (pageLength nodes count page)) w)) as [-> ->].
  repeat split; reflexivity.
Qed.

Lemma paging_counts (T : Z) (new : list (Z * Event)) (l : list (Z * Event)) :
  Forall (fun te => te.1 = T /\ paging te.2) new ->
  popEffects (new ++ l) = popEffects l
  /\ advanceRequests (new ++ l) = advanceRequests l
  /\ transitionRuns (new ++ l) = transitionRuns l.
Proof.
  intros H. unfold popEffects, advanceRequests, transitionRuns. rewrite !count_app.
  repeat split.
  all: erewrite (count_stamped _ paging T new); [reflexivity| |exact H].
  all: intros [? []]; simpl; try first [reflexivity|contradiction].
  intros Hne. apply bool_decide_eq_false_2. exact Hne.
Qed.

Lemma swap_stage (c : bool) (a b : Track) w :
  a <> b ->
  let w' := if c then playTrack b (stopTrack a w) else w in
  does paging isSentenceCb 0 w w'
  /\ doc w' = doc w /\ expansions w' = expansions w /\ timers w' = timers w
  /\ audioEnabled (am w') = audioEnabled (am w) /\ (nextAid w <= nextAid w')%nat
  /\ (forall t, t <> a -> t <> b -> oneShot (am w') t = oneShot (am w) t)
  /\ (c = false -> w' = w)
  /\ (c = true -> oneShot (am w') a = None
        /\ (forall x, oneShot (am w) a = Some x ->
              (now w, EvPause (aid x)) ∈ log w' /\ (now w, EvRewind (aid x)) ∈ log w')
        /\ (audioEnabled (am w) = true -> startedTrack b w w')
        /\ (audioEnabled (am w) = false -> oneShot (am w') b = oneShot (am w) b)).
Proof.
  intros Hab. destruct c; cbv zeta.
  - destruct (swap_spec a b isSentenceCb w Hab)
      as (Hd & Hdoc & Hx & Ht & Hen & Hna & Hnone & Hother & Hev & Hst & Hoff).
    split; [exact Hd|]. repeat split; try assumption; try discriminate.
    + apply Hev. assumption.
    + apply Hev. assumption.
  - split; [apply does_refl|]. repeat split; try reflexivity; try discriminate.
Qed.

Lemma pageLength_turned n total page :
  total = pagesOf n -> (1 <= page <= total)%nat -> (1 <= pageLength n n page)%nat.
Proof.
  intros -> Hp. unfold pageLength, sentencesPerPage. cbv zeta.
  unfold pagesOf, sentencesPerPage in Hp. change (5 - 1)%nat with 4%nat in Hp.
  pose proof (Nat.div_mod (n + 4) 5 ltac:(lia)).
  pose proof (Nat.mod_upper_bound (n + 4) 5 ltac:(lia)). lia.
Qed.

Lemma calculateSentenceDelay_pos n : 0 < calculateSentenceDelay n.
Proof. unfold calculateSentenceDelay. repeat destruct (_ <=? _)%nat; lia. Qed.

Lemma animateSentences_log b shown w : log (animateSentences b shown w) = log w.
Proof. unfold animateSentences. apply (foldl_keeps log). reflexivity. Qed.

(** C8, as stated, fails: on the first of its two pages the beta bubble
    does not ignore the call-to-action.  The press shows page 2, stops
    "Chat1" and starts "Chat2". *)
Lemma cta_before_last_page_counterexample :
  (fun e => (xCurrentPage e, xTotalPages e)) <$> expansions betaRevealed !! 0%nat
  = Some (1%nat, 2%nat)
  /\ playing Chat1 betaRevealed = true
  /\ playing Chat1 (ctaClick 0 betaRevealed) = false
  /\ oneShot (am (ctaClick 0 betaRevealed)) Chat1 = None
  /\ playing Chat2 (ctaClick 0 betaRevealed) = true
  /\ xCurrentPage <$> expansions (ctaClick 0 betaRevealed) !! 0%nat = Some 2%nat
  /\ firstn 5 (log (ctaClick 0 betaRevealed))
     = [(3000, EvPlay 4); (3000, EvNewAudio 4 "assets/audio/Chat2.mp3");
        (3000, EvRewind 3); (3000, EvPause 3); (3000, EvShowPage 0 2 2)].
Proof. vm_compute. repeat split. Qed.

(** C8, amended: before the last page a press of the call-to-action turns
    the page instead of popping the bubble.  It plays no pop effect,
    requests no scene, starts no transition and leaves every bubble in
    place, relabelling the call-to-action on reaching the last page.  It
    records the new page, shows it, and schedules its sentences one by
    one, at least one for a bubble whose pages were counted from its
    sentences.  On the way to page 2 the beta bubble stops Chat1 and, with
    audio enabled, starts Chat2; the tobias bubble does the same with
    Tobias1 and Tobias2.  A bubble of another class, or another page,
    leaves these tracks as they are, and no press touches any other
    track; without either change of track the audio manager is untouched
    and the trace gains the shown page only. *)
Theorem cta_before_last_page_paginates (w : World) (x : nat) (e : Expansion) (el : Bubble) :
  expansions w !! x = Some e -> elems (doc w) !! xBubble e = Some el ->
  (xCurrentPage e < xTotalPages e)%nat ->
  let w' := ctaHandler x w in
  let page := S (xCurrentPage e) in
  let shown := pageLength (xSentences e) (xSentenceCount e) page in
  let beta2 := hasClass "bubble-orbit-beta" el && bool_decide (page = 2%nat) in
  let tobias2 := hasClass "bubble-tobias" el && bool_decide (page = 2%nat) in
  (popEffects (log w') = popEffects (log w)
   /\ advanceRequests (log w') = advanceRequests (log w)
   /\ transitionRuns (log w') = transitionRuns (log w)
   /\ elems (doc w')
      = (if bool_decide (page = xTotalPages e)
         then alter (withCtaText (Some "Pop!")) (xBubble e) (elems (doc w))
         else elems (doc w)))
  /\ (xCurrentPage <$> expansions w' !! x = Some page
      /\ (now w, EvShowPage (xBubble e) page shown) ∈ log w'
      /\ timers w'
         = timers w ++ ((fun i => mkTimer (nextTid w + i)
                                    (now w + Z.of_nat i * calculateSentenceDelay shown)
                                    None (CbSentence (xBubble e) i)) <$> seq 0 shown)
      /\ (xSentences e = xSentenceCount e -> xTotalPages e = pagesOf (xSentenceCount e) ->
          (1 <= shown)%nat))
  /\ (forall tr, tr ∉ [Chat1; Chat2; Tobias1; Tobias2] ->
        oneShot (am w') tr = oneShot (am w) tr)
  /\ (beta2 = false ->
        oneShot (am w') Chat1 = oneShot (am w) Chat1
        /\ oneShot (am w') Chat2 = oneShot (am w) Chat2)
  /\ (tobias2 = false ->
        oneShot (am w') Tobias1 = oneShot (am w) Tobias1
        /\ oneShot (am w') Tobias2 = oneShot (am w) Tobias2)
  /\ (beta2 = false -> tobias2 = false ->
        am w' = am w
        /\ log w' = (now w, EvShowPage (xBubble e) page shown) :: log w)
  /\ (beta2 = true ->
        oneShot (am w') Chat1 = None
        /\ (forall a, oneShot (am w) Chat1 = Some a ->
              (now w, EvPause (aid a)) ∈ log w' /\ (now w, EvRewind (aid a)) ∈ log w')
        /\ (audioEnabled (am w) = true -> startedTrack Chat2 w w')
        /\ (audioEnabled (am w) = false -> oneShot (am w') Chat2 = oneShot (am w) Chat2))
  /\ (tobias2 = true ->
        oneShot (am w') Tobias1 = None
        /\ (forall a, oneShot (am w) Tobias1 = Some a ->
              (now w, EvPause (aid a)) ∈ log w' /\ (now w, EvRewind (aid a)) ∈ log w')
        /\ (audioEnabled (am w) = true -> startedTrack Tobias2 w w')
        /\ (audioEnabled (am w) = false ->
            oneShot (am w') Tobias2 = oneShot (am w) Tobias2)).
Proof.
  intros Hx Hel Hlt w' page shown beta2 tobias2. subst w'. unfold ctaHandler. rewrite Hx, Hel.
  rewrite (proj2 (Nat.ltb_lt _ _) Hlt). cbv zeta. fold page. fold beta2 tobias2.
  set (w1 := setCurrentPage x page w).
  set (w2 := (showPageSentences (xBubble e) (xSentences e) (xSentenceCount e) page true w1).2).
  destruct (showPageSentences_frame (xBubble e) (xSentences e) (xSentenceCount e) page true w1)
    as (Ham2 & Hdoc2 & Hxs2). fold w2 in Ham2, Hdoc2, Hxs2.
  assert (Hd2 : does paging isSentenceCb 5 w w2).
  { eapply (does_seq _ _ 0 5); [apply does_setExpansions| |lia].
    apply does_showPageSentences; intros; exact I. }
  assert (Hlog2 : log w2 = (now w, EvShowPage (xBubble e) page shown) :: log w).
  { subst w2. unfold showPageSentences. cbv zeta. cbn [snd].
    rewrite animateSentences_log. reflexivity. }
  assert (Ht2 : timers w2
                = timers w ++ ((fun i => mkTimer (nextTid w + i)
                                  (now w + Z.of_nat i * calculateSentenceDelay shown)
                                  None (CbSentence (xBubble e) i)) <$> seq 0 shown)).
  { subst w2. unfold showPageSentences. cbv zeta. cbn [snd].
    rewrite animateSentences_timers. cbn [timers nextTid now emit]. f_equal.
    apply list_fmap_ext. intros i k _. f_equal. f_equal.
    pose proof (calculateSentenceDelay_pos shown). fold shown. nia. }
  assert (Hna2 : nextAid w2 = nextAid w).
  { subst w2. unfold showPageSentences. cbv zeta. cbn [snd].
    unfold animateSentences. rewrite (foldl_keeps nextAid); reflexivity. }
  destruct (swap_stage beta2 Chat1 Chat2 w2 ltac:(discriminate))
    as (Hd3 & Hdoc3 & Hxs3 & Ht3 & Hen3 & Hna3 & Ho3 & Hoff3 & Hon3).
  set (w3 := if beta2 then playTrack Chat2 (stopTrack Chat1 w2) else w2) in *.
  destruct (swap_stage tobias2 Tobias1 Tobias2 w3 ltac:(discriminate))
    as (Hd4 & Hdoc4 & Hxs4 & Ht4 & Hen4 & Hna4 & Ho4 & Hoff4 & Hon4).
  set (w4 := if tobias2 then playTrack Tobias2 (stopTrack Tobias1 w3) else w3) in *.
  set (w5 := if bool_decide (page = xTotalPages e)
             then updElem (xBubble e) (withCtaText (Some "Pop!")) w4 else w4).
  assert (Hd5 : does paging isSentenceCb 0 w4 w5).
  { subst w5. destruct (bool_decide (page = xTotalPages e)); [apply does_updElem|apply does_refl]. }
  assert (Ham5 : am w5 = am w4)
    by (subst w5; destruct (bool_decide (page = xTotalPages e)); reflexivity).
  assert (Hxs5 : expansions w5 = expansions w4)
    by (subst w5; destruct (bool_decide (page = xTotalPages e)); reflexivity).
  assert (Ht5 : timers w5 = timers w4)
    by (subst w5; destruct (bool_decide (page = xTotalPages e)); reflexivity).
  assert (Hlog5 : log w5 = log w4)
    by (subst w5; destruct (bool_decide (page = xTotalPages e)); reflexivity).
  assert (Hd : does paging isSentenceCb 5 w w5).
  { eapply (does_seq _ _ 5 0); [|exact Hd5|lia].
    eapply (does_seq _ _ 5 0); [|exact Hd4|lia].
    eapply (does_seq _ _ 5 0); [exact Hd2|exact Hd3|lia]. }
  assert (Hn2 : now w2 = now w) by (apply does_inv in Hd2; tauto).
  assert (Hn3 : now w3 = now w) by (apply does_inv in Hd3; rewrite <- Hn2; tauto).
  assert (Hmono3 : forall te, te ∈ log w2 -> te ∈ log w3)
    by (intros te; apply (does_log_mono _ _ _ _ _ te Hd3)).
  assert (Hmono4 : forall te, te ∈ log w3 -> te ∈ log w5).
  { intros te Hte. rewrite Hlog5. exact (does_log_mono _ _ _ _ _ te Hd4 Hte). }
  destruct (does_inv _ _ _ _ _ Hd) as (_ & _ & (new & Hlog & Hnew) & _).
  destruct (paging_counts (now w) new (log w) Hnew) as (Hc1 & Hc2 & Hc3).
  split; [|split; [|split; [|split; [|split; [|split; [|split]]]]]].
  - rewrite Hlog. split; [exact Hc1|]. split; [exact Hc2|]. split; [exact Hc3|].
    subst w5. destruct (bool_decide (page = xTotalPages e)); simpl;
      rewrite Hdoc4, Hdoc3, Hdoc2; reflexivity.
  - split; [|split; [|split]].
    + rewrite Hxs5, Hxs4, Hxs3, Hxs2. subst w1. unfold setCurrentPage. simpl.
      rewrite list_lookup_alter_eq, Hx. reflexivity.
    + apply Hmono4, Hmono3. rewrite Hlog2. apply list_elem_of_here.
    + rewrite Ht5, Ht4, Ht3. exact Ht2.
    + intros Hnodes Htotal. subst shown. rewrite Hnodes.
      apply (pageLength_turned _ (xTotalPages e)); [exact Htotal|]. subst page. lia.
  - intros tr Htr. rewrite Ham5.
    rewrite Ho4, Ho3, Ham2 by (intros Heq; apply Htr; rewrite Heq; repeat constructor).
    reflexivity.
  - intros Hb. rewrite Ham5.
    rewrite !Ho4 by discriminate. fold w3. rewrite (Hoff3 Hb), Ham2. split; reflexivity.
  - intros Hb. rewrite Ham5. fold w4. rewrite (Hoff4 Hb).
    rewrite !Ho3 by discriminate. rewrite Ham2. split; reflexivity.
  - intros Hb1 Hb2. rewrite Ham5, Hlog5. fold w4. rewrite (Hoff4 Hb2). fold w3.
    rewrite (Hoff3 Hb1). split; [exact Ham2|exact Hlog2].
  - intros Hb. destruct (Hon3 Hb) as (Hnone & Hev & Hst & Hdis).
    rewrite Ham2 in Hev, Hst, Hdis. rewrite Hn2 in Hev.
    split; [rewrite Ham5, Ho4 by discriminate; exact Hnone|].
    split; [|split].
    + intros a Ha. destruct (Hev a Ha) as [H1 H2]. split; apply Hmono4; assumption.
    + intros Hen. destruct (Hst Hen) as (a2 & H1 & H2 & H3 & H4 & H5 & H6).
      exists a2. rewrite Hn2 in H5, H6. rewrite Hna2 in H4.
      split; [rewrite Ham5, Ho4 by discriminate; exact H1|].
      repeat split; try assumption; apply Hmono4; assumption.
    + intros Hen. rewrite Ham5, Ho4 by discriminate. exact (Hdis Hen).
  - intros Hb. destruct (Hon4 Hb) as (Hnone & Hev & Hst & Hdis).
    assert (Hen34 : audioEnabled (am w3) = audioEnabled (am w)).
    { rewrite Hen3, Ham2. reflexivity. }
    rewrite Hn3 in Hev. rewrite Hen34 in Hst, Hdis.
    assert (Hkeep : forall t, t = Tobias1 \/ t = Tobias2 -> oneShot (am w3) t = oneShot (am w) t).
    { intros t [-> | ->]; rewrite Ho3 by discriminate; rewrite Ham2; reflexivity. }
    split; [rewrite Ham5; exact Hnone|].
    split; [|split].
    + intros a Ha. rewrite <- (Hkeep Tobias1 (or_introl eq_refl)) in Ha.
      rewrite Hlog5. exact (Hev a Ha).
    + intros Hen. destruct (Hst Hen) as (a2 & H1 & H2 & H3 & H4 & H5 & H6).
      exists a2. rewrite Hn3 in H5, H6. rewrite Ham5, Hlog5.
      repeat split; try assumption. lia.
    + intros Hen. rewrite Ham5, (Hdis Hen). apply Hkeep. right. reflexivity.
Qed.

(** The beta bubble on the first of its two pages: the press shows page 2
    with its two sentences, stops Chat1 and starts Chat2. *)
Lemma cta_before_last_page_paginates_witness :
  popEffects (log (ctaHandler 0 betaRevealed)) = popEffects (log betaRevealed)
  /\ xCurrentPage <$> expansions (ctaHandler 0 betaRevealed) !! 0%nat = Some 2%nat
  /\ timers (ctaHandler 0 betaRevealed)
     = timers betaRevealed ++ [mkTimer 6 3000 None (CbSentence 0 0);
                               mkTimer 7 8000 None (CbSentence 0 1)]
  /\ oneShot (am (ctaHandler 0 betaRevealed)) Chat1 = None
  /\ startedTrack Chat2 betaRevealed (ctaHandler 0 betaRevealed).
Proof.
  assert (Hx : expansions betaRevealed !! 0%nat = Some (mkExpansion 0 7 7 2 1 true))
    by (vm_compute; reflexivity).
  assert (Hel : exists el, elems (doc betaRevealed) !! 0%nat = Some el
                           /\ hasClass "bubble-orbit-beta" el = true)
    by (vm_compute; eexists; split; reflexivity).
  assert (Hnow : now betaRevealed = 3000) by (vm_compute; reflexivity).
  assert (Hnt : nextTid betaRevealed = 6%nat) by (vm_compute; reflexivity).
  assert (Hen : audioEnabled (am betaRevealed) = true) by (vm_compute; reflexivity).
  destruct Hel as (el & Hel & Hbeta).
  destruct (cta_before_last_page_paginates betaRevealed 0 _ el Hx Hel ltac:(simpl; lia))
    as ((Hpop & _) & (Hpage & _ & Htimers & _) & _ & _ & _ & _ & Hchat & _).
  cbn [xBubble xSentences xSentenceCount xCurrentPage] in Htimers, Hchat.
  rewrite Hbeta in Hchat. destruct (Hchat eq_refl) as (Hnone & _ & Hstart & _).
  rewrite Hnow, Hnt in Htimers.
  split; [exact Hpop|]. split; [exact Hpage|]. split; [exact Htimers|].
  split; [exact Hnone|exact (Hstart Hen)].
Defined.

(** ** The last bubble of scene 2 opens scene 3 *)

Lemma fmap_alter_same {A B} (f : A -> B) (g : A -> A) (l : list A) (i : nat) :
  (forall x, f (g x) = f x) -> f <$> alter g i l = f <$> l.
Proof.
  intros H. revert i. induction l as [|x l IH]; intros [|i]; simpl; try reflexivity.
  - rewrite H. reflexivity.
  - f_equal. apply IH.
Qed.

Lemma flags_doc w w' : doc w' = doc w -> flags w' = flags w.
Proof. unfold flags. intros ->. reflexivity. Qed.

Lemma flags_updElem b g w :
  (forall e, attached (g e) = attached e /\ dataScene2 (g e) = dataScene2 e) ->
  flags (updElem b g w) = flags w.
Proof.
  intros H. unfold flags, updElem. simpl. apply fmap_alter_same.
  intros e. destruct (H e) as [-> ->]. reflexivity.
Qed.

Lemma flags_bubbleAddClass b c w : flags (bubbleAddClass b c w) = flags w.
Proof. apply flags_updElem. intros e. split; reflexivity. Qed.

Lemma flags_bubbleRemoveClass b c w : flags (bubbleRemoveClass b c w) = flags w.
Proof. apply flags_updElem. intros e. split; reflexivity. Qed.

Lemma remaining_flags w :
  remaining 2 w = count (fun f : bool * bool => f.1 && f.2) (flags w).
Proof.
  unfold remaining, flags. induction (elems (doc w)) as [|e l IH]; [reflexivity|].
  rewrite filter_cons. simpl.
  destruct (decide _) as [H|H]; unfold dataSceneOf in H; simpl in H.
  - rewrite H. simpl. rewrite IH. reflexivity.
  - apply not_true_is_false in H. rewrite H. exact IH.
Qed.

Lemma emits_doc es w : doc (emits es w) = doc w.
Proof. unfold emits. apply (foldl_keeps doc). reflexivity. Qed.

Lemma emitEach_doc f m w : doc (emitEach f m w) = doc w.
Proof. unfold emitEach. apply (foldl_keeps doc). intros. apply emits_doc. Qed.

Lemma haltLayers_doc w : doc (haltLayers w) = doc w.
Proof. unfold haltLayers, forAmbient. simpl. apply emitEach_doc. Qed.

Lemma playAmbient_doc n w : doc (playAmbient n w) = doc w.
Proof.
  unfold playAmbient. destruct (_ && _); [reflexivity|].
  destruct (negb _); [reflexivity|]. destruct (sceneConfig n); [|reflexivity].
  destruct (bool_decide _); [reflexivity|]. apply (foldl_keeps doc). reflexivity.
Qed.

Lemma fadeInAmbient_doc d w : doc (fadeInAmbient d w) = doc w.
Proof. unfold fadeInAmbient. destruct (bool_decide _); reflexivity. Qed.

Lemma stopTransition_doc w : doc (stopTransition w) = doc w.
Proof. unfold stopTransition. destruct (transitionAudio (am w)); reflexivity. Qed.

Lemma onComplete_elems key w : elems (doc (onComplete key w)) = elems (doc w).
Proof. unfold onComplete. cbv zeta. repeat destruct (decide _); reflexivity. Qed.

Lemma device_notAdvancing e : deviceEvent e -> notAdvancing e.
Proof. destruct e; simpl; tauto. Qed.

(** What a staying callback does: it requests nothing, leaves every
    bubble where it is, and registers staying timers only. *)
Lemma runCallback_staying c w :
  staying c ->
  (exists K, does notAdvancing staying K w (runCallback c w).1)
  /\ (forall c', (runCallback c w).2 = Some c' -> staying c')
  /\ flags (runCallback c w).1 = flags w.
Proof.
  intros Hc.
  assert (Hdev := device_notAdvancing).
  destruct c; simpl in Hc; try contradiction; simpl runCallback.
  - destruct (does_tickFadeToLevel notAdvancing staying startVolumes targetLevel step w)
      as (K & Hd & _).
    split; [exists K; exact Hd|]. unfold tickFadeToLevel. cbv zeta.
    destruct (bool_decide _); simpl; (split; [intros c' [= <-]; exact I|reflexivity]).
  - destruct (does_tickFadeOut notAdvancing staying Hdev startVolumes step w) as (K & Hd & _).
    split; [exists K; exact Hd|]. unfold tickFadeOut. cbv zeta.
    destruct (bool_decide _); cbn [fst snd]; (split; [intros c' [= <-]; exact I|]);
      [|reflexivity].
    apply flags_doc. unfold haltLayers, forAmbient. simpl. rewrite emitEach_doc. reflexivity.
  - destruct (does_tickFadeIn notAdvancing staying targetVolumes step w) as (K & Hd & _).
    split; [exists K; exact Hd|]. unfold tickFadeIn. cbv zeta.
    destruct (bool_decide _); simpl; (split; [intros c' [= <-]; exact I|reflexivity]).
  - destruct (does_tickScene9FadeOut notAdvancing staying Hdev ltac:(intros; exact I)
                startVolumes fadeInDuration step w) as (K & Hd & _).
    split; [exists K; exact Hd|]. unfold tickScene9FadeOut. cbv zeta.
    destruct (bool_decide _); cbn [fst snd]; (split; [intros c' [= <-]; exact I|]);
      [|reflexivity].
    apply flags_doc. unfold haltLayers, forAmbient. simpl. rewrite emitEach_doc. reflexivity.
  - destruct (does_tickBirdFadeIn notAdvancing staying step w) as (K & Hd & _).
    split; [exists K; exact Hd|]. unfold tickBirdFadeIn. cbv zeta.
    destruct (bool_decide _); simpl; (split; [intros c' [= <-]; exact I|reflexivity]).
  - split; [|split; [discriminate|]].
    + eexists. simpl.
      eapply does_seq; [apply does_playCrowSound, Hdev|apply does_setAm|reflexivity].
    + simpl. apply flags_doc. unfold playCrowSound. destruct (negb _); reflexivity.
  - split; [|split; [discriminate|]].
    + eexists. apply does_ambientFor; [exact Hdev|intros; exact I].
    + simpl. apply flags_doc. unfold ambientFor. cbv zeta.
      destruct (targetSceneOf key), (usesSteps key);
        rewrite ?fadeInAmbient_doc, ?playAmbient_doc; reflexivity.
  - split; [|split; [discriminate|]].
    + eexists. apply does_transitionDone; [exact Hdev|intros; exact I].
    + simpl. unfold flags, transitionDone. cbv zeta.
      destruct (usesSteps key); rewrite ?stopTransition_doc, onComplete_elems; reflexivity.
  - split; [|split; [discriminate|reflexivity]].
    eexists. apply does_populate. exact I.
  - split; [|split; [discriminate|apply flags_bubbleAddClass]].
    eexists. apply does_bubbleAddClass.
  - split; [|split; [discriminate|]].
    + eexists. apply does_backgroundPhase. intros; exact I.
    + simpl. unfold backgroundPhase.
      exact (flags_bubbleAddClass b "bubble-background-transition" w).
  - split; [|split; [discriminate|apply flags_bubbleAddClass]].
    eexists. apply does_bubbleAddClass.
  - split; [|split; [discriminate|]].
    + eexists. apply does_revealPhase; intros; exact I.
    + simpl. unfold revealPhase. destruct (expansions w !! x); reflexivity.
  - split; [|split; [discriminate|]].
    + eexists. apply does_showContent; [exact Hdev|intros; exact I].
    + simpl. unfold showContent. destruct (elems (doc w) !! b) as [el|]; [|reflexivity].
      cbv zeta.
      transitivity (flags (bubbleAddClass b "bubble-show-content" w));
        [|apply flags_bubbleAddClass].
      apply flags_doc. cbn [doc setTimeout].
      rewrite (foldl_keeps doc).
      * destruct (isFirstBubble el); [apply playTrack_frame|reflexivity].
      * intros w0 ct. destruct (hasClass ct.1 el); [apply playTrack_frame|reflexivity].
  - split; [|split; [discriminate|]].
    + eexists. apply does_animateSentences. intros; exact I.
    + simpl. apply flags_doc, animateSentences_frame.
  - split; [|split; [discriminate|reflexivity]].
    eexists. apply does_emit. exact I.
  - split; [|split; [discriminate|]].
    + eexists. apply does_ambientScene2; [exact Hdev|intros; exact I].
    + simpl. apply flags_doc. unfold ambientScene2, unmuteAudio. cbv zeta. simpl.
      rewrite emitEach_doc. apply playAmbient_doc.
  - split; [|split; [discriminate|]].
    + eexists. apply does_fadeInAmbient. intros; exact I.
    + simpl. apply flags_doc, fadeInAmbient_doc.
Qed.

Lemma quiet_counts (T : Z) (new l : list (Z * Event)) :
  Forall (fun te => te.1 = T /\ notAdvancing te.2) new ->
  advanceRequests (new ++ l) = advanceRequests l
  /\ transitionRuns (new ++ l) = transitionRuns l.
Proof.
  intros H. unfold advanceRequests, transitionRuns. rewrite !count_app.
  split; (erewrite (count_stamped _ notAdvancing T new); [reflexivity| |exact H]);
    intros [? []]; simpl; first [reflexivity|contradiction].
Qed.

Lemma device_stamped (T : Z) (new : list (Z * Event)) :
  Forall (fun te => te.1 = T /\ deviceEvent te.2) new ->
  Forall (fun te => te.1 = T /\ notAdvancing te.2) new.
Proof.
  intros H. eapply Forall_impl; [exact H|].
  intros te [H1 H2]. split; [exact H1|apply device_notAdvancing, H2].
Qed.

(** A staying timer fires. *)
Lemma fire_staying w i tm :
  earliest (timers w) = Some (i, tm) -> staying (cb tm) ->
  now (fire w) = Z.max (now w) (due tm)
  /\ scenePresent (fire w) = scenePresent w
  /\ flags (fire w) = flags w
  /\ (exists new, log (fire w) = new ++ log w
        /\ Forall (fun te => te.1 = Z.max (now w) (due tm) /\ notAdvancing te.2) new)
  /\ (exists added, timers (fire w) = delete i (timers w) ++ added
        /\ Forall (fun tm => staying (cb tm)) added).
Proof.
  intros He Hst. unfold fire. rewrite He.
  destruct (runCallback_staying (cb tm) (dequeue i tm w) Hst) as ((K & Hd) & Hk & Hf).
  apply does_inv in Hd as (Hn & Hs & (new & Hl & Hnew) & (added & Ht & Hadd & _)).
  unfold rearm. destruct (runCallback (cb tm) (dequeue i tm w)) as [w2 k].
  cbn [fst snd] in *.
  assert (Hbase : now w2 = Z.max (now w) (due tm)
                  /\ scenePresent w2 = scenePresent w /\ flags w2 = flags w
                  /\ (exists new, log w2 = new ++ log w
                        /\ Forall (fun te => te.1 = Z.max (now w) (due tm)
                                             /\ notAdvancing te.2) new)).
  { split; [exact Hn|]. split; [exact Hs|]. split; [exact Hf|].
    exists new. split; [exact Hl|exact Hnew]. }
  destruct Hbase as (H1 & H2 & H3 & H4).
  destruct k as [c'|]; [destruct (period tm) as [p|]|].
  - split; [exact H1|]. split; [exact H2|]. split; [exact H3|]. split; [exact H4|].
    exists (added ++ [mkTimer (tid tm) (due tm + p) (Some p) c']).
    cbn [timers setTimers]. rewrite Ht, <- app_assoc. split; [reflexivity|].
    apply Forall_app. split; [exact Hadd|].
    constructor; [apply Hk; reflexivity|constructor].
  - repeat (split; [assumption|]). exists added. split; [exact Ht|exact Hadd].
  - repeat (split; [assumption|]). exists added. split; [exact Ht|exact Hadd].
Qed.

Lemma count_alter_drop {A} (p : A -> bool) (g : A -> A) l i x :
  l !! i = Some x -> p x = true -> p (g x) = false ->
  S (count p (alter g i l)) = count p l.
Proof.
  revert i. induction l as [|y l IH]; intros [|i] H Hp Hg; simpl in *; try discriminate.
  - injection H as ->. rewrite Hp, Hg. reflexivity.
  - rewrite <- (IH i H Hp Hg). destruct (p y); reflexivity.
Qed.

Lemma remaining_detach b w :
  flags w !! b = Some (true, true) ->
  S (remaining 2 (updElem b (withAttached false) w)) = remaining 2 w.
Proof.
  intros Hb. rewrite !remaining_flags.
  assert (Hf : flags (updElem b (withAttached false) w)
               = alter (fun f => (false, f.2)) b (flags w)).
  { unfold flags, updElem. simpl. apply list_fmap_alter.
    apply Forall_forall. intros e _. reflexivity. }
  rewrite Hf. apply (count_alter_drop _ _ _ _ _ Hb); reflexivity.
Qed.

Lemma remaining_removeSceneBubbles w : remaining 2 (removeSceneBubbles 2 w) = 0%nat.
Proof.
  rewrite remaining_flags. unfold flags, removeSceneBubbles. cbn [doc setDoc elems setElems].
  induction (elems (doc w)) as [|e l IH]; [reflexivity|].
  rewrite !fmap_cons. cbn [count]. rewrite IH.
  unfold dataSceneOf. simpl.
  destruct (dataScene2 e) eqn:H; simpl; rewrite ?H, ?andb_false_r; reflexivity.
Qed.

Lemma switchToScene9Ambient_doc fo fi w : doc (switchToScene9Ambient fo fi w) = doc w.
Proof.
  unfold switchToScene9Ambient, fadeInBirdAmbient.
  destruct (bool_decide _); [reflexivity|]. destruct (bool_decide _); reflexivity.
Qed.

Lemma onStart_elems key w : elems (doc (onStart key w)) = elems (doc w).
Proof.
  unfold onStart. cbv zeta. repeat (destruct (decide _); [reflexivity|]).
  destruct (decide _); [|reflexivity]. rewrite switchToScene9Ambient_doc. reflexivity.
Qed.

(** A run of a transition: recorded once, requesting no scene, moving no
    bubble, and registering staying timers only. *)
Lemma runSceneTransition_effects key cfg w :
  TRANSITIONS key = Some cfg -> scenePresent w = true ->
  let w' := runSceneTransition key w in
  now w' = now w /\ scenePresent w' = true /\ flags w' = flags w
  /\ advanceRequests (log w') = advanceRequests (log w)
  /\ transitionRuns (log w') = S (transitionRuns (log w))
  /\ (forall te, te ∈ log w \/ te = (now w, EvRunTransition key) -> te ∈ log w')
  /\ (exists added, timers w' = timers w ++ added
                    /\ Forall (fun tm => staying (cb tm)) added).
Proof.
  intros Hcfg Hscene w'. subst w'.
  destruct (runSceneTransition_parts staying key cfg w ltac:(intros; exact I) Hcfg Hscene)
    as (mid & -> & Hmid & Hdoc & _).
  pose proof (onStart_tail staying key mid ltac:(intros; exact I) ltac:(intros; exact I))
    as Hst.
  destruct (does_inv _ _ _ _ _ Hmid)
    as (Hn1 & Hs1 & (new1 & Hl1 & Hnew1) & (add1 & Ht1 & Hadd1 & _)).
  destruct (does_inv _ _ _ _ _ Hst)
    as (Hn2 & Hs2 & (new2 & Hl2 & Hnew2) & (add2 & Ht2 & Hadd2 & _)).
  cbn [now log timers emit] in Hn1, Hn2, Hl1, Hl2, Ht1, Ht2, Hnew1, Hnew2.
  apply device_stamped in Hnew1, Hnew2.
  destruct (quiet_counts _ new1 ((now w, EvRunTransition key) :: log w) Hnew1) as [Ha1 Hr1].
  destruct (quiet_counts _ new2 ((now mid, EvOnStart key) :: log mid) Hnew2) as [Ha2 Hr2].
  cbn [now setTimeout log timers].
  split; [rewrite Hn2; exact Hn1|].
  split; [change (scenePresent (onStart key mid) = true); rewrite Hs2;
          change (scenePresent mid = true); rewrite Hs1; exact Hscene|].
  split; [change (flags (onStart key mid) = flags w); unfold flags;
          rewrite onStart_elems, Hdoc; reflexivity|].
  split; [rewrite Hl2, Ha2; unfold advanceRequests in *; simpl; rewrite Hl1;
          exact Ha1|].
  split; [rewrite Hl2, Hr2; unfold transitionRuns in *; simpl; rewrite Hl1, Hr1;
          reflexivity|].
  split.
  - intros te Hte. rewrite Hl2. apply elem_of_app. right. apply list_elem_of_further.
    rewrite Hl1. apply elem_of_app. right.
    destruct Hte as [Hte| ->]; [apply list_elem_of_further, Hte|apply list_elem_of_here].
  - eexists ((add1 ++ add2) ++ [_; _]). split.
    + rewrite Ht2, Ht1, <- !app_assoc. reflexivity.
    + apply Forall_app. split; [apply Forall_app; split; assumption|].
      repeat constructor.
Qed.

(** *** What the start of a transition leaves pending *)

Lemma elem_of_delete_other {A} (l : list A) i x y :
  l !! i = Some y -> x ∈ l -> x <> y -> x ∈ delete i l.
Proof.
  revert i. induction l as [|z l IH]; intros [|i] Hi Hx Hne; simpl in *; try discriminate.
  - injection Hi as ->. apply elem_of_cons in Hx as [->|Hx]; [contradiction|exact Hx].
  - apply elem_of_cons in Hx as [->|Hx]; [apply list_elem_of_here|].
    apply list_elem_of_further. exact (IH i Hi Hx Hne).
Qed.

(** A timer that is due later than the one that fires is still pending
    afterwards: no callback clears the timer of another. *)
Lemma fire_keeps_later w i tm x :
  earliest (timers w) = Some (i, tm) -> x ∈ timers w -> due tm < due x ->
  x ∈ timers (fire w).
Proof.
  intros He Hx Hlt. unfold fire. rewrite He.
  apply earliest_spec in He as [Hi _].
  assert (Hd : x ∈ delete i (timers w)).
  { apply (elem_of_delete_other _ _ _ tm Hi Hx). intros ->. lia. }
  destruct (runCallback_weight (cb tm) (dequeue i tm w)) as (added & Ha & _ & _).
  unfold rearm. destruct (runCallback (cb tm) (dequeue i tm w)) as [w2 k].
  cbn [fst snd] in *. change (timers (dequeue i tm w)) with (delete i (timers w)) in Ha.
  assert (H2 : x ∈ timers w2) by (rewrite Ha; apply elem_of_app; left; exact Hd).
  destruct k as [c'|]; [destruct (period tm)|]; cbn [timers setTimers]; try exact H2.
  apply elem_of_app. left. exact H2.
Qed.

Lemma pendingAt_fire d c w i tm :
  earliest (timers w) = Some (i, tm) -> due tm < d ->
  pendingAt d c (timers w) -> pendingAt d c (timers (fire w)).
Proof.
  intros He Hlt (x & Hx & Hd & Hc & Hp). exists x.
  split; [apply (fire_keeps_later w i tm x He Hx); lia|]. repeat split; assumption.
Qed.

Lemma TRANSITIONS_positive key cfg :
  TRANSITIONS key = Some cfg -> 0 < audioFadeIn cfg /\ 0 < duration cfg.
Proof.
  unfold TRANSITIONS. repeat (destruct (decide _); [intros [= <-]; simpl; lia|]).
  discriminate.
Qed.

Lemma transitionPending_fire from D w i tm :
  earliest (timers w) = Some (i, tm) -> due tm <= D ->
  transitionPending from D (timers w) -> transitionPending from D (timers (fire w)).
Proof.
  intros He Hle. unfold transitionPending.
  destruct (TRANSITIONS (transitionKeyFrom from)) as [cfg|] eqn:Hcfg; [|exact (fun H => H)].
  destruct (TRANSITIONS_positive _ _ Hcfg) as [H1 H2].
  intros (Ha & Hb & Hc).
  repeat split; apply (pendingAt_fire _ _ w i tm He); try assumption; lia.
Qed.

Lemma pendingAt_app d c l1 l2 : pendingAt d c l1 \/ pendingAt d c l2 -> pendingAt d c (l1 ++ l2).
Proof.
  intros [(x & Hx & H)|(x & Hx & H)]; exists x; (split; [apply elem_of_app; auto|exact H]).
Qed.

(** The two timeouts of a run of a transition. *)
Lemma runSceneTransition_pending key cfg w :
  TRANSITIONS key = Some cfg -> scenePresent w = true ->
  pendingAt (now w + audioFadeIn cfg) (CbAmbientFor key) (timers (runSceneTransition key w))
  /\ pendingAt (now w + duration cfg) (CbOnComplete key) (timers (runSceneTransition key w)).
Proof.
  intros Hcfg Hscene.
  destruct (TRANSITIONS_positive _ _ Hcfg) as [H1 H2].
  destruct (runSceneTransition_parts (fun _ => True) key cfg w ltac:(intros; exact I)
              Hcfg Hscene) as (mid & -> & Hmid & _).
  pose proof (onStart_tail (fun _ => True) key mid ltac:(intros; exact I)
                ltac:(intros; exact I)) as Hst.
  apply does_inv in Hmid as (Hn1 & _). apply does_inv in Hst as (Hn2 & _).
  cbn [now emit] in Hn1, Hn2.
  cbn [timers setTimeout now]. rewrite Hn2, Hn1, !Z.max_r by lia. split.
  - apply pendingAt_app. left. apply pendingAt_app. right.
    eexists. split; [apply list_elem_of_here|]. repeat split.
  - apply pendingAt_app. right.
    eexists. split; [apply list_elem_of_here|]. repeat split.
Qed.

(** [openScene3], 5, 7 and 9 with the scene container present. *)
Lemma openTitleScene_pending from w :
  from = 2 \/ from = 4 \/ from = 6 \/ from = 8 -> scenePresent w = true ->
  transitionPending from (now w) (timers (openTitleScene from w)).
Proof.
  intros Hfrom Hscene. unfold transitionPending, openTitleScene. cbv zeta.
  assert (Hs1 : scenePresent (emit (EvOpenScene (from + 1)) w) = true) by exact Hscene.
  unfold scenePresent in Hs1.
  destruct (fogScene (doc (emit (EvOpenScene (from + 1)) w))); [|discriminate].
  set (w2 := if decide (from = 8) then _ else _).
  assert (Hn2 : now w2 = now w) by (subst w2; destruct (decide _); reflexivity).
  assert (Hs2 : scenePresent w2 = true) by (subst w2; destruct (decide _); exact Hscene).
  assert (Hcfg : exists cfg, TRANSITIONS (transitionKeyFrom from) = Some cfg).
  { destruct Hfrom as [-> | [-> | [-> | ->]]]; eexists; reflexivity. }
  destruct Hcfg as [cfg Hcfg]. rewrite Hcfg.
  destruct (TRANSITIONS_positive _ _ Hcfg) as [H1 H2].
  destruct (runSceneTransition_pending _ cfg w2 Hcfg Hs2) as [Ha Hc].
  rewrite Hn2 in Ha, Hc.
  assert (Hn3 : now (runSceneTransition (transitionKeyFrom from) w2) = now w).
  { destruct (runSceneTransition_effects _ cfg w2 Hcfg Hs2) as (Hn & _).
    rewrite Hn. exact Hn2. }
  cbn [timers setTimeout from_option]. rewrite Hn3, Z.max_r by lia.
  split; [apply pendingAt_app; left; exact Ha|].
  split; [apply pendingAt_app; left; exact Hc|].
  apply pendingAt_app. right.
  eexists. split; [apply list_elem_of_here|]. repeat split.
Qed.

(** The removal of a scene-2 bubble, 300 ms after its pop. *)
Lemma removeBubble_spec b w :
  scenePresent w = true -> flags w !! b = Some (true, true) ->
  let w' := removeBubble 2 b w in
  let last := bool_decide (remaining 2 w = 1%nat) in
  now w' = now w /\ scenePresent w' = true
  /\ remaining 2 w' = pred (remaining 2 w)
  /\ advanceRequests (log w') = (advanceRequests (log w) + (if last then 1 else 0))%nat
  /\ transitionRuns (log w') = (transitionRuns (log w) + (if last then 1 else 0))%nat
  /\ (exists added, timers w' = timers w ++ added
                    /\ Forall (fun tm => staying (cb tm)) added)
  /\ (last = true ->
      (now w, EvOpenScene 3) ∈ log w' /\ (now w, EvRunTransition "2-3") ∈ log w'
      /\ transitionPending 2 (now w) (timers w')).
Proof.
  intros Hscene Hb w' last. subst w' last.
  pose proof (remaining_detach b w Hb) as Hrem.
  unfold removeBubble. cbv zeta. rewrite decide_True by reflexivity.
  set (w1 := updElem b (withAttached false) w) in *.
  unfold openNext.
  destruct (bool_decide (remaining 2 w1 = 0%nat)) eqn:Hz.
  - apply bool_decide_eq_true in Hz.
    rewrite (bool_decide_eq_true_2 (remaining 2 w = 1%nat)) by lia.
    pose proof (openTitleScene_pending 2 w1 (or_introl eq_refl) Hscene) as Hpend.
    change (now w1) with (now w) in Hpend. revert Hpend.
    unfold openTitleScene. cbv zeta.
    assert (Hs1 : scenePresent (emit (EvOpenScene (2 + 1)) w1) = true) by exact Hscene.
    unfold scenePresent in Hs1.
    destruct (fogScene (doc (emit (EvOpenScene (2 + 1)) w1))); [|discriminate].
    rewrite decide_False by discriminate.
    set (w2 := removeSceneBubbles 2 (emit (EvOpenScene (2 + 1)) w1)).
    assert (Hs2 : scenePresent w2 = true) by exact Hscene.
    destruct (runSceneTransition_effects "2-3" (mkTransition 5500 500 300) w2 eq_refl Hs2)
      as (Hn & Hs & Hf & Ha & Hr & Hin & (added & Ht & Hadd)).
    change (transitionKeyFrom 2) with "2-3".
    set (w3 := runSceneTransition "2-3" w2) in *.
    intros Hpend.
    cbn [now setTimeout log timers].
    split; [exact Hn|]. split; [exact Hs|].
    split.
    { rewrite remaining_flags.
      change (count (fun f : bool * bool => f.1 && f.2) (flags w3) = pred (remaining 2 w)).
      rewrite Hf, <- remaining_flags. subst w2. rewrite remaining_removeSceneBubbles. lia. }
    split; [rewrite Ha; unfold advanceRequests; simpl; lia|].
    split; [rewrite Hr; unfold transitionRuns; simpl; lia|].
    split.
    { eexists (added ++ [_]). rewrite Ht, <- app_assoc. split; [reflexivity|].
      apply Forall_app. split; [exact Hadd|]. repeat constructor. }
    intros _. split; [|split; [|exact Hpend]]; apply Hin.
    + left. apply list_elem_of_here.
    + right. reflexivity.
  - apply bool_decide_eq_false in Hz.
    rewrite (bool_decide_eq_false_2 (remaining 2 w = 1%nat)) by lia.
    split; [reflexivity|]. split; [exact Hscene|]. split; [lia|].
    split; [simpl; lia|]. split; [simpl; lia|].
    split; [exists []; rewrite app_nil_r; split; [reflexivity|constructor]|discriminate].
Qed.

Lemma flags_sceneRemove c w : flags (sceneRemove c w) = flags w.
Proof. reflexivity. Qed.

Lemma flags_setExpansions xs w : flags (setExpansions xs w) = flags w.
Proof. reflexivity. Qed.

(** The press that pops a scene-2 bubble: the stops, the restyling, and
    the removal 300 ms ahead. *)
Lemma ctaHandler_pop2 w x e el :
  expansions w !! x = Some e -> elems (doc w) !! xBubble e = Some el ->
  (xTotalPages e <= xCurrentPage e)%nat -> dataScene2 el = true ->
  exists pre,
    ctaHandler x w = setTimeout (CbRemoveBubble 2 (xBubble e)) 300 pre
    /\ does notAdvancing staying 0 w pre /\ flags pre = flags w.
Proof.
  intros Hx Hel Hlast H2. unfold ctaHandler.
  rewrite Hx, Hel, (proj2 (Nat.ltb_ge _ _) Hlast), H2. cbv zeta.
  unfold popSceneBubble. cbv zeta. eexists. split; [reflexivity|].
  assert (Hdev := device_notAdvancing).
  set (w1 := stopAllTracks (playPopSound w)).
  assert (Hd1 : does notAdvancing staying 0 w w1).
  { eapply (does_seq _ _ 0 0);
      [apply does_playPopSound, Hdev|apply does_stopAllTracks, Hdev|lia]. }
  assert (Hf1 : flags w1 = flags w).
  { apply flags_doc. subst w1. unfold stopAllTracks. rewrite (foldl_keeps doc).
    - unfold playPopSound. destruct (negb _); reflexivity.
    - intros w0 tr. apply stopTrack_frame. }
  split.
  - eapply (does_after _ _ 0 0); [|exact Hd1|lia].
    eapply (does_after _ _ 0 0); [apply does_sceneRemove| |lia].
    eapply (does_after _ _ 0 0); [apply does_sceneRemove| |lia].
    eapply (does_after _ _ 0 0); [apply does_bubbleRemoveClass| |lia].
    destruct (from_option _ _ _); [|apply does_refl].
    unfold dropCta. eapply (does_after _ _ 0 0); [apply does_setExpansions|apply does_updElem|lia].
  - rewrite !flags_sceneRemove, flags_bubbleRemoveClass.
    destruct (from_option _ _ _); [|exact Hf1].
    unfold dropCta. rewrite flags_setExpansions, flags_updElem; [exact Hf1|].
    intros e0. split; reflexivity.
Qed.

Lemma staying_not_removal ts : Forall (fun tm => staying (cb tm)) ts -> removals ts = 0%nat.
Proof.
  intros H. apply count_none. eapply Forall_impl; [exact H|].
  intros tm. simpl. destruct (cb tm); simpl; first [reflexivity|contradiction].
Qed.

Lemma removals_app l1 l2 : removals (l1 ++ l2) = (removals l1 + removals l2)%nat.
Proof. apply count_app. Qed.

Lemma removals_delete ts i tm :
  ts !! i = Some tm ->
  (removals (delete i ts) + (if isRemovalCb (cb tm) then 1 else 0))%nat = removals ts.
Proof. intros H. exact (count_delete (fun tm => isRemovalCb (cb tm)) ts i tm H). Qed.

Lemma only_staying b D ts :
  Forall (fun tm => staying (cb tm) \/ (cb tm = CbRemoveBubble 2 b /\ due tm = D)) ts ->
  removals ts = 0%nat -> Forall (fun tm => staying (cb tm)) ts.
Proof.
  intros H H0. apply count_zero_Forall in H0.
  rewrite Forall_forall in *. intros tm Hin.
  destruct (H tm Hin) as [Hs|[Hcb _]]; [exact Hs|].
  specialize (H0 tm Hin). simpl in H0. rewrite Hcb in H0. discriminate.
Qed.

Lemma popped_fire D r a1 t1 last w i tm :
  popped D r a1 t1 last w -> earliest (timers w) = Some (i, tm) -> due tm <= D ->
  popped D r a1 t1 last (fire w).
Proof.
  intros (Hs & Hrem & Ha & Ht & Hall & Hev) He Hdue.
  pose proof (transitionPending_fire 2 D w i tm He Hdue) as Hkeep.
  pose proof (earliest_spec _ _ _ He) as [Hi _].
  assert (Hst : staying (cb tm)).
  { rewrite Forall_forall in Hall. apply Hall. eapply list_elem_of_lookup_2. exact Hi. }
  destruct (fire_staying w i tm He Hst)
    as (_ & Hs' & Hf' & (new & Hl & Hnew) & (added & Ht' & Hadd)).
  destruct (quiet_counts _ new (log w) Hnew) as [Hqa Hqt].
  unfold popped. rewrite Hs', Hl, Hqa, Hqt.
  split; [exact Hs|]. split; [rewrite remaining_flags, Hf', <- remaining_flags; exact Hrem|].
  split; [exact Ha|]. split; [exact Ht|].
  split; [rewrite Ht'; apply Forall_app; split; [apply Forall_delete, Hall|exact Hadd]|].
  intros Hlast. destruct (Hev Hlast) as (H1 & H2 & H3).
  split; [|split; [|exact (Hkeep H3)]]; apply elem_of_app; right; assumption.
Qed.

Lemma popping_fire b D F a0 t0 w i tm :
  F !! b = Some (true, true) ->
  popping b D F a0 t0 w -> earliest (timers w) = Some (i, tm) ->
  let r0 := count (fun f : bool * bool => f.1 && f.2) F in
  let last := bool_decide (r0 = 1%nat) in
  popping b D F a0 t0 (fire w)
  \/ popped D (pred r0) (a0 + (if last then 1 else 0)) (t0 + (if last then 1 else 0)) last
       (fire w).
Proof.
  intros HF (Hs & Hfl & Ha & Ht & Hall & Hone & Hnow) He r0 last.
  pose proof (earliest_spec _ _ _ He) as [Hi Hmin].
  pose proof (removals_delete _ _ _ Hi) as Hdel.
  assert (Htm : staying (cb tm) \/ (cb tm = CbRemoveBubble 2 b /\ due tm = D)).
  { rewrite Forall_forall in Hall. apply Hall. eapply list_elem_of_lookup_2. exact Hi. }
  assert (Hrest := Forall_delete _ _ i Hall).
  destruct Htm as [Hst|[Hcb HD]].
  - left.
    assert (Hnot : isRemovalCb (cb tm) = false)
      by (destruct (cb tm); simpl in *; first [reflexivity|contradiction]).
    rewrite Hnot in Hdel.
    destruct (fire_staying w i tm He Hst)
      as (Hn' & Hs' & Hf' & (new & Hl & Hnew) & (added & Ht' & Hadd)).
    destruct (quiet_counts _ new (log w) Hnew) as [Hqa Hqt].
    unfold popping. rewrite Hs', Hf', Hl, Ht', Hqa, Hqt, Hn', removals_app.
    rewrite (staying_not_removal added Hadd).
    split; [exact Hs|]. split; [exact Hfl|]. split; [exact Ha|]. split; [exact Ht|].
    split.
    { apply Forall_app. split; [exact Hrest|].
      eapply Forall_impl; [exact Hadd|]. intros; left; assumption. }
    split; [lia|].
    assert (Hp : removals (timers w) <> 0%nat) by lia.
    destruct (count_pos_elem _ _ Hp) as (tmo & Hin & Hrm).
    rewrite Forall_forall in Hall. destruct (Hall _ Hin) as [Hc|[_ Hdo]].
    + destruct (cb tmo); simpl in *; first [discriminate|contradiction].
    + specialize (Hmin _ Hin). lia.
  - right. rewrite Hcb in Hdel. simpl in Hdel.
    unfold fire. rewrite He, Hcb. simpl runCallback. unfold rearm. cbn [fst snd].
    assert (Hsd : scenePresent (dequeue i tm w) = true) by exact Hs.
    assert (Hfd : flags (dequeue i tm w) !! b = Some (true, true))
      by (change (flags w !! b = Some (true, true)); rewrite Hfl; exact HF).
    destruct (removeBubble_spec b (dequeue i tm w) Hsd Hfd)
      as (Hn' & Hs' & Hrem & Hqa & Hqt & (added & Ht' & Hadd) & Hev).
    assert (Hr0 : remaining 2 (dequeue i tm w) = r0).
    { rewrite remaining_flags. change (flags (dequeue i tm w)) with (flags w).
      rewrite Hfl. reflexivity. }
    rewrite Hr0 in *. fold last in Hqa, Hqt, Hev.
    assert (HnowD : now (dequeue i tm w) = D) by (simpl; lia).
    unfold popped.
    split; [exact Hs'|]. split; [exact Hrem|].
    split; [rewrite Hqa; simpl; rewrite Ha; reflexivity|].
    split; [rewrite Hqt; simpl; rewrite Ht; reflexivity|].
    split.
    { rewrite Ht'. apply Forall_app. split; [|exact Hadd].
      apply (only_staying b D); [exact Hrest|]. simpl. lia. }
    rewrite <- HnowD. exact Hev.
Qed.



(** * Further properties of the code *)

(** ** Starting the ambient layers *)

Lemma sceneConfig_cases n cfg :
  sceneConfig n = Some cfg -> cfg = earlySceneAudio \/ cfg = lateSceneAudio.
Proof.
  unfold sceneConfig. repeat (destruct (decide _); [intros [= <-]; auto|]). discriminate.
Qed.

Lemma sceneConfig_range n : (exists cfg, sceneConfig n = Some cfg) <-> 1 <= n <= 5.
Proof.
  unfold sceneConfig. split.
  - intros [cfg H]. repeat (destruct (decide _); [lia|]). discriminate.
  - intros H. repeat (destruct (decide _); [eexists; reflexivity|]). lia.
Qed.

(** X1: the first start of the ambience.  With no layer yet, audio enabled
    and the call past the initialisation guard, [playAmbient] for a
    configured scene creates one element per configured layer, in order,
    each looping, muted, playing and at the configured volume, and nothing
    else. *)
Theorem playAmbient_first_start (w : World) (n : Z) (cfg : list LayerCfg) :
  ambientLayers (am w) = ∅ -> audioEnabled (am w) = true ->
  (audioInitialized (am w) = true \/ n <> 1) ->
  sceneConfig n = Some cfg ->
  let w' := playAmbient n w in
  (forall i layer, cfg !! i = Some layer ->
     ambientLayers (am w') !! layerId layer
     = Some (mkAudio (nextAid w + i) ("assets/audio/" +:+ layerFile layer)
                     (layerVolume layer) true true false))
  /\ size (ambientLayers (am w')) = length cfg
  /\ nextAid w' = (nextAid w + length cfg)%nat
  /\ timers w' = timers w /\ doc w' = doc w
  /\ oneShot (am w') = oneShot (am w) /\ transitionAudio (am w') = transitionAudio (am w).
Proof.
  intros Hem Hen Hinit Hcfg w'. subst w'. unfold playAmbient.
  assert (G1 : negb (audioInitialized (am w)) && bool_decide (n = 1) = false).
  { destruct Hinit as [->|Hn]; [reflexivity|].
    rewrite (bool_decide_eq_false_2 _ Hn). apply andb_false_r. }
  rewrite G1, Hen, Hcfg. simpl negb. cbv iota.
  rewrite Hem, map_size_empty. simpl bool_decide.
  destruct (sceneConfig_cases n cfg Hcfg) as [-> | ->]; simpl; rewrite Hem.
  all: split;
    [intros [|[|[|i]]] layer [= <-]; simpl;
     repeat (rewrite lookup_insert_ne by discriminate);
     rewrite lookup_insert_eq; unfold withPaused; simpl; repeat f_equal; lia|].
  all: split; [vm_compute; reflexivity|].
  all: repeat split; lia.
Qed.

(** The ambience of scene 3 started on a fresh manager. *)
Lemma playAmbient_first_start_witness :
  ambientLayers (am (playAmbient 3 (pageWith ["scene"] [] ∅ None))) !! "night"
  = Some (mkAudio 1 "assets/audio/night.mp3" (1 # 2) true true false)
  /\ size (ambientLayers (am (playAmbient 3 (pageWith ["scene"] [] ∅ None)))) = 3%nat.
Proof.
  assert (Hcfg : sceneConfig 3 = Some lateSceneAudio) by (vm_compute; reflexivity).
  assert (Hn : audioInitialized (am (pageWith ["scene"] [] ∅ None)) = true \/ 3 <> 1)
    by (right; discriminate).
  pose proof (playAmbient_first_start (pageWith ["scene"] [] ∅ None) 3 lateSceneAudio
                eq_refl eq_refl Hn Hcfg) as (Hl & Hs & _).
  split; [exact (Hl 1%nat (mkLayer "night" "night.mp3" (1 # 2)) eq_refl)|exact Hs].
Defined.

(** X2: the guards of [playAmbient].  Scene 1 requested before [init] is
    only recorded as pending; with audio disabled, or for a scene outside
    1..5, the call does nothing at all.  In each case no element is
    created, no layer is written and the playback device is not called. *)
Theorem playAmbient_guarded (w : World) (n : Z) :
  (audioInitialized (am w) = false /\ n = 1) \/ audioEnabled (am w) = false
  \/ n < 1 \/ 5 < n ->
  let w' := playAmbient n w in
  ambientLayers (am w') = ambientLayers (am w)
  /\ log w' = log w /\ nextAid w' = nextAid w /\ timers w' = timers w /\ doc w' = doc w
  /\ (audioInitialized (am w) = false -> n = 1 -> pendingSceneAudio (am w') = Some 1)
  /\ (audioInitialized (am w) = true \/ n <> 1 -> w' = w).
Proof.
  intros H w'. subst w'. unfold playAmbient.
  destruct (negb (audioInitialized (am w)) && bool_decide (n = 1)) eqn:G1.
  { apply andb_true_iff in G1 as [Hi H1].
    apply negb_true_iff in Hi. apply bool_decide_eq_true in H1. subst n.
    repeat split; try reflexivity. intros [Ht|Hn]; [congruence|contradiction]. }
  assert (Hq : ~ (audioInitialized (am w) = false /\ n = 1)).
  { intros [Hi ->]. rewrite Hi in G1. discriminate. }
  destruct (negb (audioEnabled (am w))) eqn:G2.
  { repeat split; try reflexivity. intros Hi Hn. exfalso. apply Hq. split; assumption. }
  apply negb_false_iff in G2.
  destruct (sceneConfig n) as [cfg|] eqn:Hcfg.
  { exfalso. destruct H as [H|[H|H]]; [contradiction|congruence|].
    assert (1 <= n <= 5) by (apply sceneConfig_range; eexists; exact Hcfg). lia. }
  repeat split; try reflexivity. intros Hi Hn. exfalso. apply Hq. split; assumption.
Qed.

(** Scene 1 requested by the page before [init] ran; scene 9 has no
    ambience of this kind. *)
Lemma playAmbient_guarded_witness :
  pendingSceneAudio (am (playAmbient 1 (pageWith ["scene"] [] ∅ None))) = Some 1
  /\ playAmbient 9 scene1Page = scene1Page.
Proof.
  split.
  - apply (playAmbient_guarded (pageWith ["scene"] [] ∅ None) 1
             (or_introl (conj eq_refl eq_refl))); reflexivity.
  - apply (playAmbient_guarded scene1Page 9). { right. right. right. lia. }
    right. discriminate.
Defined.

(** ** Unmuting *)

Lemma emits_log es w :
  log (emits es w) = reverse ((fun e => (now w, e)) <$> es) ++ log w.
Proof.
  unfold emits. revert w. induction es as [|e es IH]; intros w; simpl; [reflexivity|].
  rewrite IH. simpl. rewrite reverse_cons, <- app_assoc. reflexivity.
Qed.

Lemma emits_now es w : now (emits es w) = now w.
Proof. unfold emits. apply (foldl_keeps now). reflexivity. Qed.

Lemma emitEach_now f m w : now (emitEach f m w) = now w.
Proof. unfold emitEach. apply (foldl_keeps now). intros. apply emits_now. Qed.

(** The device calls of a [forEach] over a layer map: those of each layer. *)
Lemma emitEach_log f (m : gmap string Audio) w :
  exists new, log (emitEach f m w) = new ++ log w
    /\ forall te, te ∈ new <-> exists id a e, m !! id = Some a /\ e ∈ f a /\ te = (now w, e).
Proof.
  unfold emitEach.
  assert (H : forall (l : list (string * Audio)) w,
            exists new, log (foldl (fun w ka => emits (f ka.2) w) w l) = new ++ log w
              /\ forall te, te ∈ new <-> exists ka e, ka ∈ l /\ e ∈ f ka.2 /\ te = (now w, e)).
  { induction l as [|ka l IH]; intros w0; simpl.
    - exists []. split; [reflexivity|]. intros te. split; [intros Hin; inversion Hin|].
      intros (ka & e & Hin & _). inversion Hin.
    - destruct (IH (emits (f ka.2) w0)) as (new & Hl & Hnew).
      rewrite emits_log in Hl. rewrite emits_now in Hnew.
      exists (new ++ reverse ((fun e => (now w0, e)) <$> f ka.2)).
      split; [rewrite Hl, <- app_assoc; reflexivity|].
      intros te. rewrite elem_of_app, Hnew, elem_of_reverse, list_elem_of_fmap. split.
      + intros [(kb & e & Hin & He & ->)|(e & -> & He)].
        * exists kb, e. split; [apply list_elem_of_further, Hin|]. split; [exact He|reflexivity].
        * exists ka, e. split; [apply list_elem_of_here|]. split; [exact He|reflexivity].
      + intros (kb & e & Hin & He & ->). apply elem_of_cons in Hin as [->|Hin].
        * right. exists e. split; [reflexivity|exact He].
        * left. exists kb, e. split; [exact Hin|]. split; [exact He|reflexivity]. }
  destruct (H (map_to_list m) w) as (new & Hl & Hnew).
  exists new. split; [exact Hl|]. intros te. rewrite Hnew. split.
  - intros ([id a] & e & Hin & He & ->). apply elem_of_map_to_list in Hin.
    exists id, a, e. split; [exact Hin|]. split; [exact He|reflexivity].
  - intros (id & a & e & Hin & He & ->). exists (id, a), e.
    split; [apply elem_of_map_to_list; exact Hin|]. split; [exact He|reflexivity].
Qed.

(** X3: [unmuteAudio] leaves every ambient layer unmuted and playing,
    with its identity, source, volume and loop flag as they were.  It
    calls [play()] on exactly the layers that were paused, and a second
    call changes nothing. *)
Theorem unmuteAudio_spec (w : World) :
  let w' := unmuteAudio w in
  (forall id, ambientLayers (am w') !! id
              = (fun a => withPaused false (withMuted false a)) <$> ambientLayers (am w) !! id)
  /\ (exists new, log w' = new ++ log w
        /\ forall te, te ∈ new <->
             exists id a, ambientLayers (am w) !! id = Some a /\ paused a = true
                          /\ te = (now w, EvPlay (aid a)))
  /\ nextAid w' = nextAid w /\ timers w' = timers w
  /\ unmuteAudio w' = w'.
Proof.
  cbv zeta.
  assert (Hl : forall w0 id, ambientLayers (am (unmuteAudio w0)) !! id
               = (fun a => withPaused false (withMuted false a))
                   <$> ambientLayers (am w0) !! id).
  { intros w0 id. unfold unmuteAudio. cbv zeta. simpl. rewrite lookup_fmap.
    destruct (ambientLayers (am w0) !! id) as [a|]; [|reflexivity].
    simpl. destruct a as [i s v l mu p]. destruct p; reflexivity. }
  split; [apply Hl|]. split; [|split; [|split]].
  - unfold unmuteAudio. cbv zeta. simpl.
    destruct (emitEach_log (fun a => if paused a then [EvPlay (aid a)] else [])
                (ambientLayers (am w)) w) as (new & Hlog & Hnew).
    exists new. split; [exact Hlog|]. intros te. rewrite Hnew. split.
    + intros (id & a & e & Hin & He & ->). destruct (paused a) eqn:Hp; [|inversion He].
      apply list_elem_of_singleton in He as ->. exists id, a. repeat split; assumption.
    + intros (id & a & Hin & Hp & ->). exists id, a, (EvPlay (aid a)).
      split; [exact Hin|]. rewrite Hp. split; [apply list_elem_of_here|reflexivity].
  - unfold unmuteAudio. cbv zeta. simpl.
    apply (foldl_keeps nextAid). intros w0 x. unfold emits. apply (foldl_keeps nextAid).
    reflexivity.
  - unfold unmuteAudio. cbv zeta. simpl. apply emitEach_timers.
  - set (w1 := unmuteAudio w).
    assert (Hnone : forall l w0, Forall (fun ka : string * Audio => paused ka.2 = false) l ->
              foldl (fun w ka => emits (if paused ka.2 then [EvPlay (aid ka.2)] else []) w) w0 l
              = w0).
    { induction l as [|ka l IH]; intros w0 HF; [reflexivity|].
      inversion HF as [|? ? Hp HF']; subst. simpl. rewrite Hp. simpl. apply IH, HF'. }
    assert (Hfix : (fun a => if paused a then withPaused false (withMuted false a)
                             else withMuted false a) <$> ambientLayers (am w1)
                   = ambientLayers (am w1)).
    { apply map_eq. intros id. rewrite lookup_fmap. subst w1. rewrite Hl.
      destruct (ambientLayers (am w) !! id); reflexivity. }
    assert (Hq : Forall (fun ka : string * Audio => paused ka.2 = false)
                   (map_to_list (ambientLayers (am w1)))).
    { apply Forall_forall. intros [id a] Hin. apply elem_of_map_to_list in Hin.
      simpl. subst w1. rewrite Hl in Hin.
      destruct (ambientLayers (am w) !! id); [|discriminate].
      injection Hin as <-. reflexivity. }
    unfold unmuteAudio at 1. cbv zeta. unfold emitEach. rewrite (Hnone _ _ Hq), Hfix.
    clearbody w1. destruct w1 as [n0 nt ts na a0 d xs lg]. destruct a0. reflexivity.
Qed.

(** ** The transition sound *)

(** X4: at most one transition loop is tracked.  With audio enabled,
    [playTransition] first pauses and rewinds the loop the manager holds,
    then plays a fresh element; only a looping one is kept, so a one-shot
    sound leaves nothing for [stopTransition] to stop.  [stopTransition]
    stops the held loop and is idempotent; with audio disabled
    [playTransition] does nothing. *)
Theorem playTransition_spec (w : World) (file : string) (lp : bool) (v : Q) :
  let w' := playTransition file lp v w in
  let fresh := mkAudio (nextAid w) ("assets/audio/" +:+ file) v lp false false in
  (audioEnabled (am w) = false -> w' = w)
  /\ (audioEnabled (am w) = true ->
      transitionAudio (am w') = (if lp then Some fresh else None)
      /\ nextAid w' = S (nextAid w)
      /\ log w' = [(now w, EvPlay (nextAid w)); (now w, EvNewAudio (nextAid w) (src fresh))]
                  ++ log (stopTransition w)
      /\ (lp = false -> stopTransition w' = w'))
  /\ log (stopTransition w)
     = match transitionAudio (am w) with
       | Some old => (now w, EvRewind (aid old)) :: (now w, EvPause (aid old)) :: log w
       | None => log w
       end
  /\ transitionAudio (am (stopTransition w)) = None
  /\ stopTransition (stopTransition w) = stopTransition w.
Proof.
  cbv zeta. unfold playTransition, stopTransition, newAudio, playAudio, haltAudio.
  destruct (audioEnabled (am w)) eqn:Hen; simpl negb; cbv iota.
  - split; [discriminate|]. split.
    + intros _. destruct (transitionAudio (am w)) eqn:Ht, lp; simpl; rewrite ?Ht;
        repeat split; try reflexivity; discriminate.
    + destruct (transitionAudio (am w)) eqn:Ht; simpl; rewrite ?Ht; repeat split; reflexivity.
  - split; [reflexivity|]. split; [discriminate|].
    destruct (transitionAudio (am w)) eqn:Ht; simpl; rewrite ?Ht; repeat split; reflexivity.
Qed.

(** The Steps loop of the 2-3 transition replaced by the default swoosh. *)
Lemma playTransition_spec_witness :
  transitionAudio (am (playTransitionDefault inFlight)) = None
  /\ firstn 4 (log (playTransitionDefault inFlight))
     = [(100, EvPlay 4); (100, EvNewAudio 4 "assets/audio/Swoosh.wav");
        (100, EvRewind 3); (100, EvPause 3)].
Proof.
  assert (Hen : audioEnabled (am inFlight) = true) by (vm_compute; reflexivity).
  destruct (playTransition_spec inFlight "Swoosh.wav" false (7 # 10)) as (_ & H & _).
  destruct (H Hen) as (Ht & _ & Hl & _).
  split; [exact Ht|]. unfold playTransitionDefault. rewrite Hl. vm_compute. reflexivity.
Defined.

(** ** One-shot tracks *)

(** X5: a one-shot track is restarted, never doubled.  With audio enabled,
    [playTrack] pauses and rewinds the element the manager holds for the
    track, then holds a fresh element playing at volume 0.5; the other
    tracks are untouched.  [stopTrack] then pauses that element and clears
    the field, and stopping a track that is not held does nothing.  With
    audio disabled [playTrack] does nothing. *)
Theorem playTrack_spec (w : World) (tr : Track) :
  let w' := playTrack tr w in
  let fresh := mkAudio (nextAid w) (trackFile tr) (1 # 2) false false false in
  (audioEnabled (am w) = false -> w' = w)
  /\ (audioEnabled (am w) = true ->
      oneShot (am w') tr = Some fresh
      /\ nextAid w' = S (nextAid w)
      /\ log w' = [(now w, EvPlay (nextAid w)); (now w, EvNewAudio (nextAid w) (trackFile tr))]
                  ++ log (stopTrack tr w)
      /\ oneShot (am (stopTrack tr w')) tr = None
      /\ log (stopTrack tr w')
         = (now w, EvRewind (nextAid w)) :: (now w, EvPause (nextAid w)) :: log w')
  /\ (forall t, t <> tr -> oneShot (am w') t = oneShot (am w) t)
  /\ (oneShot (am w) tr = None -> stopTrack tr w = w)
  /\ stopTrack tr (stopTrack tr w) = stopTrack tr w.
Proof.
  cbv zeta. split; [|split; [|split; [|split]]].
  - intros Hen. unfold playTrack. rewrite Hen. reflexivity.
  - intros Hen. unfold playTrack, stopTrack, newAudio, playAudio, haltAudio. rewrite Hen.
    simpl negb. cbv iota.
    destruct (oneShot (am w) tr) eqn:Ho; simpl; rewrite decide_True by reflexivity;
      simpl; rewrite ?decide_True by reflexivity; repeat split; reflexivity.
  - intros t Hne. apply playTrack_oneShot_ne, Hne.
  - intros Ho. unfold stopTrack. rewrite Ho. reflexivity.
  - unfold stopTrack at 1.
    rewrite stopTrack_oneShot, decide_True by reflexivity. reflexivity.
Qed.

(** Chat1 started twice on the beta bubble's page. *)
Lemma playTrack_spec_witness :
  oneShot (am (playTrack Chat1 betaRevealed)) Chat1
  = Some (mkAudio 4 "assets/audio/Chat1.mp3" (1 # 2) false false false)
  /\ firstn 4 (log (playTrack Chat1 betaRevealed))
     = [(3000, EvPlay 4); (3000, EvNewAudio 4 "assets/audio/Chat1.mp3");
        (3000, EvRewind 3); (3000, EvPause 3)].
Proof.
  assert (Hen : audioEnabled (am betaRevealed) = true) by (vm_compute; reflexivity).
  assert (Hn : nextAid betaRevealed = 4%nat) by (vm_compute; reflexivity).
  assert (Hnow : now betaRevealed = 3000) by (vm_compute; reflexivity).
  destruct (playTrack_spec betaRevealed Chat1) as (_ & H & _).
  destruct (H Hen) as (Ho & _ & Hl & _).
  rewrite Ho, Hl, Hn, Hnow. split; [reflexivity|]. vm_compute. reflexivity.
Defined.

(** ** The crow of scene 1 *)

Lemma next_tick_not_crow c w c' : (runCallback c w).2 = Some c' -> isCrowCb c' = false.
Proof.
  destruct c; simpl; try discriminate;
    unfold tickFadeToLevel, tickFadeOut, tickFadeIn, tickScene9FadeOut, tickBirdFadeIn;
    cbv zeta; destruct (bool_decide _); simpl; intros [= <-]; reflexivity.
Qed.

(** No callback of the program schedules the crow. *)
Lemma fire_no_crow w :
  Forall (fun tm => isCrowCb (cb tm) = false) (timers w) ->
  Forall (fun tm => isCrowCb (cb tm) = false) (timers (fire w)).
Proof.
  intros H. unfold fire. destruct (earliest (timers w)) as [[i tm]|] eqn:He; [|exact H].
  destruct (does_runCallback (fun _ => True) (fun c => isCrowCb c = false)) with
    (c := cb tm) (w := dequeue i tm w) as (K & Hd & _); try (intros; reflexivity);
    try (intros; exact I).
  apply does_inv in Hd as (_ & _ & _ & (added & Ht & Hadd & _)).
  pose proof (next_tick_not_crow (cb tm) (dequeue i tm w)) as Hk.
  unfold rearm. destruct (runCallback (cb tm) (dequeue i tm w)) as [w2 k]. cbn [fst snd] in *.
  assert (Hw2 : Forall (fun tm => isCrowCb (cb tm) = false) (timers w2)).
  { rewrite Ht. apply Forall_app. split; [apply Forall_delete, H|exact Hadd]. }
  destruct k as [c'|]; [|exact Hw2]. destruct (period tm); [|exact Hw2].
  cbn [timers setTimers]. apply Forall_app. split; [exact Hw2|].
  constructor; [apply Hk; reflexivity|constructor].
Qed.

Lemma cancelCrowSound_field w : crowSoundTimeout (am (cancelCrowSound w)) = None.
Proof. unfold cancelCrowSound. destruct (crowSoundTimeout (am w)) eqn:H; [reflexivity|exact H]. Qed.

(** An expansion that gets past its guards: the crow is cancelled and the
    three phases are scheduled. *)
Lemma expandBubble_proceeds b w el :
  elems (doc w) !! b = Some el -> hasClass "expanded" el = false ->
  scenePresent w = true ->
  crowSoundTimeout (am (expandBubble b w)) = None
  /\ exists x, timers (expandBubble b w)
               = timers (cancelCrowSound w)
                 ++ [mkTimer (nextTid w) (now w + 0) None (CbSizeApply b);
                     mkTimer (S (nextTid w)) (now w + 1200) None (CbBackground b);
                     mkTimer (S (S (nextTid w))) (now w + 2700) None (CbReveal b x)].
Proof.
  intros Hel Hexp Hs. unfold expandBubble. rewrite Hel, Hexp.
  unfold scenePresent in Hs. destruct (fogScene (doc w)); [|discriminate].
  cbv zeta. unfold mountExpansion. cbv zeta.
  assert (Hc : nextTid (cancelCrowSound w) = nextTid w
               /\ now (cancelCrowSound w) = now w).
  { unfold cancelCrowSound. destruct (crowSoundTimeout (am w)); split; reflexivity. }
  destruct Hc as [Hn Ht]. pose proof (cancelCrowSound_field w) as Hf.
  unfold injectContent.
  destruct (content el); [|destruct (bubbleTemplates _ !! _)];
    destruct (from_option hasCta false _); simpl; rewrite ?Hn, ?Ht, <- ?app_assoc;
    (split; [exact Hf|eexists; reflexivity]).
Qed.

(** X6: the crow is cancelled by the first expansion.  Once the crow is
    scheduled, expanding a bubble (one that is in the document and not yet
    expanded, the scene container being there) clears the crow's timer and
    the manager's handle on it, and no crow timer is pending at any later
    instant: the callback that plays the sound never runs. *)
Theorem expandBubble_cancels_crow (w : World) (b : nat) (el : Bubble) (t : Z) :
  Forall (fun tm => isCrowCb (cb tm) = false) (timers w) ->
  elems (doc w) !! b = Some el -> hasClass "expanded" el = false ->
  scenePresent w = true ->
  crowSoundTimeout (am (scheduleCrow w)) = Some (nextTid w)
  /\ Exists (fun tm => isCrowCb (cb tm) = true) (timers (scheduleCrow w))
  /\ crowSoundTimeout (am (expandBubble b (scheduleCrow w))) = None
  /\ Forall (fun tm => isCrowCb (cb tm) = false)
       (timers (advance t (expandBubble b (scheduleCrow w)))).
Proof.
  intros Hno Hel Hexp Hs.
  split; [reflexivity|].
  split; [unfold scheduleCrow; simpl; apply Exists_app; right; constructor; reflexivity|].
  assert (Hcancel : timers (cancelCrowSound (scheduleCrow w))
                    = filter (fun tm => tid tm <> nextTid w) (timers w)).
  { unfold cancelCrowSound, scheduleCrow, clearTimer. simpl.
    rewrite filter_app, filter_cons_False, filter_nil, app_nil_r; [reflexivity|].
    simpl. intros H. apply H. reflexivity. }
  destruct (expandBubble_proceeds b (scheduleCrow w) el Hel Hexp Hs) as (Hf & x & Heq).
  split; [exact Hf|].
  apply (advance_ind (fun w0 => Forall (fun tm => isCrowCb (cb tm) = false) (timers w0))
                     (fun w0 => Forall (fun tm => isCrowCb (cb tm) = false) (timers w0)) t).
  - intros w0 i tm H _ _. apply fire_no_crow, H.
  - intros w0 H _. exact H.
  - rewrite Heq, Hcancel. apply Forall_app. split.
    + apply Forall_forall. intros tm Hin. apply list_elem_of_filter in Hin as [_ Hin].
      rewrite Forall_forall in Hno. apply Hno, Hin.
    + repeat constructor.
Qed.

(** The crow scheduled on a page whose bubble is opened at once. *)
Lemma expandBubble_cancels_crow_witness :
  Exists (fun tm => isCrowCb (cb tm) = true) (timers (scheduleCrow wordlessPage))
  /\ Forall (fun tm => isCrowCb (cb tm) = false)
       (timers (advance 500 (expandBubble 0 (scheduleCrow wordlessPage)))).
Proof.
  destruct (expandBubble_cancels_crow wordlessPage 0 wordlessBubble 500
              (List.Forall_nil _) eq_refl eq_refl eq_refl) as (_ & He & _ & Hf).
  split; [exact He|exact Hf].
Defined.

(** ** A fade-in restores the volumes it found *)

Lemma writeVolumes_zeroed f (base : gmap string Audio) :
  writeVolumes f (volume <$> base) (withVolume 0%Q <$> base)
  = writeVolumes f (volume <$> base) base.
Proof.
  apply map_eq. intros id. rewrite !writeVolumes_lookup, !lookup_fmap.
  destruct (base !! id) as [a|]; reflexivity.
Qed.

Lemma writeVolumes_fadeInAt f base s :
  writeVolumes f (volume <$> base) (fadeInAt base s) = writeVolumes f (volume <$> base) base.
Proof.
  unfold fadeInAt. destruct (decide (s = 0%nat));
    [apply writeVolumes_zeroed|apply writeVolumes_overwrite].
Qed.

Lemma tickFadeIn_envelope base s w :
  (s < 50)%nat ->
  ambientLayers (am w) = fadeInAt base s ->
  ambientLayers (am (runCallback (CbFadeIn (volume <$> base) s) w).1) = fadeInAt base (S s)
  /\ timers (runCallback (CbFadeIn (volume <$> base) s) w).1 = timers w
  /\ (runCallback (CbFadeIn (volume <$> base) s) w).2
     = (if (S s <? 50)%nat then Some (CbFadeIn (volume <$> base) (S s)) else None).
Proof.
  intros Hs Hl. simpl runCallback. unfold tickFadeIn. cbv zeta.
  unfold fadeInAt. rewrite decide_False by discriminate. unfold rampIn.
  destruct (bool_decide (steps <= S s)%nat) eqn:Hb; cbn [fst snd].
  - apply bool_decide_eq_true in Hb. unfold steps in Hb.
    rewrite (proj2 (Nat.ltb_ge _ _)) by lia.
    split; [|split; reflexivity]. simpl. rewrite Hl, writeVolumes_overwrite.
    apply writeVolumes_fadeInAt.
  - apply bool_decide_eq_false in Hb. unfold steps in Hb.
    rewrite (proj2 (Nat.ltb_lt _ _)) by lia.
    split; [|split; reflexivity]. simpl. rewrite Hl. apply writeVolumes_fadeInAt.
Qed.

Lemma fadeInAt_lookup base id a k :
  base !! id = Some a ->
  fadeInAt base k !! id
  = Some (withVolume (if decide (k = 0%nat) then 0%Q else rampIn k (volume a)) a).
Proof.
  intros Ha. unfold fadeInAt. destruct (decide (k = 0%nat)).
  - rewrite lookup_fmap, Ha. reflexivity.
  - rewrite writeVolumes_lookup, lookup_fmap, Ha. reflexivity.
Qed.

(** X7: a fade-in that runs alone brings every layer back to the volume
    it had when the fade started.  The layer is silent at the start, at
    [v * k/50] after [k] of the 50 steps, and from the full duration on
    at [v] itself, exactly; its identity and playback state never change. *)
Theorem fadeInAmbient_restores (w : World) (p : Z) (id : string) (a : Audio)
    (k : nat) (r : Z) :
  0 < p ->
  Forall (fun tm => isInert (cb tm) = true) (timers w) ->
  ambientLayers (am w) !! id = Some a ->
  (k <= 50)%nat -> 0 <= r -> ((k < 50)%nat -> r < p) ->
  let t := now w + Z.of_nat k * p + r in
  exists a',
    ambientLayers (am (advance t (fadeInAmbient (50 * p) w))) !! id = Some a'
    /\ retargeted a a'
    /\ volume a' = (if decide (k = 0%nat) then 0%Q
                    else if decide (k = 50%nat) then volume a
                    else (volume a * progressOf k)%Q).
Proof.
  intros Hp Hin Ha Hk Hr Hrp t.
  pose proof (nonempty_size _ _ _ Ha) as Hsize.
  unfold fadeInAmbient. rewrite Hsize.
  assert (Hstart : fading (CbFadeIn (volume <$> ambientLayers (am w)))
                     (fadeInAt (ambientLayers (am w))) (now w) p t
                     (setInterval (CbFadeIn (volume <$> ambientLayers (am w)) 0)
                        (stepDuration (50 * p))
                        (forAmbient (fmap (withVolume 0%Q)) w))).
  { rewrite stepDuration_exact.
    exists 0%nat. split; [lia|]. split; [reflexivity|]. simpl.
    rewrite Z.max_r by lia. split; [|split].
    - apply Forall_app. split.
      + eapply Forall_impl; [exact Hin|]. intros; left; assumption.
      + constructor; [|constructor]. right. simpl. repeat split. lia.
    - rewrite count_app, (inert_count _ Hin). reflexivity.
    - intros H. lia. }
  rewrite (fading_run (CbFadeIn (volume <$> ambientLayers (am w)))
             (fadeInAt (ambientLayers (am w))) (now w) p t Hp (fun _ => eq_refl)
             (fun s w0 => tickFadeIn_envelope _ s w0) _ k r Hstart Hk Hr Hrp eq_refl).
  rewrite (fadeInAt_lookup _ _ _ k Ha). eexists. split; [reflexivity|].
  split; [repeat split|]. simpl.
  destruct (decide (k = 0%nat)); [reflexivity|]. unfold rampIn.
  destruct (decide (k = 50%nat)) as [->|Hk50].
  - reflexivity.
  - rewrite (bool_decide_eq_false_2 (steps <= k)%nat) by (unfold steps; lia). reflexivity.
Qed.

(** "frogs" at 0.5, faded in over 800 ms: silent at the start, 0.25 half
    way, 0.5 again at the end. *)
Lemma fadeInAmbient_restores_witness :
  (volume <$> ambientLayers (am (fadeInAmbient 800 frogsOnly)) !! "frogs") = Some 0%Q
  /\ (exists a', ambientLayers (am (advance 400 (fadeInAmbient 800 frogsOnly))) !! "frogs"
                 = Some a' /\ (volume a' == 1 # 4)%Q)
  /\ (exists a', ambientLayers (am (advance 800 (fadeInAmbient 800 frogsOnly))) !! "frogs"
                 = Some a' /\ volume a' = (1 # 2)%Q).
Proof.
  split; [vm_compute; reflexivity|]. split.
  - destruct (fadeInAmbient_restores frogsOnly 16 "frogs"
                (mkAudio 0 "assets/audio/frogs.mp3" (1 # 2) true false false) 25 0
                ltac:(lia) (List.Forall_nil _) eq_refl ltac:(lia) ltac:(lia) ltac:(lia))
      as (a' & Hl & _ & Hv).
    exists a'. split; [exact Hl|]. rewrite Hv. reflexivity.
  - destruct (fadeInAmbient_restores frogsOnly 16 "frogs"
                (mkAudio 0 "assets/audio/frogs.mp3" (1 # 2) true false false) 50 0
                ltac:(lia) (List.Forall_nil _) eq_refl ltac:(lia) ltac:(lia) ltac:(lia))
      as (a' & Hl & _ & Hv).
    exists a'. split; [exact Hl|]. rewrite Hv. reflexivity.
Defined.

(** ** Expanding a bubble *)

Lemma hasClass_classAdd c e :
  hasClass c (withClasses (classAdd c (classes e)) e) = true.
Proof.
  unfold hasClass, classAdd. simpl. apply bool_decide_eq_true.
  destruct (decide (c ∈ classes e)); [assumption|]. apply elem_of_app. right.
  apply list_elem_of_here.
Qed.

Lemma elem_of_classAdd c x l : x ∈ classAdd c l <-> x = c \/ x ∈ l.
Proof.
  unfold classAdd. destruct (decide (c ∈ l)) as [Hin|Hin].
  - split; [auto|]. intros [->|H]; assumption.
  - rewrite elem_of_app, list_elem_of_singleton. tauto.
Qed.

Lemma elem_of_classRemove c x l : x ∈ classRemove c l <-> x <> c /\ x ∈ l.
Proof. unfold classRemove. rewrite list_elem_of_filter. tauto. Qed.

(** X8: a bubble is expanded once.  [expandBubble] does nothing for a
    bubble that is already expanded, and nothing without the scene
    container; otherwise it marks the bubble expanded, records one
    expansion on page 1 and puts the scene in its zoomed state, so that a
    second call does nothing. *)
Theorem expandBubble_once (w : World) (b : nat) (el : Bubble) :
  elems (doc w) !! b = Some el ->
  let w' := expandBubble b w in
  (hasClass "expanded" el = true \/ scenePresent w = false -> w' = w)
  /\ (hasClass "expanded" el = false -> scenePresent w = true ->
      (exists el', elems (doc w') !! b = Some el' /\ hasClass "expanded" el' = true
                   /\ attached el' = attached el /\ dataScene2 el' = dataScene2 el)
      /\ (exists e, expansions w' = expansions w ++ [e]
                    /\ xBubble e = b /\ xCurrentPage e = 1%nat
                    /\ xTotalPages e = pagesOf (xSentenceCount e))
      /\ (exists l l', fogScene (doc w) = Some l /\ fogScene (doc w') = Some l'
                       /\ "scene--expanded" ∈ l' /\ "scene--zoom" ∈ l'
                       /\ "scene--zooming" ∉ l')
      /\ length (elems (doc w')) = length (elems (doc w))
      /\ expandBubble b w' = w').
Proof.
  intros Hel w'. subst w'. split.
  - intros [He|Hs]; unfold expandBubble; rewrite Hel.
    + rewrite He. reflexivity.
    + destruct (hasClass "expanded" el); [reflexivity|].
      unfold scenePresent in Hs. destruct (fogScene (doc w)); [discriminate|reflexivity].
  - intros He Hs.
    assert (Hshape : exists nodes cnt cta,
              expandBubble b w
              = mountExpansion b nodes cnt cta
                  (injectContent b el (sceneAdd "scene--zooming" (cancelCrowSound w)))).
    { unfold expandBubble. rewrite Hel, He. unfold scenePresent in Hs.
      destruct (fogScene (doc w)); [|discriminate]. cbv zeta. do 3 eexists. reflexivity. }
    destruct Hshape as (nodes & cnt & cta & Heq).
    set (w1 := injectContent b el (sceneAdd "scene--zooming" (cancelCrowSound w))) in *.
    assert (Hel1 : exists e1, elems (doc w1) !! b = Some e1
                              /\ hasClass "expanded" e1 = false
                              /\ attached e1 = attached el /\ dataScene2 e1 = dataScene2 el).
    { subst w1. unfold injectContent.
      destruct (content el); [|destruct (bubbleTemplates _ !! _)].
      - exists el. simpl. rewrite cancelCrowSound_doc. repeat split; assumption.
      - eexists. rewrite updElem_lookup. simpl. rewrite cancelCrowSound_doc, Hel.
        split; [reflexivity|]. repeat split. exact He.
      - exists el. simpl. rewrite cancelCrowSound_doc. repeat split; assumption. }
    destruct Hel1 as (e1 & He1 & Hx1 & Ha1 & Hd1).
    assert (Hlen1 : length (elems (doc w1)) = length (elems (doc w))).
    { subst w1. unfold injectContent.
      destruct (content el); [|destruct (bubbleTemplates _ !! _)]; simpl;
        rewrite ?length_alter, cancelCrowSound_doc; reflexivity. }
    assert (Hf1 : fogScene (doc w1) = classAdd "scene--zooming" <$> fogScene (doc w)).
    { subst w1. unfold injectContent.
      destruct (content el); [|destruct (bubbleTemplates _ !! _)]; simpl;
        rewrite cancelCrowSound_doc; reflexivity. }
    assert (Hx : expansions w1 = expansions w).
    { subst w1. rewrite injectContent_expansions. simpl. apply cancelCrowSound_expansions. }
    assert (Helem : exists el', elems (doc (expandBubble b w)) !! b = Some el'
                                /\ hasClass "expanded" el' = true
                                /\ attached el' = attached el
                                /\ dataScene2 el' = dataScene2 el).
    { rewrite Heq. unfold mountExpansion, bubbleAddClass. cbv zeta.
      destruct cta; simpl; rewrite !list_lookup_alter_eq, He1; simpl;
        (eexists; split; [reflexivity|]);
        (split; [unfold hasClass; simpl; apply bool_decide_eq_true;
                 apply elem_of_classAdd; right; apply elem_of_classAdd; left; reflexivity|]);
        split; assumption. }
    split; [exact Helem|]. split; [|split; [|split]].
    + rewrite Heq, mountExpansion_expansions, Hx. eexists. split; [reflexivity|].
      repeat split.
    + unfold scenePresent in Hs. destruct (fogScene (doc w)) as [l|] eqn:Hl; [|discriminate].
      exists l. rewrite Heq. unfold mountExpansion. cbv zeta.
      destruct cta; simpl; rewrite Hf1; simpl; (eexists; split; [reflexivity|]);
        (split; [reflexivity|]);
        (split; [apply elem_of_classAdd; right; apply elem_of_classAdd; left; reflexivity|]);
        (split; [apply elem_of_classAdd; left; reflexivity|]);
        intros Hin; apply elem_of_classAdd in Hin as [Hin|Hin]; [discriminate| |discriminate|];
        apply elem_of_classAdd in Hin as [Hin|Hin]; try discriminate;
        apply elem_of_classRemove in Hin as [Hin _]; apply Hin; reflexivity.
    + rewrite Heq. unfold mountExpansion, bubbleAddClass. cbv zeta.
      destruct cta; simpl; rewrite ?length_alter; exact Hlen1.
    + destruct Helem as (el' & Hl' & He' & _).
      unfold expandBubble at 1. rewrite Hl', He'. reflexivity.
Qed.

(** The bubble without sentences, expanded twice. *)
Lemma expandBubble_once_witness :
  expandBubble 0 (expandBubble 0 wordlessPage) = expandBubble 0 wordlessPage
  /\ length (expansions (expandBubble 0 wordlessPage)) = 1%nat.
Proof.
  destruct (expandBubble_once wordlessPage 0 wordlessBubble eq_refl) as [_ H].
  destruct (H eq_refl eq_refl) as (_ & (e & Hx & _) & _ & _ & Hid).
  split; [exact Hid|]. rewrite Hx. reflexivity.
Defined.

(** ** Pages *)

Lemma pagesOf_bounds n : (5 * (pagesOf n - 1) < n + 5 /\ n <= 5 * pagesOf n)%nat.
Proof.
  unfold pagesOf, sentencesPerPage. change (5 - 1)%nat with 4%nat.
  pose proof (Nat.div_mod (n + 4) 5 ltac:(lia)).
  pose proof (Nat.mod_upper_bound (n + 4) 5 ltac:(lia)). lia.
Qed.

Lemma pagesOf_pos n : (0 < n -> 5 * (pagesOf n - 1) < n)%nat.
Proof.
  unfold pagesOf, sentencesPerPage. change (5 - 1)%nat with 4%nat. intros Hn.
  pose proof (Nat.div_mod (n + 4) 5 ltac:(lia)).
  pose proof (Nat.mod_upper_bound (n + 4) 5 ltac:(lia)). lia.
Qed.

Lemma shownUpTo_S n k :
  shownUpTo n (S k) = (shownUpTo n k + pageLength n n (S k))%nat.
Proof.
  unfold shownUpTo. rewrite seq_S, foldr_app. simpl.
  assert (H : forall (l : list nat) x,
            foldr (fun page acc => (pageLength n n page + acc)%nat) x l
            = (foldr (fun page acc => (pageLength n n page + acc)%nat) 0 l + x)%nat).
  { induction l as [|p l IH]; intros x; simpl; [reflexivity|]. rewrite IH. lia. }
  rewrite H. lia.
Qed.

Lemma shownUpTo_spec n k : shownUpTo n k = Nat.min (5 * k) n.
Proof.
  induction k as [|k IH]; [reflexivity|].
  rewrite shownUpTo_S, IH. unfold pageLength, sentencesPerPage. cbv zeta.
  replace (S k - 1)%nat with k by lia. lia.
Qed.

(** X9: the pages of a bubble partition its sentences.  With [n > 0]
    sentences there are [ceil(n / 5)] pages; every page before the last
    shows exactly five sentences, the last between one and five, and
    together the pages show each sentence once, [n] in all.  Paging past
    the last page shows nothing. *)
Theorem pages_partition (n : nat) :
  (0 < n)%nat ->
  (forall page, (1 <= page < pagesOf n)%nat -> pageLength n n page = 5%nat)
  /\ (1 <= pageLength n n (pagesOf n) <= 5)%nat
  /\ shownUpTo n (pagesOf n) = n
  /\ (forall k, (k < pagesOf n)%nat -> (shownUpTo n k < n)%nat)
  /\ (forall page, (pagesOf n < page)%nat -> pageLength n n page = 0%nat)
  /\ (1 <= pagesOf n)%nat.
Proof.
  intros Hn. pose proof (pagesOf_bounds n) as [_ Hup]. pose proof (pagesOf_pos n Hn) as Hlo.
  assert (Hpos : (1 <= pagesOf n)%nat) by lia.
  split; [|split; [|split; [|split; [|split]]]].
  - intros page Hp. unfold pageLength, sentencesPerPage. cbv zeta. lia.
  - unfold pageLength, sentencesPerPage. cbv zeta. lia.
  - rewrite shownUpTo_spec. lia.
  - intros k Hk. rewrite shownUpTo_spec. lia.
  - intros page Hp. unfold pageLength, sentencesPerPage. cbv zeta. lia.
  - exact Hpos.
Qed.

(** Seven sentences: a page of five and a page of two. *)
Lemma pages_partition_witness :
  pagesOf 7 = 2%nat /\ pageLength 7 7 1 = 5%nat /\ pageLength 7 7 2 = 2%nat
  /\ shownUpTo 7 (pagesOf 7) = 7%nat.
Proof.
  destruct (pages_partition 7 ltac:(lia)) as (H5 & _ & Hsum & _).
  split; [reflexivity|]. split; [apply H5; split; [lia|vm_compute; lia]|]. split; [reflexivity|exact Hsum].
Defined.

(** X10: the sentences of a page are revealed one by one, from the call
    on, at a spacing of 5 s for a page of up to three sentences and of 3 s
    for four or five; as no page holds more than five, the spacings of
    2 s and 1.5 s never occur.  A page that is only shown schedules
    nothing. *)
Theorem showPageSentences_schedule (b nodes count page : nat) (w : World) :
  let shown := pageLength nodes count page in
  let spacing := if (shown <=? 3)%nat then 5000 else 3000 in
  (shown <= 5)%nat
  /\ calculateSentenceDelay shown = spacing
  /\ timers (showPageSentences b nodes count page true w).2
     = timers w ++ ((fun i => mkTimer (nextTid w + i) (now w + Z.of_nat i * spacing)
                                      None (CbSentence b i)) <$> seq 0 shown)
  /\ timers (showPageSentences b nodes count page false w).2 = timers w
  /\ (showPageSentences b nodes count page true w).1 = shown.
Proof.
  cbv zeta. pose proof (pageLength_le nodes count page) as Hle.
  assert (Hd : calculateSentenceDelay (pageLength nodes count page)
               = if (pageLength nodes count page <=? 3)%nat then 5000 else 3000).
  { unfold calculateSentenceDelay.
    destruct (pageLength nodes count page <=? 3)%nat; [reflexivity|].
    rewrite (proj2 (Nat.leb_le _ 6)) by lia. reflexivity. }
  split; [exact Hle|]. split; [exact Hd|]. split; [|split; reflexivity].
  unfold showPageSentences. cbv zeta. cbn [snd].
  rewrite animateSentences_timers, Hd. cbn [timers nextTid now emit]. f_equal.
  apply list_fmap_ext. intros i x _. f_equal.
  destruct (pageLength nodes count page <=? 3)%nat; lia.
Qed.

(** ** Paging through a bubble *)

(** One press before the last page: the page is turned, the elements stay
    as they are but for the label of the call-to-action, nothing pops. *)
Lemma ctaHandler_turns_page w x e el :
  expansions w !! x = Some e -> elems (doc w) !! xBubble e = Some el ->
  (xCurrentPage e < xTotalPages e)%nat ->
  let w' := ctaHandler x w in
  expansions w' = <[x := onPage (S (xCurrentPage e)) e]> (expansions w)
  /\ elems (doc w')
     = (if bool_decide (S (xCurrentPage e) = xTotalPages e)
        then alter (withCtaText (Some "Pop!")) (xBubble e) (elems (doc w))
        else elems (doc w))
  /\ popEffects (log w') = popEffects (log w)
  /\ removals (timers w') = removals (timers w).
Proof.
  intros Hx Hel Hlt w'. subst w'. unfold ctaHandler. rewrite Hx, Hel.
  rewrite (proj2 (Nat.ltb_lt _ _) Hlt). cbv zeta.
  set (page := S (xCurrentPage e)).
  set (w1 := setCurrentPage x page w).
  set (w2 := (showPageSentences (xBubble e) (xSentences e) (xSentenceCount e) page true w1).2).
  destruct (showPageSentences_frame (xBubble e) (xSentences e) (xSentenceCount e) page true w1)
    as (_ & Hdoc2 & Hxs2). fold w2 in Hdoc2, Hxs2.
  assert (Hd2 : does paging isSentenceCb 5 w w2).
  { eapply (does_seq _ _ 0 5); [apply does_setExpansions| |lia].
    apply does_showPageSentences; intros; exact I. }
  set (cb1 := hasClass "bubble-orbit-beta" el && bool_decide (page = 2%nat)).
  set (cb2 := hasClass "bubble-tobias" el && bool_decide (page = 2%nat)).
  destruct (swap_stage cb1 Chat1 Chat2 w2 ltac:(discriminate)) as (Hd3 & Hdoc3 & Hxs3 & _).
  set (w3 := if cb1 then playTrack Chat2 (stopTrack Chat1 w2) else w2) in *.
  destruct (swap_stage cb2 Tobias1 Tobias2 w3 ltac:(discriminate)) as (Hd4 & Hdoc4 & Hxs4 & _).
  set (w4 := if cb2 then playTrack Tobias2 (stopTrack Tobias1 w3) else w3) in *.
  set (w5 := if bool_decide (page = xTotalPages e)
             then updElem (xBubble e) (withCtaText (Some "Pop!")) w4 else w4).
  assert (Hd5 : does paging isSentenceCb 0 w4 w5).
  { subst w5. destruct (bool_decide (page = xTotalPages e)); [apply does_updElem|apply does_refl]. }
  assert (Hd : does paging isSentenceCb 5 w w5).
  { eapply (does_seq _ _ 5 0); [|exact Hd5|lia].
    eapply (does_seq _ _ 5 0); [|exact Hd4|lia].
    eapply (does_seq _ _ 5 0); [exact Hd2|exact Hd3|lia]. }
  destruct (does_inv _ _ _ _ _ Hd) as (_ & _ & (new & Hlog & Hnew) & (added & Htm & Hadd & _)).
  destruct (paging_counts (now w) new (log w) Hnew) as (Hc1 & _).
  split; [|split; [|split]].
  - transitivity (expansions w4).
    + subst w5. destruct (bool_decide (page = xTotalPages e)); reflexivity.
    + rewrite Hxs4, Hxs3, Hxs2. subst w1. unfold setCurrentPage. simpl.
      apply list_eq. intros i. rewrite list_lookup_alter, list_lookup_insert.
      destruct (decide (x = i)) as [->|Hne].
      * rewrite Hx. simpl. rewrite decide_True; [reflexivity|].
        split; [reflexivity|]. apply lookup_lt_Some in Hx. exact Hx.
      * rewrite decide_False by (intros [? _]; contradiction). reflexivity.
  - subst w5. destruct (bool_decide (page = xTotalPages e)); simpl;
      rewrite Hdoc4, Hdoc3, Hdoc2; reflexivity.
  - rewrite Hlog. exact Hc1.
  - assert (H0 : removals added = 0%nat).
    { apply count_none. eapply Forall_impl; [exact Hadd|]. intros tm. simpl.
      destruct (cb tm); simpl; first [reflexivity|contradiction]. }
    rewrite Htm, removals_app, H0. lia.
Qed.

(** X11: paging through a bubble.  Pressing the call-to-action [k] times,
    as long as that stays within the pages, turns [k] pages: nothing pops,
    no removal is scheduled, the bubble keeps its classes and stays in the
    document, and the call-to-action is relabelled "Pop!" by the very
    press that reaches the last page. *)
Theorem cta_pages_through (w : World) (x : nat) (e : Expansion) (el : Bubble) (k : nat) :
  expansions w !! x = Some e -> elems (doc w) !! xBubble e = Some el ->
  (xCurrentPage e + k <= xTotalPages e)%nat ->
  let w' := Nat.iter k (ctaHandler x) w in
  expansions w' = <[x := onPage (xCurrentPage e + k) e]> (expansions w)
  /\ popEffects (log w') = popEffects (log w)
  /\ removals (timers w') = removals (timers w)
  /\ exists el', elems (doc w') !! xBubble e = Some el'
       /\ classes el' = classes el /\ attached el' = attached el
       /\ ctaText el' = (if bool_decide (0 < k /\ xCurrentPage e + k = xTotalPages e)%nat
                         then Some "Pop!" else ctaText el).
Proof.
  intros Hx Hel. induction k as [|k IH]; intros Hk; cbv zeta.
  - cbn [Nat.iter nat_rect]. rewrite Nat.add_0_r.
    split; [|split; [reflexivity|split; [reflexivity|]]].
    + symmetry. apply list_insert_id. rewrite Hx. destruct e; reflexivity.
    + exists el. rewrite bool_decide_eq_false_2 by lia. repeat split; assumption.
  - destruct (IH ltac:(lia)) as (Hxs & Hpop & Hrem & el' & Hel' & Hcl & Hat & Hct).
    simpl Nat.iter. set (wk := Nat.iter k (ctaHandler x) w) in *.
    assert (Hxk : expansions wk !! x = Some (onPage (xCurrentPage e + k) e)).
    { rewrite Hxs. apply list_lookup_insert_eq. apply lookup_lt_Some in Hx. exact Hx. }
    destruct (ctaHandler_turns_page wk x _ el' Hxk Hel' ltac:(simpl; lia))
      as (Hxs' & Helems & Hpop' & Hrem').
    simpl in Hxs', Helems.
    split; [|split; [congruence|split; [congruence|]]].
    + rewrite Hxs', Hxs, list_insert_insert_eq. f_equal. unfold onPage. simpl. f_equal. lia.
    + rewrite Helems.
      destruct (bool_decide (S (xCurrentPage e + k) = xTotalPages e)) eqn:Hb.
      * apply bool_decide_eq_true in Hb.
        rewrite list_lookup_alter_eq, Hel'. simpl. eexists. split; [reflexivity|].
        rewrite bool_decide_eq_true_2 by lia. repeat split; assumption.
      * apply bool_decide_eq_false in Hb. exists el'. split; [exact Hel'|].
        rewrite Hct, !bool_decide_eq_false_2 by lia. repeat split; assumption.
Qed.

(** The beta bubble: one press turns to page 2 of 2 and relabels. *)
Lemma cta_pages_through_witness :
  xCurrentPage <$> expansions (ctaHandler 0 betaRevealed) !! 0%nat = Some 2%nat
  /\ (elems (doc (ctaHandler 0 betaRevealed)) !! 0%nat ≫= ctaText) = Some "Pop!"
  /\ removals (timers (ctaHandler 0 betaRevealed)) = 0%nat.
Proof.
  assert (Hx : expansions betaRevealed !! 0%nat = Some (mkExpansion 0 7 7 2 1 true))
    by (vm_compute; reflexivity).
  assert (Hel : exists el, elems (doc betaRevealed) !! 0%nat = Some el)
    by (vm_compute; eexists; reflexivity).
  destruct Hel as (el & Hel).
  destruct (cta_pages_through betaRevealed 0 _ el 1 Hx Hel ltac:(simpl; lia))
    as (Hxs & _ & Hrem & el' & Hel' & _ & _ & Hct).
  simpl Nat.iter in *. split; [|split].
  - rewrite Hxs, list_lookup_insert_eq; [reflexivity|].
    apply lookup_lt_Some in Hx. exact Hx.
  - simpl in Hel'. rewrite Hel'. simpl. rewrite Hct. reflexivity.
  - rewrite Hrem. vm_compute. reflexivity.
Defined.

(** ** The two phases of a transition *)

Lemma switchToScene9Ambient_scene fo fi w :
  fogScene (doc (switchToScene9Ambient fo fi w)) = fogScene (doc w).
Proof. rewrite switchToScene9Ambient_doc. reflexivity. Qed.

(** X12: the phases of a transition move the scene container from one
    scene to the next.  For each configured transition, once [onStart]
    and later [onComplete] have run, the container carries the class of
    the target scene and neither the class of the source scene nor the
    transitioning class; every other class is as it was before.  In
    between, the transitioning class is set and the source class is
    already gone. *)
Theorem transition_phases_classes (w : World) (key src mid tgt : string) (c : string) :
  (key, (src, mid, tgt)) ∈ transitionClasses ->
  scenePresent w = true ->
  (exists cfg, TRANSITIONS key = Some cfg)
  /\ (c ∈ sceneClasses (onStart key w) <->
      c <> src /\ (c = mid \/ c ∈ sceneClasses w))
  /\ (c ∈ sceneClasses (onComplete key (onStart key w)) <->
      c = tgt \/ (c <> src /\ c <> mid /\ c ∈ sceneClasses w)).
Proof.
  intros Hin Hs. unfold scenePresent in Hs.
  destruct (fogScene (doc w)) as [l|] eqn:Hl; [|discriminate].
  assert (Hw : sceneClasses w = l) by (unfold sceneClasses; rewrite Hl; reflexivity).
  rewrite Hw.
  unfold transitionClasses in Hin.
  repeat (apply elem_of_cons in Hin as [Hin|Hin]; [injection Hin as -> -> -> ->|]);
    [| | | |inversion Hin].
  all: split; [eexists; reflexivity|].
  all: unfold onComplete, onStart, sceneClasses; cbv zeta; simpl;
    rewrite ?switchToScene9Ambient_scene; simpl; rewrite Hl; simpl.
  all: rewrite ?elem_of_classAdd, ?elem_of_classRemove, ?elem_of_classAdd.
  all: split; [tauto|].
  all: split.
  all: try (intros [->|(H1 & H2 & H3)]; [left; reflexivity|right]).
  all: try (intros [->|(H1 & [->|H3])]; [left; reflexivity|contradiction|right]).
  all: try (split; [assumption|split; [assumption|right; assumption]]).
  all: try (repeat split; try assumption; try discriminate; tauto).
Qed.

(** Scene 2 after the two phases of 2-3. *)
Lemma transition_phases_classes_witness :
  "scene-3" ∈ sceneClasses (onComplete "2-3" (onStart "2-3" scene2Page))
  /\ ("scene-2" ∉ sceneClasses (onComplete "2-3" (onStart "2-3" scene2Page)))
  /\ "scene" ∈ sceneClasses (onComplete "2-3" (onStart "2-3" scene2Page)).
Proof.
  assert (Hin : ("2-3", ("scene-2", "transitioning-2-3", "scene-3")) ∈ transitionClasses)
    by apply list_elem_of_here.
  split; [|split].
  - apply (transition_phases_classes scene2Page _ _ _ _ "scene-3" Hin eq_refl). left. reflexivity.
  - intros H. apply (transition_phases_classes scene2Page _ _ _ _ "scene-2" Hin eq_refl) in H.
    destruct H as [H|[H _]]; [discriminate|]. apply H. reflexivity.
  - apply (transition_phases_classes scene2Page _ _ _ _ "scene" Hin eq_refl). right.
    split; [discriminate|]. split; [discriminate|]. vm_compute. apply list_elem_of_here.
Defined.

(** ** Without the scene container *)

(** X13: without the scene container nothing happens.  [expandBubble],
    [runSceneTransition], [openScene2] and the functions that open a
    title scene leave the timers, the audio manager and the elements as
    they are; [runSceneTransition] records its warning and nothing else,
    and no transition starts. *)
Theorem no_scene_container (w : World) (b : nat) (key : string) (n : Z) :
  scenePresent w = false ->
  untouched w (runSceneTransition key w)
  /\ log (runSceneTransition key w) = (now w, EvWarn "Scene container not found") :: log w
  /\ expandBubble b w = w
  /\ untouched w (openScene2 b w) /\ untouched w (openTitleScene n w)
  /\ transitionRuns (log (openTitleScene n w)) = transitionRuns (log w).
Proof.
  intros Hs. unfold untouched, scenePresent in *.
  destruct (fogScene (doc w)) eqn:Hf; [discriminate|].
  split; [|split; [|split; [|split; [|split]]]].
  - unfold runSceneTransition. rewrite Hf. repeat split.
  - unfold runSceneTransition. rewrite Hf. reflexivity.
  - unfold expandBubble. destruct (elems (doc w) !! b); [|reflexivity].
    destruct (hasClass "expanded" b0); [reflexivity|]. rewrite Hf. reflexivity.
  - unfold openScene2. cbv zeta. simpl fogScene. rewrite Hf. repeat split.
  - unfold openTitleScene. cbv zeta. simpl fogScene. rewrite Hf. repeat split.
  - unfold openTitleScene. cbv zeta. simpl fogScene. rewrite Hf. reflexivity.
Qed.

(** A page without the container: the 2-3 transition only warns, and the
    bubble is not expanded. *)
Lemma no_scene_container_witness :
  timers (runSceneTransition "2-3" containerless) = []
  /\ log (runSceneTransition "2-3" containerless) = [(0, EvWarn "Scene container not found")]
  /\ expandBubble 0 containerless = containerless.
Proof.
  destruct (no_scene_container containerless 0 "2-3" 0 eq_refl) as ((Ht & _) & Hl & He & _).
  split; [exact Ht|]. split; [exact Hl|exact He].
Defined.

(** ** Scene 2 is spawned once *)

Lemma foldl_addElem {A} (g : A -> Bubble) (l : list A) w :
  let w' := foldl (fun w e => addElem (g e) w) w l in
  elems (doc w') = elems (doc w) ++ (g <$> l)
  /\ timers w' = timers w /\ now w' = now w /\ nextTid w' = nextTid w.
Proof.
  cbv zeta. revert w. induction l as [|e l IH]; intros w; simpl.
  - rewrite app_nil_r. repeat split.
  - destruct (IH (addElem (g e) w)) as (-> & -> & -> & ->). simpl.
    rewrite <- app_assoc. repeat split.
Qed.

Lemma count_flags_detached (l : list Bubble) :
  Forall (fun e => attached e = false) l ->
  count (fun f : bool * bool => f.1 && f.2) ((fun e => (attached e, dataScene2 e)) <$> l)
  = 0%nat.
Proof.
  induction 1 as [|e l He _ IH]; [reflexivity|].
  rewrite fmap_cons. cbn [count]. rewrite IH. simpl. rewrite He. reflexivity.
Qed.

Lemma count_flags_fresh {A} (g : A -> Bubble) (l : list A) :
  (forall e, attached (g e) = true /\ dataScene2 (g e) = true) ->
  count (fun f : bool * bool => f.1 && f.2) ((fun e => (attached e, dataScene2 e)) <$> (g <$> l))
  = length l.
Proof.
  intros Hg. induction l as [|e l IH]; [reflexivity|].
  rewrite !fmap_cons. cbn [count]. rewrite IH. simpl.
  destruct (Hg e) as [-> ->]. reflexivity.
Qed.

(** What [spawnScene2] leaves of a document whose elements are all
    bubbles: they are gone, and the new bubbles are the scene's. *)
Lemma spawnScene2_spec w :
  Forall (fun e => hasClass "bubble" e = true) (elems (doc w)) ->
  remaining 2 (spawnScene2 w) = scene2Size w
  /\ (forall i e, elems (doc w) !! i = Some e ->
        elems (doc (spawnScene2 w)) !! i = Some (withAttached false e))
  /\ timers (spawnScene2 w) = timers w /\ now (spawnScene2 w) = now w
  /\ nextTid (spawnScene2 w) = nextTid w.
Proof.
  intros Hall. unfold spawnScene2, scene2Size. cbv zeta.
  set (old := (fun e => if hasClass "bubble" e then withAttached false e else e)
                <$> elems (doc w)).
  assert (Hold : old = withAttached false <$> elems (doc w)).
  { subst old. apply list_fmap_ext. intros i e Hi.
    rewrite Forall_forall in Hall. rewrite (Hall e); [reflexivity|].
    eapply list_elem_of_lookup_2. exact Hi. }
  assert (Hdet : Forall (fun e => attached e = false) old).
  { rewrite Hold. apply Forall_fmap, Forall_forall. intros e _. reflexivity. }
  change (scene2Template (doc (sceneAdd "scene-2" _))) with (scene2Template (doc w)).
  destruct (scene2Template (doc w)) as [tpl|].
  - match goal with
    | |- context [foldl ?f ?w0 tpl] =>
        destruct (foldl_addElem (fun e => withAttached true (withDataScene2 true e)) tpl w0)
          as (He & Ht & Hn & Hi)
    end.
    split; [|split; [|repeat split; assumption]].
    + rewrite remaining_flags. unfold flags. rewrite He. simpl elems.
      fold old. rewrite fmap_app, count_app, (count_flags_detached _ Hdet),
        count_flags_fresh; [reflexivity|]. intros e. split; reflexivity.
    + intros i e Hie. rewrite He. simpl elems. fold old.
      rewrite lookup_app_l by (rewrite Hold, length_fmap; eapply lookup_lt_Some, Hie).
      rewrite Hold, list_lookup_fmap, Hie. reflexivity.
  - match goal with
    | |- context [foldl ?f ?w0 (seq 0 3)] =>
        destruct (foldl_addElem (fun _ : nat => fallbackBubble) (seq 0 3) w0)
          as (He & Ht & Hn & Hi)
    end.
    split; [|split; [|repeat split; assumption]].
    + rewrite remaining_flags. unfold flags. rewrite He. simpl elems.
      fold old. rewrite fmap_app, count_app, (count_flags_detached _ Hdet). reflexivity.
    + intros i e Hie. rewrite He. simpl elems. fold old.
      rewrite lookup_app_l by (rewrite Hold, length_fmap; eapply lookup_lt_Some, Hie).
      rewrite Hold, list_lookup_fmap, Hie. reflexivity.
Qed.

Lemma afterPop_spec (w : World) (clone : nat) (el : Bubble) :
  elems (doc w) !! clone = Some el ->
  Forall (fun e => hasClass "bubble" e = true) (elems (doc w)) ->
  let w' := afterPop clone w in
  remaining 2 w' = scene2Size w
  /\ (exists e', elems (doc w') !! clone = Some e' /\ attached e' = false)
  /\ timers w' = timers w ++ [mkTimer (nextTid w) (now w + 550) None CbAmbientScene2].
Proof.
  intros Hel Hall. cbv zeta. unfold afterPop. cbv zeta.
  set (x := updElem clone (withAttached false) w).
  assert (Hx : elems (doc x) !! clone = Some (withAttached false el)).
  { subst x. unfold updElem. simpl. rewrite list_lookup_alter_eq, Hel. reflexivity. }
  assert (Hallx : Forall (fun e => hasClass "bubble" e = true) (elems (doc x))).
  { subst x. unfold updElem. simpl. apply Forall_alter; [exact Hall|].
    intros e _ He. exact He. }
  destruct (spawnScene2_spec x Hallx) as (Hr & Hk & Ht & Hn & Hi).
  split; [|split].
  - change (remaining 2 (setTimeout CbAmbientScene2 550 (spawnScene2 x)))
      with (remaining 2 (spawnScene2 x)).
    rewrite Hr. reflexivity.
  - exists (withAttached false (withAttached false el)). split; [|reflexivity].
    change (doc (setTimeout CbAmbientScene2 550 (spawnScene2 x)))
      with (doc (spawnScene2 x)).
    apply Hk. exact Hx.
  - unfold setTimeout. cbn [timers]. rewrite Ht, Hn, Hi. reflexivity.
Qed.

(** X14: the bubbles of scene 2 are spawned once.  After the first bubble
    is popped, its clone is in the document with an [animationend]
    listener, and a 450 ms fallback is pending; the event is delivered only
    to an element that is in the document.  Whichever of the two comes
    first removes the clone, leaves exactly the bubbles of the template
    (or the three built by hand) in scene 2, and schedules the scene's
    ambient sound 550 ms later; after that both the event and the fallback
    change nothing. *)
Theorem scene2_spawned_once (w : World) (clone : nat) (el : Bubble) :
  elems (doc w) !! clone = Some el -> attached el = true -> onAnimationEnd el = true ->
  Forall (fun e => hasClass "bubble" e = true) (elems (doc w)) ->
  forall w', w' = animationEnd clone w \/ w' = spawnFallback clone w ->
    remaining 2 w' = scene2Size w
    /\ timers w' = timers w ++ [mkTimer (nextTid w) (now w + 550) None CbAmbientScene2]
    /\ animationEnd clone w' = w' /\ spawnFallback clone w' = w'.
Proof.
  intros Hel Hat Hon Hall w' Hw'.
  assert (Hgo : exists x, w' = afterPop clone x
                 /\ (exists e, elems (doc x) !! clone = Some e)
                 /\ Forall (fun e => hasClass "bubble" e = true) (elems (doc x))
                 /\ scene2Size x = scene2Size w /\ timers x = timers w
                 /\ nextTid x = nextTid w /\ now x = now w).
  { destruct Hw' as [-> | ->].
    - exists (updElem clone (withOnAnimationEnd false) w).
      unfold animationEnd. rewrite Hel, Hon, Hat. simpl andb. cbv iota.
      split; [reflexivity|]. split.
      { eexists. unfold updElem. simpl. rewrite list_lookup_alter_eq, Hel. reflexivity. }
      split; [|repeat split].
      unfold updElem. simpl. apply Forall_alter; [exact Hall|]. intros e _ He. exact He.
    - exists w. unfold spawnFallback. rewrite Hel, Hat.
      split; [reflexivity|]. split; [eauto|]. repeat split. exact Hall. }
  destruct Hgo as (x & -> & [e He] & Hallx & Hs & Ht & Hi & Hn).
  destruct (afterPop_spec x clone e He Hallx) as (Hr & (e' & He' & Hat') & Htm).
  cbv zeta in Hr, He', Htm.
  split; [rewrite Hr; exact Hs|]. split; [rewrite Htm, Ht, Hi, Hn; reflexivity|].
  split.
  - unfold animationEnd at 1. rewrite He', Hat', andb_false_r. reflexivity.
  - unfold spawnFallback at 1. rewrite He', Hat'. reflexivity.
Qed.

Lemma scene2_spawned_once_witness :
  let w := ctaClick 0 firstRevealed in
  remaining 2 (animationEnd 1 w) = 3%nat /\ remaining 2 (spawnFallback 1 w) = 3%nat
  /\ spawnFallback 1 (animationEnd 1 w) = animationEnd 1 w.
Proof.
  cbv zeta.
  assert (Hel : exists el, elems (doc (ctaClick 0 firstRevealed)) !! 1%nat = Some el
                  /\ attached el = true /\ onAnimationEnd el = true).
  { vm_compute. eexists. repeat split. }
  destruct Hel as (el & Hel & Hat & Hon).
  assert (Hall : Forall (fun e => hasClass "bubble" e = true)
                   (elems (doc (ctaClick 0 firstRevealed)))).
  { vm_compute. repeat constructor. }
  assert (Hs : scene2Size (ctaClick 0 firstRevealed) = 3%nat) by (vm_compute; reflexivity).
  pose proof (scene2_spawned_once _ 1%nat el Hel Hat Hon Hall) as H.
  pose proof (H (animationEnd 1 (ctaClick 0 firstRevealed)) (or_introl eq_refl))
    as (H1 & _ & _ & H3).
  pose proof (H (spawnFallback 1 (ctaClick 0 firstRevealed)) (or_intror eq_refl))
    as (H4 & _).
  rewrite Hs in H1, H4. split; [exact H1|]. split; [exact H4|exact H3].
Defined.

(** ** The blossom rain *)

Lemma setAdd_length x l : (length (BlossomRain.setAdd x l) <= S (length l))%nat.
Proof.
  unfold BlossomRain.setAdd. destruct (decide _); [lia|].
  rewrite length_app. simpl. lia.
Qed.

Lemma setAdd_fresh x l : x ∉ l -> BlossomRain.setAdd x l = l ++ [x].
Proof. intros H. unfold BlossomRain.setAdd. rewrite decide_False by exact H. reflexivity. Qed.

Lemma spawnPetal_cap s :
  (length (BlossomRain.petalsActive s) <= 90)%nat ->
  (length (BlossomRain.petalsActive (BlossomRain.spawnPetal s)) <= 90)%nat.
Proof.
  intros H. unfold BlossomRain.spawnPetal.
  destruct (BlossomRain.container s); [|exact H].
  destruct (negb _); [exact H|].
  unfold BlossomRain.maxPetals. destruct (Z.leb_spec 90 (Z.of_nat (length (BlossomRain.petalsActive s))));
    [exact H|].
  simpl. pose proof (setAdd_length (BlossomRain.nextId s) (BlossomRain.petalsActive s)). lia.
Qed.

(** What the inputs other than a tick and a finished petal do to the set
    of active petals: nothing. *)
Lemma petalsActive_kept e s :
  match e with BlossomRain.Tick _ | BlossomRain.Finish _ => False | _ => True end ->
  BlossomRain.petalsActive (BlossomRain.step e s) = BlossomRain.petalsActive s.
Proof.
  destruct e as [| |i r|id|p|p|]; intros H; try destruct H; simpl.
  - unfold BlossomRain.initBlossomRainForScene8.
    destruct (BlossomRain.running s); [reflexivity|].
    destruct (negb _); reflexivity.
  - unfold BlossomRain.destroyBlossomRain, BlossomRain.stopSpawner. simpl.
    destruct (BlossomRain.spawnIntervalId s); reflexivity.
  - unfold BlossomRain.settleLoad, BlossomRain.startSpawner.
    destruct (BlossomRain.pendingLoads s !! i) as [[|]|]; [| |reflexivity]; simpl.
    + destruct (BlossomRain.spawnIntervalId s); reflexivity.
    + destruct r; [|reflexivity]. simpl. destruct (BlossomRain.spawnIntervalId s); reflexivity.
  - unfold BlossomRain.fadeChild. destruct (decide _); reflexivity.
  - unfold BlossomRain.cleanup. destruct (BlossomRain.pendingCleanups s); reflexivity.
Qed.

Lemma step_cap e s :
  (length (BlossomRain.petalsActive s) <= 90)%nat ->
  (length (BlossomRain.petalsActive (BlossomRain.step e s)) <= 90)%nat.
Proof.
  intros H.
  destruct e as [| |i r|id|p|p|];
    try (rewrite petalsActive_kept by exact I; exact H).
  - simpl. destruct (decide _); [|exact H]. unfold BlossomRain.spawnTick.
    generalize (BlossomRain.toSpawn s). intros k.
    induction k as [|k IHk]; [exact H|]. rewrite Nat.iter_succ. apply spawnPetal_cap, IHk.
  - simpl. unfold BlossomRain.setDelete.
    pose proof (length_filter (fun y => y <> p) (BlossomRain.petalsActive s)). lia.
Qed.

(** X15: never more than ninety petals.  Whatever the calls of the public
    interface and whatever the order in which the host delivers ticks,
    settled loads, finished animations and clean-ups, the set of active
    petals never grows beyond [maxPetals]. *)
Theorem petals_capped (es : list BlossomRain.Input) (s : BlossomRain.State) :
  (length (BlossomRain.petalsActive s) <= 90)%nat ->
  (length (BlossomRain.petalsActive (BlossomRain.run es s)) <= 90)%nat.
Proof.
  unfold BlossomRain.run. revert s. induction es as [|e es IH]; intros s H; [exact H|].
  simpl. apply IH, step_cap, H.
Qed.

Lemma petals_capped_witness :
  let es := repeat (BlossomRain.Tick 2) 53 in
  length (BlossomRain.petalsActive (BlossomRain.run es BlossomRain.raining)) = 90%nat
  /\ (length (BlossomRain.petalsActive
                (BlossomRain.run (es ++ [BlossomRain.Tick 2]) BlossomRain.raining)) <= 90)%nat.
Proof.
  cbv zeta. split; [vm_compute; reflexivity|].
  apply (petals_capped _ BlossomRain.raining). vm_compute. lia.
Defined.

(** The petals one call of [spawnPetal] adds when nothing holds it back. *)
Lemma spawnPetal_adds s c :
  BlossomRain.running s = true -> BlossomRain.container s = Some c ->
  (length (BlossomRain.petalsActive s) < 90)%nat ->
  (forall p, p ∈ BlossomRain.petalsActive s -> (p < BlossomRain.nextId s)%nat) ->
  let s' := BlossomRain.spawnPetal s in
  BlossomRain.petalsActive s' = BlossomRain.petalsActive s ++ [BlossomRain.nextId s]
  /\ BlossomRain.children s' = BlossomRain.children s ++ [(BlossomRain.nextId s, c)]
  /\ BlossomRain.nextId s' = S (BlossomRain.nextId s)
  /\ BlossomRain.running s' = true /\ BlossomRain.container s' = Some c
  /\ (forall p, p ∈ BlossomRain.petalsActive s' -> (p < BlossomRain.nextId s')%nat).
Proof.
  intros Hr Hc Hlen Hfresh. cbv zeta. unfold BlossomRain.spawnPetal.
  rewrite Hc, Hr. simpl negb. cbv iota.
  unfold BlossomRain.maxPetals.
  destruct (Z.leb_spec 90 (Z.of_nat (length (BlossomRain.petalsActive s)))); [lia|].
  simpl. rewrite setAdd_fresh by (intros Hin; apply Hfresh in Hin; lia).
  repeat split; try assumption.
  intros p [Hp|Hp]%elem_of_app; [apply Hfresh in Hp; lia|].
  apply list_elem_of_singleton in Hp. lia.
Qed.

Lemma spawnPetal_iter (k : nat) s c :
  BlossomRain.running s = true -> BlossomRain.container s = Some c ->
  (length (BlossomRain.petalsActive s) + k <= 90)%nat ->
  (forall p, p ∈ BlossomRain.petalsActive s -> (p < BlossomRain.nextId s)%nat) ->
  let s' := Nat.iter k BlossomRain.spawnPetal s in
  BlossomRain.petalsActive s'
  = BlossomRain.petalsActive s ++ seq (BlossomRain.nextId s) k
  /\ BlossomRain.children s'
     = BlossomRain.children s ++ ((fun p => (p, c)) <$> seq (BlossomRain.nextId s) k)
  /\ BlossomRain.nextId s' = (BlossomRain.nextId s + k)%nat
  /\ BlossomRain.running s' = true /\ BlossomRain.container s' = Some c
  /\ (forall p, p ∈ BlossomRain.petalsActive s' -> (p < BlossomRain.nextId s')%nat).
Proof.
  intros Hr Hc Hlen Hfresh. cbv zeta. induction k as [|k IH].
  - simpl. rewrite !app_nil_r, Nat.add_0_r. repeat split; assumption.
  - destruct IH as (Hp & Hch & Hn & Hr' & Hc' & Hf'); [lia|].
    rewrite Nat.iter_succ.
    destruct (spawnPetal_adds (Nat.iter k BlossomRain.spawnPetal s) c Hr' Hc')
      as (Hp2 & Hch2 & Hn2 & Hr2 & Hc2 & Hf2); [|exact Hf'|].
    { rewrite Hp, length_app, length_seq. lia. }
    cbv zeta in Hp2, Hch2, Hn2, Hr2, Hc2, Hf2.
    rewrite seq_S, fmap_app, !app_assoc, <- Hp, <- Hch, <- Hn.
    repeat split; try assumption. rewrite Hn2, Hn. lia.
Qed.

(** X16: the rate of the spawner.  While the rain runs with its
    container, one tick of the interval adds three fresh petals when
    fewer than 30 are active, two when fewer than 60, one when fewer than
    90 and none at the cap; each goes into the set and into the container. *)
Theorem tick_spawns (s : BlossomRain.State) (id c : nat) :
  BlossomRain.spawnIntervalId s = Some id ->
  BlossomRain.running s = true -> BlossomRain.container s = Some c ->
  (forall p, p ∈ BlossomRain.petalsActive s -> (p < BlossomRain.nextId s)%nat) ->
  let n := length (BlossomRain.petalsActive s) in
  let k := if (n <? 30)%nat then 3%nat else if (n <? 60)%nat then 2%nat
           else if (n <? 90)%nat then 1%nat else 0%nat in
  let s' := BlossomRain.step (BlossomRain.Tick id) s in
  BlossomRain.petalsActive s' = BlossomRain.petalsActive s ++ seq (BlossomRain.nextId s) k
  /\ BlossomRain.children s'
     = BlossomRain.children s ++ ((fun p => (p, c)) <$> seq (BlossomRain.nextId s) k).
Proof.
  intros Hid Hr Hc Hfresh n k s'. subst s'. simpl. rewrite decide_True by exact Hid.
  unfold BlossomRain.spawnTick.
  destruct (Nat.ltb_spec n 90) as [Hlt|Hge].
  - assert (Hk : BlossomRain.toSpawn s = k /\ (n + k <= 90)%nat).
    { unfold BlossomRain.toSpawn, BlossomRain.maxPetals. cbv zeta. fold n. subst k.
      destruct (Nat.ltb_spec n 30); [|destruct (Nat.ltb_spec n 60)].
      - destruct (Z.ltb_spec 60 (Z.max 0 (90 - Z.of_nat n))); [split; [reflexivity|lia]|lia].
      - destruct (Z.ltb_spec 60 (Z.max 0 (90 - Z.of_nat n))); [lia|].
        destruct (Z.ltb_spec 30 (Z.max 0 (90 - Z.of_nat n))); [split; [reflexivity|lia]|lia].
      - destruct (Z.ltb_spec 60 (Z.max 0 (90 - Z.of_nat n))); [lia|].
        destruct (Z.ltb_spec 30 (Z.max 0 (90 - Z.of_nat n))); [lia|].
        split; [reflexivity|lia]. }
    destruct Hk as [-> Hle].
    destruct (spawnPetal_iter k s c Hr Hc Hle Hfresh) as (Hp & Hch & _).
    split; assumption.
  - assert (Hk : k = 0%nat).
    { subst k. destruct (Nat.ltb_spec n 30); [lia|]. destruct (Nat.ltb_spec n 60); [lia|].
      reflexivity. }
    assert (Hstuck : BlossomRain.spawnPetal s = s).
    { unfold BlossomRain.spawnPetal. rewrite Hc, Hr. simpl negb. cbv iota.
      unfold BlossomRain.maxPetals. fold n.
      destruct (Z.leb_spec 90 (Z.of_nat n)); [reflexivity|lia]. }
    assert (Hiter : forall j, Nat.iter j BlossomRain.spawnPetal s = s).
    { induction j as [|j IHj]; [reflexivity|]. rewrite Nat.iter_succ, IHj. exact Hstuck. }
    rewrite Hiter, Hk. simpl. rewrite !app_nil_r. split; reflexivity.
Qed.

Lemma tick_spawns_witness :
  BlossomRain.petalsActive (BlossomRain.step (BlossomRain.Tick 2) BlossomRain.raining)
  = [3; 4; 5; 6; 7; 8; 9; 10; 11]%nat.
Proof.
  assert (Hf : forall p, p ∈ BlossomRain.petalsActive BlossomRain.raining ->
                         (p < BlossomRain.nextId BlossomRain.raining)%nat).
  { intros p Hp. vm_compute in Hp. vm_compute.
    repeat (apply elem_of_cons in Hp as [->|Hp]; [lia|]). inversion Hp. }
  pose proof (tick_spawns BlossomRain.raining 2 1 eq_refl eq_refl eq_refl Hf) as [H _].
  exact H.
Defined.

Lemma spawnPetal_idle s :
  BlossomRain.running s = false \/ BlossomRain.container s = None ->
  BlossomRain.spawnPetal s = s.
Proof.
  intros [H|H]; unfold BlossomRain.spawnPetal; rewrite H; [|reflexivity].
  destruct (BlossomRain.container s); reflexivity.
Qed.

Lemma spawnTick_idle s :
  BlossomRain.running s = false \/ BlossomRain.container s = None ->
  BlossomRain.spawnTick s = s.
Proof.
  intros H. unfold BlossomRain.spawnTick. generalize (BlossomRain.toSpawn s). intros k.
  induction k as [|k IH]; [reflexivity|]. rewrite Nat.iter_succ, IH. apply spawnPetal_idle, H.
Qed.

(** The variables [running] and [container] after one input. *)
Lemma step_running e s :
  BlossomRain.running (BlossomRain.step e s)
  = match e with
    | BlossomRain.Init => BlossomRain.running s || BlossomRain.hasFogScene s
    | BlossomRain.Destroy => false
    | _ => BlossomRain.running s
    end.
Proof.
  destruct e as [| |i r|id|p|p|]; simpl.
  - unfold BlossomRain.initBlossomRainForScene8.
    destruct (BlossomRain.running s) eqn:Hr; [exact Hr|].
    destruct (BlossomRain.hasFogScene s); simpl; first [reflexivity|exact Hr].
  - unfold BlossomRain.destroyBlossomRain, BlossomRain.stopSpawner. simpl.
    destruct (BlossomRain.spawnIntervalId s); reflexivity.
  - unfold BlossomRain.settleLoad, BlossomRain.startSpawner.
    destruct (BlossomRain.pendingLoads s !! i) as [[|]|]; [| |reflexivity]; simpl.
    + destruct (BlossomRain.spawnIntervalId s); reflexivity.
    + destruct r; [|reflexivity]. simpl. destruct (BlossomRain.spawnIntervalId s); reflexivity.
  - destruct (decide _); [|reflexivity]. unfold BlossomRain.spawnTick.
    generalize (BlossomRain.toSpawn s). intros k.
    induction k as [|k IH]; [reflexivity|]. rewrite Nat.iter_succ.
    rewrite <- IH. unfold BlossomRain.spawnPetal.
    destruct (BlossomRain.container _); [|reflexivity].
    destruct (negb _); [reflexivity|]. destruct (_ <=? _); reflexivity.
  - reflexivity.
  - unfold BlossomRain.fadeChild. destruct (decide _); reflexivity.
  - unfold BlossomRain.cleanup. destruct (BlossomRain.pendingCleanups s); reflexivity.
Qed.

Lemma step_sublist e s :
  BlossomRain.running s = false \/ BlossomRain.container s = None ->
  e <> BlossomRain.Init \/ BlossomRain.running s = true ->
  BlossomRain.petalsActive (BlossomRain.step e s) `sublist_of` BlossomRain.petalsActive s.
Proof.
  intros Hidle He.
  destruct e as [| |i r|id|p|p|];
    try (rewrite petalsActive_kept by exact I; reflexivity).
  - simpl. destruct (decide _); [|reflexivity]. rewrite spawnTick_idle by exact Hidle.
    reflexivity.
  - simpl. apply sublist_filter.
Qed.

(** X17: a rain that was destroyed spawns nothing.  From the call of
    [destroyBlossomRain] on, and as long as the rain is not started again,
    [running] stays false and the set of active petals only loses
    members, whatever ticks, settled loads, finished animations and
    clean-ups the host delivers. *)
Theorem destroy_stops_petals (es : list BlossomRain.Input) (s : BlossomRain.State) :
  BlossomRain.Init ∉ es ->
  let s' := BlossomRain.run es (BlossomRain.step BlossomRain.Destroy s) in
  BlossomRain.running s' = false
  /\ BlossomRain.spawnIntervalId (BlossomRain.step BlossomRain.Destroy s) = None
  /\ BlossomRain.petalsActive s' `sublist_of` BlossomRain.petalsActive s.
Proof.
  intros Hes. cbv zeta.
  assert (Hgen : forall es s0, BlossomRain.Init ∉ es -> BlossomRain.running s0 = false ->
            BlossomRain.running (BlossomRain.run es s0) = false
            /\ BlossomRain.petalsActive (BlossomRain.run es s0)
                 `sublist_of` BlossomRain.petalsActive s0).
  { clear. induction es as [|e es IH]; intros s0 Hes Hr; [split; [exact Hr|reflexivity]|].
    assert (He : e <> BlossomRain.Init).
    { intros ->. apply Hes, list_elem_of_here. }
    assert (Hes' : BlossomRain.Init ∉ es).
    { intros Hin. apply Hes, list_elem_of_further, Hin. }
    assert (Hr' : BlossomRain.running (BlossomRain.step e s0) = false).
    { rewrite step_running. destruct e; try exact Hr; [congruence|reflexivity]. }
    destruct (IH (BlossomRain.step e s0) Hes' Hr') as [H1 H2].
    split; [exact H1|]. etransitivity; [exact H2|].
    apply step_sublist; [left; exact Hr|left; exact He]. }
  destruct (Hgen es (BlossomRain.step BlossomRain.Destroy s) Hes) as [H1 H2].
  { rewrite step_running. reflexivity. }
  split; [exact H1|]. split.
  - simpl. unfold BlossomRain.destroyBlossomRain, BlossomRain.stopSpawner. simpl.
    destruct (BlossomRain.spawnIntervalId s); reflexivity.
  - rewrite (petalsActive_kept BlossomRain.Destroy s I) in H2. exact H2.
Qed.

Lemma destroy_stops_petals_witness :
  BlossomRain.petalsActive
    (BlossomRain.run [BlossomRain.Tick 2; BlossomRain.Finish 4; BlossomRain.Cleanup]
       (BlossomRain.step BlossomRain.Destroy BlossomRain.raining))
  `sublist_of` BlossomRain.petalsActive BlossomRain.raining.
Proof.
  assert (Hes : BlossomRain.Init
                ∉ [BlossomRain.Tick 2; BlossomRain.Finish 4; BlossomRain.Cleanup]).
  { intros Hin. repeat (apply elem_of_cons in Hin as [Hin|Hin]; [discriminate|]).
    inversion Hin. }
  exact (proj2 (proj2 (destroy_stops_petals _ BlossomRain.raining Hes))).
Defined.

Lemma spawnPetal_frame s :
  let s' := BlossomRain.spawnPetal s in
  BlossomRain.container s' = BlossomRain.container s
  /\ BlossomRain.inDocument s' = BlossomRain.inDocument s
  /\ BlossomRain.pendingCleanups s' = BlossomRain.pendingCleanups s
  /\ BlossomRain.blossomSvgText s' = BlossomRain.blossomSvgText s
  /\ BlossomRain.spawnIntervalId s' = BlossomRain.spawnIntervalId s
  /\ BlossomRain.pendingLoads s' = BlossomRain.pendingLoads s
  /\ BlossomRain.running s' = BlossomRain.running s.
Proof.
  cbv zeta. unfold BlossomRain.spawnPetal.
  destruct (BlossomRain.container s) eqn:Hc; [|repeat split; exact Hc].
  destruct (negb _); [repeat split; exact Hc|].
  destruct (_ <=? _); repeat split; exact Hc.
Qed.

Lemma spawnTick_frame s :
  let s' := BlossomRain.spawnTick s in
  BlossomRain.container s' = BlossomRain.container s
  /\ BlossomRain.inDocument s' = BlossomRain.inDocument s
  /\ BlossomRain.pendingCleanups s' = BlossomRain.pendingCleanups s
  /\ BlossomRain.blossomSvgText s' = BlossomRain.blossomSvgText s
  /\ BlossomRain.spawnIntervalId s' = BlossomRain.spawnIntervalId s
  /\ BlossomRain.pendingLoads s' = BlossomRain.pendingLoads s
  /\ BlossomRain.running s' = BlossomRain.running s.
Proof.
  cbv zeta. unfold BlossomRain.spawnTick. generalize (BlossomRain.toSpawn s). intros k.
  induction k as [|k IH]; [repeat split|]. rewrite Nat.iter_succ.
  destruct IH as (H1 & H2 & H3 & H4 & H5 & H6 & H7).
  destruct (spawnPetal_frame (Nat.iter k BlossomRain.spawnPetal s))
    as (G1 & G2 & G3 & G4 & G5 & G6 & G7).
  cbv zeta in G1, G2, G3, G4, G5, G6, G7.
  rewrite G1, G2, G3, G4, G5, G6, G7. repeat split; assumption.
Qed.

(** While the rain runs, only [destroyBlossomRain] and its clean-up touch
    the container and the clean-ups that are pending. *)
Lemma step_while_running e s :
  BlossomRain.running s = true ->
  e <> BlossomRain.Destroy -> e <> BlossomRain.Cleanup ->
  BlossomRain.container (BlossomRain.step e s) = BlossomRain.container s
  /\ BlossomRain.inDocument (BlossomRain.step e s) = BlossomRain.inDocument s
  /\ BlossomRain.pendingCleanups (BlossomRain.step e s) = BlossomRain.pendingCleanups s.
Proof.
  intros Hr Hd Hc. destruct e as [| |i r|id|p|p|]; try congruence; simpl.
  - unfold BlossomRain.initBlossomRainForScene8. rewrite Hr. repeat split.
  - unfold BlossomRain.settleLoad, BlossomRain.startSpawner.
    destruct (BlossomRain.pendingLoads s !! i) as [[|]|]; [| |repeat split]; simpl.
    + destruct (BlossomRain.spawnIntervalId s); repeat split.
    + destruct r; [|repeat split]. simpl.
      destruct (BlossomRain.spawnIntervalId s); repeat split.
  - destruct (decide _); [|repeat split].
    destruct (spawnTick_frame s) as (H1 & H2 & H3 & _). repeat split; assumption.
  - repeat split.
  - unfold BlossomRain.fadeChild. destruct (decide _); repeat split.
Qed.

Lemma run_while_running es s :
  BlossomRain.running s = true ->
  BlossomRain.Destroy ∉ es -> BlossomRain.Cleanup ∉ es ->
  BlossomRain.running (BlossomRain.run es s) = true
  /\ BlossomRain.container (BlossomRain.run es s) = BlossomRain.container s
  /\ BlossomRain.inDocument (BlossomRain.run es s) = BlossomRain.inDocument s
  /\ BlossomRain.pendingCleanups (BlossomRain.run es s) = BlossomRain.pendingCleanups s.
Proof.
  revert s. induction es as [|e es IH]; intros s Hr Hd Hc; [repeat split; exact Hr|].
  assert (He1 : e <> BlossomRain.Destroy) by (intros ->; apply Hd, list_elem_of_here).
  assert (He2 : e <> BlossomRain.Cleanup) by (intros ->; apply Hc, list_elem_of_here).
  assert (Hd' : BlossomRain.Destroy ∉ es)
    by (intros Hin; apply Hd, list_elem_of_further, Hin).
  assert (Hc' : BlossomRain.Cleanup ∉ es)
    by (intros Hin; apply Hc, list_elem_of_further, Hin).
  assert (Hr' : BlossomRain.running (BlossomRain.step e s) = true).
  { rewrite step_running. destruct e; try exact Hr; [rewrite Hr; reflexivity|congruence]. }
  destruct (step_while_running e s Hr He1 He2) as (G1 & G2 & G3).
  destruct (IH (BlossomRain.step e s) Hr' Hd' Hc') as (H1 & H2 & H3 & H4).
  change (BlossomRain.run (e :: es) s) with (BlossomRain.run es (BlossomRain.step e s)).
  rewrite H2, H3, H4. repeat split; assumption.
Qed.

(** A rain that runs without a container stays so, and spawns nothing,
    until it is destroyed. *)
Lemma run_without_container es s :
  BlossomRain.running s = true -> BlossomRain.container s = None ->
  BlossomRain.Destroy ∉ es ->
  BlossomRain.running (BlossomRain.run es s) = true
  /\ BlossomRain.container (BlossomRain.run es s) = None
  /\ BlossomRain.petalsActive (BlossomRain.run es s) `sublist_of` BlossomRain.petalsActive s.
Proof.
  revert s. induction es as [|e es IH]; intros s Hr Hc Hd;
    [split; [exact Hr|split; [exact Hc|reflexivity]]|].
  assert (He1 : e <> BlossomRain.Destroy) by (intros ->; apply Hd, list_elem_of_here).
  assert (Hd' : BlossomRain.Destroy ∉ es)
    by (intros Hin; apply Hd, list_elem_of_further, Hin).
  assert (Hr' : BlossomRain.running (BlossomRain.step e s) = true).
  { rewrite step_running. destruct e; try exact Hr; [rewrite Hr; reflexivity|congruence]. }
  assert (Hc' : BlossomRain.container (BlossomRain.step e s) = None).
  { assert (He2 : e = BlossomRain.Cleanup \/ e <> BlossomRain.Cleanup)
      by (destruct e; first [left; reflexivity|right; discriminate]).
    destruct He2 as [->|He2].
    - simpl. unfold BlossomRain.cleanup.
      destruct (BlossomRain.pendingCleanups s); [exact Hc|reflexivity].
    - destruct (step_while_running e s Hr He1 He2) as (G1 & _). rewrite G1. exact Hc. }
  destruct (IH (BlossomRain.step e s) Hr' Hc' Hd') as (H1 & H2 & H3).
  change (BlossomRain.run (e :: es) s) with (BlossomRain.run es (BlossomRain.step e s)).
  split; [exact H1|]. split; [exact H2|]. etransitivity; [exact H3|].
  apply step_sublist; [right; exact Hc|right; exact Hr].
Qed.

(** X18: starting the rain again before the clean-up of the last
    [destroyBlossomRain] has fired.  The clean-up, when it fires, takes
    the container of the new rain out of the document and forgets it,
    while the container of the old rain stays in the document.  The new
    rain still counts as running, so from then on a further
    [initBlossomRainForScene8] returns at once and no petal is spawned
    until the rain is destroyed again. *)
Theorem reinit_before_cleanup (s : BlossomRain.State) (es1 es2 : list BlossomRain.Input) :
  BlossomRain.hasFogScene s = true ->
  BlossomRain.Destroy ∉ es1 -> BlossomRain.Cleanup ∉ es1 -> BlossomRain.Destroy ∉ es2 ->
  let s1 := BlossomRain.step BlossomRain.Init (BlossomRain.step BlossomRain.Destroy s) in
  let s2 := BlossomRain.step BlossomRain.Cleanup (BlossomRain.run es1 s1) in
  let s3 := BlossomRain.run es2 s2 in
  (BlossomRain.container s1 = Some (BlossomRain.nextId s)
   /\ (BlossomRain.nextId s ∈ BlossomRain.inDocument s1))
  /\ (BlossomRain.running s2 = true /\ BlossomRain.container s2 = None
      /\ (BlossomRain.nextId s ∉ BlossomRain.inDocument s2)
      /\ (forall c, c ∈ BlossomRain.inDocument s -> c <> BlossomRain.nextId s ->
                    c ∈ BlossomRain.inDocument s2))
  /\ (BlossomRain.running s3 = true /\ BlossomRain.container s3 = None
      /\ BlossomRain.petalsActive s3 `sublist_of` BlossomRain.petalsActive s2).
Proof.
  intros Hscene Hd1 Hc1 Hd2 s1 s2 s3.
  assert (E1 : BlossomRain.running s1 = true /\ BlossomRain.container s1 = Some (BlossomRain.nextId s)
               /\ BlossomRain.inDocument s1 = BlossomRain.inDocument s ++ [BlossomRain.nextId s]
               /\ BlossomRain.pendingCleanups s1 = S (BlossomRain.pendingCleanups s)).
  { subst s1. simpl. unfold BlossomRain.destroyBlossomRain, BlossomRain.stopSpawner.
    simpl. destruct (BlossomRain.spawnIntervalId s); simpl;
      unfold BlossomRain.initBlossomRainForScene8; simpl; rewrite Hscene; simpl;
      repeat split. }
  destruct E1 as (Hr1 & Hk1 & Hdoc1 & Hpc1).
  destruct (run_while_running es1 s1 Hr1 Hd1 Hc1) as (Hr & Hk & Hdoc & Hpc).
  assert (E2 : BlossomRain.running s2 = true /\ BlossomRain.container s2 = None
               /\ BlossomRain.inDocument s2
                  = filter (fun x => x <> BlossomRain.nextId s)
                      (BlossomRain.inDocument s ++ [BlossomRain.nextId s])).
  { subst s2. simpl. unfold BlossomRain.cleanup. rewrite Hpc, Hpc1. simpl.
    rewrite Hr, Hk, Hk1, Hdoc, Hdoc1. repeat split. }
  destruct E2 as (Hr2 & Hk2 & Hdoc2).
  split; [split; [exact Hk1|rewrite Hdoc1; apply elem_of_app; right; apply list_elem_of_here]|].
  split.
  - split; [exact Hr2|]. split; [exact Hk2|]. rewrite Hdoc2. split.
    + intros [Hne _]%list_elem_of_filter. apply Hne. reflexivity.
    + intros c Hin Hne. apply list_elem_of_filter. split; [exact Hne|].
      apply elem_of_app. left. exact Hin.
  - exact (run_without_container es2 s2 Hr2 Hk2 Hd2).
Qed.

Lemma reinit_before_cleanup_witness :
  let s2 := BlossomRain.run [BlossomRain.Destroy; BlossomRain.Init; BlossomRain.Cleanup]
              BlossomRain.raining in
  BlossomRain.running s2 = true /\ BlossomRain.container s2 = None
  /\ (1%nat ∈ BlossomRain.inDocument s2)
  /\ BlossomRain.petalsActive
       (BlossomRain.run [BlossomRain.Settle 0 None; BlossomRain.Tick 10; BlossomRain.Init] s2)
     `sublist_of` BlossomRain.petalsActive s2.
Proof.
  cbv zeta.
  assert (Hn : forall x : BlossomRain.Input, x ∉ @nil BlossomRain.Input)
    by (intros x Hx; inversion Hx).
  assert (Hd2 : BlossomRain.Destroy
                ∉ [BlossomRain.Settle 0 None; BlossomRain.Tick 10; BlossomRain.Init]).
  { intros Hin. repeat (apply elem_of_cons in Hin as [Hin|Hin]; [discriminate|]).
    inversion Hin. }
  pose proof (reinit_before_cleanup BlossomRain.raining [] _ eq_refl
                (Hn _) (Hn _) Hd2) as (_ & (Hr & Hk & _ & Hold) & (_ & _ & Hsub)).
  split; [exact Hr|]. split; [exact Hk|]. split; [|exact Hsub].
  apply (Hold 1%nat); [vm_compute; apply list_elem_of_here|vm_compute; lia].
Defined.

Lemma truthy_Some t : BlossomRain.truthy t = true -> t <> None.
Proof. destruct t; [discriminate|]. simpl. discriminate. Qed.

Lemma elem_of_setAdd x y l : x ∈ BlossomRain.setAdd y l <-> x ∈ l \/ x = y.
Proof.
  unfold BlossomRain.setAdd. destruct (decide (y ∈ l)) as [Hy|Hy].
  - split; [auto|]. intros [H| ->]; assumption.
  - rewrite elem_of_app, list_elem_of_singleton. reflexivity.
Qed.

Lemma spawnPetal_children s :
  (forall pc, pc ∈ BlossomRain.children s -> pc.1 ∈ BlossomRain.petalsActive s) ->
  forall pc, pc ∈ BlossomRain.children (BlossomRain.spawnPetal s) ->
             pc.1 ∈ BlossomRain.petalsActive (BlossomRain.spawnPetal s).
Proof.
  intros H pc. unfold BlossomRain.spawnPetal.
  destruct (BlossomRain.container s); [|apply H].
  destruct (negb _); [apply H|]. destruct (_ <=? _); [apply H|]. simpl.
  rewrite elem_of_app, list_elem_of_singleton, elem_of_setAdd.
  intros [Hin| ->]; [left; apply H, Hin|right; reflexivity].
Qed.

Lemma rainInvariant_step e s : rainInvariant s -> rainInvariant (BlossomRain.step e s).
Proof.
  intros (Hi & Hl & Hc). destruct e as [| |i r|id|p|p|]; simpl.
  - unfold BlossomRain.initBlossomRainForScene8.
    destruct (BlossomRain.running s); [repeat split; assumption|].
    destruct (negb _); [repeat split; assumption|].
    unfold BlossomRain.loadBlossomSVG. simpl. split; [exact Hi|]. split; [|exact Hc].
    intros [Hin|Hin]%elem_of_app; [apply Hl, Hin|].
    apply list_elem_of_singleton in Hin.
    destruct (BlossomRain.truthy (BlossomRain.blossomSvgText s)) eqn:Ht; [|discriminate].
    apply truthy_Some, Ht.
  - unfold BlossomRain.destroyBlossomRain, BlossomRain.stopSpawner. simpl.
    destruct (BlossomRain.spawnIntervalId s); simpl; (split; [|split; assumption]).
    + intros H. destruct H. reflexivity.
    + intros H. destruct H. reflexivity.
  - unfold BlossomRain.settleLoad, BlossomRain.startSpawner.
    destruct (BlossomRain.pendingLoads s !! i) as [[|]|] eqn:Hp;
      [| |repeat split; assumption]; simpl.
    + assert (Ht : BlossomRain.blossomSvgText s <> None).
      { apply Hl. eapply list_elem_of_lookup_2. exact Hp. }
      destruct (BlossomRain.spawnIntervalId s); simpl;
        (split; [intros _; exact Ht|split; [intros _; exact Ht|exact Hc]]).
    + destruct r as [txt|]; simpl.
      * destruct (BlossomRain.spawnIntervalId s); simpl;
          (split; [discriminate|split; [discriminate|exact Hc]]).
      * split; [exact Hi|]. split; [|exact Hc]. intros Hin. apply Hl.
        eapply elem_of_sublist; [exact Hin|]. apply sublist_delete.
  - destruct (decide _); [|repeat split; assumption].
    destruct (spawnTick_frame s) as (_ & _ & _ & G4 & G5 & G6 & _).
    cbv zeta in G4, G5, G6. unfold rainInvariant. rewrite G4, G5, G6.
    split; [exact Hi|]. split; [exact Hl|].
    unfold BlossomRain.spawnTick. generalize (BlossomRain.toSpawn s). intros k.
    induction k as [|k IH]; [exact Hc|]. rewrite Nat.iter_succ.
    apply spawnPetal_children, IH.
  - unfold BlossomRain.finishPetal. split; [exact Hi|]. split; [exact Hl|]. simpl.
    intros pc [Hne Hin]%list_elem_of_filter. apply list_elem_of_filter.
    split; [exact Hne|apply Hc, Hin].
  - unfold BlossomRain.fadeChild. destruct (decide _); [|repeat split; assumption].
    split; [exact Hi|]. split; [exact Hl|]. simpl.
    intros pc [_ Hin]%list_elem_of_filter. apply Hc, Hin.
  - unfold BlossomRain.cleanup.
    destruct (BlossomRain.pendingCleanups s); repeat split; assumption.
Qed.

Lemma rainInvariant_run es s : rainInvariant s -> rainInvariant (BlossomRain.run es s).
Proof.
  revert s. induction es as [|e es IH]; intros s H; [exact H|].
  apply IH, rainInvariant_step, H.
Qed.

Lemma rainInvariant_initial scene : rainInvariant (BlossomRain.initial scene).
Proof.
  split; [intros H; destruct H; reflexivity|].
  split; [intros H; inversion H|intros pc H; inversion H].
Qed.

(** A petal that one tick adds comes from [spawnPetal] in a state that
    runs and has a container. *)
Lemma spawnTick_new s p :
  p ∈ BlossomRain.petalsActive (BlossomRain.spawnTick s) ->
  p ∉ BlossomRain.petalsActive s ->
  BlossomRain.running s = true
  /\ exists c, BlossomRain.container s = Some c
               /\ (p, c) ∈ BlossomRain.children (BlossomRain.spawnTick s).
Proof.
  intros Hin Hnot.
  destruct (BlossomRain.running s) eqn:Hr.
  2:{ rewrite spawnTick_idle in Hin by (left; exact Hr). contradiction. }
  destruct (BlossomRain.container s) as [c|] eqn:Hc.
  2:{ rewrite spawnTick_idle in Hin by (right; exact Hc). contradiction. }
  split; [reflexivity|]. exists c. split; [reflexivity|].
  revert Hin. unfold BlossomRain.spawnTick. generalize (BlossomRain.toSpawn s). intros k.
  induction k as [|k IH]; [intros Hin; contradiction|].
  rewrite Nat.iter_succ. set (s0 := Nat.iter k BlossomRain.spawnPetal s) in *.
  assert (Hc0 : BlossomRain.container s0 = Some c).
  { subst s0. clear IH. induction k as [|k IHk]; [exact Hc|]. rewrite Nat.iter_succ.
    destruct (spawnPetal_frame (Nat.iter k BlossomRain.spawnPetal s)) as (G & _).
    cbv zeta in G. rewrite G. exact IHk. }
  unfold BlossomRain.spawnPetal. rewrite Hc0.
  destruct (negb _); [exact IH|]. destruct (_ <=? _); [exact IH|]. simpl.
  rewrite elem_of_setAdd, elem_of_app, list_elem_of_singleton.
  intros [Hin| ->]; [left; apply IH, Hin|right; reflexivity].
Qed.

(** X19: no petal without its picture.  In every state the script
    reaches from its load, a petal enters the set of active petals only
    by a tick of the interval the script holds, while the rain runs and
    has a container, into which the petal is put, and after
    [blossomSvgText] was set by a load. *)
Theorem petal_needs_text (scene : bool) (es : list BlossomRain.Input)
    (e : BlossomRain.Input) (p : nat) :
  let s := BlossomRain.run es (BlossomRain.initial scene) in
  p ∈ BlossomRain.petalsActive (BlossomRain.step e s) ->
  p ∉ BlossomRain.petalsActive s ->
  (exists id, e = BlossomRain.Tick id /\ BlossomRain.spawnIntervalId s = Some id)
  /\ BlossomRain.running s = true
  /\ (exists c, BlossomRain.container s = Some c
                /\ (p, c) ∈ BlossomRain.children (BlossomRain.step e s))
  /\ BlossomRain.blossomSvgText s <> None.
Proof.
  intros s Hin Hnot.
  pose proof (rainInvariant_run es _ (rainInvariant_initial scene)) as (Hi & _).
  fold s in Hi.
  destruct e as [| |i r|id|q|q|];
    try (rewrite petalsActive_kept in Hin by exact I; contradiction).
  - simpl in Hin |- *. destruct (decide (BlossomRain.spawnIntervalId s = Some id)) as [Hid|Hid];
      [|contradiction].
    destruct (spawnTick_new s p Hin Hnot) as (Hr & c & Hc & Hch).
    split; [exists id; split; [reflexivity|exact Hid]|].
    split; [exact Hr|]. split; [exists c; split; assumption|].
    apply Hi. rewrite Hid. discriminate.
  - simpl in Hin. apply list_elem_of_filter in Hin as [_ Hin]. contradiction.
Qed.

Lemma petal_needs_text_witness :
  BlossomRain.blossomSvgText
    (BlossomRain.run [BlossomRain.Init; BlossomRain.Settle 0 (Some "<svg/>"%string)]
       (BlossomRain.initial true)) <> None.
Proof.
  assert (Hin : 3%nat ∈ BlossomRain.petalsActive
                  (BlossomRain.step (BlossomRain.Tick 2)
                     (BlossomRain.run
                        [BlossomRain.Init; BlossomRain.Settle 0 (Some "<svg/>"%string)]
                        (BlossomRain.initial true)))).
  { vm_compute. apply list_elem_of_here. }
  assert (Hnot : 3%nat ∉ BlossomRain.petalsActive
                   (BlossomRain.run
                      [BlossomRain.Init; BlossomRain.Settle 0 (Some "<svg/>"%string)]
                      (BlossomRain.initial true))).
  { vm_compute. intros H. inversion H. }
  exact (proj2 (proj2 (proj2 (petal_needs_text true
           [BlossomRain.Init; BlossomRain.Settle 0 (Some "<svg/>"%string)]
           (BlossomRain.Tick 2) 3%nat Hin Hnot)))).
Defined.

(** X20: a petal is in a container only while it is active.  In every
    state the script reaches, each petal element that is a child of a
    container is a member of [petalsActive]; with the cap on that set, no
    container ever holds a petal that the script has stopped counting. *)
Theorem children_are_active (scene : bool) (es : list BlossomRain.Input) (p c : nat) :
  let s := BlossomRain.run es (BlossomRain.initial scene) in
  (p, c) ∈ BlossomRain.children s ->
  p ∈ BlossomRain.petalsActive s /\ (length (BlossomRain.petalsActive s) <= 90)%nat.
Proof.
  intros s Hin.
  pose proof (rainInvariant_run es _ (rainInvariant_initial scene)) as (_ & _ & Hc).
  split; [exact (Hc (p, c) Hin)|].
  assert (Hcap : forall es0 s0, (length (BlossomRain.petalsActive s0) <= 90)%nat ->
            (length (BlossomRain.petalsActive (BlossomRain.run es0 s0)) <= 90)%nat).
  { clear. unfold BlossomRain.run. induction es0 as [|e es0 IH]; intros s0 H; [exact H|].
    simpl. apply IH, step_cap, H. }
  apply Hcap. simpl. lia.
Qed.

Lemma children_are_active_witness :
  4%nat ∈ BlossomRain.petalsActive
            (BlossomRain.run
               [BlossomRain.Init; BlossomRain.Settle 0 (Some "<svg/>"%string);
                BlossomRain.Tick 2; BlossomRain.Tick 2;
                BlossomRain.Destroy; BlossomRain.FadeChild 3]
               (BlossomRain.initial true)).
Proof.
  assert (Hin : (4%nat, 1%nat)
                ∈ BlossomRain.children
                    (BlossomRain.run
                       [BlossomRain.Init; BlossomRain.Settle 0 (Some "<svg/>"%string);
                        BlossomRain.Tick 2; BlossomRain.Tick 2;
                        BlossomRain.Destroy; BlossomRain.FadeChild 3]
                       (BlossomRain.initial true))).
  { vm_compute. apply list_elem_of_here. }
  exact (proj1 (children_are_active true
           [BlossomRain.Init; BlossomRain.Settle 0 (Some "<svg/>"%string);
            BlossomRain.Tick 2; BlossomRain.Tick 2;
            BlossomRain.Destroy; BlossomRain.FadeChild 3] 4%nat 1%nat Hin)).
Defined.

(** ** The epsilon bubble *)

Lemma hoverInvariant_moveTo T t n y x s :
  hoverInvariant T s -> T <= t -> EpsilonHover.isTransitioning s = false ->
  EpsilonHover.moveStep s = n - 1 ->
  EpsilonHover.route !! Z.to_nat (n - 1) = Some (y, x) ->
  hoverInvariant t (EpsilonHover.moveTo t n y x s).
Proof.
  intros (Hstep & Hroute & Hpos & Hsp & Hle & Htr) HT Hfree Hn Hr.
  rewrite Hfree in Htr. destruct Htr as [Hnone Hlast].
  assert (Hlen : (Z.to_nat (n - 1) < length EpsilonHover.route)%nat)
    by (eapply lookup_lt_Some; exact Hr).
  simpl in Hlen.
  unfold hoverInvariant, EpsilonHover.moveTo.
  cbn [EpsilonHover.moveStep EpsilonHover.isTransitioning EpsilonHover.styleTop
       EpsilonHover.styleLeft EpsilonHover.timeouts EpsilonHover.moves].
  rewrite !fmap_cons. cbn [fst snd].
  split; [lia|]. split; [|split; [reflexivity|split; [|split]]].
  - rewrite reverse_cons, Hroute, Hn.
    replace (Z.to_nat n) with (S (Z.to_nat (n - 1))) by lia.
    rewrite (take_S_r _ _ _ Hr). reflexivity.
  - split; [|exact Hsp].
    destruct ((EpsilonHover.moves s).*1) as [|t0 r] eqn:Hm; [exact I|].
    specialize (Hlast t0 r eq_refl). lia.
  - constructor; [lia|]. eapply Forall_impl; [exact Hle|]. intros z Hz. simpl in Hz. lia.
  - exists t, ((EpsilonHover.moves s).*1). rewrite Hnone. split; reflexivity.
Qed.

Lemma hoverInvariant_mono T T' s :
  hoverInvariant T s -> T <= T' -> hoverInvariant T' s.
Proof.
  intros (Hstep & Hroute & Hpos & Hsp & Hle & Htr) HT.
  split; [exact Hstep|]. split; [exact Hroute|]. split; [exact Hpos|].
  split; [exact Hsp|]. split.
  - eapply Forall_impl; [exact Hle|]. intros z Hz. simpl in Hz. lia.
  - destruct (EpsilonHover.isTransitioning s); [exact Htr|].
    destruct Htr as [Hnone Hlast]. split; [exact Hnone|].
    intros t0 r Hm. specialize (Hlast t0 r Hm). lia.
Qed.

Lemma hoverInvariant_step T e s :
  hoverInvariant T s -> T <= EpsilonHover.instant e ->
  hoverInvariant (EpsilonHover.instant e) (EpsilonHover.step e s).
Proof.
  intros Hinv HT. destruct e as [t expanded|t]; simpl in HT |- *.
  - unfold EpsilonHover.mouseenter.
    destruct expanded; simpl; [eapply hoverInvariant_mono; eassumption|].
    destruct (EpsilonHover.isTransitioning s) eqn:Hfree; simpl;
      [eapply hoverInvariant_mono; eassumption|].
    destruct (decide (EpsilonHover.moveStep s = 0)) as [H0|H0];
      [apply (hoverInvariant_moveTo T); try assumption; reflexivity|].
    destruct (decide (EpsilonHover.moveStep s = 1)) as [H1|H1];
      [apply (hoverInvariant_moveTo T); try assumption; reflexivity|].
    destruct (decide (EpsilonHover.moveStep s = 2)) as [H2|H2];
      [apply (hoverInvariant_moveTo T); try assumption; reflexivity|].
    eapply hoverInvariant_mono; eassumption.
  - destruct (EpsilonHover.timeouts s) as [|due rest] eqn:Hts;
      [eapply hoverInvariant_mono; eassumption|].
    destruct (Z.leb_spec due t) as [Hdue|Hdue];
      [|eapply hoverInvariant_mono; eassumption].
    destruct Hinv as (Hstep & Hroute & Hpos & Hsp & Hle & Htr).
    destruct (EpsilonHover.isTransitioning s).
    + destruct Htr as (t0 & r & Hm & Hto). rewrite Hts in Hto. injection Hto as -> ->.
      unfold hoverInvariant, EpsilonHover.settled. simpl.
      split; [exact Hstep|]. split; [exact Hroute|]. split; [exact Hpos|].
      split; [exact Hsp|]. split.
      * eapply Forall_impl; [exact Hle|]. intros z Hz. simpl in Hz. lia.
      * split; [reflexivity|]. intros t1 r1 Hm1. rewrite Hm in Hm1.
        injection Hm1 as <- <-. exact Hdue.
    + destruct Htr as [Hnone _]. rewrite Hts in Hnone. discriminate.
Qed.

Lemma hoverInvariant_run es T s :
  hoverInvariant T s -> EpsilonHover.chronological T es ->
  exists T', hoverInvariant T' (EpsilonHover.run es s).
Proof.
  revert T s. induction es as [|e es IH]; intros T s Hinv Hch; [exists T; exact Hinv|].
  destruct Hch as [HT Hch]. simpl.
  exact (IH _ _ (hoverInvariant_step T e s Hinv HT) Hch).
Qed.

(** X21: the epsilon bubble flees twice and gives in.  Whatever the
    pointer does, the bubble is moved at most three times: to the lower
    left corner, to the upper left corner, then to the centre, in this
    order, and it stays where its last move put it.  Two moves are at
    least 650 ms apart, and never more than one timeout is pending. *)
Theorem epsilon_moves (es : list EpsilonHover.Input) (t0 : Z) :
  EpsilonHover.chronological t0 es ->
  let s := EpsilonHover.run es EpsilonHover.initial in
  0 <= EpsilonHover.moveStep s <= 3
  /\ reverse (EpsilonHover.moves s).*2
     = take (Z.to_nat (EpsilonHover.moveStep s)) EpsilonHover.route
  /\ (EpsilonHover.styleTop s, EpsilonHover.styleLeft s)
     = match EpsilonHover.moves s with
       | (_, (y, x)) :: _ => (Some y, Some x)
       | [] => (None, None)
       end
  /\ EpsilonHover.spaced (EpsilonHover.moves s).*1
  /\ (length (EpsilonHover.timeouts s) <= 1)%nat.
Proof.
  intros Hch s.
  assert (Hinit : hoverInvariant t0 EpsilonHover.initial).
  { unfold hoverInvariant. simpl. split; [lia|]. split; [reflexivity|].
    split; [reflexivity|]. split; [exact I|]. split; [constructor|].
    split; [reflexivity|]. intros t1 r H. discriminate. }
  destruct (hoverInvariant_run es t0 _ Hinit Hch)
    as (T' & Hstep & Hroute & Hpos & Hsp & _ & Htr).
  fold s in Hstep, Hroute, Hpos, Hsp, Htr.
  split; [exact Hstep|]. split; [exact Hroute|]. split; [exact Hpos|].
  split; [exact Hsp|].
  destruct (EpsilonHover.isTransitioning s).
  - destruct Htr as (t1 & r & _ & ->). simpl. lia.
  - destruct Htr as [-> _]. simpl. lia.
Qed.

(** The pointer enters at 0, 100, 700, 1300 and 1400 ms and again at
    2000 ms; the timeouts fire as soon as they are due. *)
Lemma epsilon_moves_witness :
  let es := [EpsilonHover.MouseEnter 0 false; EpsilonHover.MouseEnter 100 false;
             EpsilonHover.Timeout 650; EpsilonHover.MouseEnter 700 false;
             EpsilonHover.MouseEnter 1300 false; EpsilonHover.Timeout 1350;
             EpsilonHover.MouseEnter 1400 false; EpsilonHover.Timeout 2050;
             EpsilonHover.MouseEnter 2100 false] in
  EpsilonHover.moves (EpsilonHover.run es EpsilonHover.initial)
  = [(1400, (50, 50)); (700, (15, 15)); (0, (85, 15))]
  /\ EpsilonHover.spaced (EpsilonHover.moves (EpsilonHover.run es EpsilonHover.initial)).*1.
Proof.
  cbv zeta. split; [vm_compute; reflexivity|].
  refine (proj1 (proj2 (proj2 (proj2 (epsilon_moves _ 0 _))))).
  simpl. lia.
Defined.

(** ** The bubbles of scenes 4, 6 and 8 *)

Lemma flagsOf_doc n w w' : doc w' = doc w -> flagsOf n w' = flagsOf n w.
Proof. unfold flagsOf. intros ->. reflexivity. Qed.

Lemma flagsOf_updElem n b g w :
  (forall e, attached (g e) = attached e /\ dataSceneOf n (g e) = dataSceneOf n e) ->
  flagsOf n (updElem b g w) = flagsOf n w.
Proof.
  intros H. unfold flagsOf, updElem. simpl. apply fmap_alter_same.
  intros e. destruct (H e) as [-> ->]. reflexivity.
Qed.

Lemma flagsOf_bubbleAddClass n b c w : flagsOf n (bubbleAddClass b c w) = flagsOf n w.
Proof. apply flagsOf_updElem. intros e. split; reflexivity. Qed.

Lemma flagsOf_bubbleRemoveClass n b c w : flagsOf n (bubbleRemoveClass b c w) = flagsOf n w.
Proof. apply flagsOf_updElem. intros e. split; reflexivity. Qed.

Lemma remaining_flagsOf n w :
  remaining n w = count (fun f : bool * bool => f.1 && f.2) (flagsOf n w).
Proof.
  unfold remaining, flagsOf. induction (elems (doc w)) as [|e l IH]; [reflexivity|].
  rewrite filter_cons. simpl.
  destruct (decide _) as [H|H].
  - rewrite H. simpl. rewrite IH. reflexivity.
  - apply not_true_is_false in H. rewrite H. exact IH.
Qed.

(** A staying callback leaves every bubble where it is, whatever its scene. *)
Lemma runCallback_flagsOf n c w :
  staying c -> flagsOf n (runCallback c w).1 = flagsOf n w.
Proof.
  intros Hc. destruct c; simpl in Hc; try contradiction; simpl runCallback.
  - unfold tickFadeToLevel. cbv zeta. destruct (bool_decide _); reflexivity.
  - unfold tickFadeOut. cbv zeta. destruct (bool_decide _); cbn [fst]; [|reflexivity].
    apply flagsOf_doc. unfold haltLayers, forAmbient. simpl. rewrite emitEach_doc. reflexivity.
  - unfold tickFadeIn. cbv zeta. destruct (bool_decide _); reflexivity.
  - unfold tickScene9FadeOut. cbv zeta. destruct (bool_decide _); cbn [fst]; [|reflexivity].
    apply flagsOf_doc. unfold haltLayers, forAmbient. simpl. rewrite emitEach_doc. reflexivity.
  - unfold tickBirdFadeIn. cbv zeta. destruct (bool_decide _); reflexivity.
  - simpl. apply flagsOf_doc. unfold playCrowSound. destruct (negb _); reflexivity.
  - simpl. apply flagsOf_doc. unfold ambientFor. cbv zeta.
    destruct (targetSceneOf key), (usesSteps key);
      rewrite ?fadeInAmbient_doc, ?playAmbient_doc; reflexivity.
  - simpl. unfold flagsOf, transitionDone. cbv zeta.
    destruct (usesSteps key); rewrite ?stopTransition_doc, onComplete_elems; reflexivity.
  - reflexivity.
  - apply flagsOf_bubbleAddClass.
  - simpl. unfold backgroundPhase.
    exact (flagsOf_bubbleAddClass n b "bubble-background-transition" w).
  - apply flagsOf_bubbleAddClass.
  - simpl. unfold revealPhase. destruct (expansions w !! x); reflexivity.
  - simpl. unfold showContent. destruct (elems (doc w) !! b) as [el|]; [|reflexivity].
    cbv zeta.
    transitivity (flagsOf n (bubbleAddClass b "bubble-show-content" w));
      [|apply flagsOf_bubbleAddClass].
    apply flagsOf_doc. cbn [doc setTimeout].
    rewrite (foldl_keeps doc).
    + destruct (isFirstBubble el); [apply playTrack_frame|reflexivity].
    + intros w0 ct. destruct (hasClass ct.1 el); [apply playTrack_frame|reflexivity].
  - simpl. apply flagsOf_doc, animateSentences_frame.
  - reflexivity.
  - simpl. apply flagsOf_doc. unfold ambientScene2, unmuteAudio. cbv zeta. simpl.
    rewrite emitEach_doc. apply playAmbient_doc.
  - simpl. apply flagsOf_doc, fadeInAmbient_doc.
Qed.

Lemma fire_flagsOf n w i tm :
  earliest (timers w) = Some (i, tm) -> staying (cb tm) ->
  flagsOf n (fire w) = flagsOf n w.
Proof.
  intros He Hst. unfold fire. rewrite He.
  pose proof (runCallback_flagsOf n (cb tm) (dequeue i tm w) Hst) as Hf.
  unfold rearm. destruct (runCallback (cb tm) (dequeue i tm w)) as [w2 k].
  cbn [fst snd] in *.
  destruct k as [c'|]; [destruct (period tm)|]; exact Hf.
Qed.

Lemma runSceneTransition_elems key cfg w :
  TRANSITIONS key = Some cfg -> scenePresent w = true ->
  elems (doc (runSceneTransition key w)) = elems (doc w).
Proof.
  intros Hcfg Hs.
  destruct (runSceneTransition_parts (fun _ => True) key cfg w ltac:(intros; exact I) Hcfg Hs)
    as (mid & -> & _ & Hdoc & _).
  cbn [doc setTimeout]. rewrite onStart_elems, Hdoc. reflexivity.
Qed.

Lemma remaining_removeSceneBubblesOf n w : remaining n (removeSceneBubbles n w) = 0%nat.
Proof.
  rewrite remaining_flagsOf. unfold flagsOf, removeSceneBubbles.
  cbn [doc setDoc elems setElems].
  induction (elems (doc w)) as [|e l IH]; [reflexivity|].
  rewrite !fmap_cons. cbn [count]. rewrite IH.
  destruct (dataSceneOf n e) eqn:H.
  - assert (H' : dataSceneOf n (withAttached false e) = true) by exact H.
    rewrite H'. reflexivity.
  - rewrite H, andb_false_r. reflexivity.
Qed.

Lemma laterScene_transition n :
  n = 4 \/ n = 6 \/ n = 8 ->
  exists cfg, TRANSITIONS (transitionKeyFrom n) = Some cfg /\ n <> 2.
Proof. intros [->|[->| ->]]; eexists; (split; [reflexivity|discriminate]). Qed.

(** The check made 50 ms after the removal of a bubble of scene 4, 6 or 8. *)
Lemma openNext_spec n w :
  n = 4 \/ n = 6 \/ n = 8 -> scenePresent w = true ->
  let w' := openNext n w in
  let last := bool_decide (remaining n w = 0%nat) in
  now w' = now w /\ scenePresent w' = true
  /\ remaining n w' = remaining n w
  /\ advanceRequests (log w') = (advanceRequests (log w) + (if last then 1 else 0))%nat
  /\ transitionRuns (log w') = (transitionRuns (log w) + (if last then 1 else 0))%nat
  /\ (exists added, timers w' = timers w ++ added
                    /\ Forall (fun tm => staying (cb tm)) added)
  /\ (last = true ->
      (now w, EvOpenScene (n + 1)) ∈ log w'
      /\ (now w, EvRunTransition (transitionKeyFrom n)) ∈ log w'
      /\ transitionPending n (now w) (timers w')).
Proof.
  intros Hn Hscene w' last. subst w' last. unfold openNext.
  destruct (laterScene_transition n Hn) as (cfg & Hcfg & _).
  destruct (bool_decide (remaining n w = 0%nat)) eqn:Hz.
  - apply bool_decide_eq_true in Hz.
    pose proof (openTitleScene_pending n w (or_intror Hn) Hscene) as Hpend. revert Hpend.
    unfold openTitleScene. cbv zeta.
    assert (Hs1 : scenePresent (emit (EvOpenScene (n + 1)) w) = true) by exact Hscene.
    unfold scenePresent in Hs1.
    destruct (fogScene (doc (emit (EvOpenScene (n + 1)) w))); [|discriminate].
    set (w1 := removeSceneBubbles n (emit (EvOpenScene (n + 1)) w)).
    set (w2 := if decide (n = 8) then emit EvBlossomDestroy w1 else w1).
    assert (Hw2 : now w2 = now w /\ scenePresent w2 = true
                  /\ elems (doc w2) = elems (doc w1)
                  /\ advanceRequests (log w2) = S (advanceRequests (log w))
                  /\ transitionRuns (log w2) = transitionRuns (log w)
                  /\ timers w2 = timers w
                  /\ (now w, EvOpenScene (n + 1)) ∈ log w2).
    { subst w2. destruct (decide (n = 8)); simpl.
      - repeat split; try exact Hscene. apply list_elem_of_further, list_elem_of_here.
      - repeat split; try exact Hscene. apply list_elem_of_here. }
    destruct Hw2 as (Hn2 & Hs2 & He2 & Ha2 & Hr2 & Ht2 & Hin2).
    destruct (runSceneTransition_effects (transitionKeyFrom n) cfg w2 Hcfg Hs2)
      as (Hn3 & Hs3 & _ & Ha3 & Hr3 & Hin3 & (added & Ht3 & Hadd)).
    pose proof (runSceneTransition_elems (transitionKeyFrom n) cfg w2 Hcfg Hs2) as He3.
    set (w3 := runSceneTransition (transitionKeyFrom n) w2) in *.
    intros Hpend.
    cbn [now setTimeout log timers].
    split; [rewrite Hn3; exact Hn2|]. split; [exact Hs3|].
    split.
    { rewrite Hz. unfold remaining. cbn [doc setTimeout]. rewrite He3, He2.
      exact (remaining_removeSceneBubblesOf n (emit (EvOpenScene (n + 1)) w)). }
    split; [rewrite Ha3, Ha2; lia|].
    split; [rewrite Hr3, Hr2; lia|].
    split.
    { eexists (added ++ [_]). rewrite Ht3, Ht2, <- app_assoc. split; [reflexivity|].
      apply Forall_app. split; [exact Hadd|]. repeat constructor. }
    intros _. split; [|split; [|exact Hpend]]; apply Hin3.
    + left. exact Hin2.
    + right. rewrite Hn2. reflexivity.
  - split; [reflexivity|]. split; [exact Hscene|]. split; [reflexivity|].
    split; [lia|]. split; [lia|].
    split; [exists []; rewrite app_nil_r; split; [reflexivity|constructor]|discriminate].
Qed.

Lemma remaining_detachOf n b w :
  flagsOf n w !! b = Some (true, true) ->
  flagsOf n (updElem b (withAttached false) w) = alter (fun f => (false, f.2)) b (flagsOf n w)
  /\ S (remaining n (updElem b (withAttached false) w)) = remaining n w.
Proof.
  intros Hb.
  assert (Hf : flagsOf n (updElem b (withAttached false) w)
               = alter (fun f => (false, f.2)) b (flagsOf n w)).
  { unfold flagsOf, updElem. simpl. apply list_fmap_alter.
    apply Forall_forall. intros e _. reflexivity. }
  split; [exact Hf|]. rewrite !remaining_flagsOf, Hf.
  apply (count_alter_drop _ _ _ _ _ Hb); reflexivity.
Qed.

Lemma flagsOf_sceneRemove n c w : flagsOf n (sceneRemove c w) = flagsOf n w.
Proof. reflexivity. Qed.

Lemma flagsOf_setExpansions n xs w : flagsOf n (setExpansions xs w) = flagsOf n w.
Proof. reflexivity. Qed.

(** The press that pops a bubble: the stops, the restyling, and the
    removal 300 ms ahead, in the branch of the bubble's scene. *)
Lemma ctaHandler_popLater n w x e el :
  expansions w !! x = Some e -> elems (doc w) !! xBubble e = Some el ->
  (xTotalPages e <= xCurrentPage e)%nat -> sceneOfBubble el = Some n ->
  exists pre,
    ctaHandler x w = setTimeout (CbRemoveBubble n (xBubble e)) 300 pre
    /\ does notAdvancing staying 0 w pre /\ flagsOf n pre = flagsOf n w.
Proof.
  intros Hx Hel Hlast Hn. unfold ctaHandler.
  rewrite Hx, Hel, (proj2 (Nat.ltb_ge _ _) Hlast). cbv zeta.
  assert (Hdev := device_notAdvancing).
  set (w1 := stopAllTracks (playPopSound w)).
  assert (Hd1 : does notAdvancing staying 0 w w1).
  { eapply (does_seq _ _ 0 0);
      [apply does_playPopSound, Hdev|apply does_stopAllTracks, Hdev|lia]. }
  assert (Hf1 : flagsOf n w1 = flagsOf n w).
  { apply flagsOf_doc. subst w1. unfold stopAllTracks. rewrite (foldl_keeps doc).
    - unfold playPopSound. destruct (negb _); reflexivity.
    - intros w0 tr. apply stopTrack_frame. }
  unfold sceneOfBubble in Hn.
  destruct (dataScene2 el);
    [|destruct (dataScene4 el);
      [|destruct (dataScene6 el); [|destruct (dataScene8 el); [|discriminate]]]];
    injection Hn as <-.
  all: unfold popSceneBubble; cbv zeta; eexists; (split; [reflexivity|]).
  all: split.
  all: try (eapply (does_after _ _ 0 0); [|exact Hd1|lia];
            eapply (does_after _ _ 0 0); [apply does_sceneRemove| |lia];
            eapply (does_after _ _ 0 0); [apply does_sceneRemove| |lia];
            eapply (does_after _ _ 0 0); [apply does_bubbleRemoveClass| |lia];
            destruct (from_option _ _ _); [|apply does_refl];
            unfold dropCta;
            eapply (does_after _ _ 0 0); [apply does_setExpansions|apply does_updElem|lia]).
  all: rewrite !flagsOf_sceneRemove, flagsOf_bubbleRemoveClass;
    destruct (from_option _ _ _); [|exact Hf1];
    unfold dropCta; rewrite flagsOf_setExpansions, flagsOf_updElem; [exact Hf1|];
    intros e0; split; reflexivity.
Qed.

Lemma staying_not_mover ts : Forall (fun tm => staying (cb tm)) ts -> movers ts = 0%nat.
Proof.
  intros H. apply count_none. eapply Forall_impl; [exact H|].
  intros tm. simpl. destruct (cb tm); simpl; first [reflexivity|contradiction].
Qed.

Lemma only_stayingOf c D ts :
  isMoverCb c = true ->
  Forall (fun tm => staying (cb tm) \/ (cb tm = c /\ due tm = D)) ts ->
  movers ts = 0%nat -> Forall (fun tm => staying (cb tm)) ts.
Proof.
  intros Hc H H0. apply count_zero_Forall in H0.
  rewrite Forall_forall in *. intros tm Hin.
  destruct (H tm Hin) as [Hs|[Hcb _]]; [exact Hs|].
  specialize (H0 tm Hin). simpl in H0. rewrite Hcb, Hc in H0. discriminate.
Qed.

(** The timer that fires next while one mover is awaited: a staying one,
    or the mover itself, at its instant and with staying timers left. *)
Lemma awaiting_next n c D F a0 t0 w i tm :
  isMoverCb c = true ->
  awaiting n c D F a0 t0 w -> earliest (timers w) = Some (i, tm) ->
  (staying (cb tm) /\ awaiting n c D F a0 t0 (fire w))
  \/ (cb tm = c /\ due tm = D /\ now (dequeue i tm w) = D
      /\ Forall (fun tm => staying (cb tm)) (timers (dequeue i tm w))).
Proof.
  intros Hc (Hs & Hfl & Ha & Ht & Hall & Hone & Hnow) He.
  pose proof (earliest_spec _ _ _ He) as [Hi Hmin].
  pose proof (count_delete (fun tm => isMoverCb (cb tm)) _ _ _ Hi) as Hdel.
  cbv beta in Hdel.
  fold (movers (delete i (timers w))) in Hdel. fold (movers (timers w)) in Hdel.
  assert (Htm : staying (cb tm) \/ (cb tm = c /\ due tm = D)).
  { rewrite Forall_forall in Hall. apply Hall. eapply list_elem_of_lookup_2. exact Hi. }
  assert (Hrest := Forall_delete _ _ i Hall).
  destruct Htm as [Hst|[Hcb HD]].
  - left. split; [exact Hst|].
    assert (Hnot : isMoverCb (cb tm) = false)
      by (destruct (cb tm); simpl in *; first [reflexivity|contradiction]).
    rewrite Hnot in Hdel.
    destruct (fire_staying w i tm He Hst)
      as (Hn' & Hs' & _ & (new & Hl & Hnew) & (added & Ht' & Hadd)).
    pose proof (fire_flagsOf n w i tm He Hst) as Hf'.
    destruct (quiet_counts _ new (log w) Hnew) as [Hqa Hqt].
    unfold awaiting. rewrite Hs', Hf', Hl, Ht', Hqa, Hqt, Hn'.
    unfold movers. rewrite count_app. fold (movers (delete i (timers w))) (movers added).
    rewrite (staying_not_mover added Hadd).
    split; [exact Hs|]. split; [exact Hfl|]. split; [exact Ha|]. split; [exact Ht|].
    split.
    { apply Forall_app. split; [exact Hrest|].
      eapply Forall_impl; [exact Hadd|]. intros; left; assumption. }
    split; [lia|].
    assert (Hp : movers (timers w) <> 0%nat) by lia.
    destruct (count_pos_elem _ _ Hp) as (tmo & Hin & Hrm).
    rewrite Forall_forall in Hall. destruct (Hall _ Hin) as [Hc'|[_ Hdo]].
    + destruct (cb tmo); simpl in *; first [discriminate|contradiction].
    + specialize (Hmin _ Hin). lia.
  - right. rewrite Hcb, Hc in Hdel.
    split; [exact Hcb|]. split; [exact HD|]. split; [simpl; lia|].
    simpl. apply (only_stayingOf c D); [exact Hc|exact Hrest|lia].
Qed.

Lemma checked_fire n D t r a1 t1 last w i tm :
  checked n D t r a1 t1 last w -> earliest (timers w) = Some (i, tm) ->
  due tm <= t -> t <= D ->
  checked n D t r a1 t1 last (fire w).
Proof.
  intros (Hs & Hrem & Ha & Ht & Hall & HD & Hev) He Hdue HtD.
  pose proof (transitionPending_fire n D w i tm He ltac:(lia)) as Hkeep.
  pose proof (earliest_spec _ _ _ He) as [Hi _].
  assert (Hst : staying (cb tm)).
  { rewrite Forall_forall in Hall. apply Hall. eapply list_elem_of_lookup_2. exact Hi. }
  destruct (fire_staying w i tm He Hst)
    as (_ & Hs' & _ & (new & Hl & Hnew) & (added & Ht' & Hadd)).
  pose proof (fire_flagsOf n w i tm He Hst) as Hf'.
  destruct (quiet_counts _ new (log w) Hnew) as [Hqa Hqt].
  unfold checked. rewrite Hs', Hl, Hqa, Hqt.
  split; [exact Hs|].
  split; [rewrite remaining_flagsOf, Hf', <- remaining_flagsOf; exact Hrem|].
  split; [exact Ha|]. split; [exact Ht|].
  split; [rewrite Ht'; apply Forall_app; split; [apply Forall_delete, Hall|exact Hadd]|].
  split; [exact HD|].
  intros Hlast. destruct (Hev Hlast) as (H1 & H2 & H3).
  split; [|split; [|exact (Hkeep H3)]]; apply elem_of_app; right; assumption.
Qed.

(** The removal fires: the bubble leaves, nothing is requested, and the
    check is 50 ms ahead. *)
Lemma removal_fire n b D F a0 t0 w i tm :
  n = 4 \/ n = 6 \/ n = 8 -> F !! b = Some (true, true) ->
  awaiting n (CbRemoveBubble n b) D F a0 t0 w -> earliest (timers w) = Some (i, tm) ->
  awaiting n (CbRemoveBubble n b) D F a0 t0 (fire w)
  \/ awaiting n (CbCheckRemaining n) (D + 50) (alter (fun f => (false, f.2)) b F) a0 t0
       (fire w).
Proof.
  intros Hn HF Haw He.
  destruct (awaiting_next n (CbRemoveBubble n b) D F a0 t0 w i tm eq_refl Haw He)
    as [[_ H]|(Hcb & HD & Hnow & Hrest)]; [left; exact H|right].
  destruct Haw as (Hs & Hfl & Ha & Ht & _).
  destruct (laterScene_transition n Hn) as (_ & _ & Hn2).
  unfold fire. rewrite He, Hcb. simpl runCallback. unfold rearm. cbn [fst snd].
  unfold removeBubble. cbv zeta. rewrite decide_False by exact Hn2.
  set (w0 := dequeue i tm w) in *.
  assert (Hf0 : flagsOf n w0 !! b = Some (true, true)).
  { change (flagsOf n w !! b = Some (true, true)). rewrite Hfl. exact HF. }
  destruct (remaining_detachOf n b w0 Hf0) as [Hfd _].
  unfold awaiting. cbn [now setTimeout log timers].
  split; [exact Hs|].
  split.
  { change (flagsOf n (updElem b (withAttached false) w0)
            = alter (fun f => (false, f.2)) b F).
    rewrite Hfd. change (flagsOf n w0) with (flagsOf n w). rewrite Hfl. reflexivity. }
  split; [exact Ha|]. split; [exact Ht|].
  change (timers (updElem b (withAttached false) w0)) with (timers w0).
  change (now (updElem b (withAttached false) w0)) with (now w0).
  change (nextTid (updElem b (withAttached false) w0)) with (nextTid w0).
  split.
  { apply Forall_app. split.
    - eapply Forall_impl; [exact Hrest|]. intros; left; assumption.
    - constructor; [|constructor]. right. cbn [cb due]. split; [reflexivity|].
      rewrite Hnow. reflexivity. }
  split.
  { unfold movers. rewrite count_app. fold (movers (timers w0)).
    rewrite (staying_not_mover _ Hrest). reflexivity. }
  lia.
Qed.

(** The check fires: the next scene is requested exactly if no bubble of
    the scene is left. *)
Lemma check_fire n D t F a0 t0 w i tm :
  n = 4 \/ n = 6 \/ n = 8 ->
  awaiting n (CbCheckRemaining n) D F a0 t0 w -> earliest (timers w) = Some (i, tm) ->
  due tm <= t ->
  let r := count (fun f : bool * bool => f.1 && f.2) F in
  let last := bool_decide (r = 0%nat) in
  awaiting n (CbCheckRemaining n) D F a0 t0 (fire w)
  \/ checked n D t r (a0 + (if last then 1 else 0)) (t0 + (if last then 1 else 0)) last
       (fire w).
Proof.
  intros Hn Haw He Hdue r last.
  destruct (awaiting_next n (CbCheckRemaining n) D F a0 t0 w i tm eq_refl Haw He)
    as [[_ H]|(Hcb & HD & Hnow & Hrest)]; [left; exact H|right].
  destruct Haw as (Hs & Hfl & Ha & Ht & _).
  unfold fire. rewrite He, Hcb. simpl runCallback. unfold rearm. cbn [fst snd].
  set (w0 := dequeue i tm w) in *.
  assert (Hs0 : scenePresent w0 = true) by exact Hs.
  destruct (openNext_spec n w0 Hn Hs0)
    as (Hn' & Hs' & Hrem & Hqa & Hqt & (added & Ht' & Hadd) & Hev).
  assert (Hr0 : remaining n w0 = r).
  { rewrite remaining_flagsOf. change (flagsOf n w0) with (flagsOf n w).
    rewrite Hfl. reflexivity. }
  rewrite Hr0 in *. fold last in Hqa, Hqt, Hev.
  unfold checked.
  split; [exact Hs'|]. split; [exact Hrem|].
  split; [rewrite Hqa; change (log w0) with (log w); rewrite Ha; reflexivity|].
  split; [rewrite Hqt; change (log w0) with (log w); rewrite Ht; reflexivity|].
  split; [rewrite Ht'; apply Forall_app; split; [exact Hrest|exact Hadd]|].
  split; [lia|].
  rewrite <- Hnow. exact Hev.
Qed.

Lemma awaiting_due n c D F a0 t0 t w :
  isMoverCb c = true -> awaiting n c D F a0 t0 w ->
  (forall tm, tm ∈ timers w -> t < due tm) -> t < D.
Proof.
  intros Hc (_ & _ & _ & _ & Hall & Hone & _) Hquiet.
  assert (Hp : movers (timers w) <> 0%nat) by lia.
  destruct (count_pos_elem _ _ Hp) as (tmo & Hin & Hrm).
  rewrite Forall_forall in Hall. destruct (Hall _ Hin) as [Hc'|[_ Hdo]].
  - destruct (cb tmo); simpl in *; first [discriminate|contradiction].
  - specialize (Hquiet _ Hin). lia.
Qed.

Lemma sceneOfBubble_data el n : sceneOfBubble el = Some n -> dataSceneOf n el = true.
Proof.
  unfold sceneOfBubble, dataSceneOf.
  destruct (dataScene2 el); [intros [= <-]; reflexivity|].
  destruct (dataScene4 el); [intros [= <-]; reflexivity|].
  destruct (dataScene6 el); [intros [= <-]; reflexivity|].
  destruct (dataScene8 el); [intros [= <-]; reflexivity|discriminate].
Qed.

(** The three stages of a pop in scene 4, 6 or 8, along a run of the
    clock to [t]. *)
Lemma laterPop_fire n b D t F a0 t0 w i tm :
  n = 4 \/ n = 6 \/ n = 8 -> F !! b = Some (true, true) ->
  let F' := alter (fun f : bool * bool => (false, f.2)) b F in
  let r := count (fun f : bool * bool => f.1 && f.2) F' in
  let last := bool_decide (r = 0%nat) in
  let a1 := (a0 + (if last then 1 else 0))%nat in
  let t1 := (t0 + (if last then 1 else 0))%nat in
  awaiting n (CbRemoveBubble n b) D F a0 t0 w
  \/ awaiting n (CbCheckRemaining n) (D + 50) F' a0 t0 w
  \/ checked n (D + 50) t r a1 t1 last w ->
  earliest (timers w) = Some (i, tm) -> due tm <= t -> t <= D + 50 ->
  awaiting n (CbRemoveBubble n b) D F a0 t0 (fire w)
  \/ awaiting n (CbCheckRemaining n) (D + 50) F' a0 t0 (fire w)
  \/ checked n (D + 50) t r a1 t1 last (fire w).
Proof.
  intros Hn HF F' r last a1 t1 [H|[H|H]] He Hdue HtD.
  - destruct (removal_fire n b D F a0 t0 w i tm Hn HF H He) as [H'|H'];
      [left; exact H'|right; left; exact H'].
  - destruct (check_fire n (D + 50) t F' a0 t0 w i tm Hn H He Hdue) as [H'|H'];
      [right; left; exact H'|right; right; exact H'].
  - right; right. exact (checked_fire _ _ _ _ _ _ _ w i tm H He Hdue HtD).
Qed.



(** ** The Steps loop of a transition *)

Lemma playAmbient_loop n w :
  transitionAudio (am (playAmbient n w)) = transitionAudio (am w).
Proof.
  unfold playAmbient. destruct (_ && _); [reflexivity|].
  destruct (negb _); [reflexivity|]. destruct (sceneConfig n) as [cfg|]; [|reflexivity].
  destruct (bool_decide _); [reflexivity|].
  apply (foldl_keeps (fun w => transitionAudio (am w))). intros w0 layer. reflexivity.
Qed.

Lemma fadeInAmbient_loop d w :
  transitionAudio (am (fadeInAmbient d w)) = transitionAudio (am w).
Proof. unfold fadeInAmbient. destruct (bool_decide _); reflexivity. Qed.

Lemma haltLayers_loop w : transitionAudio (am (haltLayers w)) = transitionAudio (am w).
Proof. unfold haltLayers, forAmbient. simpl. rewrite emitEach_am. reflexivity. Qed.

Lemma playTrack_loop tr w : transitionAudio (am (playTrack tr w)) = transitionAudio (am w).
Proof.
  unfold playTrack. destruct (negb _); [reflexivity|].
  destruct (oneShot (am w) tr); reflexivity.
Qed.

Lemma spawnScene2_am w : am (spawnScene2 w) = am w.
Proof.
  unfold spawnScene2. cbv zeta.
  destruct (scene2Template _); rewrite (foldl_keeps am); reflexivity.
Qed.

(** A calm callback leaves the transition sound alone. *)
Lemma calm_keeps_loop c w :
  calm c -> transitionAudio (am (runCallback c w).1) = transitionAudio (am w).
Proof.
  intros Hc. destruct c; simpl in Hc; try contradiction; simpl runCallback.
  - unfold tickFadeToLevel. cbv zeta. destruct (bool_decide _); reflexivity.
  - unfold tickFadeOut. cbv zeta. destruct (bool_decide _); cbn [fst]; [|reflexivity].
    rewrite haltLayers_loop. reflexivity.
  - unfold tickFadeIn. cbv zeta. destruct (bool_decide _); reflexivity.
  - unfold tickScene9FadeOut. cbv zeta. destruct (bool_decide _); cbn [fst]; [|reflexivity].
    simpl. rewrite emitEach_am. reflexivity.
  - unfold tickBirdFadeIn. cbv zeta. destruct (bool_decide _); reflexivity.
  - simpl. unfold playCrowSound. destruct (negb _); reflexivity.
  - simpl. unfold ambientFor. cbv zeta.
    destruct (targetSceneOf key), (usesSteps key);
      rewrite ?fadeInAmbient_loop, ?playAmbient_loop; reflexivity.
  - reflexivity.
  - reflexivity.
  - reflexivity.
  - reflexivity.
  - simpl. unfold revealPhase. destruct (expansions w !! x); reflexivity.
  - simpl. unfold showContent. destruct (elems (doc w) !! b) as [el|]; [|reflexivity].
    cbv zeta. cbn [am setTimeout].
    rewrite (foldl_keeps (fun w => transitionAudio (am w))).
    + destruct (isFirstBubble el); [rewrite playTrack_loop|]; reflexivity.
    + intros w0 ct. destruct (hasClass ct.1 el); [apply playTrack_loop|reflexivity].
  - simpl. rewrite animateSentences_am. reflexivity.
  - reflexivity.
  - simpl. unfold spawnFallback. destruct (elems (doc w) !! clone) as [el|]; [|reflexivity].
    destruct (attached el); [|reflexivity]. unfold afterPop. cbv zeta. cbn [am setTimeout].
    rewrite spawnScene2_am. reflexivity.
  - simpl. unfold ambientScene2, unmuteAudio. cbv zeta. simpl.
    rewrite emitEach_am. apply playAmbient_loop.
  - simpl. apply fadeInAmbient_loop.
Qed.

(** A calm timer fires. *)
Lemma fire_calm w i tm :
  earliest (timers w) = Some (i, tm) -> calm (cb tm) ->
  now (fire w) = Z.max (now w) (due tm)
  /\ transitionAudio (am (fire w)) = transitionAudio (am w)
  /\ (exists new, log (fire w) = new ++ log w)
  /\ (exists added, timers (fire w) = delete i (timers w) ++ added
        /\ Forall (fun tm => calm (cb tm)) added).
Proof.
  intros He Hc. unfold fire. rewrite He.
  destruct (runCallback_calm (cb tm) (dequeue i tm w) Hc) as (K & Hd & Hk).
  pose proof (calm_keeps_loop (cb tm) (dequeue i tm w) Hc) as Hloop.
  apply does_inv in Hd as (Hn & _ & (new & Hl & _) & (added & Ht & Hadd & _)).
  unfold rearm. destruct (runCallback (cb tm) (dequeue i tm w)) as [w2 k].
  cbn [fst snd] in *.
  assert (Hbase : now w2 = Z.max (now w) (due tm)
                  /\ transitionAudio (am w2) = transitionAudio (am w)
                  /\ (exists new, log w2 = new ++ log w)).
  { split; [exact Hn|]. split; [exact Hloop|]. exists new. exact Hl. }
  destruct Hbase as (H1 & H2 & H3).
  destruct k as [c'|]; [destruct (period tm) as [p|]|].
  - split; [exact H1|]. split; [exact H2|]. split; [exact H3|].
    exists (added ++ [mkTimer (tid tm) (due tm + p) (Some p) c']).
    cbn [timers setTimers]. rewrite Ht, <- app_assoc. split; [reflexivity|].
    apply Forall_app. split; [exact Hadd|].
    constructor; [apply Hk; reflexivity|constructor].
  - repeat (split; [assumption|]). exists added. split; [exact Ht|exact Hadd].
  - repeat (split; [assumption|]). exists added. split; [exact Ht|exact Hadd].
Qed.

Lemma only_calm key D ts :
  Forall (fun tm => calm (cb tm) \/ (cb tm = CbOnComplete key /\ due tm = D)) ts ->
  pendingCompletions ts = 0%nat -> Forall (fun tm => calm (cb tm)) ts.
Proof.
  intros H H0. apply count_zero_Forall in H0.
  rewrite Forall_forall in *. intros tm Hin.
  destruct (H tm Hin) as [Hs|[Hcb _]]; [exact Hs|].
  specialize (H0 tm Hin). simpl in H0. rewrite Hcb in H0. discriminate.
Qed.

Lemma stepping_fire key D t a w i tm :
  usesSteps key = true ->
  stepping key D t a w -> earliest (timers w) = Some (i, tm) -> due tm <= t ->
  stepping key D t a (fire w).
Proof.
  intros Hsteps (Hall & Hphase) He Hdue.
  pose proof (earliest_spec _ _ _ He) as [Hi Hmin].
  pose proof (pendingCompletions_delete _ _ _ Hi) as Hdel.
  assert (Htm : calm (cb tm) \/ (cb tm = CbOnComplete key /\ due tm = D)).
  { rewrite Forall_forall in Hall. apply Hall. eapply list_elem_of_lookup_2. exact Hi. }
  assert (Hrest := Forall_delete _ _ i Hall).
  destruct Htm as [Hcalm|[Hcb HD]].
  - assert (Hnot : isOnCompleteCb (cb tm) = false) by (destruct (cb tm); simpl in *; tauto).
    rewrite Hnot in Hdel.
    destruct (fire_calm w i tm He Hcalm) as (Hn & Hloop & (new & Hl) & (added & Ht & Hadd)).
    unfold stepping. rewrite Ht, Hloop, Hl, Hn, pendingCompletions_app.
    rewrite (calm_not_onComplete added Hadd).
    split.
    { apply Forall_app. split; [exact Hrest|].
      eapply Forall_impl; [exact Hadd|]. intros; left; assumption. }
    destruct Hphase as [(Hp & Ha & Hnow)|(Hp & Ha & HDt & Hin)].
    + left. split; [lia|]. split; [exact Ha|].
      assert (Hp' : pendingCompletions (timers w) <> 0%nat) by lia.
      destruct (count_pos_elem _ _ Hp') as (tmo & Hino & Hoc).
      rewrite Forall_forall in Hall. destruct (Hall _ Hino) as [Hc|[_ Hdo]].
      * destruct (cb tmo); simpl in *; try discriminate; tauto.
      * specialize (Hmin _ Hino). lia.
    + right. split; [lia|]. split; [exact Ha|]. split; [exact HDt|].
      apply elem_of_app. right. exact Hin.
  - rewrite Hcb in Hdel. simpl in Hdel.
    destruct Hphase as [(Hp & Ha & Hnow)|(Hp & _)]; [|lia].
    unfold fire. rewrite He, Hcb. simpl runCallback. unfold rearm. cbn [fst snd].
    unfold transitionDone. cbv zeta. rewrite Hsteps.
    set (w0 := dequeue i tm w).
    assert (Hnow0 : now w0 = D) by (subst w0; simpl; lia).
    assert (Ha0 : transitionAudio (am (onComplete key w0)) = Some a).
    { rewrite onComplete_am. exact Ha. }
    destruct (onComplete_spec key w0) as (Hl1 & Ht1 & Hn1).
    unfold stepping, stopTransition. rewrite Ha0. unfold haltAudio.
    cbn [timers log am setAm setTransitionAudio transitionAudio emit now].
    rewrite Ht1, Hn1, Hnow0.
    split.
    { eapply Forall_impl; [apply (only_calm key D); [exact Hrest|]|];
        [simpl; lia|intros; left; assumption]. }
    right. split; [simpl; lia|]. split; [reflexivity|]. split; [lia|].
    apply list_elem_of_further, list_elem_of_here.
Qed.

Lemma onStart_steps_am key w : usesSteps key = true -> am (onStart key w) = am w.
Proof.
  intros H. destruct (usesSteps_keys _ H) as [Hk|[Hk|Hk]]; subst key; reflexivity.
Qed.

Lemma runSceneTransition_loop key cfg w :
  TRANSITIONS key = Some cfg -> usesSteps key = true -> scenePresent w = true ->
  audioEnabled (am w) = true ->
  transitionAudio (am (runSceneTransition key w)) = Some (stepsLoop w).
Proof.
  intros Hcfg Hsteps Hscene Hen. unfold runSceneTransition, scenePresent in *.
  destruct (fogScene (doc w)); [|discriminate]. rewrite Hcfg, Hsteps. cbv zeta.
  cbn [am setTimeout]. rewrite (onStart_steps_am _ _ Hsteps).
  unfold fadeAmbientToLevel.
  assert (Hplay : transitionAudio
                    (am (playTransition "Steps.wav" true (3 # 5)
                           (emit (EvRunTransition key) w)))
                  = Some (stepsLoop w)).
  { unfold playTransition. cbn [am emit]. rewrite Hen. simpl negb. cbv iota.
    unfold stopTransition. cbn [am emit].
    destruct (transitionAudio (am w)); reflexivity. }
  destruct (bool_decide _); exact Hplay.
Qed.

(** X23: the Steps loop lasts as long as the transition.  A run of the
    2-3, 4-5 or 6-7 transition, started with audio enabled, the scene
    container present and no other transition in flight or about to be
    started by a pending bubble removal, holds one looping Steps.wav
    element, playing at volume 0.6, at every instant before 5500 ms; at
    5500 ms the element is paused and the manager holds no transition
    sound from then on. *)
Theorem steps_loop_lifetime (w : World) (key : string) (t : Z) :
  usesSteps key = true ->
  scenePresent w = true -> audioEnabled (am w) = true ->
  Forall (fun tm => calm (cb tm)) (timers w) ->
  let w' := advance t (runSceneTransition key w) in
  if t <? now w + 5500
  then transitionAudio (am w') = Some (stepsLoop w)
  else transitionAudio (am w') = None /\ (now w + 5500, EvPause (nextAid w)) ∈ log w'.
Proof.
  intros Hsteps Hscene Hen Hcalm w'. subst w'.
  assert (Hcfg : TRANSITIONS key = Some (mkTransition 5500 500 300)).
  { destruct (usesSteps_keys _ Hsteps) as [Hk|[Hk|Hk]]; subst key; reflexivity. }
  set (D := now w + 5500).
  assert (Hstart : stepping key D t (stepsLoop w) (runSceneTransition key w)).
  { split.
    - destruct (completing_start key D t (completions key (log w)) (log w) _ w Hcfg Hscene
                  Hcalm eq_refl eq_refl eq_refl) as (Hall & _). exact Hall.
    - left.
      destruct (runSceneTransition_shape key _ w Hcfg Hscene) as (pre & Hshape & Hd).
      apply does_inv in Hd as (Hn & _ & _ & (added & Ht & Hadd & _)).
      split; [|split].
      + rewrite Hshape. cbn [timers setTimeout]. rewrite Ht, !pendingCompletions_app.
        rewrite (calm_not_onComplete (timers w) Hcalm), (calm_not_onComplete added Hadd).
        reflexivity.
      + exact (runSceneTransition_loop key _ w Hcfg Hsteps Hscene Hen).
      + rewrite Hshape. cbn [now setTimeout]. rewrite Hn. subst D. lia. }
  apply (advance_ind (stepping key D t (stepsLoop w))
           (fun w' => if t <? D
                      then transitionAudio (am w') = Some (stepsLoop w)
                      else transitionAudio (am w') = None
                           /\ (D, EvPause (nextAid w)) ∈ log w') t).
  - intros w0 i tm. apply stepping_fire. exact Hsteps.
  - intros w0 (Hall & Hphase) Hquiet.
    change (if t <? D
            then transitionAudio (am w0) = Some (stepsLoop w)
            else transitionAudio (am w0) = None /\ (D, EvPause (nextAid w)) ∈ log w0).
    destruct (Z.ltb_spec t D) as [Hlt|Hge].
    + destruct Hphase as [(_ & Ha & _)|(_ & _ & HDt & _)]; [exact Ha|lia].
    + destruct Hphase as [(Hp & _)|(_ & Ha & _ & Hin)]; [|split; [exact Ha|exact Hin]].
      assert (Hp' : pendingCompletions (timers w0) <> 0%nat) by lia.
      destruct (count_pos_elem _ _ Hp') as (tmo & Hino & Hoc).
      rewrite Forall_forall in Hall. destruct (Hall _ Hino) as [Hc|[_ Hdo]].
      * destruct (cb tmo); simpl in *; try discriminate; tauto.
      * specialize (Hquiet _ Hino). lia.
  - exact Hstart.
Qed.

(** The 2-3 transition of scene 2, just before and at its end. *)
Lemma steps_loop_lifetime_witness :
  transitionAudio (am (advance 5499 (runSceneTransition "2-3" scene2Page)))
  = Some (stepsLoop scene2Page)
  /\ transitionAudio (am (advance 5500 (runSceneTransition "2-3" scene2Page))) = None.
Proof.
  assert (Hc : Forall (fun tm => calm (cb tm)) (timers scene2Page)).
  { vm_compute. constructor. }
  assert (Hn : now scene2Page = 0) by (vm_compute; reflexivity).
  pose proof (steps_loop_lifetime scene2Page "2-3" 5499 eq_refl eq_refl eq_refl Hc) as H1.
  pose proof (steps_loop_lifetime scene2Page "2-3" 5500 eq_refl eq_refl eq_refl Hc) as H2.
  cbv zeta in H1, H2. rewrite Hn in H1, H2.
  split; [exact H1|exact (proj1 H2)].
Defined.

(** ** The birds of scene 9 *)

Lemma playAmbient_birds n w : birdLayers (am (playAmbient n w)) = birdLayers (am w).
Proof.
  unfold playAmbient. destruct (_ && _); [reflexivity|].
  destruct (negb _); [reflexivity|]. destruct (sceneConfig n) as [cfg|]; [|reflexivity].
  destruct (bool_decide _); [reflexivity|].
  apply (foldl_keeps (fun w => birdLayers (am w))). intros w0 layer. reflexivity.
Qed.

Lemma fadeInAmbient_birds d w : birdLayers (am (fadeInAmbient d w)) = birdLayers (am w).
Proof. unfold fadeInAmbient. destruct (bool_decide _); reflexivity. Qed.

Lemma playTrack_birds tr w : birdLayers (am (playTrack tr w)) = birdLayers (am w).
Proof.
  unfold playTrack. destruct (negb _); [reflexivity|].
  destruct (oneShot (am w) tr); reflexivity.
Qed.

Lemma stopTransition_birds w : birdLayers (am (stopTransition w)) = birdLayers (am w).
Proof. unfold stopTransition. destruct (transitionAudio (am w)); reflexivity. Qed.

(** What a callback that is quiet for the birds does: it leaves the bird
    layers as they are and registers quiet timers only. *)
Lemma runCallback_birdQuiet c w :
  birdQuiet c = true ->
  birdLayers (am (runCallback c w).1) = birdLayers (am w)
  /\ (exists added, timers (runCallback c w).1 = timers w ++ added
                    /\ Forall (fun tm => birdQuiet (cb tm) = true) added)
  /\ (forall c', (runCallback c w).2 = Some c' -> birdQuiet c' = true).
Proof.
  intros Hc.
  assert (Happ : forall K w', does (fun _ => True) (fun c => birdQuiet c = true) K w w' ->
            exists added, timers w' = timers w ++ added
                          /\ Forall (fun tm => birdQuiet (cb tm) = true) added).
  { intros K w' Hd. apply does_inv in Hd as (_ & _ & _ & (added & Ha & Hf & _)).
    exists added. split; assumption. }
  assert (Hany : forall e : Event, deviceEvent e -> True) by (intros; exact I).
  destruct c; try discriminate Hc; simpl runCallback.
  - destruct (does_tickFadeToLevel (fun _ => True) (fun c => birdQuiet c = true)
                startVolumes targetLevel step w) as (K & Hd & _).
    split; [|split; [exact (Happ _ _ Hd)|]]; unfold tickFadeToLevel; cbv zeta.
    + destruct (bool_decide _); reflexivity.
    + destruct (bool_decide _); simpl; intros c' [= <-]; reflexivity.
  - destruct (does_tickFadeOut (fun _ => True) (fun c => birdQuiet c = true) Hany
                startVolumes step w) as (K & Hd & _).
    split; [|split; [exact (Happ _ _ Hd)|]]; unfold tickFadeOut; cbv zeta.
    + destruct (bool_decide _); cbn [fst]; [|reflexivity].
      unfold haltLayers, forAmbient. simpl. rewrite emitEach_am. reflexivity.
    + destruct (bool_decide _); simpl; intros c' [= <-]; reflexivity.
  - destruct (does_tickFadeIn (fun _ => True) (fun c => birdQuiet c = true)
                targetVolumes step w) as (K & Hd & _).
    split; [|split; [exact (Happ _ _ Hd)|]]; unfold tickFadeIn; cbv zeta.
    + destruct (bool_decide _); reflexivity.
    + destruct (bool_decide _); simpl; intros c' [= <-]; reflexivity.
  - split; [|split; [|discriminate]].
    + simpl. unfold playCrowSound. destruct (negb _); reflexivity.
    + cbn [fst]. eapply Happ.
      eapply does_seq; [apply does_playCrowSound; intros; exact I|apply does_setAm|reflexivity].
  - split; [|split; [|discriminate]].
    + simpl. unfold ambientFor. cbv zeta.
      destruct (targetSceneOf key), (usesSteps key);
        rewrite ?fadeInAmbient_birds, ?playAmbient_birds; reflexivity.
    + cbn [fst]. eapply Happ. apply does_ambientFor; intros; try exact I; reflexivity.
  - split; [|split; [|discriminate]].
    + simpl. unfold transitionDone. cbv zeta.
      destruct (usesSteps key); rewrite ?stopTransition_birds, onComplete_am; reflexivity.
    + cbn [fst]. eapply Happ. apply does_transitionDone; intros; exact I.
  - split; [reflexivity|split; [|discriminate]].
    cbn [fst]. eapply Happ. apply does_populate. exact I.
  - split; [reflexivity|split; [|discriminate]].
    cbn [fst]. eapply Happ. apply does_bubbleAddClass.
  - split; [reflexivity|split; [|discriminate]].
    cbn [fst]. eapply Happ. apply does_backgroundPhase. intros; reflexivity.
  - split; [reflexivity|split; [|discriminate]].
    cbn [fst]. eapply Happ. apply does_bubbleAddClass.
  - split; [|split; [|discriminate]].
    + simpl. unfold revealPhase. destruct (expansions w !! x); reflexivity.
    + cbn [fst]. eapply Happ. apply does_revealPhase; intros; try exact I; reflexivity.
  - split; [|split; [|discriminate]].
    + simpl. unfold showContent. destruct (elems (doc w) !! b) as [el|]; [|reflexivity].
      cbv zeta. cbn [am setTimeout].
      rewrite (foldl_keeps (fun w => birdLayers (am w))).
      * destruct (isFirstBubble el); [rewrite playTrack_birds|]; reflexivity.
      * intros w0 ct. destruct (hasClass ct.1 el); [apply playTrack_birds|reflexivity].
    + cbn [fst]. eapply Happ. apply does_showContent; intros; try exact I; reflexivity.
  - split; [simpl; rewrite animateSentences_am; reflexivity|split; [|discriminate]].
    cbn [fst]. eapply Happ. apply does_animateSentences. intros; reflexivity.
  - split; [reflexivity|split; [|discriminate]].
    cbn [fst]. eapply Happ. apply does_emit. exact I.
  - split; [|split; [|discriminate]].
    + simpl. unfold spawnFallback. destruct (elems (doc w) !! clone) as [el|]; [|reflexivity].
      destruct (attached el); [|reflexivity]. unfold afterPop. cbv zeta. cbn [am setTimeout].
      rewrite spawnScene2_am. reflexivity.
    + cbn [fst]. eapply Happ. apply does_spawnFallback. reflexivity.
  - split; [|split; [|discriminate]].
    + simpl. unfold ambientScene2, unmuteAudio. cbv zeta. simpl.
      rewrite emitEach_am. apply playAmbient_birds.
    + cbn [fst]. eapply Happ. apply does_ambientScene2; intros; try exact I; reflexivity.
  - split; [|split; [|discriminate]].
    + simpl. apply fadeInAmbient_birds.
    + cbn [fst]. eapply Happ. apply does_fadeInAmbient. intros; reflexivity.
Qed.

Lemma withVolume_overwrite (v v' : Q) (m : gmap string Audio) :
  withVolume v <$> (withVolume v' <$> m) = withVolume v <$> m.
Proof.
  apply map_eq. intros id. rewrite !lookup_fmap.
  destruct (m !! id) as [a|]; reflexivity.
Qed.

(** One tick of the bird fade-in. *)
Lemma tickBirdFadeIn_step base s w :
  (s < 50)%nat -> birdLayers (am w) = birdsAt base s ->
  birdLayers (am (tickBirdFadeIn s w).1) = birdsAt base (S s)
  /\ timers (tickBirdFadeIn s w).1 = timers w
  /\ (tickBirdFadeIn s w).2 = (if (S s <? 50)%nat then Some (CbBirdFadeIn (S s)) else None).
Proof.
  intros Hs Hl. unfold tickBirdFadeIn. cbv zeta. unfold birdsAt, birdVolume, steps in *.
  rewrite (decide_False (P := S s = 0%nat)) by lia.
  destruct (Nat.ltb_spec (S s) 50) as [Hlt|Hge].
  - rewrite (bool_decide_eq_false_2 (50 <= S s)%nat) by lia.
    cbn [fst snd]. unfold forBirds. cbn [am setAm birdLayers setBirdLayers timers].
    rewrite Hl, withVolume_overwrite. repeat split.
  - rewrite (bool_decide_eq_true_2 (50 <= S s)%nat) by lia.
    cbn [fst snd]. unfold forBirds. cbn [am setAm birdLayers setBirdLayers timers].
    rewrite Hl, !withVolume_overwrite. repeat split.
Qed.

Section BirdEnvelope.
Variables (base : gmap string Audio) (T0 p t : Z).
Hypothesis Hp : 0 < p.

Lemma birdFading_fire w i tm :
  birdFading (birdsAt base) T0 p t w ->
  earliest (timers w) = Some (i, tm) -> due tm <= t ->
  birdFading (birdsAt base) T0 p t (fire w).
Proof.
  intros (s & Hs & Hlayers & Hall & Hcount & Htime) He Hdue.
  unfold fire. rewrite He.
  apply earliest_spec in He as [Hi _].
  pose proof (count_delete (fun tm => negb (birdQuiet (cb tm))) _ _ _ Hi) as Hdel.
  cbv beta in Hdel.
  assert (Htm : birdQuiet (cb tm) = true
                \/ (cb tm = CbBirdFadeIn s /\ due tm = T0 + Z.of_nat (S s) * p
                    /\ period tm = Some p)).
  { rewrite Forall_forall in Hall. apply Hall. eapply list_elem_of_lookup_2. exact Hi. }
  assert (Hrest := Forall_delete _ _ i Hall).
  destruct Htm as [Hin|(Hcb & Hd & Hper)].
  - rewrite Hin in Hdel. simpl in Hdel.
    destruct (runCallback_birdQuiet (cb tm) (dequeue i tm w) Hin)
      as (Hamb & (added & Ht & Hadd) & Hk).
    assert (Hadd0 : count (fun tm => negb (birdQuiet (cb tm))) added = 0%nat).
    { apply count_none. eapply Forall_impl; [exact Hadd|].
      intros x Hx. simpl in Hx. rewrite Hx. reflexivity. }
    unfold rearm.
    destruct (runCallback (cb tm) (dequeue i tm w)) as [w2 k].
    cbn [fst snd] in *.
    assert (Hl2 : birdLayers (am w2) = birdsAt base s) by (rewrite Hamb; exact Hlayers).
    change (timers (dequeue i tm w)) with (delete i (timers w)) in Ht.
    assert (Hall2 : Forall (fun tm0 => birdQuiet (cb tm0) = true
                      \/ (cb tm0 = CbBirdFadeIn s /\ due tm0 = T0 + Z.of_nat (S s) * p
                          /\ period tm0 = Some p)) (timers w2)).
    { rewrite Ht. apply Forall_app. split; [exact Hrest|].
      eapply Forall_impl; [exact Hadd|]. intros; left; assumption. }
    assert (Hc2 : count (fun tm => negb (birdQuiet (cb tm))) (timers w2)
                  = (if (s <? 50)%nat then 1 else 0)%nat).
    { rewrite Ht, count_app, Hadd0. lia. }
    exists s. split; [exact Hs|].
    destruct k as [c'|]; [destruct (period tm) as [q|]|]; cbn [am timers setTimers];
      try (split; [exact Hl2|split; [exact Hall2|split; [exact Hc2|exact Htime]]]).
    split; [exact Hl2|]. split; [|split; [|exact Htime]].
    + apply Forall_app. split; [exact Hall2|].
      constructor; [left; apply Hk; reflexivity|constructor].
    + rewrite count_app, Hc2. simpl. rewrite (Hk c' eq_refl). simpl. lia.
  - rewrite Hcb in Hdel. simpl in Hdel.
    assert (Hlt : (s < 50)%nat).
    { destruct (Nat.ltb_spec s 50); [assumption|]. rewrite Hcount in Hdel. lia. }
    destruct (Nat.ltb_spec s 50) as [_|]; [|lia].
    assert (Hzero : count (fun tm => negb (birdQuiet (cb tm))) (delete i (timers w)) = 0%nat)
      by lia.
    assert (Hinert : Forall (fun tm => birdQuiet (cb tm) = true) (delete i (timers w))).
    { apply count_zero_Forall in Hzero. eapply Forall_impl; [exact Hzero|].
      intros x Hx. simpl in Hx. destruct (birdQuiet (cb x)); [reflexivity|discriminate]. }
    destruct (tickBirdFadeIn_step base s (dequeue i tm w) Hlt Hlayers) as (Hl' & Ht' & Hk').
    unfold rearm. rewrite Hcb. simpl runCallback. rewrite Hk', Hper.
    exists (S s). split; [lia|].
    destruct (Nat.ltb_spec (S s) 50) as [Hnext|Hlast]; simpl.
    + split; [exact Hl'|]. rewrite Ht'. simpl. rewrite count_app, Hzero. simpl.
      split; [|split; [reflexivity|intros _; lia]].
      apply Forall_app. split.
      * eapply Forall_impl; [exact Hinert|]. intros; left; assumption.
      * constructor; [|constructor]. right. simpl. repeat split. lia.
    + split; [exact Hl'|]. rewrite Ht'. simpl. rewrite Hzero.
      split; [|split; [reflexivity|intros _; lia]].
      eapply Forall_impl; [exact Hinert|]. intros; left; assumption.
Qed.

Lemma birdFading_settle w :
  birdFading (birdsAt base) T0 p t w ->
  (forall tm, tm ∈ timers w -> t < due tm) ->
  forall (k : nat) r, (k <= 50)%nat -> 0 <= r -> ((k < 50)%nat -> r < p) ->
    t = T0 + Z.of_nat k * p + r ->
    birdLayers (am (settle t w)) = birdsAt base k.
Proof.
  intros (s & Hs & Hlayers & Hall & Hcount & Htime) Hquiet k r Hk Hr Hrp Ht.
  simpl. rewrite Hlayers. f_equal.
  destruct (Nat.ltb_spec s 50) as [Hlt|Hge].
  - assert (Hne : count (fun tm => negb (birdQuiet (cb tm))) (timers w) <> 0%nat) by lia.
    destruct (count_pos_elem _ _ Hne) as (tm & Hin & Hnon).
    rewrite Forall_forall in Hall. destruct (Hall _ Hin) as [Hi|(_ & Hd & _)].
    + rewrite Hi in Hnon. discriminate.
    + specialize (Hquiet _ Hin).
      destruct (Nat.lt_trichotomy s k) as [Hsk|[->|Hks]]; [|reflexivity|].
      * exfalso. assert (Z.of_nat (S s) * p <= Z.of_nat k * p) by nia. lia.
      * exfalso. assert (Hpos : (0 < s)%nat) by lia. specialize (Htime Hpos).
        assert (Z.of_nat (S k) * p <= Z.of_nat s * p) by nia.
        assert (r < p) by (apply Hrp; lia). nia.
  - assert (s = 50%nat) by lia. subst s.
    destruct (Nat.eq_dec k 50%nat) as [->|Hne]; [reflexivity|].
    exfalso. specialize (Htime ltac:(lia)).
    assert (r < p) by (apply Hrp; lia).
    assert (Z.of_nat (S k) * p <= Z.of_nat 50 * p) by nia. nia.
Qed.

Lemma birdFading_run w (k : nat) r :
  birdFading (birdsAt base) T0 p t w ->
  (k <= 50)%nat -> 0 <= r -> ((k < 50)%nat -> r < p) ->
  t = T0 + Z.of_nat k * p + r ->
  birdLayers (am (advance t w)) = birdsAt base k.
Proof.
  intros Hf Hk Hr Hrp Ht.
  apply (advance_ind (birdFading (birdsAt base) T0 p t)
           (fun w' => birdLayers (am w') = birdsAt base k) t).
  - intros w0 i tm. apply birdFading_fire.
  - intros w0 H0 Hq. exact (birdFading_settle w0 H0 Hq k r Hk Hr Hrp Ht).
  - exact Hf.
Qed.
End BirdEnvelope.

Lemma birdFading_start w p t :
  0 < p -> birdLayers (am w) <> ∅ ->
  Forall (fun tm => birdQuiet (cb tm) = true) (timers w) ->
  birdFading (birdsAt (birdLayers (am w))) (now w) p t (fadeInBirdAmbient (50 * p) w).
Proof.
  intros Hp Hne Hin. unfold fadeInBirdAmbient.
  rewrite bool_decide_eq_false_2 by (intros H; apply map_size_empty_inv in H; contradiction).
  rewrite stepDuration_exact.
  exists 0%nat. split; [lia|]. split; [reflexivity|]. simpl.
  rewrite Z.max_r by lia. split; [|split].
  - apply Forall_app. split.
    + eapply Forall_impl; [exact Hin|]. intros; left; assumption.
    + constructor; [|constructor]. right. simpl. repeat split. lia.
  - rewrite count_app. simpl.
    rewrite (count_none (fun tm => negb (birdQuiet (cb tm))) (timers w)); [reflexivity|].
    eapply Forall_impl; [exact Hin|]. intros x Hx. simpl in Hx. rewrite Hx. reflexivity.
  - intros H. lia.
Qed.

Lemma startBirds_spec w :
  let w1 := foldl startBird w birds in
  now w1 = now w /\ timers w1 = timers w
  /\ birdLayers (am w1) !! "bird1"
     = Some (mkAudio (nextAid w) "assets/audio/Birdsong1.mp3" 0 true false false)
  /\ birdLayers (am w1) !! "bird2"
     = Some (mkAudio (S (nextAid w)) "assets/audio/Birdsong2.mp3" 0 true false false).
Proof.
  cbv zeta. simpl. split; [reflexivity|]. split; [reflexivity|]. split.
  - rewrite lookup_insert_ne by discriminate. rewrite lookup_insert_eq. reflexivity.
  - rewrite lookup_insert_eq. reflexivity.
Qed.

(** X24: the birds fade in to 0.6.  A bird fade-in that runs alone on
    the bird layers starts every layer at 0, has it at [0.6 * k/50] after
    [k] of the 50 steps and at exactly 0.6 from the full duration on,
    whatever volume the layer had before.  Entering scene 9 without ambient
    layers creates the two looping bird elements, playing, and fades them
    in this way. *)
Theorem birds_fade_in (w : World) (p : Z) (k : nat) (r : Z) :
  0 < p -> Forall (fun tm => birdQuiet (cb tm) = true) (timers w) ->
  (k <= 50)%nat -> 0 <= r -> ((k < 50)%nat -> r < p) ->
  let t := now w + Z.of_nat k * p + r in
  (forall id a, birdLayers (am w) !! id = Some a ->
     birdLayers (am (advance t (fadeInBirdAmbient (50 * p) w))) !! id
     = Some (withVolume (birdVolume k) a))
  /\ (ambientLayers (am w) = ∅ ->
      forall fo,
        let w' := advance t (switchToScene9Ambient fo (50 * p) w) in
        birdLayers (am w') !! "bird1"
        = Some (mkAudio (nextAid w) "assets/audio/Birdsong1.mp3" (birdVolume k)
                        true false false)
        /\ birdLayers (am w') !! "bird2"
           = Some (mkAudio (S (nextAid w)) "assets/audio/Birdsong2.mp3" (birdVolume k)
                           true false false)).
Proof.
  intros Hp Hin Hk Hr Hrp t.
  assert (Hrun : forall w0, now w0 = now w -> timers w0 = timers w ->
            forall id a, birdLayers (am w0) !! id = Some a ->
              birdLayers (am (advance t (fadeInBirdAmbient (50 * p) w0))) !! id
              = Some (withVolume (birdVolume k) a)).
  { intros w0 Hn Ht id a Ha.
    assert (Hne : birdLayers (am w0) <> ∅).
    { intros He. rewrite He in Ha. rewrite lookup_empty in Ha. discriminate. }
    assert (Hin0 : Forall (fun tm => birdQuiet (cb tm) = true) (timers w0))
      by (rewrite Ht; exact Hin).
    rewrite (birdFading_run (birdLayers (am w0)) (now w0) p t Hp
               (fadeInBirdAmbient (50 * p) w0) k r
               (birdFading_start w0 p t Hp Hne Hin0) Hk Hr Hrp
               ltac:(subst t; rewrite Hn; reflexivity)).
    unfold birdsAt. rewrite lookup_fmap, Ha. reflexivity. }
  split; [apply Hrun; reflexivity|].
  intros Hem fo. cbv zeta. unfold switchToScene9Ambient.
  rewrite Hem, map_size_empty. simpl bool_decide. cbv iota.
  destruct (startBirds_spec w) as (Hn & Ht & H1 & H2). cbv zeta in Hn, Ht, H1, H2.
  split; [exact (Hrun _ Hn Ht _ _ H1)|exact (Hrun _ Hn Ht _ _ H2)].
Qed.

(** Scene 9 entered on a silent page, with a fade of 1500 ms: one step
    and a half in, and at the end. *)
Lemma birds_fade_in_witness :
  birdLayers (am (advance 45 (switchToScene9Ambient 1500 1500 silentPage))) !! "bird1"
  = Some (mkAudio 0 "assets/audio/Birdsong1.mp3" ((3 # 5) * (1 # 50)) true false false)
  /\ birdLayers (am (advance 1500 (switchToScene9Ambient 1500 1500 silentPage))) !! "bird2"
     = Some (mkAudio 1 "assets/audio/Birdsong2.mp3" (3 # 5) true false false).
Proof.
  assert (Hq : Forall (fun tm => birdQuiet (cb tm) = true) (timers silentPage)).
  { vm_compute. constructor. }
  pose proof (birds_fade_in silentPage 30 1 15 ltac:(lia) Hq ltac:(lia) ltac:(lia)
                ltac:(intros; lia)) as [_ H1].
  pose proof (birds_fade_in silentPage 30 50 0 ltac:(lia) Hq ltac:(lia) ltac:(lia)
                ltac:(intros; lia)) as [_ H2].
  split.
  - exact (proj1 (H1 eq_refl 1500)).
  - exact (proj2 (H2 eq_refl 1500)).
Defined.
